(* ===== verification/_CoqProject ===== *)
-Q . S2P
Prelude.v
GoStrings.v
MultiError.v
Group.v
Elf.v
Binfmt.v
Types.v
Engine.v
Builders.v
Docker.v
Static.v
Farm.v
Objects.v
FarmBuild.v
Lists.v
Paths.v
Commands.v
Trace.v
Simulate.v
System.v
