(* ===== verification/Prelude.v ===== *)
(** * buildfarm: a verification development

    buildfarm builds one container image for several platforms on several
    machines at once, and assembles the results into a manifest list.  A
    [Farm] is a set of builders; it learns which platforms each can build
    for ([Schedule]), runs the builds in parallel and hands the results to a
    list builder ([Build]).  This library models the Go code of the program
    as a shallow embedding and proves what makes it correct, and where it is
    not.

    ** Files

    Foundations:
    - Prelude.v: Go errors, panics, computations over a world, loops, and
      the order of map iterations ([RangeOracle]).
    - GoStrings.v, Paths.v: what the code uses of [strings], [bufio],
      [strconv], [encoding/hex], [sort] and [path/filepath].
    - MultiError.v, Group.v: go-multierror's [Append], [ErrorOrNil] and
      [Group], with the goroutines run in it as a step relation with an
      explicit scheduler.

    The program:
    - Elf.v, Binfmt.v: [src/emulation/elf.go], [binfmtmisc_linux.go] and
      [emulation.go].
    - Types.v: [src/types.go], [src/copy.go], [src/podman.go]; the interface
      [ImageBuilder] as a class.
    - Engine.v, Builders.v, Objects.v: the podman builders of [src/local.go]
      and [src/remote.go], over what they use of podman (the classes
      [Podman] and [Host]); a builder is an object of a heap, and Objects.v
      makes them an implementation of [ImageBuilder] and of [FarmEnv].
    - Docker.v: [src/docker.go].
    - Farm.v, FarmBuild.v: [src/buildfarm.go] up to [Schedule], and
      [Farm.Build].
    - Lists.v: [src/files.go] and the list builder of [src/local.go], an
      implementation of the class [ListBuilders].
    - Commands.v: [src/cmd/buildfarm], the four commands, the hooks and
      [main].

    The whole:
    - Trace.v, Simulate.v: the interfaces over a world in which every call to
      a builder, and every call which makes, finds or changes the list, is
      recorded, and the proof that recording
      changes nothing.
    - System.v: the specification [build_protocol] of what a build amounts
      to, and its stages [build_stages] however it ends, and that the build
      command follows them.
    - Static.v: a concrete implementation of the interfaces, for witnesses.

    ** How the code is embedded

    A function which can only fail returns a sum or an [outcome]; one which
    acts on the outside is a [Go W A], a function of the world which returns
    or panics.  The [error] interface is [option error], and an error keeps
    its format and what it wraps.  Where Go ranges over a map the order
    comes from an oracle, and the theorems hold for each.  A panic which is
    raised runs the deferred calls of its goroutine ([defer] of Engine.v);
    one which ends a goroutine of a group kills the process, and runs none
    of those of the goroutine which waits.

    Goroutines: each one of the program makes calls without a lock, may
    return early with an error, and otherwise enters one critical section.
    [Group.gstep] lets one of them take one step; a list of indices is an
    interleaving, and [Group.Wait] plays it and then lets the rest finish
    (the passes it adds are bounded by [gsize], the number of steps left, and
    [drain_final] shows that this is enough).  A call to a builder is one
    step of the world.  [Wait_linearizes] reduces every interleaving to the
    calls in some order and whole critical sections in some order, and the
    theorems on farms are proved from it through [run_group_early].

    The farm is a client of the class [ImageBuilder] and of [FarmEnv] (the
    configuration and the constructors of builders), [Farm.Build] one of
    [ListBuilders], the list builders of [ListHost], the commands of
    [CommandHost]: their theorems hold for every implementation, and say
    which calls are made and what becomes of the answers.  [answered] and
    [call_all] say that every builder was asked once, in some order.

    State: a podman builder is a pointer to an object, with what never
    changes kept next to the pointer; the objects and the outside are the
    [heap], and [step] of Objects.v is every way in which it can change: a
    call of a method of some builder, a construction, or anything outside.
    The variables of package main are the record [globals], and a command
    acts on them and on the outside.

    Integers: the offset of a binfmt_misc entry is parsed at its width of 8
    bits; bytes are integers below 256, cut with [Z.land].

    ** What is shown

    - The whole: a build which succeeds has made exactly the calls of the
      abstract protocol; and however a build ends, its calls come in stages,
      so that what a list consists of changes only when for every platform of
      the schedule its builder has returned a report (for another of its
      platforms, if it is shared), all images have been pulled and the
      removals asked for are made.  The directory is made, and a list which is
      not found is created empty, before the pulls; a build which fails then
      leaves it.
    - Emulation: headers are generated without writing out of bounds and
      have the layout stated, all 40 bytes of it; the table is complete, and
      an emulator registered for a whole header of a platform is reported for
      that platform alone; [magicMatch] refines the kernel's
      comparison; parsing is total, inverts the kernel's printing, and ranges
      are respected; [Registered] is described on every directory, its
      errors included.
    - Groups: linearization, progress, termination.
    - Farms: which builders are made; every operation visits every builder;
      the answers are collected exactly; a schedule is valid, prefers native
      builders, and fails only when it must.
    - Builds: every platform is built once when no builder is shared, and
      when one is it is asked several times for one of its platforms; errors stop the assembly; bad requests are
      refused before anything is touched; output is copied line by line, with
      its prefix, but for an unterminated last line.
    - Builders: what one has answered about its platforms it answers for
      good, so that scheduling again succeeds and asks nobody; the
      translation of options can be read back field by field, but the
      platforms asked for are ignored; no temporary file is left; the docker
      builder never succeeds, and panics where docker has built the image.
    - List builders: their phases, in order, with all errors of a phase; a
      file of its own for every image; a list holds exactly what was added; no temporary directory is left.
    - Commands: what success means for the build command, which farm a
      command gets, what is printed, how build arguments accumulate, and
      which flags have no effect.

    ** What is not modelled

    Logging; contexts and their cancellation; when the goroutines which copy
    output run relative to the end of [Build] (only what they write); the
    Go memory model: each step of a goroutine is atomic, and shared
    variables are only accessed in critical sections, as in the code, with
    one exception, the formats of [src/files.go], which several goroutines
    set to the same values without a lock ([list_formats]).  A method of a
    builder is one step, [sync.Once] included, so that two calls to the same
    builder do not interleave.  In [src/files.go] the goroutines are started
    in the loop which creates their files; here the files are created
    first.

    The parsing of the command line: the values of flags are part of the
    start state, and [main] begins after it.  The re-execution in a user
    namespace before [main].  The stubs for other systems
    ([binfmtmisc_other.go], [store_unsupported.go]), which only return nil.
    [libimage.NormalizePlatform], podman, docker, containers/image,
    containers/storage and the configuration are parameters. *)

From stdpp Require Export base gmap strings list sorting relations pretty.
From Stdlib Require Export Lia ZArith Ascii.

(** ** Go errors

    A Go value of type [error] is an [option error]: [None] is nil.  The
    constructors are the ways the program makes or receives errors;
    [Errorf] keeps the format string of the source, the formatted
    arguments, and the error wrapped by [%w] if there is one. *)
Inductive fmt_arg :=
  | FStr (s : string)
  | FInt (z : Z)
  | FList (l : list string).

Inductive error :=
  | ErrNew (msg : string)
  | SysErr (not_exist : bool) (msg : string)
  | ExitErr (wait_status : option Z)
  | Errorf (format : string) (args : list fmt_arg) (wrapped : option error)
  | Multi (errs : list error).

(** ** Go computations

    [outcome] separates a function that returns from one that panics.  A
    panic unwinds the stack of its own goroutine, running the deferred calls;
    when it reaches the bottom it ends the process, and for any other
    goroutine, which was waiting, that is the end: [Killed].
    [Go W A] is a computation over a world [W] which returns an [A]. *)
Inductive panic :=
  | Raised (msg : string)
  | Killed (msg : string).
Coercion Raised : string >-> panic.

Definition panic_message (p : panic) : string :=
  match p with Raised msg | Killed msg => msg end.

Inductive outcome (A : Type) :=
  | Ret (a : A)
  | Panic (msg : panic).
Arguments Ret {A} a.
Arguments Panic {A} msg.

Definition killed {A} (o : outcome A) : bool :=
  match o with Panic (Killed _) => true | _ => false end.

#[export] Instance outcome_ret : MRet outcome := λ A a, Ret a.
#[export] Instance outcome_bind : MBind outcome := λ A B f m,
  match m with Ret a => f a | Panic msg => Panic msg end.

Definition Go (W A : Type) : Type := W → outcome A * W.

#[export] Instance go_ret W : MRet (Go W) := λ A a w, (Ret a, w).
#[export] Instance go_bind W : MBind (Go W) := λ A B f m w,
  match m w with
  | (Ret a, w') => f a w'
  | (Panic msg, w') => (Panic msg, w')
  end.

Definition go_panic {W A} (msg : panic) : Go W A := λ w, (Panic msg, w).
Definition go_get {W} : Go W W := λ w, (Ret w, w).
Definition go_modify {W} (f : W → W) : Go W () := λ w, (Ret tt, f w).
Definition go_lift {W A} (o : outcome A) : Go W A := λ w, (o, w).

Lemma go_bind_ret {W A B} (m : Go W A) (f : A → Go W B) w a w' :
  m w = (Ret a, w') → (m ≫= f) w = f a w'.
Proof. intros Hm. unfold mbind, go_bind. by rewrite Hm. Qed.

Lemma go_bind_panic {W A B} (m : Go W A) (f : A → Go W B) w msg w' :
  m w = (Panic msg, w') → (m ≫= f) w = (Panic msg, w').
Proof. intros Hm. unfold mbind, go_bind. by rewrite Hm. Qed.

(** [errors.Is(err, os.ErrNotExist)], through [%w] and through
    aggregated errors. *)
Fixpoint is_not_exist (e : error) : bool :=
  match e with
  | SysErr b _ => b
  | Errorf _ _ (Some e) => is_not_exist e
  | Multi es => existsb is_not_exist es
  | _ => false
  end.

(** ** Ranging over a map

    Go leaves the iteration order of a map open, and it may differ from one
    loop to the next.  A model which ranges over a map takes its order from
    this oracle, at a site of its own; the properties hold for every
    oracle. *)
Class RangeOracle := {
  range {A : Type} : string → list A → list A;
  range_perm {A : Type} (site : string) (l : list A) : range site l ≡ₚ l
}.

(** The oracle which keeps the order of the representation. *)
Definition range_id : RangeOracle :=
  {| range A _ l := l; range_perm A _ l := Permutation_refl l |}.

Definition range_map `{RangeOracle} {V} (site : string) (m : gmap string V)
    : list (string * V) := range site (map_to_list m).

Lemma elem_of_range_map `{RangeOracle} {V} site (m : gmap string V) k v :
  (k, v) ∈ range_map site m ↔ m !! k = Some v.
Proof. unfold range_map. by rewrite range_perm, elem_of_map_to_list. Qed.

Lemma NoDup_range_map `{RangeOracle} {V} site (m : gmap string V) :
  NoDup (range_map site m).*1.
Proof. unfold range_map. rewrite range_perm. apply NoDup_fst_map_to_list. Qed.

(** ** Loops

    A [for ... range] loop over the values of [l]: the body either goes on
    with a new state or returns from the enclosing function. *)
Inductive flow (S R : Type) :=
  | Continue (s : S)
  | Return_ (r : R).
Arguments Continue {S R} s.
Arguments Return_ {S R} r.

Fixpoint for_range {A S R} (f : A → S → outcome (flow S R)) (l : list A) (s : S)
    : outcome (flow S R) :=
  match l with
  | [] => Ret (Continue s)
  | x :: l =>
      match f x s with
      | Ret (Continue s) => for_range f l s
      | r => r
      end
  end.

(** A loop whose body has no [return]. *)
Definition for_each {A S} (f : A → S → outcome S) (l : list A) (s : S) : outcome S :=
  foldl (λ acc x, s ← acc; f x s) (Ret s) l.

Lemma for_each_cons {A S} (f : A → S → outcome S) x l s :
  for_each f (x :: l) s = s' ← f x s; for_each f l s'.
Proof.
  unfold for_each. simpl. destruct (f x s) as [s'|m]; simpl; [done|].
  induction l as [|y l IH]; simpl; [done|]. apply IH.
Qed.

Lemma for_each_fold {A S} (f : A → S → outcome S) (g : S → A → S) l s :
  (∀ x s, x ∈ l → f x s = Ret (g s x)) → for_each f l s = Ret (foldl g s l).
Proof.
  revert s. induction l as [|x l IH]; intros s Hf; [done|].
  rewrite for_each_cons, Hf by set_solver. apply IH. set_solver.
Qed.

Lemma for_range_app {A S R} (f : A → S → outcome (flow S R)) l1 l2 s :
  for_range f (l1 ++ l2) s =
  match for_range f l1 s with
  | Ret (Continue s') => for_range f l2 s'
  | r => r
  end.
Proof.
  revert s. induction l1 as [|x l1 IH]; intros s; simpl; [done|].
  by destruct (f x s) as [[s'|r]|m].
Qed.

Lemma for_range_continue {A S R} (f : A → S → outcome (flow S R)) x l s s' :
  f x s = Ret (Continue s') → for_range f (x :: l) s = for_range f l s'.
Proof. intros Hf. simpl. by rewrite Hf. Qed.

Lemma for_range_return {A S R} (f : A → S → outcome (flow S R)) x l s r :
  f x s = Ret (Return_ r) → for_range f (x :: l) s = Ret (Return_ r).
Proof. intros Hf. simpl. by rewrite Hf. Qed.

(** Loop invariants: [P] of the state, [Q] of what the body returns. *)
Lemma for_range_inv {A S R} (P : S → Prop) (Q : R → Prop)
    (f : A → S → outcome (flow S R)) l s :
  (∀ x s, x ∈ l → P s →
    ∃ r, f x s = Ret r ∧ match r with Continue s' => P s' | Return_ r => Q r end) →
  P s →
  ∃ r, for_range f l s = Ret r ∧ match r with Continue s' => P s' | Return_ r => Q r end.
Proof.
  revert s. induction l as [|x l IH]; intros s Hf Hs; simpl; [eauto|].
  destruct (Hf x s) as ([s'|r] & -> & Hr); [set_solver|done| |eauto].
  apply IH; [|done]. set_solver.
Qed.

(** A loop whose body always goes on is a fold. *)
Lemma for_range_fold {A S R} (f : A → S → outcome (flow S R)) (g : S → A → S) l s :
  (∀ x s, x ∈ l → f x s = Ret (Continue (g s x))) →
  for_range f l s = Ret (Continue (foldl g s l)).
Proof.
  revert s. induction l as [|x l IH]; intros s Hf; simpl; [done|].
  rewrite Hf by set_solver. apply IH. set_solver.
Qed.

(** ** Automation

    [bytes] holds the lemmas which show that generated bytes are bytes. *)
Create HintDb bytes.

(** ** Lists *)

(** An in-range update, as a split of the list around the index. *)
Lemma list_set_split {A} (l : list A) i x :
  l !! i = Some x → ∃ l1 l2, l = l1 ++ x :: l2 ∧ ∀ y, <[i := y]> l = l1 ++ y :: l2.
Proof.
  intros Hi. exists (take i l), (drop (S i) l). split.
  - by rewrite take_drop_middle.
  - intros y. apply insert_take_drop. by eapply lookup_lt_Some.
Qed.

Lemma foldl_app_bind {A B} (f : A → list B) l acc :
  foldl (λ acc x, acc ++ f x) acc l = acc ++ (l ≫= f).
Proof.
  revert acc. induction l as [|x l IH]; intros acc; csimpl; [by rewrite app_nil_r|].
  by rewrite IH, <-(assoc_L (++)).
Qed.

Lemma length_bind_const {A B} (f : A → list B) n l :
  (∀ x, length (f x) = n) → length (l ≫= f) = length l * n.
Proof.
  intros Hf. induction l as [|x l IH]; [done|]. csimpl. by rewrite length_app, Hf, IH.
Qed.

(** [≡ₚ] goals made of [++] and [::] on both sides. *)
Ltac solve_perm :=
  cbn [app]; rewrite ?app_nil_r;
  repeat match goal with
  | |- context [?x :: ?l] =>
      lazymatch l with
      | @nil _ => fail
      | _ => change (x :: l) with ([x] ++ l)
      end
  end;
  solve_Permutation.
