(* ===== verification/GoStrings.v ===== *)
(** * Go's strings and bytes

    Executable models of the standard-library functions on strings and
    bytes which the program calls: [strings.Split], [strings.SplitN],
    [strings.Fields], [strings.TrimSpace], [strings.Contains],
    [strings.TrimPrefix], [strings.TrimSuffix], [sort.Strings], [strconv.ParseInt],
    [hex.DecodeString] and the line splitting of [bufio.Scanner] and
    [bufio.Reader.ReadString].  A Go string is a [string] of bytes; a
    [[]byte] is a [list Z] of values below 256. *)

From S2P Require Import Prelude.

Abbreviation str_app := String.append (only parsing).

(** [s] between quotation marks. *)
Definition quoted (s : string) : string :=
  String "034" (str_app s (String "034" EmptyString)).

(** ** Cutting strings at a separator of one byte *)

Fixpoint cut (sep : ascii) (s : string) : option (string * string) :=
  match s with
  | EmptyString => None
  | String c s =>
      if Ascii.eqb c sep then Some (EmptyString, s)
      else match cut sep s with
           | Some (a, b) => Some (String c a, b)
           | None => None
           end
  end.

(** At most [cuts] cuts. *)
Fixpoint split_cuts (cuts : nat) (sep : ascii) (s : string) : list string :=
  match cuts with
  | O => [s]
  | S cuts =>
      match cut sep s with
      | None => [s]
      | Some (a, b) => a :: split_cuts cuts sep b
      end
  end.

Definition Split (s : string) (sep : ascii) : list string :=
  split_cuts (String.length s) sep s.

(** [strings.SplitN] with [n > 0], or [nil] for [n = 0]. *)
Definition SplitN (s : string) (sep : ascii) (n : nat) : list string :=
  match n with O => [] | S cuts => split_cuts cuts sep s end.

Fixpoint Join (sep : ascii) (l : list string) : string :=
  match l with
  | [] => EmptyString
  | [s] => s
  | s :: l => str_app s (String sep (Join sep l))
  end.

Fixpoint contains_byte (c : ascii) (s : string) : bool :=
  match s with
  | EmptyString => false
  | String c' s => Ascii.eqb c' c || contains_byte c s
  end.

Definition HasPrefix (s prefix : string) : bool := String.prefix prefix s.

Fixpoint str_drop (n : nat) (s : string) : string :=
  match n, s with
  | S n, String _ s => str_drop n s
  | _, _ => s
  end.

Fixpoint str_take (n : nat) (s : string) : string :=
  match n, s with
  | S n, String c s => String c (str_take n s)
  | _, _ => EmptyString
  end.

Definition TrimPrefix (s prefix : string) : string :=
  if HasPrefix s prefix then str_drop (String.length prefix) s else s.

(** ** White space

    [unicode.IsSpace] on the UTF-8 bytes of a string: the number of bytes
    of the white-space rune at the front, 0 when there is none.  The first
    bytes of the multi-byte patterns never occur inside another rune, so
    that matching bytes agrees with decoding runes, in valid and in invalid
    UTF-8 alike. *)
Definition byte_of (c : ascii) : N := N_of_ascii c.

Definition ascii_space (b : N) : bool := ((9 <=? b) && (b <=? 13) || (b =? 32))%N.

Definition space_width (s : string) : nat :=
  match s with
  | EmptyString => 0
  | String c1 s1 =>
      let b1 := byte_of c1 in
      if ascii_space b1 then 1
      else match s1 with
           | EmptyString => 0
           | String c2 s2 =>
               let b2 := byte_of c2 in
               if ((b1 =? 0xC2) && ((b2 =? 0x85) || (b2 =? 0xA0)))%N then 2
               else match s2 with
                    | EmptyString => 0
                    | String c3 _ =>
                        let b3 := byte_of c3 in
                        if ((b1 =? 0xE1) && (b2 =? 0x9A) && (b3 =? 0x80)
                            || (b1 =? 0xE2) && (b2 =? 0x80) &&
                               ((0x80 <=? b3) && (b3 <=? 0x8A) || (b3 =? 0xA8) ||
                                (b3 =? 0xA9) || (b3 =? 0xAF))
                            || (b1 =? 0xE2) && (b2 =? 0x81) && (b3 =? 0x9F)
                            || (b1 =? 0xE3) && (b2 =? 0x80) && (b3 =? 0x80))%N
                        then 3 else 0
                    end
           end
  end.

Inductive token :=
  | Char (c : ascii)
  | Space (s : string).

#[export] Instance token_eq_dec : EqDecision token.
Proof. solve_decision. Defined.

(** The string as a sequence of white-space runes and other bytes;
    [skip] counts the bytes which still belong to the last rune. *)
Fixpoint tokens (skip : nat) (s : string) : list token :=
  match s with
  | EmptyString => []
  | String c s' =>
      match skip with
      | S k => tokens k s'
      | O =>
          match space_width s with
          | O => Char c :: tokens 0 s'
          | S k => Space (str_take (S k) s) :: tokens k s'
          end
      end
  end.

Definition token_string (t : token) : string :=
  match t with Char c => String c EmptyString | Space s => s end.

Definition untoken (ts : list token) : string :=
  foldr (λ t s, str_app (token_string t) s) EmptyString ts.

Definition is_space (t : token) : bool :=
  match t with Space _ => true | Char _ => false end.

Fixpoint drop_spaces (ts : list token) : list token :=
  match ts with
  | Space _ :: ts => drop_spaces ts
  | _ => ts
  end.

Definition TrimSpace (s : string) : string :=
  untoken (reverse (drop_spaces (reverse (drop_spaces (tokens 0 s))))).

(** The maximal runs of non-space bytes; [cur] is the run being read. *)
Fixpoint fields_go (cur : string) (ts : list token) : list string :=
  match ts with
  | [] => if decide (cur = EmptyString) then [] else [cur]
  | Char c :: ts => fields_go (str_app cur (String c EmptyString)) ts
  | Space _ :: ts =>
      (if decide (cur = EmptyString) then [] else [cur]) ++ fields_go EmptyString ts
  end.

Definition Fields (s : string) : list string := fields_go EmptyString (tokens 0 s).

(** ** Lines *)

Definition newline : ascii := "010".
Definition carriage_return : ascii := "013".
Definition MaxScanTokenSize : Z := 65536.

(** The text up to the last newline as lines, and what follows it. *)
Fixpoint cut_lines (s : string) : list string * string :=
  match s with
  | EmptyString => ([], EmptyString)
  | String c s =>
      let '(ls, rest) := cut_lines s in
      if Ascii.eqb c newline then (EmptyString :: ls, rest)
      else match ls with
           | [] => ([], String c rest)
           | l :: ls => (String c l :: ls, rest)
           end
  end.

Fixpoint dropCR (s : string) : string :=
  match s with
  | EmptyString => EmptyString
  | String c EmptyString => if Ascii.eqb c carriage_return then EmptyString else s
  | String c s => String c (dropCR s)
  end.

(** The lines for which [Scan] returns true: the scanner gives up, without
    an error the program looks at, before the first line which does not fit
    its buffer. *)
Fixpoint until_too_long (ls : list string) : list string :=
  match ls with
  | [] => []
  | l :: ls =>
      if (Z.of_nat (String.length l) <? MaxScanTokenSize)%Z then l :: until_too_long ls else []
  end.

Definition scan_lines (s : string) : list string :=
  let '(ls, rest) := cut_lines s in
  dropCR <$> until_too_long (ls ++ if decide (rest = EmptyString) then [] else [rest]).

(** [bufio.Reader.ReadString], of what is left to read: the text up to and
    with the delimiter, and what is left then; without one all of it, and
    [None] for [io.EOF]. *)
Fixpoint ReadString (delim : ascii) (s : string) : string * option string :=
  match s with
  | EmptyString => (EmptyString, None)
  | String c s =>
      if Ascii.eqb c delim then (String c EmptyString, Some s)
      else let '(text, rest) := ReadString delim s in (String c text, rest)
  end.

Definition HasSuffix (s suffix : string) : bool :=
  (String.length suffix <=? String.length s)%nat &&
  String.eqb (str_drop (String.length s - String.length suffix) s) suffix.

Definition TrimSuffix (s suffix : string) : string :=
  if HasSuffix s suffix then str_take (String.length s - String.length suffix) s else s.

(** ** Numbers *)

Definition digit_value (c : ascii) : option Z :=
  let b := Z.of_N (byte_of c) in
  if ((48 <=? b) && (b <=? 57))%Z then Some (b - 48)%Z else None.

Fixpoint digits_value (acc : Z) (s : string) : option Z :=
  match s with
  | EmptyString => Some acc
  | String c s => d ← digit_value c; digits_value (10 * acc + d)%Z s
  end.

(** [strconv.ParseInt(s, 10, bits)]; [None] for a syntax or range error. *)
Definition ParseInt (s : string) (bits : Z) : option Z :=
  let '(neg, digits) :=
    match s with
    | String c s' =>
        if Ascii.eqb c "-" then (true, s')
        else if Ascii.eqb c "+" then (false, s') else (false, s)
    | EmptyString => (false, s)
    end in
  match digits with
  | EmptyString => None
  | _ =>
      n ← digits_value 0 digits;
      let cutoff := (2 ^ (bits - 1))%Z in
      if neg then (if (n <=? cutoff)%Z then Some (- n)%Z else None)
      else (if (n <? cutoff)%Z then Some n else None)
  end.

Definition hex_value (c : ascii) : option Z :=
  let b := Z.of_N (byte_of c) in
  if ((48 <=? b) && (b <=? 57))%Z then Some (b - 48)%Z
  else if ((97 <=? b) && (b <=? 102))%Z then Some (b - 87)%Z
  else if ((65 <=? b) && (b <=? 70))%Z then Some (b - 55)%Z
  else None.

(** [hex.DecodeString]. *)
Fixpoint DecodeString (s : string) : option (list Z) :=
  match s with
  | EmptyString => Some []
  | String _ EmptyString => None
  | String c1 (String c2 s) =>
      h ← hex_value c1; l ← hex_value c2; bs ← DecodeString s;
      Some ((16 * h + l)%Z :: bs)
  end.

(** [hex.EncodeToString], the inverse the decoder is checked against. *)
Definition hex_digit (z : Z) : ascii :=
  ascii_of_N (Z.to_N (if (z <? 10)%Z then z + 48 else z + 87)%Z).

Fixpoint EncodeToString (bs : list Z) : string :=
  match bs with
  | [] => EmptyString
  | b :: bs => String (hex_digit (b / 16)%Z) (String (hex_digit (b mod 16)%Z) (EncodeToString bs))
  end.

(** ** Sorting *)

Definition sort_Strings (l : list string) : list string := merge_sort String.le l.

(** ** Laws *)

Lemma string_app_nil_l s : str_app EmptyString s = s.
Proof. done. Qed.

Lemma string_app_cons c s1 s2 : str_app (String c s1) s2 = String c (str_app s1 s2).
Proof. done. Qed.

Lemma string_app_nil_r s : str_app s EmptyString = s.
Proof. induction s as [|c s IH]; [done|]. by rewrite string_app_cons, IH. Qed.

Lemma string_app_assoc s1 s2 s3 : str_app s1 (str_app s2 s3) = str_app (str_app s1 s2) s3.
Proof. induction s1 as [|c s1 IH]; [done|]. by rewrite !string_app_cons, IH. Qed.

Lemma string_length_app s1 s2 :
  String.length (str_app s1 s2) = String.length s1 + String.length s2.
Proof. induction s1 as [|c s1 IH]; [done|]. rewrite string_app_cons. simpl. by rewrite IH. Qed.

Lemma contains_byte_app c s1 s2 :
  contains_byte c (str_app s1 s2) = contains_byte c s1 || contains_byte c s2.
Proof.
  induction s1 as [|c' s1 IH]; [done|]. rewrite string_app_cons. simpl.
  by rewrite IH, orb_assoc.
Qed.

Lemma cut_Some sep s a b :
  cut sep s = Some (a, b) →
  s = str_app a (String sep b) ∧ contains_byte sep a = false ∧
  String.length b < String.length s.
Proof.
  revert a b. induction s as [|c s IH]; intros a b Hc; simplify_eq/=.
  destruct (Ascii.eqb_spec c sep) as [->|Hne]; simplify_eq.
  - simpl. split_and!; [done..|lia].
  - destruct (cut sep s) as [[a' b']|]; simplify_eq.
    destruct (IH a' b eq_refl) as (-> & Ha & Hlen). rewrite string_app_cons.
    split_and!; [done| |simpl in *; lia]. simpl.
    destruct (Ascii.eqb_spec c sep); [done|]. by rewrite Ha.
Qed.

Lemma cut_None sep s : cut sep s = None ↔ contains_byte sep s = false.
Proof.
  induction s as [|c s IH]; simpl; [done|].
  destruct (Ascii.eqb c sep); simpl; [done|].
  rewrite <-IH. destruct (cut sep s) as [[??]|]; naive_solver.
Qed.

Lemma cut_app sep a b :
  contains_byte sep a = false → cut sep (str_app a (String sep b)) = Some (a, b).
Proof.
  induction a as [|c a IH]; intros Ha.
  - simpl. by rewrite Ascii.eqb_refl.
  - rewrite string_app_cons. simpl in *. apply orb_false_iff in Ha as [-> Ha].
    by rewrite IH.
Qed.

Lemma Join_cons sep x l : l ≠ [] → Join sep (x :: l) = str_app x (String sep (Join sep l)).
Proof. by destruct l. Qed.

Lemma split_cuts_ne n sep s : split_cuts n sep s ≠ [].
Proof. destruct n; simpl; [done|]. by destruct (cut sep s) as [[??]|]. Qed.

(** Joining the parts gives the string back. *)
Lemma Join_split_cuts n sep s : Join sep (split_cuts n sep s) = s.
Proof.
  revert s. induction n as [|n IH]; intros s; simpl split_cuts; [done|].
  destruct (cut sep s) as [[a b]|] eqn:Hc; [|done].
  apply cut_Some in Hc as (-> & _ & _). by rewrite Join_cons, IH by apply split_cuts_ne.
Qed.

Lemma length_split_cuts n sep s : 1 ≤ length (split_cuts n sep s) ≤ S n.
Proof.
  revert s. induction n as [|n IH]; intros s; simpl; [lia|].
  destruct (cut sep s) as [[a b]|]; simpl; [|lia]. specialize (IH b). lia.
Qed.

Lemma split_cuts_no_sep n sep s x :
  String.length s ≤ n → x ∈ split_cuts n sep s → contains_byte sep x = false.
Proof.
  revert s. induction n as [|n IH]; intros s Hn; simpl.
  - intros ->%list_elem_of_singleton. by destruct s; simpl in *; [|lia].
  - destruct (cut sep s) as [[a b]|] eqn:Hc.
    + apply cut_Some in Hc as (_ & Ha & Hlen).
      intros [->|Hx]%elem_of_cons; [done|]. apply (IH b); [lia|done].
    + intros ->%list_elem_of_singleton. by apply cut_None.
Qed.

Lemma split_cuts_app n sep a b :
  contains_byte sep a = false →
  split_cuts (S n) sep (str_app a (String sep b)) = a :: split_cuts n sep b.
Proof. intros Ha. simpl. by rewrite cut_app. Qed.

Lemma split_cuts_none n sep s : contains_byte sep s = false → split_cuts n sep s = [s].
Proof. intros Hs. destruct n; simpl; [done|]. by apply cut_None in Hs as ->. Qed.

(** Splitting undoes joining. *)
Lemma split_cuts_Join n sep l :
  l ≠ [] → length l ≤ S n → Forall (λ x, contains_byte sep x = false) l →
  split_cuts n sep (Join sep l) = l.
Proof.
  intros Hne. revert n. induction l as [|x [|y l] IH]; intros n Hlen Hall; [done|..].
  - apply Forall_cons in Hall as [Hx _]. destruct n; simpl; [done|].
    by apply cut_None in Hx as ->.
  - apply Forall_cons in Hall as [Hx Hall]. destruct n; simpl in Hlen; [lia|].
    rewrite Join_cons by done. simpl split_cuts. rewrite cut_app by done. f_equal. apply IH; [done|simpl; lia|done].
Qed.

Lemma length_Join sep l : length l ≤ S (String.length (Join sep l)).
Proof.
  induction l as [|x [|y l] IH]; [simpl; lia..|].
  rewrite Join_cons, string_length_app by done. simpl in *. lia.
Qed.

Lemma Split_Join sep l :
  l ≠ [] → Forall (λ x, contains_byte sep x = false) l → Split (Join sep l) sep = l.
Proof. intros. apply split_cuts_Join; [done|apply length_Join|done]. Qed.

Lemma digits_value_nonneg s acc n :
  (0 ≤ acc)%Z → digits_value acc s = Some n → (0 ≤ n)%Z.
Proof.
  revert acc. induction s as [|c s IH]; intros acc Hacc Hd; simplify_eq/=; [done|].
  unfold digit_value in Hd.
  destruct ((48 <=? Z.of_N (byte_of c)) && (Z.of_N (byte_of c) <=? 57))%Z eqn:Hb;
    simplify_eq/=. eapply IH in Hd; [done|]. apply andb_prop in Hb as [?%Z.leb_le _]. lia.
Qed.

(** The value of [ParseInt] fits the requested width. *)
Lemma ParseInt_range s bits z :
  (0 < bits)%Z → ParseInt s bits = Some z → (- 2 ^ (bits - 1) ≤ z < 2 ^ (bits - 1))%Z.
Proof.
  unfold ParseInt. intros Hbits Hp.
  pose proof (Z.pow_pos_nonneg 2 (bits - 1)) as Hpos.
  destruct (match s with EmptyString => _ | String _ _ => _ end) as [neg [|c d]]; [done|].
  apply bind_Some in Hp as (n & Hd & Hp). apply digits_value_nonneg in Hd; [|done].
  destruct neg.
  - destruct (Z.leb_spec n (2 ^ (bits - 1))); simplify_eq. lia.
  - destruct (Z.ltb_spec n (2 ^ (bits - 1))); simplify_eq. lia.
Qed.

Definition is_byte (b : Z) : Prop := (0 ≤ b < 256)%Z.

Lemma hex_value_range c z : hex_value c = Some z → (0 ≤ z < 16)%Z.
Proof.
  unfold hex_value. intros Hh. cbv zeta in Hh.
  repeat match type of Hh with
  | (if ?b then _ else _) = _ => destruct b eqn:Hb;
      [apply andb_prop in Hb as [?%Z.leb_le ?%Z.leb_le]; simplify_eq; lia|clear Hb]
  end. done.
Qed.

Lemma hex_value_digit z : (0 ≤ z < 16)%Z → hex_value (hex_digit z) = Some z.
Proof.
  intros Hz. assert (Forall (λ z, hex_value (hex_digit z) = Some z) (seqZ 0 16)) as Hall.
  { repeat constructor. }
  rewrite Forall_forall in Hall. apply Hall, elem_of_seqZ. lia.
Qed.

(** Induction two characters at a time. *)
Lemma string_pair_ind (P : string → Prop) :
  P EmptyString → (∀ c, P (String c EmptyString)) →
  (∀ c1 c2 s, P s → P (String c1 (String c2 s))) → ∀ s, P s.
Proof. intros H0 H1 H2. fix IH 1. intros [|c1 [|c2 s]]; [done|done|apply H2, IH]. Qed.

Lemma DecodeString_bytes s bs : DecodeString s = Some bs → Forall is_byte bs.
Proof.
  revert bs. induction s as [|c|c1 c2 s IH] using string_pair_ind; intros bs Hd;
    simplify_eq/=; [by constructor|].
  destruct (hex_value c1) as [h|] eqn:E1, (hex_value c2) as [l|] eqn:E2; simplify_eq/=.
  destruct (DecodeString s) as [bs'|]; simplify_eq/=.
  constructor; [|by apply IH].
  apply hex_value_range in E1, E2. unfold is_byte. lia.
Qed.

Lemma DecodeString_length s bs :
  DecodeString s = Some bs → String.length s = 2 * length bs.
Proof.
  revert bs. induction s as [|c|c1 c2 s IH] using string_pair_ind; intros bs Hd;
    simplify_eq/=; [done|].
  destruct (hex_value c1), (hex_value c2), (DecodeString s) as [bs'|]; simplify_eq/=.
  rewrite (IH bs') by done. lia.
Qed.

(** Decoding undoes encoding. *)
Lemma DecodeString_Encode bs :
  Forall is_byte bs → DecodeString (EncodeToString bs) = Some bs.
Proof.
  induction 1 as [|b bs Hb _ IH]; [done|]. simpl. unfold is_byte in Hb.
  rewrite (hex_value_digit (b / 16)) by (split; [apply Z.div_pos|apply Z.div_lt_upper_bound]; lia).
  rewrite (hex_value_digit (b mod 16)) by (apply Z.mod_pos_bound; lia).
  rewrite IH. simpl. do 2 f_equal. symmetry. apply Z_div_mod_eq_full.
Qed.

(** Sorting is determined by the multiset of strings. *)
Lemma sort_Strings_perm l : sort_Strings l ≡ₚ l.
Proof. apply merge_sort_Permutation. Qed.

Lemma sort_Strings_sorted l : StronglySorted String.le (sort_Strings l).
Proof. apply StronglySorted_merge_sort; apply _. Qed.

Lemma sort_Strings_proper l1 l2 : l1 ≡ₚ l2 → sort_Strings l1 = sort_Strings l2.
Proof.
  intros Hl. apply (StronglySorted_unique String.le); auto using sort_Strings_sorted.
  by rewrite !sort_Strings_perm.
Qed.

#[export] Instance sort_Strings_Proper : Proper ((≡ₚ) ==> (=)) sort_Strings.
Proof. intros l1 l2. apply sort_Strings_proper. Qed.

(** ** White space: laws *)

Lemma drop_spaces_Char c ts : Char c ∈ drop_spaces ts ↔ Char c ∈ ts.
Proof. induction ts as [|[c'|s] ts IH]; simpl; [done..|]. rewrite IH. set_solver. Qed.

Lemma drop_spaces_all ts : (∀ c, Char c ∉ ts) → drop_spaces ts = [].
Proof. induction ts as [|[c'|s] ts IH]; intros Hts; simpl; [done|set_solver|set_solver]. Qed.

Lemma untoken_Char c ts : Char c ∈ ts → untoken ts ≠ EmptyString.
Proof.
  induction ts as [|t ts IH]; intros Hc; [by apply not_elem_of_nil in Hc|].
  apply elem_of_cons in Hc as [<-|Hc]; simpl; [done|].
  destruct (token_string t); [by apply IH|done].
Qed.

Lemma fields_go_nil cur ts : fields_go cur ts = [] ↔ cur = EmptyString ∧ ∀ c, Char c ∉ ts.
Proof.
  revert cur. induction ts as [|[c|s] ts IH]; intros cur; simpl.
  - case_decide; set_solver.
  - rewrite IH. split; [|set_solver]. intros [Hcur _].
    destruct cur; rewrite ?string_app_nil_l, ?string_app_cons in Hcur; done.
  - destruct (decide (cur = EmptyString)) as [->|?]; simpl; [rewrite IH|]; set_solver.
Qed.

(** A string trims to nothing exactly when it has no fields. *)
Lemma TrimSpace_Fields s : TrimSpace s = EmptyString ↔ Fields s = [].
Proof.
  unfold TrimSpace, Fields. rewrite fields_go_nil. split.
  - intros Ht. split; [done|]. intros c Hc. revert Ht. apply (untoken_Char c).
    rewrite elem_of_reverse, drop_spaces_Char, elem_of_reverse. by apply drop_spaces_Char.
  - intros [_ Hc]. by rewrite (drop_spaces_all _ Hc).
Qed.

(** Printable ASCII without spaces. *)
Definition plain_byte (c : ascii) : bool := ((33 <=? byte_of c) && (byte_of c <=? 126))%N.

Fixpoint plain (s : string) : bool :=
  match s with
  | EmptyString => true
  | String c s => plain_byte c && plain s
  end.

Lemma plain_byte_width c s : plain_byte c = true → space_width (String c s) = 0.
Proof.
  intros [H1%N.leb_le H2%N.leb_le]%andb_prop. cbn [space_width]. cbv zeta.
  unfold ascii_space. generalize dependent (byte_of c). intros b H1 H2.
  rewrite (proj2 (N.leb_gt b 13)), andb_false_r by lia.
  rewrite (proj2 (N.eqb_neq b 32)) by lia. cbn [orb].
  destruct s as [|c2 s]; [done|]. rewrite (proj2 (N.eqb_neq b 194)) by lia. cbn [andb].
  destruct s as [|c3 s]; [done|].
  rewrite (proj2 (N.eqb_neq b 225)), (proj2 (N.eqb_neq b 226)) by lia.
  by rewrite (proj2 (N.eqb_neq b 227)) by lia.
Qed.

Fixpoint chars (s : string) : list token :=
  match s with EmptyString => [] | String c s => Char c :: chars s end.

Lemma tokens_plain w s : plain w = true → tokens 0 (str_app w s) = chars w ++ tokens 0 s.
Proof.
  induction w as [|c w IH]; [done|]. rewrite string_app_cons.
  intros [Hc Hw]%andb_prop. cbn [tokens chars app].
  by rewrite plain_byte_width, IH.
Qed.

Lemma tokens_space s : tokens 0 (String " " s) = Space " " :: tokens 0 s.
Proof. done. Qed.

Lemma fields_go_chars cur w ts :
  fields_go cur (chars w ++ ts) = fields_go (str_app cur w) ts.
Proof.
  revert cur. induction w as [|c w IH]; intros cur; simpl.
  - by rewrite string_app_nil_r.
  - by rewrite IH, <-string_app_assoc.
Qed.

(** The first word of a line, and a line of two words. *)
Lemma Fields_first w s :
  plain w = true → w ≠ EmptyString → Fields (str_app w (String " " s)) = w :: Fields s.
Proof.
  intros Hw Hne. unfold Fields. rewrite tokens_plain, tokens_space, fields_go_chars by done.
  rewrite string_app_nil_l. cbn [fields_go]. by rewrite decide_False.
Qed.

Lemma Fields_word w : plain w = true → w ≠ EmptyString → Fields w = [w].
Proof.
  intros Hw Hne. unfold Fields. rewrite <-(string_app_nil_r w) at 1.
  rewrite tokens_plain, fields_go_chars by done. simpl. by rewrite decide_False.
Qed.

Lemma Fields_two w v :
  plain w = true → w ≠ EmptyString → plain v = true → v ≠ EmptyString →
  Fields (str_app w (String " " v)) = [w; v].
Proof. intros. by rewrite Fields_first, Fields_word. Qed.

(** ** Lines: laws *)

Definition unlines (ls : list string) : string :=
  foldr (λ l s, str_app l (String newline s)) EmptyString ls.

Lemma cut_lines_app l s :
  contains_byte newline l = false →
  cut_lines (str_app l (String newline s)) = (l :: (cut_lines s).1, (cut_lines s).2).
Proof.
  induction l as [|c l IH]; intros Hl.
  - simpl. by destruct (cut_lines s).
  - rewrite string_app_cons. simpl in Hl |- *. apply orb_false_iff in Hl as [-> Hl].
    by rewrite IH.
Qed.

Lemma cut_lines_unlines ls :
  Forall (λ l, contains_byte newline l = false) ls → cut_lines (unlines ls) = (ls, EmptyString).
Proof. induction 1 as [|l ls Hl _ IH]; [done|]. simpl. by rewrite cut_lines_app, IH. Qed.

(** Reading lines loses nothing but an unterminated last line. *)
Lemma cut_lines_whole s : s = str_app (unlines (cut_lines s).1) (cut_lines s).2.
Proof.
  induction s as [|c s IH]; [done|]. simpl.
  destruct (cut_lines s) as [ls rest]; simpl in *.
  destruct (Ascii.eqb_spec c newline) as [->|Hne]; simpl.
  - by rewrite string_app_nil_l, string_app_cons, <-IH.
  - destruct ls as [|l ls]; simpl in *; [by rewrite IH|].
    by rewrite !string_app_cons, <-IH.
Qed.

Lemma cut_lines_no_newline s :
  Forall (λ l, contains_byte newline l = false) (cut_lines s).1 ∧
  contains_byte newline (cut_lines s).2 = false.
Proof.
  induction s as [|c s [IH1 IH2]]; [done|]. simpl.
  destruct (cut_lines s) as [ls rest]; simpl in *.
  destruct (Ascii.eqb c newline) eqn:Hc; simpl; [by split; [constructor|]|].
  destruct ls as [|l ls]; simpl; [by rewrite Hc|].
  inversion_clear IH1. split; [constructor; [|done]|done]. simpl. by rewrite Hc.
Qed.

(** *** [ReadString] and [TrimSuffix] *)

Lemma ReadString_line c l s :
  contains_byte c l = false →
  ReadString c (str_app l (String c s)) = (str_app l (String c EmptyString), Some s).
Proof.
  induction l as [|c' l IH]; intros Hl.
  - rewrite string_app_nil_l. simpl. by rewrite Ascii.eqb_refl.
  - rewrite !string_app_cons. simpl in Hl |- *. apply orb_false_iff in Hl as [-> Hl].
    by rewrite IH.
Qed.

Lemma ReadString_EOF c s : contains_byte c s = false → ReadString c s = (s, None).
Proof.
  induction s as [|c' s IH]; [done|]. simpl. intros [-> Hs]%orb_false_iff. by rewrite IH.
Qed.

Lemma str_drop_app s1 s2 : str_drop (String.length s1) (str_app s1 s2) = s2.
Proof. induction s1 as [|c s1 IH]; [done|]. rewrite string_app_cons. exact IH. Qed.

Lemma str_take_app s1 s2 : str_take (String.length s1) (str_app s1 s2) = s1.
Proof.
  induction s1 as [|c s1 IH]; [by destruct s2|]. rewrite string_app_cons. simpl. by rewrite IH.
Qed.

Lemma TrimSuffix_app s suffix : TrimSuffix (str_app s suffix) suffix = s.
Proof.
  unfold TrimSuffix, HasSuffix. rewrite string_length_app.
  replace (String.length s + String.length suffix - String.length suffix)%nat
    with (String.length s) by lia.
  rewrite str_drop_app, str_take_app, String.eqb_refl, andb_true_r.
  by rewrite (proj2 (Nat.leb_le _ _)) by lia.
Qed.

Definition short_line (l : string) : Prop :=
  contains_byte newline l = false ∧ contains_byte carriage_return l = false ∧
  (Z.of_nat (String.length l) < MaxScanTokenSize)%Z.

Lemma dropCR_id l : contains_byte carriage_return l = false → dropCR l = l.
Proof.
  induction l as [|c l IH]; [done|]. intros [Hc Hl]%orb_false_iff.
  destruct l as [|c' l]; simpl in *; [by rewrite Hc|]. by rewrite IH.
Qed.

Lemma scan_lines_unlines ls : Forall short_line ls → scan_lines (unlines ls) = ls.
Proof.
  intros Hls. unfold scan_lines. rewrite cut_lines_unlines.
  2:{ by eapply Forall_impl; [exact Hls|intros l (? & _ & _)]. }
  rewrite app_nil_r. induction Hls as [|l ls (_ & Hcr & Hlen) _ IH]; [done|]. simpl.
  apply Z.ltb_lt in Hlen. rewrite Hlen. csimpl. by rewrite dropCR_id, IH.
Qed.

Lemma plain_no_control c s :
  (byte_of c < 33)%N → plain s = true → contains_byte c s = false.
Proof.
  intros Hc. induction s as [|c' s IH]; [done|]. intros [Hc' Hs]%andb_prop. simpl.
  rewrite IH, orb_false_r by done. apply Ascii.eqb_neq. intros ->.
  apply andb_prop in Hc' as [?%N.leb_le _]. lia.
Qed.

Lemma hex_digit_plain z : (0 ≤ z < 16)%Z → plain_byte (hex_digit z) = true.
Proof.
  intros Hz. assert (Forall (λ z, plain_byte (hex_digit z) = true) (seqZ 0 16)) as Hall.
  { repeat constructor. }
  rewrite Forall_forall in Hall. apply Hall, elem_of_seqZ. lia.
Qed.

Lemma EncodeToString_plain bs : Forall is_byte bs → plain (EncodeToString bs) = true.
Proof.
  induction 1 as [|b bs Hb _ IH]; [done|]. simpl. unfold is_byte in Hb.
  rewrite !hex_digit_plain, IH; [done| |].
  - apply Z.mod_pos_bound. lia.
  - split; [apply Z.div_pos|apply Z.div_lt_upper_bound]; lia.
Qed.

Lemma EncodeToString_length bs : String.length (EncodeToString bs) = 2 * length bs.
Proof. induction bs as [|b bs IH]; [done|]. simpl. rewrite IH. lia. Qed.

Lemma EncodeToString_ne bs : bs ≠ [] → EncodeToString bs ≠ EmptyString.
Proof. by destruct bs. Qed.

(** The decimal numbers an 8-bit field can hold are read back. *)
Lemma ParseInt_pretty z :
  (0 ≤ z < 128)%Z →
  ParseInt (pretty z) 8 = Some z ∧ plain (pretty z) = true ∧
  pretty z ≠ EmptyString ∧ String.length (pretty z) < 4.
Proof.
  intros Hz.
  assert (Forall (λ z, ParseInt (pretty z) 8 = Some z ∧ plain (pretty z) = true ∧
    pretty z ≠ EmptyString ∧ String.length (pretty z) < 4) (seqZ 0 128)) as Hall.
  { apply (bool_decide_unpack _). vm_compute. exact I. }
  rewrite Forall_forall in Hall. apply Hall, elem_of_seqZ. lia.
Qed.

Lemma short_line_field field value :
  plain field = true → contains_byte newline value = false →
  contains_byte carriage_return value = false →
  (Z.of_nat (String.length field + String.length value) < MaxScanTokenSize - 1)%Z →
  short_line (str_app field (String " " value)).
Proof.
  intros Hf Hn Hc Hlen. unfold short_line.
  rewrite !contains_byte_app, string_length_app. cbn [contains_byte String.length].
  rewrite !(plain_no_control _ field), Hn, Hc by done.
  split_and!; [done..|lia].
Qed.
