(* ===== verification/MultiError.v ===== *)
(** * Aggregated errors

    Model of [vendor/github.com/hashicorp/go-multierror]: the [*Error]
    type ([multierror.go]), [Append] ([append.go]) and [ErrorOrNil].  A Go
    value of type [*multierror.Error] is an [option (list error)]: [None]
    is the nil pointer, [Some es] points to a value whose [Errors] are
    [es].  The same value seen through the [error] interface is
    [Some (Multi es)]. *)

From S2P Require Import Prelude.

(** What one non-nil error contributes: a [*Error] is flattened one level. *)
Definition flatten_one (e : error) : list error :=
  match e with
  | Multi es => es
  | _ => [e]
  end.

(** [Append(err, e)] with [err] of type [*Error] and one more error. *)
Definition Append (err : option (list error)) (e : option error) : option (list error) :=
  Some (default [] err ++ match e with Some e => flatten_one e | None => [] end).

(** [(e *Error) ErrorOrNil()]. *)
Definition ErrorOrNil (e : option (list error)) : option error :=
  match e with
  | None => None
  | Some [] => None
  | Some es => Some (Multi es)
  end.

(** [multierror.Append] repeated over a list of errors. *)
Definition append_all (err : option (list error)) (es : list error) : option (list error) :=
  foldl (λ acc e, Append acc (Some e)) err es.

Lemma Append_errors err e :
  default [] (Append err (Some e)) = default [] err ++ flatten_one e.
Proof. done. Qed.

Lemma append_all_errors es err :
  default [] (append_all err es) = default [] err ++ (es ≫= flatten_one).
Proof.
  revert err. induction es as [|e es IH]; intros err; simpl; [by rewrite app_nil_r|].
  unfold append_all in *. by rewrite IH, Append_errors, <-(assoc_L (++)).
Qed.

Lemma ErrorOrNil_None e : ErrorOrNil e = None ↔ default [] e = [].
Proof. destruct e as [[|??]|]; naive_solver. Qed.

Lemma ErrorOrNil_Some e err :
  ErrorOrNil e = Some err → ∃ es, es ≠ [] ∧ e = Some es ∧ err = Multi es.
Proof. destruct e as [[|e1 es]|]; intros ?; simplify_eq/=; by exists (e1 :: es). Qed.
