(* ===== verification/Group.v ===== *)
(** * Groups of goroutines

    Model of [vendor/github.com/hashicorp/go-multierror/group.go] and of the
    shape which every goroutine of the program has: a call which works on
    the world without holding the mutex, then (for the goroutines which do
    not return early) a critical section of the mutex which the goroutines
    of the group share, made of single writes to the shared variables, then
    [Group.Go]'s own tail, which appends a non-nil error to the group.

    The scheduler is explicit: [grun sched g] lets goroutine [i] take one
    step for each [i] of [sched]; a goroutine which is blocked on the mutex
    or has finished does nothing.  [Wait sched g] is [Group.Wait]: it plays
    [sched] and then keeps on scheduling until every goroutine has
    finished, so that every [sched] is an interleaving and every
    interleaving is some [sched]. *)

From S2P Require Import Prelude MultiError.

Section Group.
Context {W S : Type}.

(** How a goroutine goes on after its first call. *)
Inductive call_result :=
  | Return (e : option error)
  | Locked (writes : list (S → S)) (e : option error)
  | Crash (msg : string).

Definition task : Type := W → call_result * W.

Inductive goroutine :=
  | Running (t : task)
  | Acquiring (writes : list (S → S)) (e : option error)
  | Holding (writes : list (S → S)) (e : option error)
  | Returned (e : option error)
  | Finished.

Record group := mk_group {
  g_world : W;
  g_shared : S;
  g_locked : bool;                    (* the shared variables' mutex *)
  g_err : option (list error);        (* Group.err *)
  g_routines : list goroutine;
  g_panic : option string
}.

(** [Group.Go] for each of the tasks, from a fresh group. *)
Definition Go_all (w : W) (s : S) (ts : list task) : group :=
  mk_group w s false None (Running <$> ts) None.

Definition set_routine (g : group) (i : nat) (r : goroutine) : list goroutine :=
  <[i := r]> (g_routines g).

(** Where the result of its call leads a goroutine. *)
Definition after_call (r : call_result) : goroutine * option string :=
  match r with
  | Return e => (Returned e, None)
  | Locked ws e => (Acquiring ws e, None)
  | Crash msg => (Finished, Some msg)
  end.

(** One step of goroutine [i]; [None] when it cannot move. *)
Definition gstep (i : nat) (g : group) : option group :=
  match g_panic g with
  | Some _ => None
  | None =>
    match g_routines g !! i with
    | Some (Running t) =>
        let '(r, w') := t (g_world g) in
        let '(pc, panic) := after_call r in
        Some (mk_group w' (g_shared g) (g_locked g) (g_err g) (set_routine g i pc) panic)
    | Some (Acquiring ws e) =>
        if g_locked g then None
        else Some (mk_group (g_world g) (g_shared g) true (g_err g)
                     (set_routine g i (Holding ws e)) None)
    | Some (Holding (f :: ws) e) =>
        Some (mk_group (g_world g) (f (g_shared g)) (g_locked g) (g_err g)
                (set_routine g i (Holding ws e)) None)
    | Some (Holding [] e) =>
        Some (mk_group (g_world g) (g_shared g) false (g_err g)
                (set_routine g i (Returned e)) None)
    | Some (Returned e) =>
        Some (mk_group (g_world g) (g_shared g) (g_locked g)
                (match e with
                 | Some _ => Append (g_err g) e
                 | None => g_err g
                 end)
                (set_routine g i Finished) None)
    | Some Finished | None => None
    end
  end.

Definition gstep_any (g g' : group) : Prop := ∃ i, gstep i g = Some g'.

Definition gtry (g : group) (i : nat) : group := default g (gstep i g).
Definition grun (sched : list nat) (g : group) : group := foldl gtry g sched.

(** Steps a goroutine which has made its call still has to take. *)
Definition goroutine_size (r : goroutine) : nat :=
  match r with
  | Running _ => 0
  | Acquiring ws _ => length ws + 3
  | Holding ws _ => length ws + 2
  | Returned _ => 1
  | Finished => 0
  end.

Definition gsize (g : group) : nat := sum_list_with goroutine_size (g_routines g).

Definition all_routines (g : group) : list nat := seq 0 (length (g_routines g)).

Definition gfinal (g : group) : Prop :=
  is_Some (g_panic g) ∨ Forall (λ r, r = Finished) (g_routines g).

Definition drain (g : group) : group :=
  let g1 := grun (all_routines g) g in
  grun (mjoin (replicate (gsize g1) (all_routines g1))) g1.

Definition Wait (sched : list nat) (g : group) : group := drain (grun sched g).

(** ** What every interleaving computes *)

(** The calls of the goroutines in the order in which they were made. *)
Fixpoint calls (ts : list task) (w : W) : list call_result * W :=
  match ts with
  | [] => ([], w)
  | t :: ts => let '(r, w) := t w in let '(rs, w) := calls ts w in (r :: rs, w)
  end.

Definition run_writes (s : S) (ws : list (S → S)) : S := foldl (λ s f, f s) s ws.
Definition run_sections (s : S) (P : list (list (S → S))) : S := foldl run_writes s P.

Definition locked_writes (r : call_result) : option (list (S → S)) :=
  match r with Locked ws _ => Some ws | _ => None end.
Definition result_error (r : call_result) : option error :=
  match r with Return e | Locked _ e => e | Crash _ => None end.
Definition result_errors (R : list call_result) : list error :=
  omap result_error R ≫= flatten_one.

Definition todo (r : goroutine) : option task :=
  match r with Running t => Some t | _ => None end.
Definition acquiring (r : goroutine) : option (list (S → S)) :=
  match r with Acquiring ws _ => Some ws | _ => None end.
Definition holding (r : goroutine) : option (list (S → S)) :=
  match r with Holding ws _ => Some ws | _ => None end.
Definition pending_error (r : goroutine) : option error :=
  match r with Acquiring _ e | Holding _ e | Returned e => e | _ => None end.

Lemma calls_snoc ts t w R w' :
  calls ts w = (R, w') →
  calls (ts ++ [t]) w = let '(r, w'') := t w' in (R ++ [r], w'').
Proof.
  revert w R. induction ts as [|t' ts IH]; intros w R Hc; simplify_eq/=.
  - by destruct (t w').
  - destruct (t' w) as [r1 w1]. destruct (calls ts w1) as [R1 w2] eqn:E.
    simplify_eq. rewrite (IH _ _ E). by destruct (t w').
Qed.


(** The invariant of [grun]: [C] lists the tasks called so far in call
    order, [P] the critical sections completed so far in mutex order, and
    [cur] the section in progress (its executed and its remaining
    writes). *)
Record lin (ts : list task) (w0 : W) (s0 : S) (g : group)
    (C : list task) (R : list call_result) (P : list (list (S → S)))
    (cur : option (list (S → S) * list (S → S))) : Prop := {
  lin_tasks : omap todo (g_routines g) ++ C ≡ₚ ts;
  lin_calls : calls C w0 = (R, g_world g);
  lin_panic : ∀ m, g_panic g = Some m → Crash m ∈ R;
  lin_mutex : g_panic g = None →
    omap holding (g_routines g) = option_list (snd <$> cur) ∧
    g_locked g = bool_decide (is_Some cur);
  lin_sections : g_panic g = None →
    omap locked_writes R ≡ₚ
      omap acquiring (g_routines g) ++ P ++ option_list ((λ c, c.1 ++ c.2) <$> cur);
  lin_shared : g_panic g = None →
    g_shared g = run_writes (run_sections s0 P) (default [] (fst <$> cur));
  lin_errors : g_panic g = None →
    result_errors R ≡ₚ
      (omap pending_error (g_routines g) ≫= flatten_one) ++ default [] (g_err g);
  lin_no_crash : g_panic g = None → ∀ m, Crash m ∉ R
}.

Lemma omap_Running {A} (f : goroutine → option A) ts :
  (∀ t, f (Running t) = None) → omap f (Running <$> ts) = [].
Proof.
  intros Hf. induction ts as [|t ts IH]; [done|].
  by rewrite fmap_cons; simpl; rewrite Hf.
Qed.

Lemma lin_init ts w0 s0 : lin ts w0 s0 (Go_all w0 s0 ts) [] [] [] None.
Proof.
  split; simpl; try intros _; rewrite ?omap_Running by done; try done.
  - rewrite app_nil_r. induction ts as [|t ts IH]; simpl; [done|]. by rewrite IH.
  - intros m Hm. by apply not_elem_of_nil in Hm.
Qed.

Lemma result_errors_snoc R r :
  result_errors (R ++ [r]) =
  result_errors R ++ (option_list (result_error r) ≫= flatten_one).
Proof.
  unfold result_errors. rewrite omap_app, bind_app. simpl.
  by destruct (result_error r).
Qed.

(** The obligations of a step which leaves no panic behind. *)
Lemma lin_intro ts w0 s0 w s lk er rs C R P cur :
  omap todo rs ++ C ≡ₚ ts → calls C w0 = (R, w) →
  omap holding rs = option_list (snd <$> cur) → lk = bool_decide (is_Some cur) →
  omap locked_writes R ≡ₚ
    omap acquiring rs ++ P ++ option_list ((λ c, c.1 ++ c.2) <$> cur) →
  s = run_writes (run_sections s0 P) (default [] (fst <$> cur)) →
  result_errors R ≡ₚ (omap pending_error rs ≫= flatten_one) ++ default [] er →
  (∀ m, Crash m ∉ R) →
  lin ts w0 s0 (mk_group w s lk er rs None) C R P cur.
Proof. intros. by split. Qed.

(** At most one goroutine holds the mutex. *)
Lemma holder_unique (cur : option (list (S → S) * list (S → S))) l1 ws l2 :
  l1 ++ ws :: l2 = option_list (snd <$> cur) →
  ∃ dn, cur = Some (dn, ws) ∧ l1 = [] ∧ l2 = [].
Proof.
  destruct cur as [[dn rm]|]; simpl; intros Heq.
  - destruct l1 as [|? [|??]]; simplify_list_eq; eauto.
  - by destruct l1.
Qed.

Ltac lin_errors He e :=
  rewrite ?result_errors_snoc, He; destruct e; csimpl;
  rewrite ?bind_app; csimpl; solve_perm.

Lemma lin_call ts w0 s0 w s lk er l1 t l2 r w' C R P cur :
  lin ts w0 s0 (mk_group w s lk er (l1 ++ Running t :: l2) None) C R P cur →
  t w = (r, w') →
  lin ts w0 s0 (mk_group w' s lk er (l1 ++ (after_call r).1 :: l2) (after_call r).2)
    (C ++ [t]) (R ++ [r]) P cur.
Proof.
  intros [Ht Hc Hp Hm Hs Hsh He Hn] Et; simpl in *.
  pose proof (calls_snoc C t w0 R _ Hc) as Hc'. rewrite Et in Hc'.
  specialize (Hm eq_refl) as [Hm Hlk]. specialize (Hs eq_refl). specialize (Hsh eq_refl).
  specialize (He eq_refl). specialize (Hn eq_refl).
  rewrite !omap_app, ?bind_app in *. csimpl in *.
  assert ((∀ m, r ≠ Crash m) → ∀ m, Crash m ∉ R ++ [r]) as Hcrash.
  { intros Hr m. rewrite elem_of_app, list_elem_of_singleton. naive_solver. }
  destruct r as [e|ws e|msg]; simpl.
  3:{ split; csimpl; try done.
      - rewrite omap_app, <-Ht. csimpl. solve_perm.
      - intros m ?. simplify_eq. set_solver. }
  all: apply lin_intro; rewrite ?omap_app; csimpl; try done; try by apply Hcrash.
  all: try (rewrite <-Ht; solve_perm); try (rewrite Hs; solve_perm); lin_errors He e.
Qed.

Lemma gstep_lin ts w0 s0 g g' i C R P cur :
  lin ts w0 s0 g C R P cur → gstep i g = Some g' →
  ∃ C' R' P' cur', lin ts w0 s0 g' C' R' P' cur'.
Proof.
  destruct g as [w s lk er rs [m|]]; [done|]. intros Hlin Hstep.
  unfold gstep, set_routine in Hstep; simpl in Hstep.
  destruct (rs !! i) as [r|] eqn:Hi; [|done].
  destruct (list_set_split _ _ _ Hi) as (l1 & l2 & -> & Hset). clear Hi.
  destruct r as [t|ws e|ws e|e|]; simpl in Hstep; [..|done].
  { destruct (t w) as [r w'] eqn:Et.
    pose proof (lin_call _ _ _ _ _ _ _ _ _ _ _ _ _ _ _ _ Hlin Et) as Hlin'.
    destruct (after_call r); simplify_eq/=. rewrite Hset. eauto 10. }
  all: destruct Hlin as [Ht Hc Hp Hm Hs Hsh He Hn]; simpl in *.
  all: specialize (Hm eq_refl) as [Hm Hlk]; specialize (Hs eq_refl);
    specialize (Hsh eq_refl); specialize (He eq_refl); specialize (Hn eq_refl).
  all: rewrite !omap_app, ?bind_app in *; csimpl in *.
  - destruct lk; [done|].
    destruct cur as [c|]; [by rewrite bool_decide_true in Hlk by eauto|].
    simplify_eq/=. rewrite Hset. apply app_eq_nil in Hm as [Hm1 Hm2].
    exists C, R, P, (Some ([], ws)).
    apply lin_intro; rewrite ?omap_app; csimpl; rewrite ?Hm1, ?Hm2; try done.
    + rewrite Hs. solve_perm.
    + lin_errors He e.
  - destruct (holder_unique cur _ _ _ Hm) as (dn & -> & Hm1 & Hm2).
    destruct ws as [|f ws]; simplify_eq/=; rewrite Hset.
    + exists C, R, (P ++ [dn]), None.
      apply lin_intro; rewrite ?omap_app; csimpl; rewrite ?Hm1, ?Hm2; try done.
      * rewrite Hs. solve_perm.
      * unfold run_sections. by rewrite foldl_app.
      * lin_errors He e.
    + exists C, R, P, (Some (dn ++ [f], ws)).
      apply lin_intro; rewrite ?omap_app; csimpl; rewrite ?Hm1, ?Hm2; try done.
      * rewrite Hs. by rewrite <-(assoc_L (++) dn).
      * unfold run_writes at 2. by rewrite foldl_app.
      * lin_errors He e.
  - simplify_eq/=. rewrite Hset. exists C, R, P, cur.
    apply lin_intro; rewrite ?omap_app; csimpl; try done. lin_errors He e.
Qed.

Lemma grun_lin ts w0 s0 sched g C R P cur :
  lin ts w0 s0 g C R P cur →
  ∃ C' R' P' cur', lin ts w0 s0 (grun sched g) C' R' P' cur'.
Proof.
  revert g C R P cur. induction sched as [|i sched IH]; intros g C R P cur Hlin; [eauto 10|].
  simpl. unfold gtry. destruct (gstep i g) as [g'|] eqn:Hstep; simpl; [|eauto].
  destruct (gstep_lin _ _ _ _ _ _ _ _ _ _ Hlin Hstep) as (C' & R' & P' & cur' & Hlin').
  eauto.
Qed.

(** ** Termination and progress *)

Definition running (g : group) : nat := length (omap todo (g_routines g)).

Lemma gstep_inv i g g' :
  gstep i g = Some g' →
  ∃ r r', g_panic g = None ∧ g_routines g !! i = Some r ∧
    g_routines g' = <[i := r']> (g_routines g) ∧ todo r' = None ∧
    (todo r = None → goroutine_size r' < goroutine_size r).
Proof.
  unfold gstep, set_routine. destruct (g_panic g) eqn:Hp; [done|].
  destruct (g_routines g !! i) as [r|] eqn:Hi; [|done].
  intros Hstep. exists r.
  destruct r as [t|ws e|[|f ws] e|e|]; simplify_eq/=.
  - destruct (t (g_world g)) as [r w']. exists (after_call r).1.
    destruct r; simplify_eq/=; naive_solver.
  - destruct (g_locked g); simplify_eq/=. eexists. do 3 (split; [done|]). simpl; split; [done|lia].
  - eexists. do 3 (split; [done|]). simpl; split; [done|lia].
  - eexists. do 3 (split; [done|]). simpl; split; [done|lia].
  - eexists. do 3 (split; [done|]). simpl; split; [done|lia].
Qed.

(** Every step makes a pending call or shortens what is left to do. *)
Lemma gstep_decreases i g g' :
  gstep i g = Some g' →
  running g' < running g ∨ (running g' = running g ∧ gsize g' < gsize g).
Proof.
  intros (r & r' & _ & Hi & Hrs & Hr' & Hsize)%gstep_inv.
  destruct (list_set_split _ _ _ Hi) as (l1 & l2 & Hl & Hset).
  unfold running, gsize. rewrite Hrs, Hset, Hl, !omap_app, !sum_list_with_app. csimpl.
  rewrite Hr'. destruct (todo r) eqn:Hr.
  - left. rewrite !length_app. simpl. lia.
  - right. split; [done|]. specialize (Hsize eq_refl). lia.
Qed.

(** No interleaving runs forever. *)
Lemma gstep_any_terminates g : Acc (flip gstep_any) g.
Proof.
  remember (running g) as n eqn:Hn. revert g Hn.
  induction (lt_wf n) as [n _ IHn]. intros g Hn.
  remember (gsize g) as m eqn:Hm. revert g Hn Hm.
  induction (lt_wf m) as [m _ IHm]. intros g Hn Hm.
  constructor. intros g' [i Hstep].
  destruct (gstep_decreases _ _ _ Hstep) as [?|[? ?]]; subst.
  - by eapply IHn.
  - eapply IHm; eauto.
Qed.

#[export] Instance finished_dec (r : goroutine) : Decision (r = Finished).
Proof. by destruct r; first [by left | by right]. Defined.

Lemma not_final g :
  ¬ gfinal g → g_panic g = None ∧ ∃ i r, g_routines g !! i = Some r ∧ r ≠ Finished.
Proof.
  unfold gfinal. intros Hnf. split.
  { destruct (g_panic g); naive_solver. }
  destruct (decide (Forall (λ r, r = Finished) (g_routines g))) as [?|Hex]; [naive_solver|].
  apply not_Forall_Exists, Exists_exists in Hex as (r & Hin & Hr); [|apply _].
  apply list_elem_of_lookup in Hin as [i Hi]. eauto.
Qed.

(** No interleaving gets stuck: as long as a goroutine has not finished,
    some goroutine can move. *)
Lemma gstep_progress ts w0 s0 g C R P cur :
  lin ts w0 s0 g C R P cur → ¬ gfinal g →
  ∃ i, i ∈ all_routines g ∧ is_Some (gstep i g).
Proof.
  intros Hlin (Hp & i & r & Hi & Hr)%not_final.
  destruct (lin_mutex _ _ _ _ _ _ _ _ Hlin Hp) as [Hm Hlk].
  assert (∀ i r, g_routines g !! i = Some r → i ∈ all_routines g) as Hin.
  { intros k r' ?%lookup_lt_Some. apply elem_of_seq. lia. }
  destruct (g_locked g) eqn:Elk; [destruct cur as [c|]; [|done]|].
  - assert (snd c ∈ omap holding (g_routines g)) as (rh & Hrh & Hh)%list_elem_of_omap.
    { rewrite Hm. set_solver. }
    apply list_elem_of_lookup in Hrh as [k Hk]. exists k. split; [eauto|].
    unfold gstep. rewrite Hp, Hk. by destruct rh as [|??|[|??]?|?|].
  - exists i. split; [eauto|]. unfold gstep. rewrite Hp, Hi, Elk.
    destruct r as [t|??|[|??]?|?|]; try done.
    destruct (t (g_world g)) as [rc w']. by destruct rc.
Qed.

(** [Wait] waits: whatever happened before, it ends with every goroutine
    finished (or with the program crashed). *)
Lemma gtry_length g i : length (g_routines (gtry g i)) = length (g_routines g).
Proof.
  unfold gtry. destruct (gstep i g) as [g'|] eqn:Hs; simpl; [|done].
  apply gstep_inv in Hs as (r & r' & _ & _ & -> & _). apply length_insert.
Qed.

Lemma grun_length sched g : length (g_routines (grun sched g)) = length (g_routines g).
Proof.
  revert g. induction sched as [|i sched IH]; intros g; simpl; [done|].
  by rewrite IH, gtry_length.
Qed.

Lemma grun_app sched1 sched2 g : grun (sched1 ++ sched2) g = grun sched2 (grun sched1 g).
Proof. apply foldl_app. Qed.

Lemma grun_panic sched g : is_Some (g_panic g) → grun sched g = g.
Proof.
  intros [m Hm]. induction sched as [|i sched IH]; simpl; [done|].
  unfold gtry, gstep. by rewrite Hm.
Qed.

(** A goroutine scheduled at least once has made its call. *)
Lemma grun_not_todo sched g i r :
  g_panic (grun sched g) = None →
  g_routines (grun sched g) !! i = Some r → todo r ≠ None →
  g_routines g !! i = Some r ∧ i ∉ sched.
Proof.
  revert g. induction sched as [|k sched IH]; intros g Hp Hr Hnt; simpl in *.
  { split; [done|]. apply not_elem_of_nil. }
  destruct (IH (gtry g k) Hp Hr Hnt) as [Hi Hni]. clear IH.
  unfold gtry in *. destruct (gstep k g) as [g'|] eqn:Hs; simpl in *.
  - pose proof Hs as (rk & r' & Hp' & Hk & Hrs & Hr' & _)%gstep_inv.
    rewrite Hrs in Hi. apply list_lookup_insert_Some in Hi as [(<- & -> & _)|[Hne Hi]].
    + done.
    + split; [done|]. set_solver.
  - split; [done|]. apply not_elem_of_cons. split; [|done]. intros ->.
    unfold gstep in Hs. destruct (g_panic g) eqn:Hpg.
    + by rewrite grun_panic, Hpg in Hp by (by rewrite Hpg).
    + rewrite Hi in Hs. destruct r as [t|??|??|?|]; try done.
      destruct (t (g_world g)) as [rc w']. by destruct rc.
Qed.

Lemma running_grun_all g :
  g_panic (grun (all_routines g) g) = None → running (grun (all_routines g) g) = 0.
Proof.
  intros Hp. unfold running.
  destruct (omap todo (g_routines (grun (all_routines g) g))) as [|t l] eqn:Ho; [done|].
  assert (t ∈ omap todo (g_routines (grun (all_routines g) g)))
    as (r & Hr & Ht)%list_elem_of_omap.
  { rewrite Ho. set_solver. }
  apply list_elem_of_lookup in Hr as [i Hi].
  destruct (grun_not_todo _ _ _ _ Hp Hi) as [Hi' Hni]; [congruence|].
  destruct Hni. unfold all_routines. apply elem_of_seq.
  apply lookup_lt_Some in Hi'. lia.
Qed.

Lemma grun_quiet sched g :
  running g = 0 →
  running (grun sched g) = 0 ∧
  (gsize (grun sched g) < gsize g ∨
   grun sched g = g ∧ ∀ i, i ∈ sched → gstep i g = None).
Proof.
  revert g. induction sched as [|i sched IH]; intros g Hq; simpl.
  { split; [done|]. right. split; [done|]. intros i Hi. by apply not_elem_of_nil in Hi. }
  unfold gtry. destruct (gstep i g) as [g'|] eqn:Hs; simpl.
  - apply gstep_decreases in Hs as [?|[Hq' Hlt]]; [lia|].
    destruct (IH g') as [? Hdec]; [lia|]. split; [done|]. left.
    destruct Hdec as [?|[-> _]]; lia.
  - destruct (IH g Hq) as [? Hdec]. split; [done|].
    destruct Hdec as [?|[Heq Hall]]; [by left|right]. split; [done|].
    intros k [->|?]%elem_of_cons; eauto.
Qed.

Lemma gfinal_grun sched g : gfinal g → grun sched g = g.
Proof.
  intros [?|Hf]; [by apply grun_panic|].
  induction sched as [|i sched IH]; simpl; [done|].
  assert (gstep i g = None) as Hs.
  { unfold gstep. destruct (g_panic g); [done|].
    destruct (g_routines g !! i) as [r|] eqn:Hi; [|done].
    rewrite Forall_lookup in Hf. by rewrite (Hf _ _ Hi). }
  unfold gtry. by rewrite Hs.
Qed.

Lemma drain_passes ts w0 s0 n g C R P cur :
  lin ts w0 s0 g C R P cur → running g = 0 → gsize g ≤ n →
  gfinal (grun (mjoin (replicate n (all_routines g))) g).
Proof.
  assert (Decision (gfinal g)) as Hdec by (unfold gfinal; apply _).
  revert g C R P cur Hdec. induction n as [|n IH]; intros g C R P cur Hdec Hlin Hq Hsz.
  all: destruct Hdec as [Hf|Hnf]; [by rewrite gfinal_grun|].
  all: destruct (gstep_progress _ _ _ _ _ _ _ _ Hlin Hnf) as (i & Hi & Hstep).
  { destruct Hstep as [g' [?|[? ?]]%gstep_decreases]; lia. }
  simpl. rewrite grun_app.
  destruct (grun_quiet (all_routines g) g Hq) as [Hq' [Hlt|[_ Hnone]]].
  2:{ rewrite (Hnone i Hi) in Hstep. by destruct Hstep. }
  destruct (grun_lin ts w0 s0 (all_routines g) g C R P cur Hlin) as (C' & R' & P' & cur' & Hl').
  replace (all_routines g) with (all_routines (grun (all_routines g) g)) at 1
    by (unfold all_routines; by rewrite grun_length).
  eapply IH; eauto; [unfold gfinal; apply _|lia].
Qed.

Lemma drain_final ts w0 s0 g C R P cur :
  lin ts w0 s0 g C R P cur → gfinal (drain g).
Proof.
  intros Hlin. unfold drain.
  destruct (g_panic (grun (all_routines g) g)) as [m|] eqn:Hp.
  { rewrite grun_panic by (by rewrite Hp). left. by rewrite Hp. }
  destruct (grun_lin ts w0 s0 (all_routines g) g C R P cur Hlin) as (C' & R' & P' & cur' & Hl').
  eapply drain_passes; eauto using running_grun_all.
Qed.

Lemma Wait_grun sched g : ∃ sched', Wait sched g = grun sched' g.
Proof. unfold Wait, drain. eexists. by rewrite <-!grun_app. Qed.

(** The contract of a group, for every interleaving: the calls were made
    in some order [C] on the world, the critical sections of those which
    did not return early were executed without interference in some order
    [P] on the shared variables, and the errors were all collected. *)
Record group_spec (ts : list task) (w0 : W) (s0 : S) (g : group)
    (C : list task) (R : list call_result) (P : list (list (S → S))) : Prop := {
  spec_tasks : C ≡ₚ ts;
  spec_calls : calls C w0 = (R, g_world g);
  spec_panic : g_panic g = None;
  spec_no_crash : ∀ m, Crash m ∉ R;
  spec_sections : omap locked_writes R ≡ₚ P;
  spec_shared : g_shared g = run_sections s0 P;
  spec_errors : result_errors R ≡ₚ default [] (g_err g)
}.

(** ... unless one of the calls crashed, which stops everything. *)
Definition group_crash (ts : list task) (w0 : W) (g : group) (m : string) : Prop :=
  ∃ C D, C ++ D ≡ₚ ts ∧ Crash m ∈ (calls C w0).1 ∧ g_panic g = Some m.

Lemma omap_Finished {A} (f : goroutine → option A) rs :
  f Finished = None → Forall (λ r, r = Finished) rs → omap f rs = [].
Proof. intros Hf. induction 1 as [|r rs -> _ IH]; csimpl; by rewrite ?Hf. Qed.

Lemma lin_final ts w0 s0 g C R P cur :
  lin ts w0 s0 g C R P cur → gfinal g →
  group_spec ts w0 s0 g C R P ∨ ∃ m, group_crash ts w0 g m.
Proof.
  intros [Ht Hc Hp Hm Hs Hsh He Hn] Hfinal.
  destruct (g_panic g) as [m|] eqn:Hpg.
  { right. exists m, C, (omap todo (g_routines g)).
    rewrite Hc, (comm (++)). eauto. }
  destruct Hfinal as [[??]|Hf]; [congruence|]. left.
  specialize (Hm eq_refl) as [Hm Hlk]. specialize (Hs eq_refl). specialize (Hsh eq_refl).
  specialize (He eq_refl). specialize (Hn eq_refl).
  rewrite omap_Finished in Ht by done. rewrite omap_Finished in Hm by done.
  rewrite omap_Finished in Hs by done. rewrite omap_Finished in He by done.
  destruct cur; [done|]. simpl in Hs, Hsh, He. rewrite app_nil_r in Hs. by split.
Qed.

Lemma Wait_spec sched w0 s0 ts :
  (∃ C R P, group_spec ts w0 s0 (Wait sched (Go_all w0 s0 ts)) C R P) ∨
  (∃ m, group_crash ts w0 (Wait sched (Go_all w0 s0 ts)) m).
Proof.
  destruct (grun_lin ts w0 s0 sched _ _ _ _ _ (lin_init ts w0 s0))
    as (C1 & R1 & P1 & cur1 & Hlin1).
  pose proof (drain_final _ _ _ _ _ _ _ _ Hlin1) as Hfinal.
  destruct (Wait_grun sched (Go_all w0 s0 ts)) as [sched' Hg].
  unfold Wait in Hg |- *. rewrite Hg in Hfinal |- *.
  destruct (grun_lin ts w0 s0 sched' _ _ _ _ _ (lin_init ts w0 s0))
    as (C & R & P & cur & Hlin).
  destruct (lin_final _ _ _ _ _ _ _ _ Hlin Hfinal); eauto.
Qed.
End Group.

Arguments call_result : clear implicits.
Arguments task : clear implicits.
Arguments goroutine : clear implicits.
Arguments group : clear implicits.

(** The world a group leaves, panic or not: that of some of the calls. *)
Lemma Wait_world {W S} sched (w : W) (s : S) (ts : list (task W S)) :
  ∃ C D, C ++ D ≡ₚ ts ∧ g_world (Wait sched (Go_all w s ts)) = (calls C w).2.
Proof.
  destruct (Wait_grun sched (Go_all w s ts)) as [sched' ->].
  destruct (grun_lin ts w s sched' _ _ _ _ _ (lin_init ts w s)) as (C & R & P & cur & Hlin).
  exists C, (omap todo (g_routines (grun sched' (Go_all w s ts)))). split.
  - rewrite (comm (++)). apply (lin_tasks _ _ _ _ _ _ _ _ Hlin).
  - by rewrite (lin_calls _ _ _ _ _ _ _ _ Hlin).
Qed.

(** ** Using a group *)

(** Where goroutines are interleaved by the scheduler: as for the order of
    map iterations, each site takes its interleaving from an oracle. *)
Class Scheduler := sched_at : string → list nat.

Section RunGroup.
Context {W S : Type}.
Implicit Types (ts : list (task W S)).

(** Start the goroutines, wait for them, and go on with the shared
    variables and the [*Error] which [Wait] returns; a panic of one of
    them ends the program. *)
Definition run_group (sched : list nat) (s0 : S) ts : Go W (S * option (list error)) := λ w,
  let g := Wait sched (Go_all w s0 ts) in
  match g_panic g with
  | Some m => (Panic (Killed m), g_world g)
  | None => (Ret (g_shared g, g_err g), g_world g)
  end.

(** A goroutine made of a call and of what it does with the result. *)
Definition goroutine_of {A} (call : Go W A) (k : A → call_result S) : task W S := λ w,
  match call w with
  | (Panic m, w') => (Crash (panic_message m), w')
  | (Ret a, w') => (k a, w')
  end.
End RunGroup.

(** ** Goroutines started in a loop over a list *)

Section Labelled.
Context {L A W S : Type}.

(** Making the calls for the labels [ls] one after the other: the world
    they leave and what they returned; [None] when one of them panics. *)
Fixpoint call_all (call : L → Go W A) (ls : list L) (w : W) : option (list A * W) :=
  match ls with
  | [] => Some ([], w)
  | l :: ls =>
      match call l w with
      | (Panic _, _) => None
      | (Ret a, w') =>
          match call_all call ls w' with
          | None => None
          | Some (rs, w'') => Some (a :: rs, w'')
          end
      end
  end.

(** One of the calls for the labels [ls] panics, after some of the others
    have been made. *)
Definition crashed (call : L → Go W A) (ls : list L) (w : W) : Prop :=
  ∃ ls1 l ls2 rs w1 msg w2, ls1 ++ l :: ls2 ≡ₚ ls ∧
    call_all call ls1 w = Some (rs, w1) ∧ call l w1 = (Panic msg, w2).
End Labelled.

Lemma call_all_length {L A W} (call : L → Go W A) ls w rs w' :
  call_all call ls w = Some (rs, w') → length rs = length ls.
Proof.
  revert w rs. induction ls as [|l ls IH]; intros w rs Hc; simplify_eq/=; [done|].
  destruct (call l w) as [[a|m] w1]; [|done].
  destruct (call_all call ls w1) as [[rs1 w2]|] eqn:Hr; simplify_eq/=. by rewrite (IH w1 rs1).
Qed.

Lemma call_all_ext {L A W} (call1 call2 : L → Go W A) ls w :
  (∀ l w, l ∈ ls → call1 l w = call2 l w) → call_all call1 ls w = call_all call2 ls w.
Proof.
  revert w. induction ls as [|l ls IH]; intros w Hext; simpl; [done|].
  rewrite Hext by left. destruct (call2 l w) as [[a|m] w1]; [|done].
  rewrite IH; [done|]. intros l' w' Hl'. apply Hext. by right.
Qed.

Lemma crashed_ext {L A W} (call1 call2 : L → Go W A) ls w :
  (∀ l w, l ∈ ls → call1 l w = call2 l w) → crashed call1 ls w → crashed call2 ls w.
Proof.
  intros Hext (ls1 & l & ls2 & rs & w1 & msg & w2 & Hls & Hc & Hl).
  exists ls1, l, ls2, rs, w1, msg, w2. split; [done|].
  rewrite <-(call_all_ext call1 call2), <-Hext; [done|rewrite <-Hls|intros; apply Hext; rewrite <-Hls];
    set_solver.
Qed.

Section GoroutineOf.
Context {L A W S : Type} (call : L → Go W A) (k : L → A → call_result S).
Context (k_returns : ∀ l a m, k l a ≠ Crash m).

Definition goroutines (ls : list L) : list (task W S) :=
  (λ l, goroutine_of (call l) (k l)) <$> ls.

Lemma calls_goroutines ls w R w' :
  calls (goroutines ls) w = (R, w') → (∀ m, Crash m ∉ R) →
  ∃ rs, call_all call ls w = Some (rs, w') ∧ R = zip_with k ls rs.
Proof.
  revert w R. induction ls as [|l ls IH]; intros w R Hc Hn; simplify_eq/=.
  { by exists []. }
  unfold goroutine_of at 1 in Hc.
  destruct (call l w) as [[a|m] w1] eqn:Hl; (destruct (calls _ w1) as [R1 w2] eqn:Hr in Hc);
    simplify_eq/=.
  - destruct (IH w1 R1 Hr) as (rs & -> & ->); [set_solver|]. by exists (a :: rs).
  - by destruct (Hn (panic_message m)); left.
Qed.

Lemma calls_crash ls w m :
  Crash m ∈ (calls (goroutines ls) w).1 → crashed call ls w.
Proof.
  revert w. induction ls as [|l ls IH]; intros w Hm; simpl in Hm.
  { by apply not_elem_of_nil in Hm. }
  unfold goroutine_of at 1 in Hm.
  destruct (call l w) as [[a|m'] w1] eqn:Hl.
  2:{ by exists [], l, ls, [], w, m', w1. }
  destruct (calls (goroutines ls) w1) as [R1 w2] eqn:Hr.
  apply elem_of_cons in Hm as [Hm|Hm]; [by destruct (k_returns l a m)|].
  destruct (IH w1) as (ls1 & l' & ls2 & rs & w3 & msg & w4 & Hls & Hc & Hl'); [by rewrite Hr|].
  exists (l :: ls1), l', ls2, (a :: rs), w3, msg, w4. split_and!; [|by simpl; rewrite Hl, Hc|done].
  simpl. by rewrite Hls.
Qed.

Lemma crashed_perm ls1 ls2 w : ls1 ≡ₚ ls2 → crashed call ls1 w → crashed call ls2 w.
Proof.
  intros Hls (l1 & l & l2 & rs & w1 & msg & w2 & Hp & ?).
  exists l1, l, l2, rs, w1, msg, w2. by rewrite Hp.
Qed.

Lemma crashed_app ls1 ls2 w : crashed call ls1 w → crashed call (ls1 ++ ls2) w.
Proof.
  intros (l1 & l & l2 & rs & w1 & msg & w2 & Hp & ?).
  exists l1, l, (l2 ++ ls2), rs, w1, msg, w2. split; [|done].
  by rewrite <-Hp, <-(assoc_L (++)).
Qed.

(** What a group made of such goroutines computes, for any interleaving:
    the calls were made in some order [ls'] of the labels, the sections
    executed in some order [P], the errors collected in some order. *)
Lemma run_group_spec sched s0 ls w :
  (∃ ls' rs P errs w',
    ls' ≡ₚ ls ∧ call_all call ls' w = Some (rs, w') ∧
    P ≡ₚ omap locked_writes (zip_with k ls' rs) ∧
    default [] errs ≡ₚ result_errors (zip_with k ls' rs) ∧
    run_group sched s0 (goroutines ls) w = (Ret (run_sections s0 P, errs), w')) ∨
  (∃ m w', run_group sched s0 (goroutines ls) w = (Panic (Killed m), w') ∧ crashed call ls w).
Proof.
  unfold run_group.
  destruct (Wait_spec sched w s0 (goroutines ls))
    as [(C & R & P & [Ht Hc Hp Hn Hs Hsh He])|(m & C & D & Ht & Hm & Hp)].
  - left. apply Permutation_map_inv in Ht as (ls' & -> & Hls).
    destruct (calls_goroutines ls' w R _ Hc Hn) as (rs & Hca & ->).
    exists ls', rs, P, (g_err (Wait sched (Go_all w s0 (goroutines ls)))), (g_world (Wait sched (Go_all w s0 (goroutines ls)))).
    rewrite Hp, Hsh. by split_and!.
  - right. rewrite Hp. eexists _, _. split; [done|].
    apply Permutation_map_inv in Ht as (ls' & Heq & Hls).
    symmetry in Heq. apply map_eq_app in Heq as (ls1 & ls2 & -> & <- & <-).
    apply (crashed_perm (ls1 ++ ls2)); [done|]. apply crashed_app. by eapply calls_crash.
Qed.

(** What every call keeps, a group of them keeps, however it ends. *)
Lemma run_group_inv (I : W → Prop) sched s0 ls w :
  (∀ l w, l ∈ ls → I w → I (call l w).2) → I w → I (run_group sched s0 (goroutines ls) w).2.
Proof.
  intros HI Hw. destruct (Wait_world sched w s0 (goroutines ls)) as (C & D & Ht & Hworld).
  apply Permutation_map_inv in Ht as (ls' & Heq & Hls).
  symmetry in Heq. apply map_eq_app in Heq as (ls1 & ls2 & -> & <- & <-).
  assert (I (g_world (Wait sched (Go_all w s0 (goroutines ls))))) as Hg.
  { rewrite Hworld. change (map _ ls1) with (goroutines ls1).
    assert (∀ l w, l ∈ ls1 → I w → I (call l w).2) as HI1.
    { intros l w1 Hl. apply HI. rewrite Hls. set_solver. }
    clear HI Hworld Hls ls2. revert w Hw. induction ls1 as [|l ls1 IH]; intros w Hw; simpl; [done|].
    assert (I (goroutine_of (call l) (k l) w).2) as Hl.
    { specialize (HI1 l w ltac:(left) Hw). unfold goroutine_of.
      by destruct (call l w) as [[a|m] w1]. }
    destruct (goroutine_of (call l) (k l) w) as [r w1].
    specialize (IH ltac:(intros; apply HI1; [by right|done]) w1 Hl).
    by destruct (calls (goroutines ls1) w1). }
  unfold run_group. by destruct (g_panic _).
Qed.
End GoroutineOf.

(** ** Goroutines which return early when their call fails *)

Section Early.
Context {L A W S : Type}.
Context (call : L → Go W (A * option error)) (writes : L → A → list (S → S)).

Definition early (l : L) (r : A * option error) : call_result S :=
  match r.2 with
  | Some e => Return (Some e)
  | None => Locked (writes l r.1) None
  end.

(** The calls which succeeded, with their results. *)
Definition successes (ls : list L) (rs : list (A * option error)) : list (L * A) :=
  omap (λ '(l, (a, err)), match err with None => Some (l, a) | Some _ => None end) (zip ls rs).

(** The errors of those which failed, flattened as the group does. *)
Definition failures (rs : list (A * option error)) : list error :=
  omap snd rs ≫= flatten_one.

Lemma early_sections ls rs :
  omap locked_writes (zip_with early ls rs) = (λ la, writes la.1 la.2) <$> successes ls rs.
Proof.
  revert rs. induction ls as [|l ls IH]; intros [|[a [e|]] rs]; csimpl; [done..| |];
    by rewrite IH.
Qed.

Lemma early_errors ls rs :
  length rs = length ls → result_errors (zip_with early ls rs) = failures rs.
Proof.
  unfold result_errors, failures. intros Hlen. f_equal. revert rs Hlen.
  induction ls as [|l ls IH]; intros [|[a [e|]] rs] Hlen; csimpl in *; [done..| |];
    rewrite IH by lia; done.
Qed.

Lemma run_group_early sched s0 ls w :
  (∃ ls' rs done errs w',
    ls' ≡ₚ ls ∧ call_all call ls' w = Some (rs, w') ∧
    done ≡ₚ successes ls' rs ∧ default [] errs ≡ₚ failures rs ∧
    run_group sched s0 (goroutines call early ls) w =
      (Ret (foldl (λ s la, run_writes s (writes la.1 la.2)) s0 done, errs), w')) ∨
  (∃ m w', run_group sched s0 (goroutines call early ls) w = (Panic (Killed m), w') ∧ crashed call ls w).
Proof.
  assert (∀ l r m, early l r ≠ Crash m) as Hret by (intros l [a [e|]] m; done).
  destruct (run_group_spec call early Hret sched s0 ls w)
    as [(ls' & rs & P & errs & w' & Hls & Hc & HP & He & ->)|?]; [left|by right].
  rewrite early_sections in HP. apply Permutation_map_inv in HP as (done & -> & Hdone).
  rewrite early_errors in He by (by eapply call_all_length).
  exists ls', rs, done, errs, w'. split_and!; [done..|].
  do 2 f_equal. unfold run_sections. f_equal. clear. revert s0.
  induction done as [|la done IH]; intros s0; [done|]. apply IH.
Qed.

Lemma elem_of_successes ls rs l a :
  (l, a) ∈ successes ls rs ↔ ∃ i, ls !! i = Some l ∧ rs !! i = Some (a, None).
Proof.
  unfold successes. rewrite list_elem_of_omap. split.
  - intros ([l' [a' [e|]]] & Hin & Heq); simplify_eq.
    apply list_elem_of_lookup in Hin as [i Hi].
    apply lookup_zip_Some in Hi. eauto.
  - intros (i & Hl & Hr). exists (l, (a, None)). split; [|done].
    apply list_elem_of_lookup. exists i. by apply lookup_zip_Some.
Qed.

Lemma successes_sublist ls rs : (successes ls rs).*1 `sublist_of` ls.
Proof.
  unfold successes. revert rs. induction ls as [|l ls IH]; intros rs; [by destruct rs|].
  destruct rs as [|[a [e|]] rs]; csimpl.
  - apply sublist_nil_l.
  - by apply sublist_cons.
  - by apply sublist_skip.
Qed.

(** When nothing failed, every label has a result. *)
Lemma successes_all ls rs :
  length rs = length ls → omap snd rs = [] → (successes ls rs).*1 = ls.
Proof.
  unfold successes. revert rs.
  induction ls as [|l ls IH]; intros [|[a [e|]] rs] Hlen Hf; csimpl in *; try done.
  rewrite IH; [done|lia|done].
Qed.
End Early.

(** ** Properties *)

(** C7: [Group.Wait] for every interleaving of the goroutines: all of them
    have finished; each made its call exactly once, in some order, on the
    world; the critical sections of those which did not return early took
    effect on the shared variables one whole section after the other, in
    some order; and the group's error holds exactly the errors returned.
    The exception is a call which panics, which stops the program. *)
Theorem Wait_linearizes {W S} sched (w : W) (s : S) (ts : list (task W S)) :
  let g := Wait sched (Go_all w s ts) in
  gfinal g ∧
  ((∃ C R P, C ≡ₚ ts ∧ calls C w = (R, g_world g) ∧ P ≡ₚ omap locked_writes R ∧
      g_shared g = run_sections s P ∧ default [] (g_err g) ≡ₚ result_errors R ∧
      g_panic g = None) ∨
   (∃ C D m, C ++ D ≡ₚ ts ∧ Crash m ∈ (calls C w).1 ∧ g_panic g = Some m)).
Proof.
  split.
  - destruct (grun_lin ts w s sched _ _ _ _ _ (lin_init ts w s)) as (C & R & P & cur & Hlin).
    by apply (drain_final _ _ _ _ _ _ _ _ Hlin).
  - destruct (Wait_spec sched w s ts) as [(C & R & P & [])|(m & C & D & ?)].
    + left. exists C, R, P. by split_and!.
    + right. by exists C, D, m.
Qed.

(** C27: No deadlock and no divergence: in every state an interleaving can
    reach, some goroutine can move unless all have finished or one has
    crashed, and no interleaving goes on forever. *)
Theorem group_progress_and_termination {W S} sched (w : W) (s : S) (ts : list (task W S)) :
  let g := grun sched (Go_all w s ts) in
  (¬ gfinal g → ∃ i g', i < length ts ∧ gstep i g = Some g') ∧ Acc (flip gstep_any) g.
Proof.
  split; [|apply gstep_any_terminates]. intros Hnf.
  destruct (grun_lin ts w s sched _ _ _ _ _ (lin_init ts w s)) as (C & R & P & cur & Hlin).
  destruct (gstep_progress _ _ _ _ _ _ _ _ Hlin Hnf) as (i & Hi & [g' Hg']).
  exists i, g'. split; [|done]. apply elem_of_seq in Hi. rewrite grun_length in Hi.
  unfold Go_all in Hi. simpl in Hi. rewrite length_fmap in Hi. lia.
Qed.
