(* ===== verification/Elf.v ===== *)
(** * Headers of ELF binaries

    Model of [src/emulation/elf.go]: the table of known platforms, the
    header which a binary for a platform starts with ([header]) and the
    lazily computed table of those headers ([getKnownELFPlatformHeaders]).
    The constants are those of Go's [debug/elf]. *)

From S2P Require Import Prelude GoStrings.
Local Open Scope Z_scope.

(** ** Constants of [debug/elf] *)
Definition ELFMAG : list Z := [0x7f; 0x45; 0x4c; 0x46].
Definition EI_CLASS : nat := 4.
Definition EI_DATA : nat := 5.
Definition EI_VERSION : nat := 6.
Definition EI_OSABI : nat := 7.
Definition EI_ABIVERSION : nat := 8.
Definition ELFCLASS32 : Z := 1.
Definition ELFCLASS64 : Z := 2.
Definition ELFDATANONE : Z := 0.
Definition ELFDATA2LSB : Z := 1.
Definition ELFDATA2MSB : Z := 2.
Definition EV_NONE : Z := 0.
Definition EV_CURRENT : Z := 1.
Definition ELFOSABI_NONE : Z := 0.
Definition ELFOSABI_LINUX : Z := 3.
Definition ET_EXEC : Z := 2.
Definition EM_386 : Z := 3.
Definition EM_MIPS : Z := 8.
Definition EM_MIPS_RS3_LE : Z := 10.
Definition EM_PPC : Z := 20.
Definition EM_PPC64 : Z := 21.
Definition EM_S390 : Z := 22.
Definition EM_ARM : Z := 40.
Definition EM_X86_64 : Z := 62.
Definition EM_AARCH64 : Z := 183.
Definition EM_RISCV : Z := 243.
Definition EM_LOONGARCH : Z := 258.

(** ** The table *)

Record elfPlatform := mk_elfPlatform {
  platform : string;
  osabi : list Z;
  class : Z;
  data : Z;
  alsoNone : bool;
  machine : Z;
  flags : list Z
}.

Definition both_abis : list Z := [ELFOSABI_NONE; ELFOSABI_LINUX].

Definition knownELFPlatforms : list elfPlatform := [
  mk_elfPlatform "linux/386" both_abis ELFCLASS32 ELFDATA2LSB true EM_386 [];
  mk_elfPlatform "linux/amd64" both_abis ELFCLASS64 ELFDATA2LSB true EM_X86_64 [];
  mk_elfPlatform "linux/arm" both_abis ELFCLASS32 ELFDATA2LSB false EM_ARM [];
  mk_elfPlatform "linux/arm64" both_abis ELFCLASS64 ELFDATA2LSB false EM_AARCH64 [];
  mk_elfPlatform "linux/arm64be" both_abis ELFCLASS64 ELFDATA2MSB false EM_AARCH64 [];
  mk_elfPlatform "linux/loong64" both_abis ELFCLASS64 ELFDATA2LSB false EM_LOONGARCH [];
  mk_elfPlatform "linux/mips" both_abis ELFCLASS32 ELFDATA2MSB false EM_MIPS [0; 2];
  mk_elfPlatform "linux/mipsle" both_abis ELFCLASS32 ELFDATA2LSB false EM_MIPS_RS3_LE [0; 2];
  mk_elfPlatform "linux/mips64" both_abis ELFCLASS64 ELFDATA2MSB false EM_MIPS [0; 2];
  mk_elfPlatform "linux/mips64le" both_abis ELFCLASS64 ELFDATA2LSB false EM_MIPS_RS3_LE [0; 2];
  mk_elfPlatform "linux/ppc" both_abis ELFCLASS32 ELFDATA2MSB false EM_PPC [];
  mk_elfPlatform "linux/ppc64" both_abis ELFCLASS64 ELFDATA2MSB false EM_PPC64 [];
  mk_elfPlatform "linux/ppc64le" both_abis ELFCLASS64 ELFDATA2LSB false EM_PPC64 [];
  mk_elfPlatform "linux/riscv32" both_abis ELFCLASS32 ELFDATA2LSB false EM_RISCV [];
  mk_elfPlatform "linux/riscv64" both_abis ELFCLASS64 ELFDATA2LSB false EM_RISCV [];
  mk_elfPlatform "linux/s390x" both_abis ELFCLASS64 ELFDATA2MSB false EM_S390 []
].

(** ** Writing into a byte slice *)

Inductive ByteOrder := LittleEndian | BigEndian.

#[export] Instance ByteOrder_eq_dec : EqDecision ByteOrder.
Proof. solve_decision. Defined.

Definition low_byte (v : Z) : Z := Z.land v 255.

Definition bytes16 (o : ByteOrder) (v : Z) : list Z :=
  match o with
  | LittleEndian => [low_byte v; low_byte (Z.shiftr v 8)]
  | BigEndian => [low_byte (Z.shiftr v 8); low_byte v]
  end.

Definition bytes32 (o : ByteOrder) (v : Z) : list Z :=
  match o with
  | LittleEndian =>
      [low_byte v; low_byte (Z.shiftr v 8); low_byte (Z.shiftr v 16); low_byte (Z.shiftr v 24)]
  | BigEndian =>
      [low_byte (Z.shiftr v 24); low_byte (Z.shiftr v 16); low_byte (Z.shiftr v 8); low_byte v]
  end.

(** Storing consecutive bytes at an offset panics when they do not fit. *)
Definition store (b : list Z) (off : nat) (bs : list Z) : outcome (list Z) :=
  if (off + length bs <=? length b)%nat
  then Ret (take off b ++ bs ++ drop (off + length bs) b)
  else Panic "runtime error: index out of range".

(** [copy(b, src)] copies what fits. *)
Definition copy_bytes (b src : list Z) : list Z :=
  take (length b) src ++ drop (length src) b.

Definition PutUint16 (o : ByteOrder) (b : list Z) (off : nat) (v : Z) : outcome (list Z) :=
  store b off (bytes16 o v).
Definition PutUint32 (o : ByteOrder) (b : list Z) (off : nat) (v : Z) : outcome (list Z) :=
  store b off (bytes32 o v).

Definition Uint16 (o : ByteOrder) (b : list Z) (off : nat) : option Z :=
  match o, take 2 (drop off b) with
  | LittleEndian, [b0; b1] => Some (Z.lor b0 (Z.shiftl b1 8))
  | BigEndian, [b0; b1] => Some (Z.lor b1 (Z.shiftl b0 8))
  | _, _ => None
  end.

Definition Uint32 (o : ByteOrder) (b : list Z) (off : nat) : option Z :=
  let word := λ b0 b1 b2 b3,
    Z.lor b0 (Z.lor (Z.shiftl b1 8) (Z.lor (Z.shiftl b2 16) (Z.shiftl b3 24))) in
  match o, take 4 (drop off b) with
  | LittleEndian, [b0; b1; b2; b3] => Some (word b0 b1 b2 b3)
  | BigEndian, [b0; b1; b2; b3] => Some (word b3 b2 b1 b0)
  | _, _ => None
  end.

(** ** [header] *)

Definition endian_of (data : Z) : option ByteOrder :=
  if data =? ELFDATA2LSB then Some LittleEndian
  else if data =? ELFDATA2MSB then Some BigEndian
  else None.

Definition field_sizes (class : Z) : nat * nat * nat :=
  if class =? ELFCLASS32 then (2, 2, 2)%nat
  else if class =? ELFCLASS64 then (4, 4, 4)%nat
  else (0, 0, 0)%nat.

(** The body of the inner loop: the header for [osabi[i]] and [flags[f]],
    and its variant without data encoding and version. *)
Definition header_step (e : elfPlatform) (abi flag : Z) (headers : list (list Z))
    : outcome (flow (list (list Z)) (list (list Z) * option error)) :=
  let header := copy_bytes (replicate 40 0) ELFMAG in
  let '(entrySize, phoffSize, shoffSize) := field_sizes (class e) in
  match endian_of (data e) with
  | None =>
      Ret (Return_ ([], Some (Errorf "internal error in entry for %q" [FStr (platform e)] None)))
  | Some endian =>
      header ← store header EI_OSABI [low_byte abi];
      header ← store header EI_CLASS [low_byte (class e)];
      header ← store header EI_DATA [low_byte (data e)];
      header ← store header EI_VERSION [low_byte EV_CURRENT];
      header ← store header EI_ABIVERSION [0];
      header ← PutUint16 endian header 16 ET_EXEC;
      header ← PutUint16 endian header 18 (machine e);
      header ← PutUint32 endian header 20 EV_CURRENT;
      header ← PutUint32 endian header (24 + entrySize + phoffSize + shoffSize) flag;
      let headers := headers ++ [header] in
      if alsoNone e then
        header ← store header EI_DATA [low_byte ELFDATANONE];
        header ← store header EI_VERSION [low_byte EV_NONE];
        header ← PutUint32 endian header 20 EV_NONE;
        Ret (Continue (headers ++ [header]))
      else Ret (Continue headers)
  end.

Definition the_abis (e : elfPlatform) : list Z :=
  if decide (osabi e = []) then [ELFOSABI_NONE] else osabi e.
Definition the_flags (e : elfPlatform) : list Z :=
  if decide (flags e = []) then [0] else flags e.

Definition header (e : elfPlatform) : outcome (list (list Z) * option error) :=
  r ← for_range (λ abi hs,
        for_range (λ flag hs, header_step e abi flag hs) (the_flags e) hs)
      (the_abis e) [];
  match r with
  | Continue headers => Ret (headers, None)
  | Return_ r => Ret r
  end.

(** ** [getKnownELFPlatformHeaders]

    The map and the [sync.Once] which guards its construction. *)
Record header_table := mk_header_table {
  once_done : bool;
  knownELFPlatformHeaders : gmap string (list (list Z))
}.

Definition initial_table : header_table := mk_header_table false ∅.

Definition fill_table (ps : list elfPlatform) (m : gmap string (list (list Z)))
    : outcome (gmap string (list (list Z))) :=
  for_each (λ p m,
    '(headerList, err) ← header p;
    match err with
    | Some _ => Ret m
    | None => Ret (<[platform p := headerList]> m)
    end) ps m.

Definition getKnownELFPlatformHeaders (t : header_table)
    : outcome (gmap string (list (list Z)) * header_table) :=
  if once_done t then Ret (knownELFPlatformHeaders t, t)
  else
    m ← fill_table knownELFPlatforms (knownELFPlatformHeaders t);
    Ret (m, mk_header_table true m).

(** ** The headers, written out *)

Definition gap (class : Z) : nat :=
  let '(a, b, c) := field_sizes class in (a + b + c)%nat.

(** Every header is a 16-byte identification, the type, the machine, the
    version and, after the (zero) addresses, the flags. *)
Definition layout (e : elfPlatform) (o : ByteOrder) (abi flag d version : Z) : list Z :=
  ELFMAG ++ [low_byte (class e); low_byte d; low_byte version; low_byte abi] ++
  replicate 8 0 ++ bytes16 o ET_EXEC ++ bytes16 o (machine e) ++ bytes32 o version ++
  replicate (gap (class e)) 0 ++ bytes32 o flag ++ replicate (12 - gap (class e)) 0.

Definition layouts (e : elfPlatform) (o : ByteOrder) (abi flag : Z) : list (list Z) :=
  layout e o abi flag (data e) EV_CURRENT ::
  (if alsoNone e then [layout e o abi flag ELFDATANONE EV_NONE] else []).

Definition expected_headers (e : elfPlatform) (o : ByteOrder) : list (list Z) :=
  abi ← the_abis e; flag ← the_flags e; layouts e o abi flag.

Lemma field_sizes_cases c :
  field_sizes c = (2, 2, 2)%nat ∨ field_sizes c = (4, 4, 4)%nat ∨ field_sizes c = (0, 0, 0)%nat.
Proof. unfold field_sizes. repeat case_match; auto. Qed.

Lemma header_step_layouts e o abi flag hs :
  endian_of (data e) = Some o →
  header_step e abi flag hs = Ret (Continue (hs ++ layouts e o abi flag)).
Proof.
  intros Ho. unfold header_step, layouts, layout, gap. rewrite Ho.
  destruct (field_sizes_cases (class e)) as [-> |[-> | ->]]; destruct o, (alsoNone e); cbn;
    rewrite <-?(assoc_L (++)); reflexivity.
Qed.

Lemma the_abis_ne e : the_abis e ≠ [].
Proof. unfold the_abis. by case_decide. Qed.

Lemma the_flags_ne e : the_flags e ≠ [].
Proof. unfold the_flags. by case_decide. Qed.

Lemma header_expected e o :
  endian_of (data e) = Some o → header e = Ret (expected_headers e o, None).
Proof.
  intros Ho. unfold header, expected_headers.
  rewrite (for_range_fold _ (λ hs abi, hs ++ (the_flags e ≫= layouts e o abi))).
  - simpl. by rewrite foldl_app_bind.
  - intros abi hs _.
    rewrite (for_range_fold _ (λ hs flag, hs ++ layouts e o abi flag)).
    + by rewrite foldl_app_bind.
    + intros flag hs' _. by apply header_step_layouts.
Qed.

Lemma header_bad_data e :
  endian_of (data e) = None →
  header e = Ret ([], Some (Errorf "internal error in entry for %q" [FStr (platform e)] None)).
Proof.
  intros Ho. unfold header, header_step.
  pose proof (the_abis_ne e). pose proof (the_flags_ne e).
  destruct (the_abis e) as [|abi abis]; [done|].
  destruct (the_flags e) as [|flag flags]; [done|]. cbn -[field_sizes copy_bytes].
  destruct (field_sizes (class e)) as [[??]?]. by rewrite Ho.
Qed.

Lemma header_Ret e hs :
  header e = Ret (hs, None) → ∃ o, endian_of (data e) = Some o ∧ hs = expected_headers e o.
Proof.
  intros Hh. destruct (endian_of (data e)) as [o|] eqn:Ho.
  - rewrite (header_expected e o Ho) in Hh. simplify_eq. eauto.
  - by rewrite header_bad_data in Hh.
Qed.

(** The data byte and the version of the headers of an entry. *)
Definition data_version (e : elfPlatform) (d version : Z) : Prop :=
  (d = data e ∧ version = EV_CURRENT) ∨
  (alsoNone e = true ∧ d = ELFDATANONE ∧ version = EV_NONE).

Lemma elem_of_expected e o h :
  h ∈ expected_headers e o ↔
  ∃ abi flag d version, abi ∈ the_abis e ∧ flag ∈ the_flags e ∧ data_version e d version ∧
    h = layout e o abi flag d version.
Proof.
  unfold expected_headers, layouts, data_version. rewrite list_elem_of_bind. split.
  - intros (abi & Hh & Habi). apply list_elem_of_bind in Hh as (flag & Hh & Hflag).
    exists abi, flag. apply elem_of_cons in Hh as [->|Hh]; [exists (data e), EV_CURRENT; split_and!; auto|].
    destruct (alsoNone e); [|by apply not_elem_of_nil in Hh].
    apply list_elem_of_singleton in Hh as ->. exists ELFDATANONE, EV_NONE. split_and!; auto.
  - intros (abi & flag & d & v & Habi & Hflag & Hdv & ->). exists abi. split; [|done].
    apply list_elem_of_bind. exists flag. split; [|done].
    destruct Hdv as [[-> ->]|(-> & -> & ->)]; [left|right; left].
Qed.

Lemma length_expected e o :
  length (expected_headers e o) =
  (length (the_abis e) * (length (the_flags e) * (if alsoNone e then 2 else 1)))%nat.
Proof.
  apply length_bind_const. intros abi. apply length_bind_const. intros flag.
  unfold layouts. by destruct (alsoNone e).
Qed.

(** ** Bytes and 16-bit words *)

Lemma low_byte_mod v : low_byte v = v mod 256.
Proof. unfold low_byte. change 255 with (Z.ones 8). by rewrite Z.land_ones. Qed.

Lemma low_byte_is_byte v : is_byte (low_byte v).
Proof. rewrite low_byte_mod. apply Z.mod_pos_bound. lia. Qed.

Lemma word_of_bytes v :
  Z.lor (low_byte v) (Z.shiftl (low_byte (Z.shiftr v 8)) 8) = v mod 65536.
Proof.
  unfold low_byte. change 65536 with (2 ^ 16). rewrite <-Z.land_ones by lia.
  apply Z.bits_inj'. intros n Hn. change 255 with (Z.ones 8).
  rewrite Z.lor_spec, !Z.land_spec, Z.shiftl_spec, !Z.testbit_ones_nonneg by lia.
  destruct (Z.ltb_spec n 8).
  - rewrite (Z.testbit_neg_r _ (n - 8)), orb_false_r by lia. f_equal. lia.
  - rewrite Z.land_spec, Z.shiftr_spec, Z.testbit_ones_nonneg by lia.
    replace (n - 8 + 8) with n by lia. rewrite andb_false_r. simpl. f_equal. lia.
Qed.

Lemma dword_of_bytes v :
  Z.lor (low_byte v) (Z.lor (Z.shiftl (low_byte (Z.shiftr v 8)) 8)
    (Z.lor (Z.shiftl (low_byte (Z.shiftr v 16)) 16) (Z.shiftl (low_byte (Z.shiftr v 24)) 24))) =
  v mod 2 ^ 32.
Proof.
  unfold low_byte. rewrite <-Z.land_ones by lia. apply Z.bits_inj'. intros n Hn.
  change 255 with (Z.ones 8).
  assert (∀ k, 0 ≤ k → Z.testbit (Z.shiftl (Z.land (Z.shiftr v k) (Z.ones 8)) k) n =
    (k <=? n) && (n <? k + 8) && Z.testbit v n) as Hbyte.
  { intros k Hk. rewrite Z.shiftl_spec by lia. destruct (Z.leb_spec k n); simpl.
    - rewrite Z.land_spec, Z.shiftr_spec, Z.testbit_ones_nonneg by lia.
      replace (n - k + k) with n by lia. rewrite andb_comm. f_equal.
      destruct (Z.ltb_spec (n - k) 8), (Z.ltb_spec n (k + 8)); auto; lia.
    - by rewrite Z.testbit_neg_r by lia. }
  rewrite !Z.lor_spec, !Hbyte, !Z.land_spec, !Z.testbit_ones_nonneg by lia.
  destruct (Z.testbit v n); rewrite ?andb_false_r; [|done]. rewrite ?andb_true_r, ?andb_true_l.
  destruct (Z.ltb_spec n 8), (Z.leb_spec 8 n), (Z.ltb_spec n (8 + 8)), (Z.leb_spec 16 n),
    (Z.ltb_spec n (16 + 8)), (Z.leb_spec 24 n), (Z.ltb_spec n (24 + 8)), (Z.ltb_spec n 32); auto; lia.
Qed.

#[export] Hint Resolve low_byte_is_byte : bytes.

Lemma bytes16_is_byte o v : Forall is_byte (bytes16 o v).
Proof. destruct o; repeat constructor; apply low_byte_is_byte. Qed.

Lemma bytes32_is_byte o v : Forall is_byte (bytes32 o v).
Proof. destruct o; repeat constructor; apply low_byte_is_byte. Qed.

Lemma zeros_are_bytes n : Forall is_byte (replicate n 0).
Proof. induction n; simpl; constructor; done. Qed.

#[export] Hint Resolve bytes16_is_byte bytes32_is_byte zeros_are_bytes : bytes.

Lemma layout_is_byte e o abi flag d version : Forall is_byte (layout e o abi flag d version).
Proof.
  unfold layout. rewrite !Forall_app. split_and!; auto with bytes.
  all: repeat constructor; auto with bytes; done.
Qed.

Lemma layout_length e o abi flag d version : length (layout e o abi flag d version) = 40%nat.
Proof.
  unfold layout, gap. destruct (field_sizes_cases (class e)) as [-> |[-> | ->]]; by destruct o.
Qed.

Lemma layout_machine e o abi flag d version :
  Uint16 o (layout e o abi flag d version) 18 = Some (machine e mod 65536).
Proof. rewrite <-word_of_bytes. by destruct o. Qed.

Lemma layout_type e o abi flag d version :
  Uint16 o (layout e o abi flag d version) 16 = Some ET_EXEC.
Proof. by destruct o. Qed.

(** ** The table of known platforms *)

Definition add_headers (m : gmap string (list (list Z))) (e : elfPlatform) :
    gmap string (list (list Z)) :=
  match endian_of (data e) with
  | Some o => <[platform e := expected_headers e o]> m
  | None => m
  end.

Lemma fill_table_fold ps m : fill_table ps m = Ret (foldl add_headers m ps).
Proof.
  unfold fill_table. apply for_each_fold. intros e m' _. unfold add_headers.
  destruct (endian_of (data e)) as [o|] eqn:Ho.
  - by rewrite (header_expected e o Ho).
  - by rewrite header_bad_data.
Qed.

Lemma foldl_add_headers_Some ps m p hs :
  foldl add_headers m ps !! p = Some hs →
  (∃ e o, e ∈ ps ∧ platform e = p ∧ endian_of (data e) = Some o ∧ hs = expected_headers e o)
  ∨ m !! p = Some hs.
Proof.
  revert m. induction ps as [|e ps IH]; intros m Hm; simpl in Hm; [by right|].
  destruct (IH _ Hm) as [(e' & o & Hin & Hp & Ho & Hhs)|Hm']; [left; set_solver|].
  unfold add_headers in Hm'. destruct (endian_of (data e)) as [o|] eqn:Ho; [|by right].
  apply lookup_insert_Some in Hm' as [[Hp Hhs]|[_ ?]]; [left; set_solver|by right].
Qed.

(** The map every caller of [getKnownELFPlatformHeaders] sees. *)
Definition known_headers : gmap string (list (list Z)) :=
  foldl add_headers ∅ knownELFPlatforms.

Lemma known_headers_Some p hs :
  known_headers !! p = Some hs →
  ∃ e o, e ∈ knownELFPlatforms ∧ platform e = p ∧ endian_of (data e) = Some o ∧
    hs = expected_headers e o.
Proof.
  unfold known_headers. generalize knownELFPlatforms. intros ps.
  intros [?|Hm]%foldl_add_headers_Some; [assumption|by rewrite lookup_empty in Hm].
Qed.

Lemma getKnown_initial :
  getKnownELFPlatformHeaders initial_table = Ret (known_headers, mk_header_table true known_headers).
Proof.
  unfold getKnownELFPlatformHeaders, initial_table. cbn [once_done knownELFPlatformHeaders].
  rewrite fill_table_fold. reflexivity.
Qed.

(** A table which is either fresh or already filled in. *)
Definition table_ok (t : header_table) : Prop :=
  t = initial_table ∨ t = mk_header_table true known_headers.

Lemma getKnown_ok t :
  table_ok t →
  getKnownELFPlatformHeaders t = Ret (known_headers, mk_header_table true known_headers).
Proof. intros [-> | ->]; [apply getKnown_initial|reflexivity]. Qed.

(** Platforms with a header in common have the same name. *)
Definition share_header (e1 e2 : elfPlatform) : bool :=
  match endian_of (data e1), endian_of (data e2) with
  | Some o1, Some o2 =>
      existsb (λ h, bool_decide (h ∈ expected_headers e2 o2)) (expected_headers e1 o1)
  | _, _ => false
  end.

Lemma known_headers_separate :
  Forall (λ e1, Forall (λ e2, share_header e1 e2 = true → platform e1 = platform e2)
    knownELFPlatforms) knownELFPlatforms.
Proof.
  assert (forallb (λ e1, forallb (λ e2, implb (share_header e1 e2)
    (bool_decide (platform e1 = platform e2))) knownELFPlatforms) knownELFPlatforms = true)
    as Hall by (vm_compute; reflexivity).
  rewrite forallb_forall in Hall. apply Forall_forall. intros e1 He1%list_elem_of_In.
  specialize (Hall e1 He1). rewrite forallb_forall in Hall.
  apply Forall_forall. intros e2 He2%list_elem_of_In Hs.
  specialize (Hall e2 He2). rewrite Hs in Hall. simpl in Hall. by apply bool_decide_eq_true in Hall.
Qed.

(** ** Properties *)

(** [header] never panics: all its stores into the 40-byte buffer are in
    range, whatever the entry.  An entry with an unknown data encoding gets
    the internal error; any other gets one header (two when [alsoNone] is
    set) for each combination of an OS ABI and a flags word, and every
    header has 40 bytes. *)
Theorem header_no_panic e :
  ∃ hs err, header e = Ret (hs, err) ∧
    match endian_of (data e) with
    | None => hs = [] ∧ is_Some err
    | Some _ =>
        err = None ∧
        length hs =
          (length (the_abis e) * (length (the_flags e) * (if alsoNone e then 2 else 1)))%nat ∧
        Forall (λ h, length h = 40%nat ∧ Forall is_byte h) hs
    end.
Proof.
  destruct (endian_of (data e)) as [o|] eqn:Ho.
  - exists (expected_headers e o), None. split_and!; [by apply header_expected|done| |].
    + apply length_expected.
    + apply Forall_forall. intros h (abi & flag & d & v & _ & _ & _ & ->)%elem_of_expected.
      auto using layout_length, layout_is_byte.
  - eexists _, _. split; [by apply header_bad_data|eauto].
Qed.

(** Where the code puts the flags. *)
Definition flags_offset (class : Z) : nat :=
  if class =? ELFCLASS32 then 30%nat else if class =? ELFCLASS64 then 36%nat else 24%nat.

(** What a header says, byte by byte, read in the byte order [o]. *)
Record describes (e : elfPlatform) (o : ByteOrder) (abi flag d version : Z) (h : list Z) : Prop := {
  h_length : length h = 40%nat;
  h_magic : take 4 h = [0x7f; 0x45; 0x4c; 0x46];
  h_class : h !! 4%nat = Some (class e mod 256);
  h_data : h !! 5%nat = Some (d mod 256);
  h_version : h !! 6%nat = Some (version mod 256);
  h_osabi : h !! 7%nat = Some (abi mod 256);
  h_padding : take 8 (drop 8 h) = replicate 8 0;
  h_type : Uint16 o h 16 = Some 2;
  h_machine : Uint16 o h 18 = Some (machine e mod 2 ^ 16);
  h_version_word : Uint32 o h 20 = Some (version mod 2 ^ 32);
  h_flags : Uint32 o h (flags_offset (class e)) = Some (flag mod 2 ^ 32);
  h_before_flags : take (flags_offset (class e) - 24) (drop 24 h) =
    replicate (flags_offset (class e) - 24) 0;
  h_after_flags : drop (flags_offset (class e) + 4) h = replicate (36 - flags_offset (class e)) 0
}.

Lemma flags_offset_gap c : flags_offset c = (24 + gap c)%nat.
Proof. unfold flags_offset, gap, field_sizes. by repeat case_match. Qed.

Lemma layout_describes e o abi flag d version :
  describes e o abi flag d version (layout e o abi flag d version).
Proof.
  assert (∀ f, Uint32 o (bytes32 o f) 0 = Some (f mod 2 ^ 32)) as Hdword
    by (intros f; rewrite <-dword_of_bytes; by destruct o).
  split; rewrite ?flags_offset_gap; unfold layout, gap; rewrite <-?low_byte_mod;
    try (by destruct o).
  - rewrite !length_app, !length_replicate. destruct (field_sizes_cases (class e)) as [-> |[-> | ->]]; by destruct o.
  - change (2 ^ 16) with 65536. rewrite <-word_of_bytes. by destruct o.
  - rewrite <-Hdword. by destruct o.
  - rewrite <-Hdword. destruct (field_sizes_cases (class e)) as [-> |[-> | ->]]; by destruct o.
  - destruct (field_sizes_cases (class e)) as [-> |[-> | ->]]; by destruct o.
  - destruct (field_sizes_cases (class e)) as [-> |[-> | ->]]; by destruct o.
Qed.

(** C29: The headers generated for an entry of the table, for any entry with a
    byte order: each has 40 bytes, which are the ELF magic, the class, the
    data encoding, the version and one of the entry's OS ABIs, zeros, then in
    the entry's byte order and reduced to their widths the executable type,
    the machine, the version, and one of the entry's flags words at offset 30
    (32-bit) or 36 (64-bit), and zeros elsewhere.  Every combination of an OS
    ABI and a flags word has a header, and a second one, without data encoding
    and version, if the entry says so. *)
Theorem header_fields e hs :
  header e = Ret (hs, None) →
  ∃ o, endian_of (data e) = Some o ∧
    (∀ h, h ∈ hs → ∃ abi flag d version,
       abi ∈ the_abis e ∧ flag ∈ the_flags e ∧ data_version e d version ∧
       describes e o abi flag d version h) ∧
    (∀ abi flag d version,
       abi ∈ the_abis e → flag ∈ the_flags e → data_version e d version →
       ∃ h, h ∈ hs ∧ describes e o abi flag d version h).
Proof.
  intros (o & Ho & ->)%header_Ret. exists o. split; [done|].
  setoid_rewrite elem_of_expected. split.
  - intros h (abi & flag & d & v & ? & ? & ? & ->).
    exists abi, flag, d, v. auto using layout_describes.
  - intros abi flag d v ???. exists (layout e o abi flag d v).
    split; [by exists abi, flag, d, v|apply layout_describes].
Qed.

Lemma header_fields_witness :
  let e := mk_elfPlatform "linux/riscv32" [ELFOSABI_NONE; ELFOSABI_LINUX] ELFCLASS32 ELFDATA2LSB
             true EM_RISCV [0x01020304] in
  ∃ hs h, header e = Ret (hs, None) ∧ length hs = 4%nat ∧ h ∈ hs ∧
    describes e LittleEndian ELFOSABI_LINUX 0x01020304 ELFDATANONE EV_NONE h ∧
    drop 30 h = [4; 3; 2; 1; 0; 0; 0; 0; 0; 0].
Proof.
  intros e.
  assert (header e = Ret (expected_headers e LittleEndian, None)) as He by (vm_compute; reflexivity).
  destruct (header_fields e _ He) as (o & Ho & _ & Hall).
  assert (o = LittleEndian) as -> by (vm_compute in Ho; congruence).
  destruct (Hall ELFOSABI_LINUX 0x01020304 ELFDATANONE EV_NONE) as (h & Hh & Hd).
  - right. left.
  - left.
  - by right.
  - exists (expected_headers e LittleEndian), h. split; [exact He|]. split; [reflexivity|].
    split; [exact Hh|]. split; [exact Hd|].
    pose proof (h_flags _ _ _ _ _ _ _ Hd) as Hf.
    vm_compute in Hh. apply list_elem_of_In in Hh. simpl in Hh.
    repeat destruct Hh as [<-|Hh]; [reflexivity..|destruct Hh].
Defined.

(** C30: The table of headers: whether it is called for the first time or
    again, [getKnownELFPlatformHeaders] returns the same map without a
    panic; every entry of [knownELFPlatforms] is in it (none is dropped with
    the internal error), and nothing else is. *)
Theorem known_headers_complete t :
  table_ok t →
  ∃ m t', getKnownELFPlatformHeaders t = Ret (m, t') ∧ table_ok t' ∧
    getKnownELFPlatformHeaders t' = Ret (m, t') ∧
    dom m = list_to_set (platform <$> knownELFPlatforms).
Proof.
  intros Ht. exists known_headers, (mk_header_table true known_headers).
  split_and!; [by apply getKnown_ok|by right|reflexivity|].
  apply (bool_decide_unpack (dom known_headers = list_to_set (platform <$> knownELFPlatforms))).
  vm_compute. exact I.
Qed.

Lemma known_headers_complete_witness :
  ∃ m t', getKnownELFPlatformHeaders initial_table = Ret (m, t') ∧
    dom m = list_to_set (platform <$> knownELFPlatforms).
Proof.
  destruct (known_headers_complete initial_table (or_introl eq_refl)) as (m & t' & H & _ & _ & Hd).
  exists m, t'. split; [exact H | exact Hd].
Defined.

(** A header identifies its platform: no header of the table belongs to two
    platforms. *)
Lemma known_headers_disjoint p1 p2 hs1 hs2 h :
  known_headers !! p1 = Some hs1 → known_headers !! p2 = Some hs2 → h ∈ hs1 → h ∈ hs2 → p1 = p2.
Proof.
  intros (e1 & o1 & He1 & <- & Ho1 & ->)%known_headers_Some.
  intros (e2 & o2 & He2 & <- & Ho2 & ->)%known_headers_Some Hh1 Hh2.
  pose proof known_headers_separate as Hsep. rewrite Forall_forall in Hsep.
  specialize (Hsep e1 He1). rewrite Forall_forall in Hsep. apply (Hsep e2 He2).
  unfold share_header. rewrite Ho1, Ho2. apply existsb_exists. exists h.
  split; [by apply list_elem_of_In|by apply bool_decide_eq_true].
Qed.

Lemma known_headers_shape p hs h :
  known_headers !! p = Some hs → h ∈ hs → length h = 40%nat ∧ Forall is_byte h.
Proof.
  intros (e & o & _ & _ & _ & ->)%known_headers_Some (abi & flag & d & v & _ & _ & _ & ->)%elem_of_expected.
  auto using layout_length, layout_is_byte.
Qed.
