(* ===== verification/Binfmt.v ===== *)
(** * Registered emulators

    Model of [src/emulation/binfmtmisc_linux.go] and [emulation.go]: parsing
    an entry of [/proc/sys/fs/binfmt_misc] ([parseBinfmtMisc]), matching its
    magic against a header ([magicMatch]), walking the directory
    ([registeredBinfmtMisc]) and the exported [Registered].  The file system
    is a tree of nodes which carry what [Info], [Open], [ReadDir] and
    reading them return. *)

From S2P Require Import Prelude GoStrings Elf.
Local Open Scope Z_scope.

(** ** [magicMatch] *)

(** The loop of [magicMatch] at [i = offset + k]; [rest] is [magic[k:]]. *)
Fixpoint match_loop (header : list Z) (offset : Z) (mask : list Z)
    (k : nat) (rest : list Z) (mismatch : Z) : outcome Z :=
  match rest with
  | [] => Ret mismatch
  | m :: rest =>
      let i := offset + Z.of_nat k in
      if i >=? Z.of_nat (length header) then Ret mismatch
      else
        let m := match mask !! k with Some b => Z.land m b | None => m end in
        if i <? 0 then Panic "runtime error: index out of range"
        else match header !! Z.to_nat i with
             | None => Panic "runtime error: index out of range"
             | Some b =>
                 if b =? m then match_loop header offset mask (S k) rest (i + 1)
                 else Ret mismatch
             end
  end.

Definition magicMatch (header : list Z) (offset : Z) (mask magic : list Z) : outcome bool :=
  mismatch ← match_loop header offset mask 0 magic 0;
  Ret (mismatch >=? offset + Z.of_nat (length magic)).

(** ** [parseBinfmtMisc] *)

Record parse_state := mk_parse {
  p_offset : Z;
  p_magic : string;
  p_mask : string
}.

Definition parse_result : Type := Z * list Z * list Z * option error.

Definition ignored : parse_result := (-1, [], [], None).
Definition parse_failed (format : string) (args : list string) : parse_result :=
  (-1, [], [], Some (Errorf format (FStr <$> args) None)).

(** The switch on the first field of a line. *)
Definition parse_fields (path text : string) (fields : list string) (st : parse_state)
    : outcome (flow parse_state parse_result) :=
  let invalid_format :=
    Ret (Return_ (parse_failed "invalid format for %q in %q" [text; path])) in
  match fields with
  | [] => Panic "runtime error: index out of range"
  | field :: args =>
      if decide (field = "disabled") then Ret (Return_ ignored)
      else if decide (field = "enabled") then Ret (Continue st)
      else if decide (field = "interpreter") then Ret (Continue st)
      else if decide (field = "offset") then
        match args with
        | [v] =>
            match ParseInt v 8 with
            | None => Ret (Return_ (parse_failed "invalid offset %q in %q" [v; path]))
            | Some off => Ret (Continue (mk_parse off (p_magic st) (p_mask st)))
            end
        | _ => invalid_format
        end
      else if decide (field = "magic") then
        match args with
        | [v] => Ret (Continue (mk_parse (p_offset st) v (p_mask st)))
        | _ => invalid_format
        end
      else if decide (field = "mask") then
        match args with
        | [v] => Ret (Continue (mk_parse (p_offset st) (p_magic st) v))
        | _ => invalid_format
        end
      else if decide (field = "flags" ∨ field = "flags:") then
        match args with
        | [v] =>
            if contains_byte "F" v then Ret (Continue st) else Ret (Return_ ignored)
        | _ => invalid_format
        end
      else Ret (Return_ (parse_failed "unrecognized field %q in %q" [field; path]))
  end.

(** One line of the entry. *)
Definition parse_line (path text : string) (st : parse_state)
    : outcome (flow parse_state parse_result) :=
  if decide (TrimSpace text = EmptyString) then Ret (Continue st)
  else parse_fields path text (Fields text) st.

(** After the last line. *)
Definition parse_finish (path : string) (st : parse_state) : parse_result :=
  if decide (p_magic st = EmptyString ∨ p_mask st = EmptyString) then ignored
  else
    match DecodeString (p_magic st) with
    | None => parse_failed "invalid magic %q in %q" [p_magic st; path]
    | Some magic =>
        match DecodeString (p_mask st) with
        | None => parse_failed "invalid mask %q in %q" [p_mask st; path]
        | Some mask => (p_offset st, magic, mask, None)
        end
    end.

(** [content] is what the reader delivers before it ends or fails: the
    scanner's error is not looked at. *)
Definition parseBinfmtMisc (path content : string) : outcome parse_result :=
  r ← for_range (parse_line path) (scan_lines content) (mk_parse 0 EmptyString EmptyString);
  match r with
  | Continue st => Ret (parse_finish path st)
  | Return_ r => Ret r
  end.

(** ** The file system *)

(** A directory entry and what can be done with it: [d.IsDir()], [d.Info()]
    (whether the mode is regular), opening and reading the file (its bytes
    and the error which ended reading, if any), [os.ReadDir]. *)
Inductive fsnode := mk_node {
  is_dir : bool;
  node_info : error + bool;
  node_open : error + (string * option error);
  node_entries : list (string * fsnode);
  readdir_error : option error
}.

Definition Base (path : string) : string :=
  match last (filter (λ s, s ≠ EmptyString) (Split path "/")) with
  | Some name => name
  | None => if decide (path = EmptyString) then "." else "/"
  end.

Definition path_join (dir name : string) : string := str_app dir (String "/" name).

Section WalkDir.
Context {St : Type}.
Variable fn : string → option fsnode → option error → Go St (option error).

(** The loop of [filepath.walkDir] over the entries of a directory. *)
Definition walk_entries (walk : string → fsnode → Go St (option error)) (path : string)
    : list (string * fsnode) → Go St (option error) :=
  fix go l :=
    match l with
    | [] => mret None
    | (name, d1) :: l =>
        err ← walk (path_join path name) d1;
        match err with
        | Some e => mret (Some e)
        | None => go l
        end
    end.

(** [filepath.walkDir]; the callback of this program never returns
    [SkipDir]. *)
Fixpoint walkDir (path : string) (d : fsnode) : Go St (option error) :=
  err ← fn path (Some d) None;
  match err with
  | Some e => mret (Some e)
  | None =>
      if is_dir d then
        err ← match readdir_error d with
              | Some e => fn path (Some d) (Some e)
              | None => mret None
              end;
        match err with
        | Some e => mret (Some e)
        | None => walk_entries walkDir path (node_entries d)
        end
      else mret None
  end.

(** [filepath.WalkDir]; [root] is what [os.Lstat] says of the path. *)
Definition WalkDir (path : string) (root : error + fsnode) : Go St (option error) :=
  match root with
  | inl e => fn path None (Some e)
  | inr d => walkDir path d
  end.
End WalkDir.

(** ** [registeredBinfmtMisc] *)

Record walk_state := mk_walk {
  registered : list string;
  globalEnabled : bool;
  globalPlatform : string;
  w_table : header_table
}.

Definition binfmt_root : string := "/proc/sys/fs/binfmt_misc".

(** The loop over the headers of one platform. *)
Fixpoint match_headers (platform : string) (hs : list (list Z)) (offset : Z)
    (mask magic : list Z) (st : walk_state) : outcome walk_state :=
  match hs with
  | [] => Ret st
  | header :: hs =>
      let st := mk_walk (registered st) (globalEnabled st) platform (w_table st) in
      b ← magicMatch header offset mask magic;
      if (b : bool) then
        Ret (mk_walk (registered st ++ [platform]) (globalEnabled st) (globalPlatform st) (w_table st))
      else match_headers platform hs offset mask magic st
  end.

Section Registered.
Context `{RangeOracle}.

(** The loop over the known platforms. *)
Definition match_platforms (path : string) (offset : Z) (mask magic : list Z)
    : Go walk_state () := λ st,
  match getKnownELFPlatformHeaders (w_table st) with
  | Panic m => (Panic m, st)
  | Ret (known, t) =>
      let st := mk_walk (registered st) (globalEnabled st) (globalPlatform st) t in
      match for_each (λ '(platform, hs) st, match_headers platform hs offset mask magic st)
              (range_map path known) st with
      | Ret st => (Ret tt, st)
      | Panic m => (Panic m, st)
      end
  end.

Definition set_enabled (b : bool) : Go walk_state () :=
  go_modify (λ st, mk_walk (registered st) b (globalPlatform st) (w_table st)).

(** The callback. *)
Definition visit (path : string) (d : option fsnode) (err : option error)
    : Go walk_state (option error) :=
  if decide (Base path = "register") then mret None
  else if match err with Some e => negb (is_not_exist e) | None => false end then mret err
  else match d with
  | None => go_panic "runtime error: invalid memory address or nil pointer dereference"
  | Some d =>
      match node_info d with
      | inl e => mret (Some e)
      | inr false => mret None
      | inr true =>
          match node_open d with
          | inl e => mret (Some e)
          | inr (content, read_error) =>
              if decide (Base path = "status") then
                match read_error with
                | Some e => mret (Some e)
                | None =>
                    let status := TrimSpace content in
                    if decide (status = "disabled") then set_enabled false;; mret None
                    else if decide (status = "enabled") then set_enabled true;; mret None
                    else mret (Some (Errorf "unrecognized binfmt_misc status value %q in %q"
                                       [FStr status; FStr path] None))
                end
              else
                '(offset, magic, mask, err) ← go_lift (parseBinfmtMisc path content);
                match err with
                | Some e => mret (Some e)
                | None =>
                    if offset <? 0 then mret None
                    else match_platforms path offset mask magic;; mret None
                end
          end
      end
  end.

(** Returns the platforms, the error and the new state of the table. *)
Definition registeredBinfmtMisc (root : error + fsnode) (t : header_table)
    : outcome (list string * option error) * header_table :=
  match WalkDir visit binfmt_root root (mk_walk [] false EmptyString t) with
  | (Panic m, st) => (Panic m, w_table st)
  | (Ret err, st) =>
      (Ret (if globalEnabled st then (sort_Strings (registered st), err) else ([], None)),
       w_table st)
  end.

(** [emulation.Registered]. *)
Definition Registered (root : error + fsnode) (t : header_table)
    : outcome (list string) * header_table :=
  match registeredBinfmtMisc root t with
  | (Panic m, t) => (Panic m, t)
  | (Ret (_, Some _), t) => (Ret [], t)
  | (Ret (binfmt, None), t) => (Ret binfmt, t)
  end.
End Registered.

(** ** What [magicMatch] decides *)

(** The byte the loop expects: the magic byte, masked where the mask has a
    byte for it. *)
Definition masked (mask : list Z) (k : nat) (m : Z) : Z :=
  match mask !! k with Some b => Z.land m b | None => m end.

Definition matches_at (header : list Z) (offset : Z) (mask : list Z) (k : nat) (m : Z) : Prop :=
  header !! (Z.to_nat offset + k)%nat = Some (masked mask k m).

Lemma match_loop_spec header offset mask k rest mm :
  0 ≤ offset →
  ∃ n, (n ≤ length rest)%nat ∧
    match_loop header offset mask k rest mm =
      Ret (if decide (n = 0%nat) then mm else offset + Z.of_nat k + Z.of_nat n) ∧
    (∀ j m, (j < n)%nat → rest !! j = Some m → matches_at header offset mask (k + j) m) ∧
    (∀ m, rest !! n = Some m → ¬ matches_at header offset mask (k + n) m).
Proof.
  intros Hoff. revert k mm. induction rest as [|m rest IH]; intros k mm; simpl.
  { exists 0%nat. split_and!; [lia|done|lia|done]. }
  fold (masked mask k m).
  assert (¬ matches_at header offset mask k m →
    ∃ n, (n ≤ S (length rest))%nat ∧
      Ret mm = Ret (if decide (n = 0%nat) then mm else offset + Z.of_nat k + Z.of_nat n) ∧
      (∀ j m', (j < n)%nat → (m :: rest) !! j = Some m' → matches_at header offset mask (k + j) m') ∧
      (∀ m', (m :: rest) !! n = Some m' → ¬ matches_at header offset mask (k + n) m')) as Hstop.
  { intros Hno. exists 0%nat. split_and!; [lia|done|lia|]. intros ? [= <-].
    by replace (k + 0)%nat with k by lia. }
  unfold matches_at in *.
  destruct (Z.geb_spec (offset + Z.of_nat k) (Z.of_nat (length header))) as [Hge|Hlt].
  { apply Hstop. rewrite lookup_ge_None_2 by lia. done. }
  replace (offset + Z.of_nat k <? 0) with false by lia.
  replace (Z.to_nat (offset + Z.of_nat k)) with (Z.to_nat offset + k)%nat by lia.
  destruct (header !! (Z.to_nat offset + k)%nat) as [b|] eqn:Hb.
  2:{ apply lookup_ge_None in Hb. lia. }
  destruct (Z.eqb_spec b (masked mask k m)) as [->|Hne]; [|apply Hstop; congruence].
  destruct (IH (S k) (offset + Z.of_nat k + 1)) as (n & Hn & -> & Hall & Hstop').
  exists (S n). split_and!.
  - lia.
  - f_equal. repeat case_decide; lia.
  - intros [|j] m' Hj Hm'; simplify_eq/=.
    + by replace (k + 0)%nat with k by lia.
    + replace (k + S j)%nat with (S k + j)%nat by lia. apply Hall; [lia|done].
  - intros m' Hm'. replace (k + S n)%nat with (S k + n)%nat by lia. by apply Hstop'.
Qed.

Lemma magicMatch_spec header offset mask magic :
  0 ≤ offset → magic ≠ [] →
  ∃ b, magicMatch header offset mask magic = Ret b ∧
    (b = true ↔ ∀ k m, magic !! k = Some m → matches_at header offset mask k m).
Proof.
  intros Hoff Hne. unfold magicMatch.
  destruct (match_loop_spec header offset mask 0 magic 0 Hoff) as (n & Hn & -> & Hall & Hstop).
  eexists. split; [reflexivity|].
  assert (0 < length magic)%nat by (destruct magic; simpl; [done|lia]).
  rewrite Z.geb_leb, Z.leb_le. split.
  - intros Hle k m Hk. apply (Hall k); [|done]. apply lookup_lt_Some in Hk.
    case_decide; lia.
  - intros Hm. assert (n = length magic) as ->.
    { destruct (decide (n = length magic)) as [|Hlt]; [done|].
      destruct (lookup_lt_is_Some_2 magic n) as [m Hmn]; [lia|].
      by destruct (Hstop m Hmn); apply Hm. }
    case_decide; lia.
Qed.

(** Without magic bytes only a match at the very start counts. *)
Lemma magicMatch_nil header offset mask :
  magicMatch header offset mask [] = Ret (0 >=? offset).
Proof. unfold magicMatch. simpl. f_equal. f_equal. lia. Qed.

(** The rule by which the kernel's binfmt_misc selects an entry: the
    header and the magic agree on the bits of the mask. *)
Definition kernel_selects (header : list Z) (offset : Z) (mask magic : list Z) : Prop :=
  ∀ k m, magic !! k = Some m →
    ∃ b, header !! (Z.to_nat offset + k)%nat = Some b ∧
      match mask !! k with
      | Some x => Z.land (Z.lxor b m) x = 0
      | None => b = m
      end.

Lemma matches_at_kernel header offset mask k m :
  matches_at header offset mask k m →
  ∃ b, header !! (Z.to_nat offset + k)%nat = Some b ∧
    match mask !! k with Some x => Z.land (Z.lxor b m) x = 0 | None => b = m end.
Proof.
  unfold matches_at, masked. intros ->. eexists. split; [done|].
  destruct (mask !! k) as [x|]; [|done].
  apply Z.bits_inj'. intros n Hn.
  rewrite Z.land_spec, Z.lxor_spec, Z.land_spec, Z.bits_0.
  by destruct (Z.testbit m n), (Z.testbit x n).
Qed.

(** What the loop requires beyond the kernel's rule: the header has no bit
    set outside the mask. *)
Definition within_mask (header : list Z) (offset : Z) (mask magic : list Z) : Prop :=
  ∀ k m b x, magic !! k = Some m → header !! (Z.to_nat offset + k)%nat = Some b →
    mask !! k = Some x → Z.ldiff b x = 0.

Lemma kernel_within_matches header offset mask magic k m :
  kernel_selects header offset mask magic → within_mask header offset mask magic →
  magic !! k = Some m → matches_at header offset mask k m.
Proof.
  intros Hk Hw Hm. destruct (Hk k m Hm) as (b & Hb & Hsel).
  unfold matches_at, masked. rewrite Hb. f_equal.
  destruct (mask !! k) as [x|] eqn:Hx; [|done].
  specialize (Hw k m b x Hm Hb Hx).
  apply Z.bits_inj'. intros n Hn. rewrite Z.land_spec.
  apply (f_equal (λ z, Z.testbit z n)) in Hw, Hsel.
  rewrite Z.ldiff_spec, Z.bits_0 in Hw. rewrite Z.land_spec, Z.lxor_spec, Z.bits_0 in Hsel.
  by destruct (Z.testbit b n), (Z.testbit m n), (Z.testbit x n).
Qed.

Lemma matches_within header offset mask magic :
  (∀ k m, magic !! k = Some m → matches_at header offset mask k m) →
  within_mask header offset mask magic.
Proof.
  intros Hall k m b x Hm Hb Hx. specialize (Hall k m Hm).
  unfold matches_at, masked in Hall. rewrite Hb, Hx in Hall. simplify_eq.
  apply Z.bits_inj'. intros n Hn. rewrite Z.ldiff_spec, Z.land_spec, Z.bits_0.
  by destruct (Z.testbit m n), (Z.testbit x n).
Qed.

(** ** Parsing an entry: totality and shape of the result *)

Definition offset_in_range (off : Z) : Prop := -128 ≤ off < 128.

Definition result_ok (r : parse_result) : Prop :=
  let '(off, magic, mask, err) := r in
  match err with
  | Some _ => off = -1 ∧ magic = [] ∧ mask = []
  | None =>
      (off = -1 ∧ magic = [] ∧ mask = []) ∨
      (offset_in_range off ∧ magic ≠ [] ∧ mask ≠ [] ∧
       Forall is_byte magic ∧ Forall is_byte mask)
  end.

Lemma ignored_ok : result_ok ignored.
Proof. by left. Qed.

Lemma parse_failed_ok f args : result_ok (parse_failed f args).
Proof. done. Qed.

#[local] Hint Resolve ignored_ok parse_failed_ok : core.

Lemma parse_line_ok path text st :
  offset_in_range (p_offset st) →
  ∃ r, parse_line path text st = Ret r ∧
    match r with
    | Continue st' => offset_in_range (p_offset st')
    | Return_ r => result_ok r
    end.
Proof.
  intros Hst. unfold parse_line. case_decide as Htrim; [eauto|].
  rewrite TrimSpace_Fields in Htrim. unfold parse_fields.
  destruct (Fields text) as [|field args]; [done|].
  repeat match goal with
  | |- ∃ r, (if decide ?P then _ else _) = _ ∧ _ => destruct (decide P); [clear Htrim|]
  end; try by (eexists; split; [reflexivity|]; cbn -[result_ok]; auto).
  all: destruct args as [|v [|??]]; try by (eexists; split; [reflexivity|]; cbn -[result_ok]; auto).
  - destruct (ParseInt v 8) as [off|] eqn:Hv; eexists; (split; [reflexivity|]); [|done].
    apply ParseInt_range in Hv; done.
  - destruct (contains_byte "F" v); eexists; (split; [reflexivity|]); cbn -[result_ok]; auto.
Qed.

Lemma DecodeString_ne s bs : s ≠ EmptyString → DecodeString s = Some bs → bs ≠ [].
Proof. intros Hs Hd%DecodeString_length ->. by destruct s. Qed.

Lemma parse_finish_ok path st :
  offset_in_range (p_offset st) → result_ok (parse_finish path st).
Proof.
  intros Hst. unfold parse_finish. case_decide as Hne; [done|].
  apply Decidable.not_or in Hne as [Hne1 Hne2].
  destruct (DecodeString (p_magic st)) as [magic|] eqn:H1; [|done].
  destruct (DecodeString (p_mask st)) as [mask|] eqn:H2; [|done].
  right. eauto 10 using DecodeString_ne, DecodeString_bytes.
Qed.

Lemma parseBinfmtMisc_ok path content :
  ∃ r, parseBinfmtMisc path content = Ret r ∧ result_ok r.
Proof.
  unfold parseBinfmtMisc.
  destruct (for_range_inv (λ st, offset_in_range (p_offset st)) result_ok
    (parse_line path) (scan_lines content) (mk_parse 0 EmptyString EmptyString))
    as ([st|r] & -> & Hr); [|done| |]; simpl; eauto using parse_line_ok, parse_finish_ok.
Qed.

(** ** Parsing what the kernel prints *)

Record entry := mk_entry {
  e_interpreter : string;
  e_flags : string;
  e_offset : Z;
  e_magic : list Z;
  e_mask : list Z
}.

Definition field_line (field value : string) : string := str_app field (String " " value).

(** The text of an enabled magic entry with a mask in binfmt_misc. *)
Definition entry_lines (e : entry) : list string := [
  "enabled"; field_line "interpreter" (e_interpreter e); field_line "flags:" (e_flags e);
  field_line "offset" (pretty (e_offset e));
  field_line "magic" (EncodeToString (e_magic e));
  field_line "mask" (EncodeToString (e_mask e))
].

Definition print_entry (e : entry) : string := unlines (entry_lines e).

Definition entry_ok (e : entry) : Prop :=
  contains_byte newline (e_interpreter e) = false ∧
  contains_byte carriage_return (e_interpreter e) = false ∧
  (String.length (e_interpreter e) < 4096)%nat ∧
  plain (e_flags e) = true ∧ (String.length (e_flags e) < 16)%nat ∧
  0 ≤ e_offset e < 128 ∧
  e_magic e ≠ [] ∧ Forall is_byte (e_magic e) ∧ (length (e_magic e) ≤ 256)%nat ∧
  e_mask e ≠ [] ∧ Forall is_byte (e_mask e) ∧ (length (e_mask e) ≤ 256)%nat.

Lemma entry_lines_short e : entry_ok e → Forall short_line (entry_lines e).
Proof.
  intros (Hi1 & Hi2 & Hi3 & Hf & Hflen & Ho & Hm1 & Hm2 & Hm3 & Hk1 & Hk2 & Hk3).
  destruct (ParseInt_pretty (e_offset e) Ho) as (_ & Hp & _ & Hplen).
  pose proof (EncodeToString_plain _ Hm2). pose proof (EncodeToString_plain _ Hk2).
  pose proof (EncodeToString_length (e_magic e)). pose proof (EncodeToString_length (e_mask e)).
  repeat constructor; try (apply short_line_field; try done);
    try (by apply plain_no_control); unfold MaxScanTokenSize; cbn [String.length]; lia.
Qed.

Lemma parse_line_fields path text st :
  Fields text ≠ [] → parse_line path text st = parse_fields path text (Fields text) st.
Proof. intros Hf. unfold parse_line. by rewrite decide_False by by rewrite TrimSpace_Fields. Qed.

Lemma parse_line_two path field value st :
  plain field = true → field ≠ EmptyString → plain value = true → value ≠ EmptyString →
  parse_line path (field_line field value) st =
  parse_fields path (field_line field value) [field; value] st.
Proof. intros. unfold field_line. rewrite parse_line_fields; by rewrite Fields_two. Qed.

Lemma parse_interpreter path value st :
  parse_line path (field_line "interpreter" value) st = Ret (Continue st).
Proof. unfold field_line. rewrite parse_line_fields; by rewrite Fields_first. Qed.

(** What parsing the printed entry must give: its bytes when the emulator is
    registered with the F flag; nothing without it; and a failure when the
    entry has no flags at all, since the flags line then has one field. *)
Definition expected_parse (path : string) (e : entry) : parse_result :=
  if decide (e_flags e = EmptyString)
  then parse_failed "invalid format for %q in %q" [field_line "flags:" EmptyString; path]
  else if contains_byte "F" (e_flags e) then (e_offset e, e_magic e, e_mask e, None)
  else ignored.

Lemma parse_print path e :
  entry_ok e → parseBinfmtMisc path (print_entry e) = Ret (expected_parse path e).
Proof.
  intros He. pose proof (entry_lines_short e He) as Hshort.
  destruct He as (Hi1 & Hi2 & Hi3 & Hf & Hflen & Ho & Hm1 & Hm2 & Hm3 & Hk1 & Hk2 & Hk3).
  destruct (ParseInt_pretty (e_offset e) Ho) as (Hparse & Hp & Hpne & _).
  unfold parseBinfmtMisc, print_entry. rewrite scan_lines_unlines by done.
  unfold entry_lines, expected_parse.
  rewrite (for_range_continue _ "enabled" _ _ _ eq_refl).
  rewrite (for_range_continue _ _ _ _ _ (parse_interpreter _ _ _)).
  case_decide as Hempty.
  { rewrite Hempty. by erewrite for_range_return by reflexivity. }
  destruct (contains_byte "F" (e_flags e)) eqn:HF.
  2:{ rewrite (for_range_return _ (field_line "flags:" _) _ _ ignored); [done|].
      rewrite parse_line_two by done. cbn. by rewrite HF. }
  rewrite (for_range_continue _ (field_line "flags:" _) _ _ (mk_parse 0 EmptyString EmptyString)).
  2:{ rewrite parse_line_two by done. cbn. by rewrite HF. }
  rewrite (for_range_continue _ (field_line "offset" _) _ _
    (mk_parse (e_offset e) EmptyString EmptyString)).
  2:{ rewrite parse_line_two by done. cbn -[ParseInt pretty]. by rewrite Hparse. }
  rewrite (for_range_continue _ (field_line "magic" _) _ _
    (mk_parse (e_offset e) (EncodeToString (e_magic e)) EmptyString)).
  2:{ rewrite parse_line_two; auto using EncodeToString_plain, EncodeToString_ne. }
  rewrite (for_range_continue _ (field_line "mask" _) _ _
    (mk_parse (e_offset e) (EncodeToString (e_magic e)) (EncodeToString (e_mask e)))).
  2:{ rewrite parse_line_two; auto using EncodeToString_plain, EncodeToString_ne. }
  cbn [for_range]. unfold parse_finish, mbind, outcome_bind. cbn [p_magic p_mask p_offset].
  rewrite decide_False by (intros [Hn|Hn]; revert Hn; by apply EncodeToString_ne).
  by rewrite !DecodeString_Encode.
Qed.

(** ** Matching an entry against the known platforms *)

#[local] Opaque known_headers.

Definition header_matches (offset : Z) (mask magic header : list Z) : bool :=
  match magicMatch header offset mask magic with Ret b => b | Panic _ => false end.

Lemma magicMatch_header_matches offset mask magic header :
  0 ≤ offset → magic ≠ [] →
  magicMatch header offset mask magic = Ret (header_matches offset mask magic header).
Proof.
  intros Ho Hm. unfold header_matches.
  by destruct (magicMatch_spec header offset mask magic Ho Hm) as (b & -> & _).
Qed.

Lemma header_matches_true offset mask magic header :
  0 ≤ offset → magic ≠ [] →
  header_matches offset mask magic header = true ↔
  ∀ k m, magic !! k = Some m → matches_at header offset mask k m.
Proof.
  intros Ho Hm. unfold header_matches.
  by destruct (magicMatch_spec header offset mask magic Ho Hm) as (b & -> & Hb).
Qed.

(** The platform, if one of its headers matches. *)
Definition platform_if (offset : Z) (mask magic : list Z) (ph : string * list (list Z))
    : list string :=
  if existsb (header_matches offset mask magic) ph.2 then [ph.1] else [].

Definition add_platform (offset : Z) (mask magic : list Z) (st : walk_state)
    (ph : string * list (list Z)) : walk_state :=
  mk_walk (registered st ++ platform_if offset mask magic ph) (globalEnabled st)
    (if ph.2 is [] then globalPlatform st else ph.1) (w_table st).

Lemma match_headers_spec offset mask magic platform hs st :
  0 ≤ offset → magic ≠ [] →
  match_headers platform hs offset mask magic st =
    Ret (add_platform offset mask magic st (platform, hs)).
Proof.
  intros Ho Hm. revert st. induction hs as [|h hs IH]; intros st; simpl.
  { unfold add_platform, platform_if. simpl. rewrite app_nil_r. by destruct st. }
  rewrite magicMatch_header_matches by done. unfold mbind, outcome_bind.
  unfold add_platform, platform_if in *. simpl.
  destruct (header_matches offset mask magic h); simpl; [done|].
  rewrite IH. simpl. by destruct hs.
Qed.

(** The platforms an entry stands for, in some order. *)
Definition matching_platforms (offset : Z) (mask magic : list Z) : list string :=
  map_to_list known_headers ≫= platform_if offset mask magic.

Lemma foldl_add_platform offset mask magic l st :
  registered (foldl (add_platform offset mask magic) st l) =
    registered st ++ (l ≫= platform_if offset mask magic) ∧
  globalEnabled (foldl (add_platform offset mask magic) st l) = globalEnabled st ∧
  w_table (foldl (add_platform offset mask magic) st l) = w_table st.
Proof.
  revert st. induction l as [|ph l IH]; intros st; csimpl; [by rewrite app_nil_r|].
  destruct (IH (add_platform offset mask magic st ph)) as (-> & -> & ->).
  unfold add_platform. simpl. by rewrite <-(assoc_L (++)).
Qed.

Lemma elem_of_matching p offset mask magic :
  p ∈ matching_platforms offset mask magic ↔
  ∃ hs h, known_headers !! p = Some hs ∧ h ∈ hs ∧ header_matches offset mask magic h = true.
Proof.
  unfold matching_platforms, platform_if. rewrite list_elem_of_bind. split.
  - intros ([q hs] & Hp & Hin). rewrite elem_of_map_to_list in Hin. simpl in Hp.
    destruct (existsb _ hs) eqn:He; [|by apply not_elem_of_nil in Hp].
    apply list_elem_of_singleton in Hp as ->.
    apply existsb_exists in He as (h & Hh & Hm). rewrite <-list_elem_of_In in Hh. eauto.
  - intros (hs & h & Hp & Hh & Hm). exists (p, hs).
    rewrite elem_of_map_to_list. split; [|done]. simpl.
    replace (existsb _ hs) with true; [by apply list_elem_of_singleton|].
    symmetry. apply existsb_exists. exists h. by rewrite <-list_elem_of_In.
Qed.

Lemma NoDup_matching offset mask magic : NoDup (matching_platforms offset mask magic).
Proof.
  unfold matching_platforms.
  assert (∀ l : list (string * list (list Z)),
    (l ≫= platform_if offset mask magic) `sublist_of` l.*1) as Hsub.
  { induction l as [|ph l IH]; csimpl; [done|]. unfold platform_if at 1.
    destruct (existsb _ _); simpl; [by apply sublist_skip|by apply sublist_cons]. }
  eapply sublist_NoDup; [|apply Hsub]. apply NoDup_fst_map_to_list.
Qed.

Section MatchPlatforms.
Context `{RangeOracle}.

Lemma match_platforms_spec path offset mask magic st :
  0 ≤ offset → magic ≠ [] → table_ok (w_table st) →
  ∃ st', match_platforms path offset mask magic st = (Ret tt, st') ∧
    registered st' ≡ₚ registered st ++ matching_platforms offset mask magic ∧
    globalEnabled st' = globalEnabled st ∧ table_ok (w_table st').
Proof.
  intros Ho Hm Ht. unfold match_platforms. rewrite getKnown_ok by done.
  rewrite (for_each_fold _ (add_platform offset mask magic)).
  2:{ intros [p hs] st' _. by apply match_headers_spec. }
  eexists. split; [reflexivity|].
  destruct (foldl_add_platform offset mask magic (range_map path known_headers)
    (mk_walk (registered st) (globalEnabled st) (globalPlatform st)
      (mk_header_table true known_headers))) as (-> & -> & ->).
  split_and!; [|done|by right]. simpl. unfold matching_platforms, range_map.
  by rewrite range_perm.
Qed.
End MatchPlatforms.

(** ** The directory the kernel shows

    [binfmt_misc] is a flat directory of readable regular files: "register",
    "status" and one file per entry, listed by name. *)
Definition file_node (content : string) : fsnode :=
  mk_node false (inr true) (inr (content, None)) [] None.

Definition dir_entry (nc : string * string) : string * fsnode := (nc.1, file_node nc.2).

Definition binfmt_dir (files : list (string * string)) : fsnode :=
  mk_node true (inr false) (inl (SysErr false "is a directory"))
    (dir_entry <$> files) None.

Definition file_name_ok (name : string) : Prop :=
  name ≠ EmptyString ∧ contains_byte "/" name = false.

(** What reading one file does, and what reading them in order adds up to:
    the platforms found, the last status and the error which ended it. *)
Inductive file_effect :=
  | Skip
  | SetEnabled (b : bool)
  | Fails (e : error)
  | Matches (offset : Z) (mask magic : list Z).

Definition effect_of (name content : string) : file_effect :=
  let path := path_join binfmt_root name in
  if decide (name = "register") then Skip
  else if decide (name = "status") then
    let status := TrimSpace content in
    if decide (status = "disabled") then SetEnabled false
    else if decide (status = "enabled") then SetEnabled true
    else Fails (Errorf "unrecognized binfmt_misc status value %q in %q"
                  [FStr status; FStr path] None)
  else match parseBinfmtMisc path content with
       | Ret (_, _, _, Some e) => Fails e
       | Ret (offset, magic, mask, None) =>
           if offset <? 0 then Skip else Matches offset mask magic
       | Panic _ => Skip
       end.

Fixpoint scan_dir (files : list (string * string)) (regs : list string) (enabled : bool)
    : list string * bool * option error :=
  match files with
  | [] => (regs, enabled, None)
  | (name, content) :: files =>
      match effect_of name content with
      | Skip => scan_dir files regs enabled
      | SetEnabled b => scan_dir files regs b
      | Fails e => (regs, enabled, Some e)
      | Matches offset mask magic =>
          scan_dir files (regs ++ matching_platforms offset mask magic) enabled
      end
  end.

Lemma Base_join name : file_name_ok name → Base (path_join binfmt_root name) = name.
Proof.
  intros [Hne Hsl]. unfold Base.
  change (path_join binfmt_root name) with
    (Join "/" [EmptyString; "proc"; "sys"; "fs"; "binfmt_misc"; name]).
  rewrite Split_Join; [|done|by repeat constructor].
  cbn [filter list_filter]. repeat case_decide; done.
Qed.

Definition effect_error (f : file_effect) : option error :=
  match f with Fails e => Some e | _ => None end.
Definition effect_platforms (f : file_effect) : list string :=
  match f with Matches offset mask magic => matching_platforms offset mask magic | _ => [] end.
Definition effect_enabled (f : file_effect) (enabled : bool) : bool :=
  match f with SetEnabled b => b | _ => enabled end.

Lemma scan_dir_cons name content files regs enabled :
  scan_dir ((name, content) :: files) regs enabled =
  let f := effect_of name content in
  match effect_error f with
  | Some e => (regs, enabled, Some e)
  | None => scan_dir files (regs ++ effect_platforms f) (effect_enabled f enabled)
  end.
Proof. simpl. destruct (effect_of name content); simpl; by rewrite ?app_nil_r. Qed.

(** The state left by a walk, up to the order in which the loops over the
    table of platforms ran. *)
Definition walk_shows (st : walk_state) (regs : list string) (enabled : bool) : Prop :=
  registered st ≡ₚ regs ∧ globalEnabled st = enabled ∧ table_ok (w_table st).

Section WalkBinfmt.
Context `{RangeOracle}.

Lemma visit_file name content st regs enabled (f := effect_of name content) :
  file_name_ok name → walk_shows st regs enabled →
  ∃ st', visit (path_join binfmt_root name) (Some (file_node content)) None st =
      (Ret (effect_error f), st') ∧
    walk_shows st' (regs ++ effect_platforms f) (effect_enabled f enabled).
Proof.
  intros Hname (Hr & He & Ht). unfold visit. rewrite Base_join by done.
  subst f. unfold effect_of, walk_shows.
  case_decide; [eexists; split; [done|]; simpl; by rewrite app_nil_r|].
  cbn [file_node node_info node_open]. case_decide.
  { repeat case_decide; (eexists; split; [done|]); simpl; by rewrite app_nil_r. }
  destruct (parseBinfmtMisc_ok (path_join binfmt_root name) content)
    as ([[[offset magic] mask] err] & Hparse & Hok).
  unfold go_lift, mbind, go_bind. rewrite Hparse.
  destruct err as [e|]; [eexists; split; [done|]; simpl; by rewrite app_nil_r|].
  destruct (Z.ltb_spec offset 0); [eexists; split; [done|]; simpl; by rewrite app_nil_r|].
  assert (magic ≠ []) by (destruct Hok as [(?&?&?)|(?&?&?)]; [lia|done]).
  destruct (match_platforms_spec (path_join binfmt_root name) offset mask magic st)
    as (st' & -> & Hr' & He' & Ht'); [done..|].
  eexists. split; [done|]. simpl. by rewrite Hr', Hr, He'.
Qed.

Lemma walk_file name d (st : walk_state) (fn : string → option fsnode → option error →
    Go walk_state (option error)) :
  is_dir d = false →
  walkDir fn name d st = fn name (Some d) None st.
Proof.
  intros Hd. destruct d; simpl in *; subst. unfold mbind, go_bind.
  by destruct (fn name _ None st) as [[[e|]|m] st'].
Qed.

Lemma walk_files files st regs enabled :
  Forall file_name_ok files.*1 → walk_shows st regs enabled →
  ∃ st', walk_entries (walkDir visit) binfmt_root (dir_entry <$> files) st =
      (Ret (scan_dir files regs enabled).2, st') ∧
    walk_shows st' (scan_dir files regs enabled).1.1 (scan_dir files regs enabled).1.2.
Proof.
  revert st regs enabled.
  induction files as [|[name content] files IH]; intros st regs enabled Hf Hst.
  { eexists. split; [reflexivity|done]. }
  csimpl in Hf. apply Forall_cons in Hf as [Hname Hf].
  rewrite scan_dir_cons, fmap_cons. cbv zeta. cbn [walk_entries dir_entry fst snd].
  unfold mbind at 1, go_bind. rewrite walk_file by done.
  destruct (visit_file name content st regs enabled Hname Hst) as (st' & -> & Hst').
  destruct (effect_error (effect_of name content)) as [e|] eqn:Hee.
  - eexists. split; [reflexivity|]. simpl.
    destruct (effect_of name content); simplify_eq/=. by rewrite app_nil_r in Hst'.
  - by apply IH.
Qed.

Lemma walk_root files st :
  walkDir visit binfmt_root (binfmt_dir files) st =
  walk_entries (walkDir visit) binfmt_root (dir_entry <$> files) st.
Proof. reflexivity. Qed.

(** The directory, file by file: the model of the source computes exactly
    what reading the files in order adds up to. *)
Lemma registeredBinfmtMisc_scan files t :
  Forall file_name_ok files.*1 → table_ok t →
  let '(regs, enabled, err) := scan_dir files [] false in
  ∃ t', registeredBinfmtMisc (inr (binfmt_dir files)) t =
    (Ret (if (enabled : bool) then (sort_Strings regs, err) else ([], None)), t').
Proof.
  intros Hf Ht. unfold registeredBinfmtMisc, WalkDir.
  destruct (walk_files files (mk_walk [] false EmptyString t) [] false Hf)
    as (st' & Hwalk & Hr & He & _); [by split_and!|].
  destruct (scan_dir files [] false) as [[regs enabled] err]. cbn [fst snd] in *.
  rewrite walk_root. rewrite Hwalk, He. eexists. by rewrite Hr.
Qed.
End WalkBinfmt.

(** ** Any file system *)

(** Induction over a tree of nodes. *)
Lemma fsnode_tree_ind (P : fsnode → Prop) :
  (∀ d, Forall (λ nd, P nd.2) (node_entries d) → P d) → ∀ d, P d.
Proof.
  intros Hstep. fix IH 1. intros [dir info op entries err]. apply Hstep. simpl.
  induction entries as [|[name d] entries IHe]; constructor; [apply IH|exact IHe].
Qed.

Section WalkInvariant.
Context {St : Type} (fn : string → option fsnode → option error → Go St (option error)).
Context (I : St → Prop).
(** [m] neither panics nor breaks the invariant. *)
Definition keeps (m : Go St (option error)) : Prop :=
  ∀ st, I st → ∃ err st', m st = (Ret err, st') ∧ I st'.
Context (fn_keeps : ∀ path d err, keeps (fn path (Some d) err)).

Lemma walk_keeps_bind m k : keeps m → (∀ err, keeps (k err)) → keeps (m ≫= k).
Proof.
  intros Hm Hk st Hst. destruct (Hm st Hst) as (err & st' & Hms & Hst').
  unfold mbind, go_bind. rewrite Hms. by apply Hk.
Qed.

Lemma walk_keeps_ret err : keeps (mret err).
Proof. intros st Hst. by exists err, st. Qed.

Lemma walkDir_keeps d path : keeps (walkDir fn path d).
Proof.
  revert path. induction d as [d IH] using fsnode_tree_ind. intros path.
  assert (∀ l, Forall (λ nd, ∀ path, keeps (walkDir fn path nd.2)) l →
    keeps (walk_entries (walkDir fn) path l)) as Hentries.
  { induction 1 as [|[name d1] l Hd1 _ IHl]; simpl; [apply walk_keeps_ret|].
    apply walk_keeps_bind; [apply Hd1|]. intros [e|]; [apply walk_keeps_ret|apply IHl]. }
  destruct d as [dir info op entries err]. simpl in *.
  apply walk_keeps_bind; [apply fn_keeps|]. intros [e|]; [apply walk_keeps_ret|].
  destruct dir; [|apply walk_keeps_ret].
  apply walk_keeps_bind; [destruct err; [apply fn_keeps|apply walk_keeps_ret]|].
  intros [e|]; [apply walk_keeps_ret|]. by apply Hentries.
Qed.
End WalkInvariant.

Definition known_only (st : walk_state) : Prop :=
  table_ok (w_table st) ∧ Forall (λ p, is_Some (known_headers !! p)) (registered st).

Lemma matching_known offset mask magic :
  Forall (λ p, is_Some (known_headers !! p)) (matching_platforms offset mask magic).
Proof.
  apply Forall_forall. intros p (hs & h & Hp & _)%elem_of_matching. by rewrite Hp.
Qed.

Lemma visit_keeps `{RangeOracle} path d err : keeps known_only (visit path (Some d) err).
Proof.
  unfold visit. case_decide; [apply walk_keeps_ret|].
  destruct (match err with Some e => negb (is_not_exist e) | None => false end);
    [apply walk_keeps_ret|].
  destruct (node_info d) as [e|[]]; try apply walk_keeps_ret.
  destruct (node_open d) as [e|[content rerr]]; [apply walk_keeps_ret|].
  case_decide.
  { destruct rerr; [apply walk_keeps_ret|].
    repeat case_decide; try apply walk_keeps_ret; intros st [Ht Hr]; by eexists _, _. }
  intros st [Ht Hr]. destruct (parseBinfmtMisc_ok path content)
    as ([[[offset magic] mask] perr] & Hparse & Hok).
  unfold go_lift, mbind, go_bind. rewrite Hparse.
  destruct perr as [e|]; [by eexists _, _|].
  destruct (Z.ltb_spec offset 0); [by eexists _, _|].
  assert (magic ≠ []) by (destruct Hok as [(?&?&?)|(?&?&?)]; [lia|done]).
  destruct (match_platforms_spec path offset mask magic st) as (st' & -> & Hr' & _ & Ht');
    [done..|].
  eexists _, _. split; [done|]. split; [done|]. rewrite Hr', Forall_app.
  auto using matching_known.
Qed.

(** ** The test vectors of [binfmtmisc_linux_test.go] *)

Definition vector_matches (vector_platform contents : string) : bool :=
  match parseBinfmtMisc "test vector" contents with
  | Ret (offset, magic, mask, None) =>
      bool_decide (vector_platform ∈ matching_platforms offset mask magic)
  | _ => false
  end.

Definition vector_text (magic mask : string) : string :=
  unlines [EmptyString; "			enabled"; "			interpreter /usr/bin/qemu-static"; "			flags: F";
           "			offset 0"; str_app "			magic " magic; str_app "			mask  " mask; "			"].

Example test_vectors :
  forallb (λ '(p, magic, mask), vector_matches p (vector_text magic mask)) [
    ("linux/386", "7f454c4601010100000000000000000002000300", "fffffffffffefe00fffffffffffffffffeffffff");
    ("linux/amd64", "7f454c4602010100000000000000000002003e00", "fffffffffffefe00fffffffffffffffffeffffff");
    ("linux/arm", "7f454c4601010100000000000000000002002800", "ffffffffffffff00fffffffffffffffffeffffff");
    ("linux/arm64", "7f454c460201010000000000000000000200b700", "ffffffffffffff00fffffffffffffffffeffffff");
    ("linux/ppc64le", "7f454c4602010100000000000000000002001500", "ffffffffffffff00fffffffffffffffffeffff00");
    ("linux/s390x", "7f454c4602020100000000000000000000020016", "ffffffffffffff00fffffffffffffffffffeffff")
  ] = true.
Proof. vm_compute. reflexivity. Qed.

(** ** Properties *)

(** C6: [magicMatch], called with the non-negative offset and the non-empty
    magic that [parseBinfmtMisc] delivers, never indexes out of range and
    refines the kernel's rule for selecting an entry: it answers true exactly
    when the kernel would select the entry for the header and, beyond the
    kernel's rule, the header has no bit outside the mask. *)
Theorem magicMatch_refines_kernel header offset mask magic :
  0 ≤ offset → magic ≠ [] →
  ∃ b, magicMatch header offset mask magic = Ret b ∧
    (b = true ↔
      kernel_selects header offset mask magic ∧ within_mask header offset mask magic).
Proof.
  intros Ho Hm. destruct (magicMatch_spec header offset mask magic Ho Hm) as (b & Hb & Hiff).
  exists b. split; [done|]. rewrite Hiff. split.
  - intros Hall. split; [|by apply matches_within].
    intros k m Hk. by apply matches_at_kernel, Hall.
  - intros [Hk Hw] k m Hkm. by eapply kernel_within_matches.
Qed.

Lemma magicMatch_refines_kernel_witness :
  ∃ b, magicMatch [0x7f; 0x45; 0x4c; 3] 1 [0xff; 0xff; 0xfc] [0x45; 0x4c; 0] = Ret b ∧
    b = false ∧ kernel_selects [0x7f; 0x45; 0x4c; 3] 1 [0xff; 0xff; 0xfc] [0x45; 0x4c; 0] ∧
    ¬ within_mask [0x7f; 0x45; 0x4c; 3] 1 [0xff; 0xff; 0xfc] [0x45; 0x4c; 0].
Proof.
  destruct (magicMatch_refines_kernel [0x7f; 0x45; 0x4c; 3] 1 [0xff; 0xff; 0xfc] [0x45; 0x4c; 0])
    as (b & Hb & Hiff); [lia|discriminate|].
  exists b. split; [exact Hb|].
  assert (b = false) as -> by (vm_compute in Hb; congruence).
  split; [reflexivity|].
  assert (kernel_selects [0x7f; 0x45; 0x4c; 3] 1 [0xff; 0xff; 0xfc] [0x45; 0x4c; 0]) as Hk.
  { intros [|[|[|k]]] m Hm; simplify_eq/=; eexists; split; reflexivity. }
  split; [exact Hk|]. intros Hw. destruct Hiff as [_ Hiff]. by specialize (Hiff (conj Hk Hw)).
Defined.

(** C32: [parseBinfmtMisc] returns for every text, without a panic.  With an
    error or for an entry to be ignored the offset is -1 and no bytes are
    returned; otherwise the offset fits 8 bits, and magic and mask are
    non-empty strings of bytes. *)
Theorem parseBinfmtMisc_total path content :
  ∃ offset magic mask err,
    parseBinfmtMisc path content = Ret (offset, magic, mask, err) ∧
    ((offset = -1 ∧ magic = [] ∧ mask = []) ∨
     (err = None ∧ -128 ≤ offset < 128 ∧ magic ≠ [] ∧ mask ≠ [] ∧
      Forall is_byte magic ∧ Forall is_byte mask)).
Proof.
  destruct (parseBinfmtMisc_ok path content) as ([[[offset magic] mask] err] & Hp & Hok).
  exists offset, magic, mask, err. split; [done|].
  destruct err; simpl in Hok; [by left|]. unfold offset_in_range in Hok. naive_solver.
Qed.

(** C12: Parsing is a left inverse of the kernel's printing of an entry: an
    entry with the F flag gives back its offset, magic and mask; an entry
    with other flags only is to be ignored; an entry without any flag is
    refused as malformed. *)
Theorem parseBinfmtMisc_print path e :
  entry_ok e →
  parseBinfmtMisc path (print_entry e) = Ret (
    if decide (e_flags e = EmptyString)
    then (-1, [], [], Some (Errorf "invalid format for %q in %q"
            [FStr "flags: "; FStr path] None))
    else if contains_byte "F" (e_flags e) then (e_offset e, e_magic e, e_mask e, None)
    else (-1, [], [], None)).
Proof. apply parse_print. Qed.

Definition sample_entry : entry :=
  mk_entry "/usr/bin/qemu-arm64-static" "OCF" 0 [0x7f; 0x45; 0x4c; 0x46] [0xff; 0xff; 0xff; 0xfe].

Lemma sample_entry_ok : entry_ok sample_entry.
Proof.
  unfold entry_ok. split_and!; try done; try (cbn; lia).
  all: repeat constructor; lia.
Defined.

Lemma parseBinfmtMisc_print_witness :
  parseBinfmtMisc "qemu" (print_entry sample_entry) =
    Ret (0, [0x7f; 0x45; 0x4c; 0x46], [0xff; 0xff; 0xff; 0xfe], None).
Proof. exact (parseBinfmtMisc_print "qemu" sample_entry sample_entry_ok). Defined.

(** The files the platforms of a result come from. *)
Definition registered_by (files : list (string * string)) (p : string) : Prop :=
  ∃ name content offset mask magic hs h,
    (name, content) ∈ files ∧
    effect_of name content = Matches offset mask magic ∧
    known_headers !! p = Some hs ∧ h ∈ hs ∧
    kernel_selects h offset mask magic ∧ within_mask h offset mask magic.

Definition no_failure (files : list (string * string)) : Prop :=
  Forall (λ nc, effect_error (effect_of nc.1 nc.2) = None) files.

Definition last_status (files : list (string * string)) : bool :=
  foldl (λ b nc, effect_enabled (effect_of nc.1 nc.2) b) false files.

Lemma scan_dir_no_failure files regs enabled :
  no_failure files →
  scan_dir files regs enabled =
    (regs ++ (files ≫= λ nc, effect_platforms (effect_of nc.1 nc.2)),
     foldl (λ b nc, effect_enabled (effect_of nc.1 nc.2) b) enabled files, None).
Proof.
  intros Hf. revert regs enabled. induction Hf as [|[name content] files Hn _ IH];
    intros regs enabled; [by rewrite app_nil_r|].
  rewrite scan_dir_cons. cbv zeta. cbn [fst snd] in Hn. rewrite Hn, IH. csimpl.
  by rewrite <-(assoc_L (++)).
Qed.

Lemma effect_Matches_ok name content offset mask magic :
  effect_of name content = Matches offset mask magic → 0 ≤ offset ∧ magic ≠ [].
Proof.
  unfold effect_of. repeat case_decide; try done.
  destruct (parseBinfmtMisc_ok (path_join binfmt_root name) content)
    as ([[[off mag] msk] err] & -> & Hok).
  destruct err; [done|]. destruct (Z.ltb_spec off 0); [done|].
  intros [= <- <- <-]. split; [done|]. destruct Hok as [(?&?&?)|(?&?&?)]; [lia|done].
Qed.

Lemma elem_of_effects files p :
  p ∈ (files ≫= λ nc, effect_platforms (effect_of nc.1 nc.2)) ↔ registered_by files p.
Proof.
  rewrite list_elem_of_bind. unfold registered_by. split.
  - intros ([name content] & Hp & Hin). cbn [fst snd] in Hp.
    destruct (effect_of name content) as [| | |offset mask magic] eqn:Heff;
      [by apply not_elem_of_nil in Hp..|].
    destruct (effect_Matches_ok _ _ _ _ _ Heff) as [Ho Hm].
    cbn [effect_platforms] in Hp. rewrite elem_of_matching in Hp.
    destruct Hp as (hs & h & Hp & Hh & Hmt). rewrite header_matches_true in Hmt by done.
    exists name, content, offset, mask, magic, hs, h.
    split; [exact Hin|]. split; [exact Heff|]. split; [exact Hp|]. split; [exact Hh|]. split.
    + intros k m Hk. by apply matches_at_kernel, Hmt.
    + by apply matches_within.
  - intros (name & content & offset & mask & magic & hs & h & Hin & Heff & Hp & Hh & Hk & Hw).
    destruct (effect_Matches_ok _ _ _ _ _ Heff) as [Ho Hm].
    exists (name, content). split; [|done]. cbn [fst snd]. rewrite Heff. cbn [effect_platforms].
    rewrite elem_of_matching. exists hs, h. split; [exact Hp|]. split; [exact Hh|].
    apply header_matches_true; [done..|]. intros k m Hkm. by eapply kernel_within_matches.
Qed.

(** Reading the files in order ends with an error exactly if one fails. *)
Lemma scan_dir_error files regs enabled :
  (scan_dir files regs enabled).2 = None ↔ no_failure files.
Proof.
  revert regs enabled. unfold no_failure.
  induction files as [|[name content] files IH]; intros regs enabled; [by split; [constructor|]|].
  rewrite scan_dir_cons, Forall_cons. cbv zeta. cbn [fst snd].
  destruct (effect_error (effect_of name content)); simpl; [naive_solver|]. rewrite IH. naive_solver.
Qed.

(** C11: [Registered] on the directory the kernel shows.  When no file fails
    to parse and the last status is "enabled", the result is sorted and
    consists of exactly the platforms of which a known header is selected,
    by the kernel's rule and within the mask, by some entry of the
    directory; with any other status, and when any file fails, wherever it
    is, it is empty.  No order of the loops over the table makes a
    difference. *)
Theorem Registered_exact `{RangeOracle} files t :
  Forall file_name_ok files.*1 → table_ok t →
  ∃ l t', Registered (inr (binfmt_dir files)) t = (Ret l, t') ∧
    StronglySorted String.le l ∧
    ∀ p, p ∈ l ↔ no_failure files ∧ last_status files = true ∧ registered_by files p.
Proof.
  intros Hnames Ht. unfold Registered.
  pose proof (registeredBinfmtMisc_scan files t Hnames Ht) as Hscan.
  pose proof (scan_dir_error files [] false) as Herr.
  destruct (scan_dir files [] false) as [[regs enabled] [e|]] eqn:Hs; simpl in Herr.
  { assert (¬ no_failure files) as Hf by (by rewrite <-Herr).
    destruct Hscan as [t' ->]. exists [], t'. split; [by destruct enabled|].
    split; [constructor|]. set_solver. }
  assert (no_failure files) as Hnf by by apply Herr.
  rewrite scan_dir_no_failure in Hs by done. injection Hs as <- <-. destruct Hscan as (t' & ->).
  fold (last_status files). destruct (last_status files).
  - eexists _, t'. split; [done|]. split; [apply sort_Strings_sorted|].
    intros p. rewrite sort_Strings_perm, elem_of_effects. naive_solver.
  - exists [], t'. split; [done|]. split; [constructor|]. set_solver.
Qed.

Definition sample_dir : list (string * string) := [
  ("qemu-arm64", print_entry (mk_entry "/usr/bin/qemu-arm64-static" "F" 18 [0xb7; 0] [0xff; 0xff]));
  ("register", EmptyString);
  ("status", unlines ["enabled"])
].

Lemma sample_dir_names : Forall file_name_ok sample_dir.*1.
Proof. by repeat constructor. Defined.

Definition flagless_entry : entry :=
  mk_entry "/usr/bin/wine" EmptyString 0 [0x4d; 0x5a] [0xff; 0xff].

(** The same with a file which fails at the end. *)
Definition broken_dir : list (string * string) :=
  sample_dir ++ [("wine", print_entry flagless_entry)].

Lemma Registered_exact_witness :
  (∃ l t', Registered (H := range_id) (inr (binfmt_dir sample_dir)) initial_table = (Ret l, t') ∧
     l = ["linux/arm64"]) ∧
  last_status broken_dir = true ∧ registered_by broken_dir "linux/arm64" ∧
  ∃ l t', Registered (H := range_id) (inr (binfmt_dir broken_dir)) initial_table = (Ret l, t') ∧ l = [].
Proof.
  destruct (Registered_exact (H := range_id) sample_dir initial_table sample_dir_names
    (or_introl eq_refl)) as (l & t' & Hl & _ & Hp).
  assert (l = ["linux/arm64"]) as ->.
  { assert (Ret l = (Registered (H := range_id) (inr (binfmt_dir sample_dir)) initial_table).1)
      as Heq by (rewrite Hl; reflexivity).
    vm_compute in Heq. by injection Heq. }
  split; [exists ["linux/arm64"], t'; exact (conj Hl eq_refl)|].
  split; [vm_compute; reflexivity|]. split.
  - destruct (Hp "linux/arm64") as [[_ [_ Hby]] _]; [left|].
    destruct Hby as (name & content & off & mask & magic & hs & h & Hin & Hrest).
    exists name, content, off, mask, magic, hs, h. split; [|exact Hrest].
    apply elem_of_app. by left.
  - destruct (Registered_exact (H := range_id) broken_dir initial_table) as (l & t'' & Hl' & _ & _).
    + by repeat constructor.
    + by left.
    + exists l, t''. split; [exact Hl'|].
      assert (Ret l = (Registered (H := range_id) (inr (binfmt_dir broken_dir)) initial_table).1)
        as Heq by (rewrite Hl'; reflexivity).
      vm_compute in Heq. by injection Heq.
Defined.

(** *** An emulator for one platform *)

(** A mask which leaves every bit. *)
Definition full_mask (n : nat) : list Z := replicate n 255.

Lemma masked_full n k m : is_byte m → masked (full_mask n) k m = m.
Proof.
  intros Hm. unfold masked, full_mask. destruct (replicate n 255 !! k) as [b|] eqn:Hb; [|done].
  apply lookup_replicate_1 in Hb as [-> _]. change 255 with (Z.ones 8).
  rewrite Z.land_ones by lia. apply Z.mod_small. exact Hm.
Qed.

(** Under it a header only matches itself. *)
Lemma header_matches_full h1 h2 :
  length h1 = length h2 → h2 ≠ [] → Forall is_byte h2 →
  header_matches 0 (full_mask (length h2)) h2 h1 = true ↔ h1 = h2.
Proof.
  intros Hlen Hne Hb. rewrite header_matches_true by done. unfold matches_at. split.
  - intros Hall. symmetry. apply list_eq_same_length with (n := length h2); [done..|].
    intros i x y Hi Hx Hy. specialize (Hall i x Hx). rewrite masked_full in Hall.
    + simpl in Hall. congruence.
    + by eapply Forall_lookup_1.
  - intros -> k m Hk. rewrite masked_full; [done|]. by eapply Forall_lookup_1.
Qed.

Lemma matching_one p hs h :
  known_headers !! p = Some hs → h ∈ hs → matching_platforms 0 (full_mask (length h)) h = [p].
Proof.
  intros Hp Hh. destruct (known_headers_shape p hs h Hp Hh) as [Hlen Hb].
  assert (h ≠ []) as Hne by (by intros ->).
  apply Permutation_singleton_r. symmetry. apply NoDup_Permutation.
  - apply NoDup_singleton.
  - apply NoDup_matching.
  - intros q. rewrite list_elem_of_singleton, elem_of_matching. split.
    + intros ->. exists hs, h. split_and!; [done..|]. by apply header_matches_full.
    + intros (hs' & h' & Hq & Hh' & Hm).
      destruct (known_headers_shape q hs' h' Hq Hh') as [Hlen' _].
      apply header_matches_full in Hm as ->; [|congruence|done..].
      by eapply known_headers_disjoint.
Qed.

(** C31: An emulator is reported for the platform it was registered for and
    for no other: when the directory holds one entry, with the F flag, whose
    magic is a whole header of a platform of the table and whose mask leaves
    every bit, [Registered] returns that platform alone, whichever of its
    headers it is. *)
Theorem whole_header_reports_platform `{RangeOracle} p hs h m t' t name interpreter flags
    (Htable : getKnownELFPlatformHeaders initial_table = Ret (m, t'))
    (Hp : m !! p = Some hs) (Hh : h ∈ hs) (Ht : table_ok t)
    (Hname : file_name_ok name) (Hother : name ≠ "register" ∧ name ≠ "status")
    (Hentry : entry_ok (mk_entry interpreter flags 0 h (full_mask (length h))))
    (Hflags : contains_byte "F" flags = true) :
  (Registered (inr (binfmt_dir
     [(name, print_entry (mk_entry interpreter flags 0 h (full_mask (length h))));
      ("status", unlines ["enabled"])])) t).1 = Ret [p].
Proof.
  rewrite getKnown_initial in Htable. injection Htable as <- _.
  set (e := mk_entry interpreter flags 0 h (full_mask (length h))) in *.
  assert (effect_of name (print_entry e) = Matches 0 (full_mask (length h)) h) as Heff.
  { unfold effect_of. rewrite !decide_False by tauto. rewrite (parse_print _ e) by done.
    unfold expected_parse. rewrite decide_False by (intros Hn; simpl in Hn; by rewrite Hn in Hflags).
    simpl. by rewrite Hflags. }
  set (files := [_; _]). pose proof (registeredBinfmtMisc_scan files t) as Hscan.
  subst files. cbn [scan_dir] in Hscan. rewrite Heff in Hscan.
  rewrite (matching_one p hs h) in Hscan by done.
  change (effect_of "status" (unlines ["enabled"])) with (SetEnabled true) in Hscan. cbv iota in Hscan.
  destruct Hscan as [t'' Hscan]; [by repeat constructor; [apply Hname..|]|done|].
  unfold Registered. by rewrite Hscan.
Qed.

Lemma whole_header_reports_platform_witness :
  let h := default [] (default [] (known_headers !! "linux/ppc64le") !! 1%nat) in
  drop 7 h = 3 :: drop 8 h ∧
  (Registered (H := range_id) (inr (binfmt_dir
     [("qemu-ppc64le", print_entry (mk_entry "/usr/bin/qemu-ppc64le" "F" 0 h (full_mask (length h))));
      ("status", unlines ["enabled"])])) initial_table).1 = Ret ["linux/ppc64le"].
Proof.
  intros h. split; [vm_compute; reflexivity|].
  apply (whole_header_reports_platform (H := range_id) "linux/ppc64le"
    (default [] (known_headers !! "linux/ppc64le")) h known_headers
    (mk_header_table true known_headers) initial_table "qemu-ppc64le" "/usr/bin/qemu-ppc64le" "F").
  - exact getKnown_initial.
  - vm_compute. reflexivity.
  - apply (list_elem_of_lookup_2 _ 1). vm_compute. reflexivity.
  - by left.
  - by split.
  - by split.
  - unfold entry_ok. cbn [e_interpreter e_flags e_offset e_magic e_mask].
    split_and!; try (vm_compute; reflexivity); try lia; try (vm_compute; discriminate);
      try (by apply Forall_replicate); try (vm_compute; lia);
      vm_compute; repeat constructor; discriminate.
  - reflexivity.
Defined.

(** C33: A file which fails to parse ends the walk, and as the files are read
    in the order of their names, the status may not have been seen yet: then
    [registeredBinfmtMisc] reports neither the failure nor any platform. *)
Theorem failure_before_status_is_silent `{RangeOracle} pre name content post t e :
  Forall file_name_ok (pre ++ (name, content) :: post).*1 → table_ok t →
  no_failure pre → "status" ∉ pre.*1 → effect_of name content = Fails e →
  ∃ t', registeredBinfmtMisc (inr (binfmt_dir (pre ++ (name, content) :: post))) t =
    (Ret ([], None), t').
Proof.
  intros Hnames Ht Hpre Hstatus Hfail.
  pose proof (registeredBinfmtMisc_scan _ t Hnames Ht) as Hscan.
  assert (∀ regs, scan_dir (pre ++ (name, content) :: post) regs false =
    (regs ++ (pre ≫= λ nc, effect_platforms (effect_of nc.1 nc.2)), false, Some e)) as Hs.
  { clear Hnames Hscan. induction Hpre as [|[n c] pre Hn _ IH]; intros regs.
    - cbn [app]. rewrite scan_dir_cons, Hfail. by rewrite app_nil_r.
    - cbn [app]. rewrite scan_dir_cons. cbv zeta. cbn [fst snd] in Hn. rewrite Hn.
      rewrite fmap_cons, not_elem_of_cons in Hstatus. destruct Hstatus as [Hne Hstatus].
      replace (effect_enabled (effect_of n c) false) with false.
      + rewrite IH by done. csimpl. by rewrite <-(assoc_L (++)).
      + unfold effect_of. cbn [fst] in Hne. case_decide; [done|].
        rewrite decide_False by done.
        destruct (parseBinfmtMisc _ c) as [[[[??]?][?|]]|]; [done| |done].
        by case_match. }
  rewrite Hs in Hscan. exact Hscan.
Qed.

Lemma failure_before_status_is_silent_witness :
  ∃ t' e, effect_of "DOSWin" (print_entry flagless_entry) = Fails e ∧
    registeredBinfmtMisc (H := range_id)
      (inr (binfmt_dir (("DOSWin", print_entry flagless_entry) :: sample_dir))) initial_table =
      (Ret ([], None), t').
Proof.
  assert (∃ e, effect_of "DOSWin" (print_entry flagless_entry) = Fails e) as [e He]
    by (eexists; vm_compute; reflexivity).
  destruct (failure_before_status_is_silent (H := range_id) [] "DOSWin"
    (print_entry flagless_entry) sample_dir initial_table e) as [t' Ht'].
  - by repeat constructor.
  - by left.
  - constructor.
  - apply not_elem_of_nil.
  - exact He.
  - exists t', e. split; [exact He | exact Ht'].
Defined.

(** Whatever the file system holds below an existing directory (nested
    directories, unreadable files, failing [Info], [Open] or [ReadDir]),
    [registeredBinfmtMisc] returns without a panic; the platforms it returns
    are sorted and all from the table of known platforms. *)
Theorem registeredBinfmtMisc_sound `{RangeOracle} d t :
  table_ok t →
  ∃ l err t', registeredBinfmtMisc (inr d) t = (Ret (l, err), t') ∧
    StronglySorted String.le l ∧ ∀ p, p ∈ l → is_Some (known_headers !! p).
Proof.
  intros Ht. unfold registeredBinfmtMisc, WalkDir.
  destruct (walkDir_keeps visit known_only visit_keeps d binfmt_root
    (mk_walk [] false EmptyString t)) as (err & st' & Hw & Ht' & Hr); [by split|].
  rewrite Hw. destruct (globalEnabled st').
  - eexists _, _, _. split; [done|]. split; [apply sort_Strings_sorted|].
    intros p. rewrite sort_Strings_perm. intros Hp.
    by apply (proj1 (Forall_forall _ _) Hr).
  - eexists _, _, _. split; [done|]. split; [constructor|]. set_solver.
Qed.

Lemma registeredBinfmtMisc_sound_witness :
  ∃ l err t', registeredBinfmtMisc (H := range_id)
    (inr (mk_node true (inr false) (inl (SysErr false "is a directory")) [
      ("qemu-x", mk_node false (inr true) (inl (SysErr false "permission denied")) [] None)]
      None)) initial_table = (Ret (l, err), t') ∧ StronglySorted String.le l.
Proof.
  destruct (registeredBinfmtMisc_sound (H := range_id)
    (mk_node true (inr false) (inl (SysErr false "is a directory")) [
      ("qemu-x", mk_node false (inr true) (inl (SysErr false "permission denied")) [] None)] None)
    initial_table (or_introl eq_refl)) as (l & err & t' & Hl & Hs & _).
  exists l, err, t'. split; [exact Hl | exact Hs].
Defined.

(** C34: When the directory itself does not exist, the callback, which means
    to let that error pass, goes on to use the missing directory entry:
    [Registered] panics. *)
Theorem Registered_missing_dir_panics `{RangeOracle} e t :
  is_not_exist e = true →
  Registered (inl e) t =
    (Panic "runtime error: invalid memory address or nil pointer dereference", t).
Proof.
  intros He. unfold Registered, registeredBinfmtMisc, WalkDir, visit.
  rewrite decide_False by done. by rewrite He.
Qed.

Lemma Registered_missing_dir_panics_witness :
  (Registered (H := range_id) (inl (SysErr true "lstat: no such file or directory"))
    initial_table).1 =
    Panic "runtime error: invalid memory address or nil pointer dereference".
Proof.
  rewrite (Registered_missing_dir_panics (H := range_id)
    (SysErr true "lstat: no such file or directory") initial_table eq_refl).
  reflexivity.
Defined.
