(* ===== verification/Types.v ===== *)
(** * The data of the program

    Model of [src/types.go], [src/copy.go] and [src/podman.go]: options and
    reports exchanged between the farm and its builders, and the translation
    of build options into podman's.  Fields of fixed-width integer types are
    [Z]; a pointer which is only read is an [option]; a Go map which may be
    nil is an [option] of a [gmap]. *)

From S2P Require Import Prelude.

Record InfoOptions := mk_InfoOptions {}.

Record Info := mk_Info {
  NativePlatforms_ : list string;
  EmulatedPlatforms_ : list string
}.

(** Where output goes: the writers the program itself makes, or one handed
    in by a caller. *)
Inductive Writer :=
  | StdoutWriter
  | StderrWriter
  | PipeWriter (stream platform builder : string)
  | CallerWriter (id : nat).

Record Platform := mk_Platform { OS : string; Arch : string; Variant : string }.

Record BuildOptions := mk_BuildOptions {
  OutputFormat : string;
  Out : option Writer;
  Err : option Writer;
  ForceRemoveIntermediateContainers : bool;
  RemoveIntermediateContainers : bool;
  RemoveIntermediateImages : bool;
  PruneImagesOnSuccess : bool;
  Platforms : list Platform;
  Pull : bool;
  IIDFile : string;
  ContextDirectory : string;
  Labels : list string;
  Args : option (gmap string string);
  ShmSize : string;
  Ulimit : list string;
  Memory : Z;
  MemorySwap : Z;
  CPUShares : Z;
  CPUQuota : Z;
  CPUPeriod : Z;
  CPUSetCPUs : string;
  CPUSetMems : string;
  CgroupParent : string;
  NoCache : bool;
  Quiet : bool;
  CacheFrom : list string;
  CacheTo : list string;
  AddHost : list string;
  Target : string;
  ConfigureNetwork : option bool
}.

Record BuildReport := mk_BuildReport { ImageID : string; SaveFormat : string }.

#[export] Instance BuildReport_eq_dec : EqDecision BuildReport.
Proof. solve_decision. Defined.

#[export] Instance BuildReport_countable : Countable BuildReport.
Proof.
  apply (inj_countable' (λ r, (ImageID r, SaveFormat r)) (λ p, mk_BuildReport p.1 p.2)).
  by intros [].
Defined.

Record PullToFileOptions := mk_PullToFileOptions {
  ptf_ImageID : string; ptf_SaveFormat : string; ptf_SaveFile : string
}.

(** [Destination] is an engine, of a type the interface leaves open. *)
Record PullToLocalOptions (E : Type) := mk_PullToLocalOptions {
  ptl_ImageID : string; ptl_SaveFormat : string; ptl_Destination : option E
}.
Arguments mk_PullToLocalOptions {E}.
Arguments ptl_ImageID {E}.
Arguments ptl_SaveFormat {E}.
Arguments ptl_Destination {E}.

Record RemoveImageOptions := mk_RemoveImageOptions { rio_ImageID : string }.
Record PruneImageOptions := mk_PruneImageOptions { All : bool }.
Record PruneImageReport := mk_PruneImageReport {
  ImageIDs : list string; ImageNames : list string
}.

Record ListBuilderOptions := mk_ListBuilderOptions {
  lbo_ForceRemoveIntermediateContainers : bool;
  lbo_RemoveIntermediateContainers : bool;
  lbo_RemoveIntermediateImages : bool;
  lbo_PruneImagesOnSuccess : bool;
  lbo_IIDFile : string
}.

(** Flag sets are only passed on; a nil one is replaced by a new one. *)
Inductive FlagSet :=
  | NewFlagSet (name : string)
  | CallerFlagSet (id : nat).

Record StoreOptions := mk_StoreOptions {
  GraphRoot : string;
  RunRoot : string;
  GraphDriverName : string;
  GraphDriverOptions : list string
}.

(** A service destination of the configuration. *)
Record Destination := mk_Destination { URI : string; Identity : string; IsMachine : bool }.

Definition LocalImageBuilderName : string := "(local)".
Definition localImageBuilderDriver : string := "local".

(** Of buildah's [define], and of container image manifests. *)
Definition OCIv1ImageManifest : string := "application/vnd.oci.image.manifest.v1+json".
Definition Dockerv2ImageManifest : string :=
  "application/vnd.docker.distribution.manifest.v2+json".

(** ** Builders

    The interface between the farm and its builders.  [B] is the type of
    the values of the interface type [ImageBuilder] (a dynamic type and a
    pointer), [E] that of the engines images are pulled into, and [W] the
    world the methods act on: the objects of the builders and everything
    they talk to.  The name and the driver of a builder never change. *)
Class ImageBuilder (B E W : Type) := {
  Driver : B → string;
  Name : B → string;
  Status : B → Go W (option error);
  GetInfo : B → InfoOptions → Go W (Info * option error);
  NativePlatforms : B → InfoOptions → Go W (list string * option error);
  EmulatedPlatforms : B → InfoOptions → Go W (list string * option error);
  Build : B → string → list string → BuildOptions → Go W (BuildReport * option error);
  PullToFile : B → PullToFileOptions → Go W (string * option error);
  PullToLocal : B → PullToLocalOptions E → Go W (string * option error);
  RemoveImage : B → RemoveImageOptions → Go W (option error);
  PruneImages : B → PruneImageOptions → Go W (PruneImageReport * option error);
  Done : B → Go W (option error)
}.

(** ** [copyStringStringMap] *)

Definition copyStringStringMap `{RangeOracle} (input : option (gmap string string))
    : option (gmap string string) :=
  match input with
  | None => None
  | Some m => Some (foldl (λ out '(k, v), <[k := v]> out) ∅ (range_map "copyStringStringMap" m))
  end.

(** ** [podmanBuildOptionsFromBuildOptions]

    The parts of podman's [entities.BuildOptions] which the program sets. *)
Inductive PullPolicy := PullIfMissing | PullAlways.
Inductive NetworkConfigurationPolicy := NetworkDefault | NetworkDisabled | NetworkEnabled.

Record CommonBuildOptions := mk_CommonBuildOptions {
  c_ShmSize : string;
  c_Ulimit : list string;
  c_Memory : Z;
  c_MemorySwap : Z;
  c_CPUShares : Z;
  c_CPUQuota : Z;
  c_CPUPeriod : Z;
  c_CPUSetCPUs : string;
  c_CPUSetMems : string;
  c_CgroupParent : string;
  c_AddHost : list string
}.

Record PodmanBuildOptions := mk_PodmanBuildOptions {
  p_Layers : bool;
  p_CommonBuildOpts : CommonBuildOptions;
  p_OutputFormat : string;
  p_Out : option Writer;
  p_Err : option Writer;
  p_ForceRmIntermediateCtrs : bool;
  p_RemoveIntermediateCtrs : bool;
  p_Platforms : list Platform;
  p_PullPolicy : PullPolicy;
  p_IIDFile : string;
  p_ContextDirectory : string;
  p_Labels : list string;
  p_Args : option (gmap string string);
  p_NoCache : bool;
  p_Quiet : bool;
  p_CacheFrom : list string;
  p_CacheTo : list string;
  p_Target : string;
  p_ConfigureNetwork : NetworkConfigurationPolicy
}.

Definition podmanBuildOptionsFromBuildOptions `{RangeOracle}
    (options : BuildOptions) (os arch variant : string) : PodmanBuildOptions :=
  let pullPolicy := if Pull options then PullAlways else PullIfMissing in
  let configureNetwork :=
    match ConfigureNetwork options with
    | None => NetworkDefault
    | Some true => NetworkEnabled
    | Some false => NetworkDisabled
    end in
  {| p_Layers := true;
     p_CommonBuildOpts :=
       {| c_ShmSize := ShmSize options;
          c_Ulimit := [] ++ Ulimit options;
          c_Memory := Memory options;
          c_MemorySwap := MemorySwap options;
          c_CPUShares := CPUShares options;
          c_CPUQuota := CPUQuota options;
          c_CPUPeriod := CPUPeriod options;
          c_CPUSetCPUs := CPUSetCPUs options;
          c_CPUSetMems := CPUSetMems options;
          c_CgroupParent := CgroupParent options;
          c_AddHost := [] ++ AddHost options |};
     p_OutputFormat := OutputFormat options;
     p_Out := Out options;
     p_Err := Err options;
     p_ForceRmIntermediateCtrs := ForceRemoveIntermediateContainers options;
     p_RemoveIntermediateCtrs := RemoveIntermediateContainers options;
     p_Platforms := [mk_Platform os arch variant];
     p_PullPolicy := pullPolicy;
     p_IIDFile := IIDFile options;
     p_ContextDirectory := ContextDirectory options;
     p_Labels := [] ++ Labels options;
     p_Args := copyStringStringMap (Args options);
     p_NoCache := NoCache options;
     p_Quiet := Quiet options;
     p_CacheFrom := [] ++ CacheFrom options;
     p_CacheTo := [] ++ CacheTo options;
     p_Target := Target options;
     p_ConfigureNetwork := configureNetwork |}.

Lemma foldl_insert_lookup {V} (l : list (string * V)) (m : gmap string V) k :
  NoDup l.*1 →
  foldl (λ out '(k, v), <[k := v]> out) m l !! k =
    match (list_to_map l : gmap string V) !! k with Some v => Some v | None => m !! k end.
Proof.
  revert m. induction l as [|[k' v'] l IH]; intros m Hnd; csimpl in *.
  { by rewrite lookup_empty. }
  apply NoDup_cons in Hnd as [Hk Hnd]. rewrite IH by done.
  destruct (decide (k = k')) as [->|Hne].
  - rewrite (not_elem_of_list_to_map_1 l k') by done. by rewrite !lookup_insert_eq.
  - by rewrite !lookup_insert_ne by done.
Qed.

(** The copy is equal to the original, whatever the order of iteration. *)
Lemma copyStringStringMap_eq `{RangeOracle} m : copyStringStringMap m = m.
Proof.
  destruct m as [m|]; [|done]. simpl. f_equal. apply map_eq. intros k.
  rewrite foldl_insert_lookup by apply NoDup_range_map. rewrite lookup_empty.
  unfold range_map. rewrite (list_to_map_proper _ (map_to_list m)).
  - rewrite list_to_map_to_list. by destruct (m !! k).
  - rewrite range_perm. apply NoDup_fst_map_to_list.
  - apply range_perm.
Qed.

(** What podman's options ask for, in the terms of the program's options: the
    meaning of each field, written down without the translation. *)
Definition requested (p : PodmanBuildOptions) : BuildOptions :=
  let c := p_CommonBuildOpts p in {|
    OutputFormat := p_OutputFormat p;
    Out := p_Out p;
    Err := p_Err p;
    ForceRemoveIntermediateContainers := p_ForceRmIntermediateCtrs p;
    RemoveIntermediateContainers := p_RemoveIntermediateCtrs p;
    RemoveIntermediateImages := false;
    PruneImagesOnSuccess := false;
    Platforms := p_Platforms p;
    Pull := match p_PullPolicy p with PullAlways => true | PullIfMissing => false end;
    IIDFile := p_IIDFile p;
    ContextDirectory := p_ContextDirectory p;
    Labels := p_Labels p;
    Args := p_Args p;
    ShmSize := c_ShmSize c;
    Ulimit := c_Ulimit c;
    Memory := c_Memory c;
    MemorySwap := c_MemorySwap c;
    CPUShares := c_CPUShares c;
    CPUQuota := c_CPUQuota c;
    CPUPeriod := c_CPUPeriod c;
    CPUSetCPUs := c_CPUSetCPUs c;
    CPUSetMems := c_CPUSetMems c;
    CgroupParent := c_CgroupParent c;
    NoCache := p_NoCache p;
    Quiet := p_Quiet p;
    CacheFrom := p_CacheFrom p;
    CacheTo := p_CacheTo p;
    AddHost := c_AddHost c;
    Target := p_Target p;
    ConfigureNetwork :=
      match p_ConfigureNetwork p with
      | NetworkDefault => None
      | NetworkEnabled => Some true
      | NetworkDisabled => Some false
      end |}.

(** The options of a build for one platform, less the two fields which only
    the farm looks at. *)
Definition on_platform (o : BuildOptions) (platform : Platform) : BuildOptions :=
  mk_BuildOptions (OutputFormat o) (Out o) (Err o)
    (ForceRemoveIntermediateContainers o) (RemoveIntermediateContainers o)
    false false [platform] (Pull o) (IIDFile o)
    (ContextDirectory o) (Labels o) (Args o) (ShmSize o) (Ulimit o) (Memory o) (MemorySwap o)
    (CPUShares o) (CPUQuota o) (CPUPeriod o) (CPUSetCPUs o) (CPUSetMems o) (CgroupParent o)
    (NoCache o) (Quiet o) (CacheFrom o) (CacheTo o) (AddHost o) (Target o) (ConfigureNetwork o).

(** C38: The translation of build options for podman asks of podman exactly
    what the options ask for: read back field by field, what it makes is the
    options for the platform given, less the two fields for the farm; and it
    is the only translation which does so and has layers, since every podman
    options with layers and that platform is the translation of what it asks
    for.  Arguments are copied whatever the order of iteration. *)
Theorem podmanBuildOptions_roundtrip (R : RangeOracle) o os arch variant :
  requested (podmanBuildOptionsFromBuildOptions o os arch variant) =
    on_platform o (mk_Platform os arch variant) ∧
  ∀ p, podmanBuildOptionsFromBuildOptions (requested p) os arch variant = p ↔
       p_Layers p = true ∧ p_Platforms p = [mk_Platform os arch variant].
Proof.
  unfold podmanBuildOptionsFromBuildOptions. rewrite copyStringStringMap_eq. split.
  - unfold requested, on_platform. simpl. f_equal; [by destruct (Pull o)|].
    by destruct (ConfigureNetwork o) as [[]|].
  - intros [? [] ? ? ? ? ? ? [] ? ? ? ? ? ? ? ? ? []]; simpl; rewrite copyStringStringMap_eq;
      (split; [by intros [= <- <-]|by intros [-> ->]]).
Qed.
