(* ===== verification/Engine.v ===== *)
(** * The engines behind the builders

    What [src/local.go] and [src/remote.go] use of podman, of the
    configuration and of the operating system: the class [Podman], whose
    operations act on an outside world [X].  An engine ([E]) is a value of
    the interface [entities.ImageEngine], a connection ([C]) a context made
    by podman's bindings.  The emulators registered with the kernel are those
    of Binfmt.v. *)

From S2P Require Import Prelude GoStrings Elf Binfmt Types.

Inductive EngineMode := ABIMode | TunnelMode.

(** The fields the program sets of [entities.PodmanConfig]. *)
Record PodmanConfig := mk_PodmanConfig {
  pc_FlagSet : FlagSet;
  pc_EngineMode : EngineMode;
  pc_config : gmap string Destination;
  pc_URI : string;
  pc_Identity : string;
  pc_Runroot : string;
  pc_StorageDriver : string;
  pc_StorageOpts : list string
}.

Record ImageSaveOptions := mk_ImageSaveOptions { so_Format : string; so_Output : string }.

Record ImagePruneOptions := mk_ImagePruneOptions { po_All : bool; po_Filter : list string }.

(** One report of [ImageEngine.Prune]. *)
Record PruneReport := mk_PruneReport { pr_Err : option error; pr_Id : string }.

(** Results which are pointers to reports are options, for the reports the
    program looks into. *)
Class Podman (E C X : Type) := {
  config_ReadCustomConfig : Go X (gmap string Destination * option error);
  NewImageEngine : PodmanConfig → Go X (E + error);
  NewConnection : string → Go X (C + error);
  NewConnectionWithIdentity : string → string → bool → Go X (C + error);
  system_Info : C → Go X (string * string * option error);
  engine_Config : E → Go X (option error);
  engine_Build : E → list string → PodmanBuildOptions → Go X (option string * option error);
  engine_Save : E → string → ImageSaveOptions → Go X (option error);
  engine_Exists : E → string → Go X (option bool * option error);
  engine_Load : E → string → Go X (option error);
  engine_Remove : E → list string → Go X (option Z * list error);
  engine_Prune : E → ImagePruneOptions → Go X (list PruneReport * option error);
  engine_Shutdown : E → Go X ()
}.

(** What the program uses of the system it runs on. *)
Class Host (X : Type) := {
  DefaultPlatform : string;
  binfmt_misc : X → error + fsnode;
  known_table : X → header_table;
  set_known_table : header_table → X → X;
  TempFile : Go X (string + error);
  os_Remove : string → X → X
}.

(** [libimage.NormalizePlatform]. *)
Class Libimage := NormalizePlatform : string → string → string → string * string * string.

(** [emulation.Registered] on the system the program runs on. *)
Definition emulation_Registered `{!RangeOracle, !Host X} : Go X (list string) := λ x,
  let '(r, t) := Registered (binfmt_misc x) (known_table x) in (r, set_known_table t x).

(** [storage.Transport.Name()] of containers/image. *)
Definition storage_transport : string := "containers-storage".

Definition nil_dereference : string :=
  "runtime error: invalid memory address or nil pointer dereference".

Definition dereference {W A} (p : option A) : Go W A :=
  match p with Some a => mret a | None => go_panic nil_dereference end.

(** A deferred call runs whether [m] returns or panics, but not when another
    goroutine has ended the process. *)
Definition defer {W A} (cleanup : W → W) (m : Go W A) : Go W A := λ w,
  let '(r, w) := m w in (r, if killed r then w else cleanup w).

(** *** State next to the outside world *)

Definition outside {S X A} (m : Go X A) : Go (S * X) A := λ sx,
  let '(r, x) := m sx.2 in (r, (sx.1, x)).

(** [m] on a part of the state. *)
Definition zoom {S T X A} (get : S → T) (set : T → S → S) (m : Go (T * X) A) : Go (S * X) A :=
  λ sx, let '(r, (t, x)) := m (get sx.1, sx.2) in (r, (set t sx.1, x)).

(** ** Computations which clean up *)

Section Quiet.
Context {W V : Type} (view : W → V).

(** [m] leaves what [view] shows, as the temporary files, as it is, however
    it ends. *)
Definition quiet {A} (m : Go W A) : Prop := ∀ w, view (m w).2 = view w.

Lemma quiet_bind {A B} (m : Go W A) (k : A → Go W B) :
  quiet m → (∀ a, quiet (k a)) → quiet (m ≫= k).
Proof.
  intros Hm Hk w. specialize (Hm w). unfold mbind, go_bind.
  destruct (m w) as [[a|msg] w1]; simpl in *; [|done]. by rewrite Hk.
Qed.

Lemma quiet_ret {A} (a : A) : quiet (mret a : Go W A).
Proof. by intros w. Qed.

Lemma quiet_dereference {A} (p : option A) : quiet (dereference p : Go W A).
Proof. by destruct p; intros w. Qed.

(** [m] leaves it as it is unless it is cut short. *)
Definition tidy {A} (m : Go W A) : Prop :=
  ∀ w, killed (m w).1 = false → view (m w).2 = view w.

Lemma quiet_tidy {A} (m : Go W A) : quiet m → tidy m.
Proof. by intros Hm w _. Qed.

Lemma tidy_ret {A} (a : A) : tidy (mret a : Go W A).
Proof. by intros w. Qed.

Lemma tidy_bind {A B} (m : Go W A) (k : A → Go W B) :
  quiet m → (∀ a, tidy (k a)) → tidy (m ≫= k).
Proof.
  intros Hm Hk w. specialize (Hm w). unfold mbind, go_bind.
  destruct (m w) as [[a|msg] w1]; simpl in *; [|done].
  intros Ha. by rewrite (Hk a w1 Ha).
Qed.
End Quiet.

(** A temporary file which is removed in the end. *)
Lemma tidy_temporary {W A} (view : W → gset string) (create : Go W (string + error)) (remove : string → W → W)
    (failed : error → A) (m : string → Go W A) :
  (∀ w w' name, create w = (Ret (inl name), w') → name ∉ view w ∧ view w' = {[name]} ∪ view w) →
  (∀ w w' r, create w = (r, w') → (∀ name, r ≠ Ret (inl name)) → view w' = view w) →
  (∀ w name, view (remove name w) = view w ∖ {[name]}) →
  (∀ name, tidy view (m name)) →
  tidy view (f ← create; match f with inr e => mret (failed e) | inl name => defer (remove name) (m name) end).
Proof.
  intros Hnew Hfail Hremove Hm w. unfold mbind, go_bind.
  destruct (create w) as [[[name|e]|msg] w1] eqn:Hc.
  - apply Hnew in Hc as [Hfresh Hw1]. unfold defer. specialize (Hm name w1).
    destruct (m name w1) as [r w2]. simpl in *. destruct (killed r); [done|].
    intros _. rewrite Hremove, Hm, Hw1 by done. set_solver.
  - intros _. by apply Hfail in Hc.
  - intros _. by apply Hfail in Hc.
Qed.

(** ** Temporary files

    What the code relies on: a temporary file is new, removing it removes
    it, and engines make and remove none. *)
Record temp_laws {E C X} `{!Podman E C X, !Host X} (temp : X → gset string) : Prop := {
  TempFile_new : ∀ x x' name, TempFile x = (Ret (inl name), x') →
    name ∉ temp x ∧ temp x' = {[name]} ∪ temp x;
  TempFile_failed : ∀ x x' r, TempFile x = (r, x') → (∀ name, r ≠ Ret (inl name)) →
    temp x' = temp x;
  os_Remove_gone : ∀ x name, temp (os_Remove name x) = temp x ∖ {[name]};
  engine_Save_temp : ∀ (e : E) id o x, temp (engine_Save e id o x).2 = temp x;
  engine_Load_temp : ∀ (e : E) input x, temp (engine_Load e input x).2 = temp x;
  engine_Exists_temp : ∀ (e : E) id x, temp (engine_Exists e id x).2 = temp x
}.
Arguments temp_laws _ _ _ _ _ _ : clear implicits.

(** ** A concrete system

    For witnesses: engines and connections are numbers, an engine builds
    whatever it is asked for and keeps a record of the platforms. *)
Record toy := mk_toy {
  t_asked : list (list Platform);
  t_temp : gset string;
  t_table : header_table
}.

Definition toy_start : toy := mk_toy [] ∅ initial_table.

Definition toy_config : gmap string Destination :=
  {["east" := mk_Destination "ssh://east" EmptyString false]}.

#[export] Instance toy_podman : Podman nat nat toy := {
  config_ReadCustomConfig := mret (toy_config, None);
  NewImageEngine _ := mret (inl 0);
  NewConnection _ := mret (inl 0);
  NewConnectionWithIdentity _ _ _ := mret (inl 0);
  system_Info _ := mret ("linux", "s390x", None);
  engine_Config _ := mret None;
  engine_Build _ _ o := λ x,
    (Ret (Some "id", None), mk_toy (t_asked x ++ [p_Platforms o]) (t_temp x) (t_table x));
  engine_Save _ _ _ := mret None;
  engine_Exists _ _ := mret (Some false, None);
  engine_Load _ _ := mret None;
  engine_Remove _ _ := mret (Some 0%Z, []);
  engine_Prune _ _ := mret ([], None);
  engine_Shutdown _ := mret tt
}.

(** A system with an emulator for one other platform. *)
#[export] Instance toy_host : Host toy := {
  DefaultPlatform := "linux/amd64";
  binfmt_misc _ := inr (binfmt_dir sample_dir);
  known_table := t_table;
  set_known_table t x := mk_toy (t_asked x) (t_temp x) t;
  TempFile := λ x,
    if decide ("tmp" ∈ t_temp x) then (Ret (inr (ErrNew "file exists")), x)
    else (Ret (inl "tmp"), mk_toy (t_asked x) ({["tmp"]} ∪ t_temp x) (t_table x));
  os_Remove name x := mk_toy (t_asked x) (t_temp x ∖ {[name]}) (t_table x)
}.

#[export] Instance toy_libimage : Libimage := λ os arch variant, (os, arch, variant).

Lemma toy_temp_laws : temp_laws nat nat toy toy_podman toy_host t_temp.
Proof.
  split; try done.
  - intros x x' name. simpl. case_decide; intros [= <- <-]. split; [done|reflexivity].
  - intros x x' r. simpl. case_decide; intros [= <- <-] Hr; [done|]. by destruct (Hr "tmp").
Qed.
