(* ===== verification/Builders.v ===== *)
(** * Podman builders

    Model of [src/remote.go] and of the builder of [src/local.go].  A builder
    is a pointer to an object: what never changes of the object is kept with
    the pointer, what changes is in a heap which all builders share
    ([sync.Once] and what it fetched, the engine which [Done] drops).  The
    heap with the outside world is the world of the class [ImageBuilder],
    which both builders implement. *)

From S2P Require Import Prelude GoStrings MultiError Types Engine.

(** The fields set by [platforms.Do]. *)
Record platform_info := mk_platform_info {
  platformsErr : option error;
  os : string;
  arch : string;
  variant : string;
  nativePlatforms : list string;
  emulatedPlatforms : list string
}.

Definition zero_platform_info : platform_info :=
  mk_platform_info None EmptyString EmptyString EmptyString [] [].

(** [platforms sync.Once] and those fields. *)
Record platform_cache := mk_cache { once_done : bool; info : platform_info }.

Definition zero_cache : platform_cache := mk_cache false zero_platform_info.

Record podmanLocal (E : Type) := mk_podmanLocal {
  l_flagSet : FlagSet;
  l_config : gmap string Destination;
  l_storeOptions : StoreOptions;
  l_engine : E
}.
Arguments mk_podmanLocal {E}.
Arguments l_flagSet {E}.
Arguments l_config {E}.
Arguments l_storeOptions {E}.
Arguments l_engine {E}.

Record podmanRemote := mk_podmanRemote {
  r_name : string;
  r_flagSet : FlagSet;
  r_config : gmap string Destination;
  r_uri : string;
  r_identity : string;
  r_isMachine : bool
}.

(** The fields of a [podmanRemote] which change. *)
Record remote_state (E C : Type) := mk_remote_state {
  r_connCtx : option C;
  r_engine : option E;
  r_cache : platform_cache
}.
Arguments mk_remote_state {E C}.
Arguments r_connCtx {E C}.
Arguments r_engine {E C}.
Arguments r_cache {E C}.

Definition zero_BuildReport : BuildReport := mk_BuildReport EmptyString EmptyString.

(** A copy of storage options, its slice included. *)
Definition copy_StoreOptions (o : StoreOptions) : StoreOptions :=
  mk_StoreOptions (GraphRoot o) (RunRoot o) (GraphDriverName o) ([] ++ GraphDriverOptions o).
Definition zero_StoreOptions : StoreOptions := mk_StoreOptions EmptyString EmptyString EmptyString [].

(** [platforms.Do]: what [fetch] returns is kept, and it is called once. *)
Definition platforms_Do {X} (fetch : Go X platform_info) : Go (platform_cache * X) () := λ cx,
  let '(c, x) := cx in
  if once_done c then (Ret tt, (c, x))
  else match fetch x with
       | (Ret i, x) => (Ret tt, (mk_cache true i, x))
       | (Panic msg, x) => (Panic msg, (mk_cache true (info c), x))
       end.

Definition the_info {X} : Go (platform_cache * X) platform_info := λ cx, (Ret (info cx.1), cx).

Definition platform_string (os arch variant : string) : string :=
  let native := str_app os (str_app "/" arch) in
  if decide (variant = EmptyString) then native else str_app native (str_app "/" variant).

(** The [Platforms] of an error message. *)
Definition fmt_platforms (ps : list Platform) : fmt_arg :=
  FList ((λ p, str_app (OS p) (str_app " " (str_app (Arch p) (str_app " " (Variant p))))) <$> ps).

Definition save_format (options : BuildOptions) : string :=
  if decide (OutputFormat options = Dockerv2ImageManifest) then "docker-archive" else "oci-archive".

(** What [RemoveImage] makes of the engine's answer; [single], [many] and
    [status] are the messages of the builder. *)
Definition remove_result (id : string) (args : list fmt_arg) (many single status : string)
    (report : option Z) (errs : list error) : outcome (option error) :=
  match errs with
  | [] =>
      match report with
      | None => Panic nil_dereference
      | Some code =>
          if decide (code ≠ 0%Z) then Ret (Some (Errorf status (FStr id :: args ++ [FInt code]) None))
          else Ret None
      end
  | [e] => Ret (Some (Errorf single [FStr id] (Some e)))
  | _ =>
      match ErrorOrNil (append_all None errs) with
      | Some multi => Ret (Some (Errorf many (FStr id :: args) (Some multi)))
      | None => Ret None
      end
  end.

(** The image IDs of the reports of what was pruned. *)
Definition pruned_ids (reports : list PruneReport) : list string :=
  foldl (λ ids r,
    match pr_Err r with
    | None => if decide (pr_Id r = EmptyString) then ids else ids ++ [pr_Id r]
    | Some _ => ids
    end) [] reports.

Definition prune_options (options : PruneImageOptions) : ImagePruneOptions :=
  mk_ImagePruneOptions (All options) [if All options then "dangling=false" else "dangling=true"].

(** The part of [PruneImages] which both builders share. *)
Definition prune_with {X} (prune : Go X (list PruneReport * option error))
    : Go X (PruneImageReport * option error) :=
  '(pruneReports, err) ← prune;
  match err with
  | Some e =>
      mret (mk_PruneImageReport [] [],
            Some (Errorf "removing unused images from local storage: %w" [] (Some e)))
  | None => mret (mk_PruneImageReport (pruned_ids pruneReports) [], None)
  end.

(** The result of a build by an engine. *)
Definition build_result {W} (options : BuildOptions) (report : option string)
    : Go W (BuildReport * option error) :=
  id ← dereference report;
  mret (mk_BuildReport id (save_format options), None).

Module Local.
Section Operations.
Context `{!RangeOracle} `{!Libimage} {E C X : Type} `{!Podman E C X} `{!Host X}.
Implicit Types l : podmanLocal E.

Definition fetchInfo : Go X platform_info :=
  let nativePlatform := DefaultPlatform (X := X) in
  let parsed :=
    match SplitN nativePlatform "/" 3 with
    | [os; arch] => Some (os, arch, EmptyString)
    | [os; arch; variant] => Some (os, arch, variant)
    | _ => None
    end in
  match parsed with
  | None =>
      mret (mk_platform_info
        (Some (Errorf "unparseable default platform %q" [FStr nativePlatform] None))
        EmptyString EmptyString EmptyString [] [])
  | Some (os, arch, variant) =>
      let '(os, arch, variant) := NormalizePlatform os arch variant in
      emulated ← emulation_Registered;
      mret (mk_platform_info None os arch variant [platform_string os arch variant] emulated)
  end.

Definition Info_ l (options : InfoOptions) : Go (platform_cache * X) (Info * option error) :=
  platforms_Do fetchInfo;;
  i ← the_info;
  mret (mk_Info ([] ++ nativePlatforms i) (emulatedPlatforms i), platformsErr i).

Definition NativePlatforms l (options : InfoOptions)
    : Go (platform_cache * X) (list string * option error) :=
  platforms_Do fetchInfo;;
  i ← the_info;
  mret ([] ++ nativePlatforms i, platformsErr i).

Definition EmulatedPlatforms l (options : InfoOptions)
    : Go (platform_cache * X) (list string * option error) :=
  platforms_Do fetchInfo;;
  i ← the_info;
  mret (emulatedPlatforms i, platformsErr i).

Definition Status l : Go (platform_cache * X) (option error) :=
  platforms_Do fetchInfo;;
  outside (engine_Config (l_engine l)).

Definition Build l (outputReference : string) (containerFiles : list string)
    (options : BuildOptions) : Go (platform_cache * X) (BuildReport * option error) :=
  platforms_Do fetchInfo;;
  i ← the_info;
  match platformsErr i with
  | Some e =>
      mret (zero_BuildReport, Some (Errorf "determining local platform: %w" [] (Some e)))
  | None =>
      let theseOptions :=
        podmanBuildOptionsFromBuildOptions options (os i) (arch i) (variant i) in
      '(report, err) ← outside (engine_Build (l_engine l) containerFiles theseOptions);
      match err with
      | Some e =>
          mret (zero_BuildReport,
            Some (Errorf "building for %v locally: %w"
                    [fmt_platforms (p_Platforms theseOptions)] (Some e)))
      | None => build_result options report
      end
  end.

Definition PullToFile l (options : PullToFileOptions) : Go X (string * option error) :=
  err ← engine_Save (l_engine l) (ptf_ImageID options)
          (mk_ImageSaveOptions (ptf_SaveFormat options) (ptf_SaveFile options));
  match err with
  | Some e =>
      mret (EmptyString, Some (Errorf "saving image %q: %w" [FStr (ptf_ImageID options)] (Some e)))
  | None => mret (str_app (ptf_SaveFormat options) (str_app ":" (ptf_SaveFile options)), None)
  end.

(** Saving to the temporary file, and loading from it. *)
Definition save_and_load l (options : PullToLocalOptions E) (tempFile : string)
    : Go X (string * option error) :=
  err ← engine_Save (l_engine l) (ptl_ImageID options)
          (mk_ImageSaveOptions (ptl_SaveFormat options) tempFile);
  match err with
  | Some e =>
      mret (EmptyString, Some (Errorf "saving image %q: %w" [FStr (ptl_ImageID options)] (Some e)))
  | None =>
      err ← match ptl_Destination options with
            | None => engine_Load (l_engine l) tempFile
            | Some destination => engine_Load destination tempFile
            end;
      match err with
      | Some e => mret (EmptyString, Some e)
      | None => mret (str_app storage_transport (str_app ":" (ptl_ImageID options)), None)
      end
  end.

Definition PullToLocal l (options : PullToLocalOptions E) : Go X (string * option error) :=
  '(br, err) ← match ptl_Destination options with
               | None => engine_Exists (l_engine l) (ptl_ImageID options)
               | Some destination => engine_Exists destination (ptl_ImageID options)
               end;
  match err with
  | Some e => mret (EmptyString, Some e)
  | None =>
      present ← dereference br;
      if (present : bool)
      then mret (str_app storage_transport (str_app ":" (ptl_ImageID options)), None)
      else
        tempFile ← TempFile;
        match tempFile with
        | inr e => mret (EmptyString, Some e)
        | inl tempFile => defer (os_Remove tempFile) (save_and_load l options tempFile)
        end
  end.

Definition RemoveImage l (options : RemoveImageOptions) : Go X (option error) :=
  '(report, errs) ← engine_Remove (l_engine l) [rio_ImageID options];
  go_lift (remove_result (rio_ImageID options) []
    "removing intermediate image %q from local storage: %w"
    "removing intermediate image %q from local storage: %w"
    "removing intermediate image %q from local storage: status %d" report errs).

Definition PruneImages l (options : PruneImageOptions) : Go X (PruneImageReport * option error) :=
  prune_with (engine_Prune (l_engine l) (prune_options options)).

Definition Done l : Go X (option error) := mret None.

(** The object it returns has not fetched anything yet. *)
Definition NewPodmanLocalImageBuilder (flags : option FlagSet) (storeOptions : option StoreOptions)
    : Go X (podmanLocal E + error) :=
  let flags := default (NewFlagSet "buildfarm") flags in
  let storeOptions := default zero_StoreOptions storeOptions in
  '(custom, err) ← config_ReadCustomConfig;
  match err with
  | Some e => mret (inr (Errorf "reading custom config: %w" [] (Some e)))
  | None =>
      engine ← NewImageEngine
        (mk_PodmanConfig flags ABIMode custom EmptyString EmptyString
          (RunRoot storeOptions) (GraphDriverName storeOptions) (GraphDriverOptions storeOptions));
      match engine with
      | inr e => mret (inr (Errorf "initializing local image engine: %w" [] (Some e)))
      | inl engine =>
          mret (inl (mk_podmanLocal flags custom (copy_StoreOptions storeOptions) engine))
      end
  end.
End Operations.
End Local.

Module Remote.
Section Operations.
Context `{!RangeOracle} {E C X : Type} `{!Podman E C X} `{!Host X}.
Implicit Types r : podmanRemote.
Implicit Types s : remote_state E C.

Definition set_cache (c : platform_cache) s : remote_state E C :=
  mk_remote_state (r_connCtx s) (r_engine s) c.

(** The engine, which is nil after [Done]. *)
Definition the_engine : Go (remote_state E C * X) E := λ sx,
  match r_engine sx.1 with Some e => (Ret e, sx) | None => (Panic nil_dereference, sx) end.

Definition fetchInfo r (connCtx : option C) : Go X platform_info :=
  connCtx ← dereference connCtx;
  '(os, arch, err) ← system_Info connCtx;
  match (err : option error) with
  | Some e =>
      mret (mk_platform_info
        (Some (Errorf "retrieving host info from %q: %w" [FStr (r_name r)] (Some e)))
        EmptyString EmptyString EmptyString [] [])
  | None =>
      mret (mk_platform_info None os arch EmptyString [str_app os (str_app "/" arch)] [])
  end.

Definition platforms_Do r : Go (remote_state E C * X) () := λ sx,
  zoom r_cache set_cache (Builders.platforms_Do (fetchInfo r (r_connCtx sx.1))) sx.

Definition the_info : Go (remote_state E C * X) platform_info := λ sx,
  (Ret (info (r_cache sx.1)), sx).

Definition Info_ r (options : InfoOptions) : Go (remote_state E C * X) (Info * option error) :=
  platforms_Do r;;
  i ← the_info;
  mret (mk_Info ([] ++ nativePlatforms i) [], platformsErr i).

Definition NativePlatforms r (options : InfoOptions)
    : Go (remote_state E C * X) (list string * option error) :=
  platforms_Do r;;
  i ← the_info;
  mret ([] ++ nativePlatforms i, platformsErr i).

Definition EmulatedPlatforms r (options : InfoOptions)
    : Go (remote_state E C * X) (list string * option error) :=
  platforms_Do r;;
  i ← the_info;
  mret ([], platformsErr i).

Definition Status r : Go (remote_state E C * X) (option error) :=
  platforms_Do r;;
  e ← the_engine;
  outside (engine_Config e).

(** Other than the local builder's, this [Build] does not fetch the
    platform. *)
Definition Build r (outputReference : string) (containerFiles : list string)
    (options : BuildOptions) : Go (remote_state E C * X) (BuildReport * option error) :=
  i ← the_info;
  let theseOptions := podmanBuildOptionsFromBuildOptions options (os i) (arch i) (variant i) in
  e ← the_engine;
  '(report, err) ← outside (engine_Build e containerFiles theseOptions);
  match err with
  | Some e =>
      mret (zero_BuildReport,
        Some (Errorf "building for %v on %q: %w"
                [fmt_platforms (p_Platforms theseOptions); FStr (r_name r)] (Some e)))
  | None => build_result options report
  end.

Definition PullToFile r (options : PullToFileOptions)
    : Go (remote_state E C * X) (string * option error) :=
  e ← the_engine;
  err ← outside (engine_Save e (ptf_ImageID options)
          (mk_ImageSaveOptions (ptf_SaveFormat options) (ptf_SaveFile options)));
  match err with
  | Some e =>
      mret (EmptyString, Some (Errorf "saving image %q: %w" [FStr (ptf_ImageID options)] (Some e)))
  | None => mret (str_app (ptf_SaveFormat options) (str_app ":" (ptf_SaveFile options)), None)
  end.

Definition save_and_load (options : PullToLocalOptions E) (tempFile : string)
    : Go (remote_state E C * X) (string * option error) :=
  e ← the_engine;
  err ← outside (engine_Save e (ptl_ImageID options)
          (mk_ImageSaveOptions (ptl_SaveFormat options) tempFile));
  match err with
  | Some e =>
      mret (EmptyString,
        Some (Errorf "saving image %q to temporary file: %w" [FStr (ptl_ImageID options)] (Some e)))
  | None =>
      match ptl_Destination options with
      | None =>
          mret (EmptyString, Some (ErrNew "internal error: options.Destination not set"))
      | Some destination =>
          err ← outside (engine_Load destination tempFile);
          match err with
          | Some e =>
              mret (EmptyString,
                Some (Errorf "loading image %q: %w" [FStr (ptl_ImageID options)] (Some e)))
          | None => mret (str_app storage_transport (str_app ":" (ptl_ImageID options)), None)
          end
      end
  end.

Definition PullToLocal r (options : PullToLocalOptions E)
    : Go (remote_state E C * X) (string * option error) :=
  tempFile ← outside TempFile;
  match tempFile with
  | inr e => mret (EmptyString, Some e)
  | inl tempFile =>
      defer (λ sx, (sx.1, os_Remove tempFile sx.2)) (save_and_load options tempFile)
  end.

Definition RemoveImage r (options : RemoveImageOptions)
    : Go (remote_state E C * X) (option error) :=
  e ← the_engine;
  '(report, errs) ← outside (engine_Remove e [rio_ImageID options]);
  go_lift (remove_result (rio_ImageID options) [FStr (r_name r)]
    "removing intermediate image %q from remote %q: %w"
    "removing intermediate image %q from local storage: %w"
    "removing intermediate image %q from remote %q: status %d" report errs).

Definition PruneImages r (options : PruneImageOptions)
    : Go (remote_state E C * X) (PruneImageReport * option error) :=
  e ← the_engine;
  prune_with (outside (engine_Prune e (prune_options options))).

Definition Done r : Go (remote_state E C * X) (option error) := λ sx,
  match r_connCtx sx.1, r_engine sx.1 with
  | Some _, Some e =>
      let '(o, x) := engine_Shutdown e sx.2 in
      match o with
      | Ret _ => (Ret None, (mk_remote_state None None (r_cache sx.1), x))
      | Panic msg => (Panic msg, (sx.1, x))
      end
  | _, _ => (Ret None, sx)
  end.

(** The destination of the zero value, which a lookup of a name without
    destination gives. *)
Definition zero_Destination : Destination := mk_Destination EmptyString EmptyString false.

(** The error made for a name without destination is overwritten by that of
    the connection, whatever it is. *)
Definition NewPodmanRemoteImageBuilder (flags : option FlagSet) (name : string)
    : Go X ((podmanRemote * remote_state E C) + error) :=
  let flags := default (NewFlagSet "buildfarm") flags in
  '(custom, err) ← config_ReadCustomConfig;
  match err with
  | Some e => mret (inr (Errorf "reading custom config: %w" [] (Some e)))
  | None =>
      let dest := default zero_Destination (custom !! name) in
      connCtx ←
        if decide (Identity dest ≠ EmptyString) then
          c ← NewConnectionWithIdentity (URI dest) (Identity dest) (IsMachine dest);
          mret match c with
               | inl c => inl c
               | inr e => inr (Errorf "connecting to %q at %q as %q: %w"
                                [FStr name; FStr (URI dest); FStr (Identity dest)] (Some e))
               end
        else
          c ← NewConnection (URI dest);
          mret match c with
               | inl c => inl c
               | inr e => inr (Errorf "connecting to %q at %q: %w"
                                [FStr name; FStr (URI dest)] (Some e))
               end;
      match connCtx with
      | inr e => mret (inr e)
      | inl connCtx =>
          engine ← NewImageEngine
            (mk_PodmanConfig flags TunnelMode ∅ (URI dest) (Identity dest)
              EmptyString EmptyString []);
          match engine with
          | inr e =>
              mret (inr (Errorf "initializing image engine at %q: %w" [FStr (URI dest)] (Some e)))
          | inl engine =>
              mret (inl (mk_podmanRemote name flags custom (URI dest) (Identity dest)
                           (IsMachine dest),
                         mk_remote_state (Some connCtx) (Some engine) zero_cache))
          end
      end
  end.
End Operations.
End Remote.

(** ** What has been fetched stays *)

(** [m] does not change the cache of an object once it is filled. *)
Definition keeps {S X A} (get : S → platform_cache) (m : Go (S * X) A) : Prop :=
  ∀ s x, once_done (get s) = true → get (m (s, x)).2.1 = get s.

Create HintDb keeps.

Section Keeps.
Context {S X : Type} (get : S → platform_cache).

Lemma keeps_bind {A B} (m : Go (S * X) A) (k : A → Go (S * X) B) :
  keeps get m → (∀ a, keeps get (k a)) → keeps get (m ≫= k).
Proof.
  intros Hm Hk s x Hs. specialize (Hm s x Hs). unfold mbind, go_bind.
  destruct (m (s, x)) as [[a|msg] [s1 x1]]; simpl in *; [|done].
  rewrite Hk; congruence.
Qed.

Lemma keeps_ret {A} (a : A) : keeps get (mret a : Go (S * X) A).
Proof. by intros s x _. Qed.

Lemma keeps_lift {A} (o : outcome A) : keeps get (go_lift o : Go (S * X) A).
Proof. by intros s x _. Qed.

Lemma keeps_dereference {A} (p : option A) : keeps get (dereference p : Go (S * X) A).
Proof. by destruct p; intros s x _. Qed.

Lemma keeps_outside {A} (m : Go X A) : keeps get (outside m).
Proof. intros s x _. unfold outside. simpl. by destruct (m x). Qed.

Lemma keeps_defer {A} (m : Go (S * X) A) (f : X → X) :
  keeps get m → keeps get (defer (λ sx, (sx.1, f sx.2)) m).
Proof.
  intros Hm s x Hs. specialize (Hm s x Hs). unfold defer.
  destruct (m (s, x)) as [r [s1 x1]]. by destruct (killed r).
Qed.
End Keeps.

Lemma keeps_platforms_Do {X} (fetch : Go X platform_info) : keeps id (platforms_Do fetch).
Proof. intros c x Hc. unfold platforms_Do. simpl in *. by rewrite Hc. Qed.

Lemma keeps_the_info {X} : keeps (X := X) id the_info.
Proof. by intros c x _. Qed.

Lemma keeps_prune_with {S X} (get : S → platform_cache)
    (m : Go (S * X) (list PruneReport * option error)) :
  keeps get m → keeps get (prune_with m).
Proof. intros Hm. apply keeps_bind; [done|]. intros [l [e|]]; apply keeps_ret. Qed.

Lemma keeps_build_result {S X} (get : S → platform_cache) options report :
  keeps get (build_result options report : Go (S * X) _).
Proof. apply keeps_bind; [apply keeps_dereference|]. intros; apply keeps_ret. Qed.

#[export] Hint Resolve keeps_ret keeps_lift keeps_dereference keeps_outside keeps_platforms_Do
  keeps_the_info keeps_build_result : keeps.

(** One step of a proof that a method keeps the cache: the first call, or a
    case of what it returned. *)
Ltac solve_keeps :=
  repeat first
    [ solve [auto with keeps]
    | apply keeps_bind; [|intros ?]
    | apply keeps_defer
    | apply keeps_prune_with
    | progress simpl
    | case_match ].

Section LocalKeeps.
Context `{!RangeOracle} `{!Libimage} {E C X : Type} `{!Podman E C X} `{!Host X}.
Implicit Types l : podmanLocal E.

Lemma local_Info_keeps l o : keeps id (Local.Info_ l o).
Proof. unfold Local.Info_. solve_keeps. Qed.
Lemma local_NativePlatforms_keeps l o : keeps id (Local.NativePlatforms l o).
Proof. unfold Local.NativePlatforms. solve_keeps. Qed.
Lemma local_EmulatedPlatforms_keeps l o : keeps id (Local.EmulatedPlatforms l o).
Proof. unfold Local.EmulatedPlatforms. solve_keeps. Qed.
Lemma local_Status_keeps l : keeps id (Local.Status l).
Proof. unfold Local.Status. solve_keeps. Qed.
Lemma local_Build_keeps l reference cf o : keeps id (Local.Build l reference cf o).
Proof. unfold Local.Build. solve_keeps. Qed.
End LocalKeeps.

Section RemoteKeeps.
Context `{!RangeOracle} {E C X : Type} `{!Podman E C X} `{!Host X}.
Implicit Types r : podmanRemote.

Lemma remote_the_engine_keeps : keeps (S := remote_state E C) (X := X) r_cache Remote.the_engine.
Proof. intros s x _. unfold Remote.the_engine. simpl. by destruct (r_engine s). Qed.

Lemma remote_the_info_keeps : keeps (S := remote_state E C) (X := X) r_cache Remote.the_info.
Proof. by intros s x _. Qed.

Lemma remote_platforms_Do_keeps r : keeps (S := remote_state E C) (X := X) r_cache (Remote.platforms_Do r).
Proof.
  intros s x Hs. unfold Remote.platforms_Do, zoom, platforms_Do. simpl. by rewrite Hs.
Qed.

Hint Resolve remote_the_engine_keeps remote_the_info_keeps remote_platforms_Do_keeps : keeps.

Lemma remote_Info_keeps r o : keeps r_cache (Remote.Info_ r o : Go (remote_state E C * X) _).
Proof. unfold Remote.Info_. solve_keeps. Qed.
Lemma remote_NativePlatforms_keeps r o :
  keeps r_cache (Remote.NativePlatforms r o : Go (remote_state E C * X) _).
Proof. unfold Remote.NativePlatforms. solve_keeps. Qed.
Lemma remote_EmulatedPlatforms_keeps r o :
  keeps r_cache (Remote.EmulatedPlatforms r o : Go (remote_state E C * X) _).
Proof. unfold Remote.EmulatedPlatforms. solve_keeps. Qed.
Lemma remote_Status_keeps r : keeps r_cache (Remote.Status r : Go (remote_state E C * X) _).
Proof. unfold Remote.Status. solve_keeps. Qed.
Lemma remote_Build_keeps r reference cf o :
  keeps r_cache (Remote.Build r reference cf o : Go (remote_state E C * X) _).
Proof. unfold Remote.Build. solve_keeps. Qed.
Lemma remote_PullToFile_keeps r o :
  keeps r_cache (Remote.PullToFile r o : Go (remote_state E C * X) _).
Proof. unfold Remote.PullToFile. solve_keeps. Qed.
Lemma remote_PullToLocal_keeps r o :
  keeps r_cache (Remote.PullToLocal r o : Go (remote_state E C * X) _).
Proof. unfold Remote.PullToLocal, Remote.save_and_load. solve_keeps. Qed.
Lemma remote_RemoveImage_keeps r o :
  keeps r_cache (Remote.RemoveImage r o : Go (remote_state E C * X) _).
Proof. unfold Remote.RemoveImage. solve_keeps. Qed.
Lemma remote_PruneImages_keeps r o :
  keeps r_cache (Remote.PruneImages r o : Go (remote_state E C * X) _).
Proof. unfold Remote.PruneImages. solve_keeps. Qed.
Lemma remote_Done_keeps r : keeps r_cache (Remote.Done r : Go (remote_state E C * X) _).
Proof.
  intros s x _. unfold Remote.Done. simpl.
  destruct (r_connCtx s), (r_engine s) as [e|]; [|done..].
  by destruct (engine_Shutdown e x) as [[u|msg] x1].
Qed.
End RemoteKeeps.

#[export] Hint Resolve local_Info_keeps local_NativePlatforms_keeps local_EmulatedPlatforms_keeps
  local_Status_keeps local_Build_keeps remote_Info_keeps remote_NativePlatforms_keeps
  remote_EmulatedPlatforms_keeps remote_Status_keeps remote_Build_keeps remote_PullToFile_keeps
  remote_PullToLocal_keeps remote_RemoveImage_keeps remote_PruneImages_keeps remote_Done_keeps
  : keeps.

(** ** Removing and pruning *)

(** [RemoveImage] of either builder returns nil only when the engine
    reported no error and a zero exit code, or when it reported several
    errors which are all empty aggregates; a report which is missing although
    there is no error is dereferenced. *)
Theorem remove_result_nil id args many single status report errs :
  (remove_result id args many single status report errs = Ret None ↔
     (errs = [] ∧ report = Some 0%Z) ∨ (2 ≤ length errs ∧ errs ≫= flatten_one = [])) ∧
  (remove_result id args many single status report errs = Panic nil_dereference ↔
     errs = [] ∧ report = None) ∧
  (∀ e, remove_result id args many single status report errs = Ret (Some e) →
     ∃ format fargs wrapped, e = Errorf format (FStr id :: fargs) wrapped).
Proof.
  destruct errs as [|e1 [|e2 errs]]; simpl.
  - destruct report as [code|]; simpl; [case_decide|]; naive_solver lia.
  - split_and!; [|naive_solver|intros e [= <-]; eauto]. split; [done|].
    intros [[? _]|[? _]]; [done|lia].
  - pose proof (append_all_errors (e1 :: e2 :: errs) None) as Happ. simpl in Happ.
    destruct (ErrorOrNil _) as [multi|] eqn:Hm.
    + split_and!; [|naive_solver|intros e [= <-]; eauto]. split; [done|].
      intros [[? _]|[_ Hnil]]; [done|]. csimpl in Hnil. rewrite Hnil in Happ.
      apply ErrorOrNil_None in Happ. simpl in Happ. congruence.
    + split_and!; [|naive_solver|naive_solver]. split; [intros _|done]. right.
      split; [lia|]. apply ErrorOrNil_None in Hm. csimpl. by rewrite <-Happ.
Qed.

Lemma pruned_ids_app reports ids :
  foldl (λ ids r,
    match pr_Err r with
    | None => if decide (pr_Id r = EmptyString) then ids else ids ++ [pr_Id r]
    | Some _ => ids
    end) ids reports =
  ids ++ (pr_Id <$> filter (λ r, pr_Err r = None ∧ pr_Id r ≠ EmptyString) reports).
Proof.
  revert ids. induction reports as [|r reports IH]; intros ids; simpl; [by rewrite app_nil_r|].
  rewrite IH, filter_cons. destruct (pr_Err r) as [e|].
  { by rewrite decide_False by (by intros [? _]). }
  destruct (decide (pr_Id r = EmptyString)) as [Hid|Hid].
  { by rewrite decide_False by (by intros [_ ?]). }
  rewrite decide_True by done. by rewrite <-(assoc_L (++)).
Qed.

(** [PruneImages] of either builder reports, in order, the IDs of the
    images the engine says it removed without error, and no names; an error
    of the engine is passed on and nothing reported. *)
Theorem prune_reports {X} (prune : Go X (list PruneReport * option error)) x :
  prune_with prune x =
  match prune x with
  | (Panic msg, x') => (Panic msg, x')
  | (Ret (_, Some e), x') =>
      (Ret (mk_PruneImageReport [] [],
            Some (Errorf "removing unused images from local storage: %w" [] (Some e))), x')
  | (Ret (reports, None), x') =>
      (Ret (mk_PruneImageReport
              (pr_Id <$> filter (λ r, pr_Err r = None ∧ pr_Id r ≠ EmptyString) reports) [],
            None), x')
  end.
Proof.
  unfold prune_with, mbind, go_bind. destruct (prune x) as [[[reports [e|]]|msg] x']; [done| |done].
  unfold pruned_ids. by rewrite pruned_ids_app.
Qed.

(** ** The local builder's platforms *)

Section LocalPlatforms.
Context `{!RangeOracle} `{!Libimage} {X : Type} `{!Host X}.

(** The local builder's native platform is the default platform of the
    system, normalized, with its variant if it has one; the emulated ones are
    those registered with the kernel.  A default platform without a slash is
    an error. *)
Theorem local_fetchInfo_exact os arch (variant : option string) (x : X)
    (Hos : contains_byte "/" os = false) (Harch : contains_byte "/" arch = false)
    (Hplatform : DefaultPlatform (X := X) =
       Join "/" (os :: arch :: match variant with Some v => [v] | None => [] end)) :
  Local.fetchInfo x =
  let '(os, arch, variant) := NormalizePlatform os arch (default EmptyString variant) in
  match emulation_Registered x with
  | (Panic msg, x') => (Panic msg, x')
  | (Ret emulated, x') =>
      (Ret (mk_platform_info None os arch variant [platform_string os arch variant] emulated), x')
  end.
Proof.
  unfold Local.fetchInfo. rewrite Hplatform.
  assert (SplitN (Join "/" (os :: arch :: match variant with Some v => [v] | None => [] end)) "/" 3
    = os :: arch :: match variant with Some v => [v] | None => [] end) as ->.
  { unfold SplitN. rewrite Join_cons, split_cuts_app by done. f_equal.
    destruct variant as [v|]; [|by apply split_cuts_none].
    rewrite Join_cons, split_cuts_app by done. done. }
  destruct variant as [v|]; simpl;
    destruct (NormalizePlatform _ _ _) as [[os' arch'] variant']; unfold mbind, go_bind;
    by destruct (emulation_Registered x) as [[l|msg] x'].
Qed.
End LocalPlatforms.

(** ** The life of a remote builder *)

Section RemoteLife.
Context `{!RangeOracle} {E C X : Type} `{!Podman E C X} `{!Host X}.
Implicit Types r : podmanRemote.
Implicit Types s : remote_state E C.

(** After [Done] of a remote builder the connection and the engine are
    gone: [Done] again does nothing, and every method which needs the engine
    panics. *)
Theorem remote_Done_final r s (x : X) s1 x1
    (Hboth : is_Some (r_connCtx s) ↔ is_Some (r_engine s))
    (Hdone : Remote.Done r (s, x) = (Ret None, (s1, x1))) :
  r_cache s1 = r_cache s ∧
  (∀ x2, Remote.Done r (s1, x2) = (Ret None, (s1, x2))) ∧
  (∀ x2 reference cf o,
     Remote.Build r reference cf o (s1, x2) = (Panic nil_dereference, (s1, x2))) ∧
  (∀ x2 o, Remote.PullToFile r o (s1, x2) = (Panic nil_dereference, (s1, x2))) ∧
  (∀ x2 o, Remote.RemoveImage r o (s1, x2) = (Panic nil_dereference, (s1, x2))) ∧
  (∀ x2 o, Remote.PruneImages r o (s1, x2) = (Panic nil_dereference, (s1, x2))).
Proof.
  assert (r_connCtx s1 = None ∧ r_engine s1 = None ∧ r_cache s1 = r_cache s) as (Hc & He & Hk).
  { unfold Remote.Done in Hdone. simpl in Hdone.
    destruct (r_connCtx s) as [c|] eqn:Hc, (r_engine s) as [e|] eqn:He.
    - destruct (engine_Shutdown e x) as [[u|msg] x']; by simplify_eq.
    - by destruct Hboth as [[] _].
    - by destruct Hboth as [_ []].
    - by simplify_eq. }
  split; [done|]. unfold Remote.Done, Remote.Build, Remote.PullToFile, Remote.RemoveImage,
    Remote.PruneImages, prune_with, Remote.the_engine, Remote.the_info, mbind, go_bind.
  simpl. by rewrite Hc, He.
Qed.

(** A remote builder which is asked to build before anything has fetched
    its platform does not fetch it, as the local builder does: it has the
    engine build for an empty platform. *)
Theorem remote_Build_unfetched r s e (x : X) reference cf o
    (Hengine : r_engine s = Some e) (Hcache : r_cache s = zero_cache) :
  ∃ theseOptions,
    p_Platforms theseOptions = [mk_Platform EmptyString EmptyString EmptyString] ∧
    (Remote.Build r reference cf o (s, x)).2 = (s, (engine_Build e cf theseOptions x).2).
Proof.
  exists (podmanBuildOptionsFromBuildOptions o EmptyString EmptyString EmptyString).
  split; [done|]. unfold Remote.Build, Remote.the_info, Remote.the_engine, mbind, go_bind. simpl.
  rewrite Hcache, Hengine. simpl. unfold outside. simpl.
  destruct (engine_Build _ _ _ _) as [[[report [err|]]|msg] x']; [done| |done].
  unfold build_result. by destruct report.
Qed.

(** [NewPodmanRemoteImageBuilder] makes an error for a name which the
    configuration does not have, but loses it: it goes on to connect to the
    empty URI, and if that works returns a builder. *)
Theorem remote_unknown_destination flags name (x : X) custom x1 connCtx x2 engine x3
    (Hconfig : config_ReadCustomConfig (E := E) (C := C) x = (Ret (custom, None), x1))
    (Hname : custom !! name = None)
    (Hconn : NewConnection (E := E) EmptyString x1 = (Ret (inl connCtx), x2))
    (Hengine : NewImageEngine (C := C)
       (mk_PodmanConfig (default (NewFlagSet "buildfarm") flags) TunnelMode ∅
          EmptyString EmptyString EmptyString EmptyString []) x2 = (Ret (inl engine), x3)) :
  ∃ r s, Remote.NewPodmanRemoteImageBuilder flags name x = (Ret (inl (r, s)), x3) ∧
    r_name r = name ∧ r_uri r = EmptyString ∧
    r_connCtx s = Some (connCtx : C) ∧ r_engine s = Some (engine : E).
Proof.
  unfold Remote.NewPodmanRemoteImageBuilder. rewrite (go_bind_ret _ _ _ _ _ Hconfig).
  cbn beta iota. rewrite Hname. cbn [default URI Identity IsMachine Remote.zero_Destination].
  rewrite decide_False by (intros Hn; by apply Hn).
  unfold mbind, go_bind. rewrite Hconn. simpl. rewrite Hengine. simpl. by eexists _, _.
Qed.
End RemoteLife.

(** ** Witnesses *)

Definition plain_remote : podmanRemote :=
  mk_podmanRemote "east" (NewFlagSet "buildfarm") toy_config "ssh://east" EmptyString false.
Definition fresh_remote : remote_state nat nat := mk_remote_state (Some 0) (Some 0) zero_cache.
Definition done_remote : remote_state nat nat := mk_remote_state None None zero_cache.
Definition plain_options : BuildOptions :=
  mk_BuildOptions EmptyString None None false false false false [] false EmptyString "." []
    None EmptyString [] 0 0 0 0 0 EmptyString EmptyString EmptyString false false [] [] []
    EmptyString None.

#[local] Instance witness_range : RangeOracle := range_id.

Lemma local_fetchInfo_exact_witness :
  Local.fetchInfo toy_start =
    (Ret (mk_platform_info None "linux" "amd64" EmptyString ["linux/amd64"] ["linux/arm64"]),
     (emulation_Registered toy_start).2).
Proof.
  rewrite (local_fetchInfo_exact (Host0 := toy_host) "linux" "amd64" None toy_start eq_refl eq_refl
    eq_refl).
  apply injective_projections; vm_compute; reflexivity.
Defined.

Lemma remote_Done_final_witness :
  Remote.Done plain_remote (fresh_remote, toy_start) = (Ret None, (done_remote, toy_start)) ∧
  Remote.Build plain_remote EmptyString [] plain_options (done_remote, toy_start) =
    (Panic nil_dereference, (done_remote, toy_start)).
Proof.
  split; [reflexivity|].
  destruct (remote_Done_final plain_remote fresh_remote toy_start done_remote toy_start
    ltac:(split; by eexists) eq_refl) as (_ & _ & Hbuild & _).
  exact (Hbuild toy_start EmptyString [] plain_options).
Defined.

Lemma remote_Build_unfetched_witness :
  r_engine fresh_remote = Some 0 ∧ r_cache fresh_remote = zero_cache ∧
  (∃ theseOptions,
     p_Platforms theseOptions = [mk_Platform EmptyString EmptyString EmptyString] ∧
     (Remote.Build plain_remote EmptyString [] plain_options (fresh_remote, toy_start)).2 =
       (fresh_remote, (engine_Build 0 [] theseOptions toy_start).2)) ∧
  t_asked (Remote.Build plain_remote EmptyString [] plain_options (fresh_remote, toy_start)).2.2 =
    [[mk_Platform EmptyString EmptyString EmptyString]].
Proof.
  split_and!; [reflexivity..| |reflexivity].
  exact (remote_Build_unfetched plain_remote fresh_remote 0 toy_start EmptyString []
    plain_options eq_refl eq_refl).
Defined.

Lemma remote_unknown_destination_witness :
  toy_config !! "west" = None ∧
  ∃ r s, Remote.NewPodmanRemoteImageBuilder None "west" toy_start =
      (Ret (inl (r, s)), toy_start) ∧
    r_name r = "west" ∧ r_uri r = EmptyString ∧
    r_connCtx s = Some 0 ∧ r_engine s = Some 0.
Proof.
  split; [vm_compute; reflexivity|].
  exact (remote_unknown_destination None "west" toy_start toy_config toy_start 0 toy_start 0
    toy_start eq_refl eq_refl eq_refl eq_refl).
Defined.
