(* ===== verification/Docker.v ===== *)
(** * The docker builder

    Model of [src/docker.go].  Nothing in the program constructs one: the
    farm makes podman builders only.  The docker client is the class
    [DockerClient], whose operations act on an outside world [X]; the rest of
    what the file uses ([units.RAMInBytes], [chrootarchive.Tar], files) is
    the class [DockerHost]. *)

From S2P Require Import Prelude GoStrings Types Engine Builders.

Record DockerUlimit := mk_ulimit { u_Name : string; u_Soft : Z; u_Hard : Z }.

(** The fields the program sets of [docker.BuildImageOptions]. *)
Record BuildImageOptions := mk_BuildImageOptions {
  d_Name : string;
  d_InputStream : string;
  d_Platform : string;
  d_ContextDir : string;
  d_Dockerfile : string;
  d_RmTmpContainer : bool;
  d_ForceRmTmpContainer : bool;
  d_Labels : gmap string string;
  d_Memory : Z;
  d_Memswap : Z;
  d_ShmSize : Z;
  d_CPUShares : Z;
  d_CPUQuota : Z;
  d_CPUPeriod : Z;
  d_CPUSetCPUs : string;
  d_CgroupParent : string;
  d_NoCache : bool;
  d_SuppressOutput : bool;
  d_Pull : bool;
  d_BuildArgs : list (string * string);
  d_Ulimits : list DockerUlimit
}.

Class DockerClient (D X : Type) := {
  docker_NewClient : string → Go X (D + error);
  docker_Info : D → Go X (string * string * option error);
  docker_Ping : D → Go X (option error);
  docker_BuildImage : D → BuildImageOptions → Go X (option error);
  docker_ExportImage : D → string → string → Go X (option error);
  docker_RemoveImage : D → string → Go X (option error);
  docker_PruneImages : D → list (string * list string) → Go X (list string * option error)
}.

Class DockerHost (X : Type) := {
  RAMInBytes : string → Z + error;
  Tar : string → Go X (string + error);
  Close : string → X → X;
  Create : string → Go X (option error)
}.

(** [int64] of a [uint64]. *)
Definition int64_of_uint64 (z : Z) : Z := if decide (z < 2 ^ 63)%Z then z else (z - 2 ^ 64)%Z.

Record dockerEngine (D : Type) := mk_dockerEngine {
  e_name : string;
  e_flagSet : FlagSet;
  e_config : gmap string Destination;
  e_client : D
}.
Arguments mk_dockerEngine {D}.
Arguments e_name {D}.
Arguments e_client {D}.

(** ** Labels and limits *)

(** One turn of the loop over the labels. *)
Definition add_label (label : string) (labelsMap : gmap string string)
    : outcome (flow (gmap string string) error) :=
  match SplitN label "=" 2 with
  | [k; v] => Ret (Continue (<[k := v]> labelsMap))
  | [k] => Ret (Continue (<[k := EmptyString]> labelsMap))
  | _ => Ret (Return_ (Errorf "parsing requested label %q" [FStr label] None))
  end.

Definition size_limits : list string := ["core"; "fsize"; "memlock"; "data"; "rss"; "stack"].
Definition count_limits : list string :=
  ["cpu"; "locks"; "msgqueue"; "nice"; "nofile"; "nproc"; "rtprio"; "rttime"; "sigpending"].

Section Limits.
Context {X : Type} `{!DockerHost X}.

(** The switch on the name of a limit: its soft and its hard value.  The
    errors of [ParseInt] are not distinguished. *)
Definition limit_values (name softString hardString : string) : (Z * Z) + error :=
  if decide (name ∈ size_limits) then
    match RAMInBytes softString with
    | inr e => inr (Errorf "parsing requested soft %q limit %q: %w" [FStr name; FStr softString] (Some e))
    | inl soft =>
        match RAMInBytes hardString with
        | inr e => inr (Errorf "parsing requested hard %q limit %q: %w" [FStr name; FStr hardString] (Some e))
        | inl hard => inl (soft, hard)
        end
    end
  else if decide (name ∈ count_limits) then
    match ParseInt softString 64 with
    | None => inr (Errorf "parsing soft %q limit: %w" [FStr name] (Some (ErrNew softString)))
    | Some soft =>
        match ParseInt hardString 64 with
        | None => inr (Errorf "parsing hard %q limit: %w" [FStr name] (Some (ErrNew hardString)))
        | Some hard => inl (soft, hard)
        end
    end
  else inl (0%Z, 0%Z).

(** One turn of the loop over the limits. *)
Definition add_ulimit (ulimit : string) (ulimits : list DockerUlimit)
    : outcome (flow (list DockerUlimit) error) :=
  match SplitN ulimit "=" 2 with
  | [name; values] =>
      match SplitN values ":" 2 with
      | [] => Panic "runtime error: index out of range"
      | softString :: rest =>
          let hardString := match rest with h :: _ => h | [] => softString end in
          match limit_values name softString hardString with
          | inr e => Ret (Return_ e)
          | inl (soft, hard) => Ret (Continue (ulimits ++ [mk_ulimit name soft hard]))
          end
      end
  | _ => Ret (Return_ (Errorf (str_app "parsing ulimit %q: expected " (quoted "limit=soft[:hard]"))
               [FStr ulimit] None))
  end.
End Limits.

Module Docker.
Section Operations.
Context `{!RangeOracle} {D E C X : Type} `{!DockerClient D X} `{!DockerHost X} `{!Podman E C X} `{!Host X}.
Implicit Types e : dockerEngine D.

Definition NewDockerImageBuilder (flags : option FlagSet) (name : string)
    : Go X (dockerEngine D + error) :=
  let flags := default (NewFlagSet "buildfarm") flags in
  '(custom, err) ← config_ReadCustomConfig;
  match err with
  | Some e => mret (inr (Errorf "reading custom config: %w" [] (Some e)))
  | None =>
      client ← docker_NewClient EmptyString;
      match client with
      | inr e => mret (inr e)
      | inl client => mret (inl (mk_dockerEngine name flags custom client))
      end
  end.

Definition fetchInfo e : Go X platform_info :=
  '(os, arch, infoErr) ← docker_Info (e_client e);
  match infoErr with
  | Some err =>
      mret (mk_platform_info
        (Some (Errorf "retrieving host info from %q: %w" [FStr (e_name e)] (Some err)))
        EmptyString EmptyString EmptyString [] [])
  | None =>
      mret (mk_platform_info None os arch EmptyString [str_app os (str_app "/" arch)] [])
  end.

Definition Info_ e (options : InfoOptions) : Go (platform_cache * X) (Info * option error) :=
  platforms_Do (fetchInfo e);;
  i ← the_info;
  mret (mk_Info ([] ++ nativePlatforms i) [], platformsErr i).

Definition NativePlatforms e (options : InfoOptions)
    : Go (platform_cache * X) (list string * option error) :=
  platforms_Do (fetchInfo e);;
  i ← the_info;
  mret ([] ++ nativePlatforms i, platformsErr i).

Definition EmulatedPlatforms e (options : InfoOptions)
    : Go (platform_cache * X) (list string * option error) :=
  platforms_Do (fetchInfo e);;
  i ← the_info;
  mret ([], platformsErr i).

Definition Status e : Go X (option error) := docker_Ping (e_client e).

(** What docker is asked to build. *)
Definition build_options (i : platform_info) (reference dockerfile rc : string)
    (labelsMap : gmap string string) (shmSize : Z) (buildArgs : list (string * string))
    (ulimits : list DockerUlimit) (options : BuildOptions) : BuildImageOptions :=
  let platform := str_app (os i) (str_app "/" (arch i)) in {|
    d_Name := reference;
    d_InputStream := rc;
    d_Platform :=
      if decide (variant i = EmptyString) then platform else str_app platform (str_app "/" (variant i));
    d_ContextDir := ContextDirectory options;
    d_Dockerfile := dockerfile;
    d_RmTmpContainer := RemoveIntermediateContainers options;
    d_ForceRmTmpContainer := ForceRemoveIntermediateContainers options;
    d_Labels := labelsMap;
    d_Memory := Memory options;
    d_Memswap := MemorySwap options;
    d_ShmSize := shmSize;
    d_CPUShares := int64_of_uint64 (CPUShares options);
    d_CPUQuota := CPUQuota options;
    d_CPUPeriod := int64_of_uint64 (CPUPeriod options);
    d_CPUSetCPUs := CPUSetCPUs options;
    d_CgroupParent := CgroupParent options;
    d_NoCache := NoCache options;
    d_SuppressOutput := Quiet options;
    d_Pull := Pull options;
    d_BuildArgs := buildArgs;
    d_Ulimits := ulimits |}.

(** After the context has been archived. *)
Definition build_image e (buildOptions : BuildImageOptions) : Go X (BuildReport * option error) :=
  err ← docker_BuildImage (e_client e) buildOptions;
  match err with
  | Some err =>
      mret (zero_BuildReport,
        Some (Errorf "building for %v on %q: %w"
                [FStr (d_Platform buildOptions); FStr (e_name e)] (Some err)))
  | None =>
      (* [report] is declared and never assigned *)
      id ← dereference (None : option string);
      mret (mk_BuildReport id "docker-archive", None)
  end.

Definition Build e (reference : string) (containerFiles : list string) (options : BuildOptions)
    : Go (platform_cache * X) (BuildReport * option error) :=
  let failed := λ err, mret (zero_BuildReport, Some err) in
  let dockerfile := match containerFiles with f :: _ => f | [] => EmptyString end in
  labels ← go_lift (for_range add_label (Labels options) ∅);
  match labels with
  | Return_ err => failed err
  | Continue labelsMap =>
      match RAMInBytes (ShmSize options) with
      | inr _ => failed (Errorf "parsing requested shmsize %q" [FStr (ShmSize options)] None)
      | inl shmSize =>
          let buildArgs := range_map "buildArgs" (default ∅ (Args options)) in
          limits ← go_lift (for_range add_ulimit (Ulimit options) []);
          match limits with
          | Return_ err => failed err
          | Continue ulimits =>
              rc ← outside (Tar (ContextDirectory options));
              match rc with
              | inr err =>
                  failed (Errorf "archiving %q: %w" [FStr (ContextDirectory options)] (Some err))
              | inl rc =>
                  i ← the_info;
                  outside (defer (Close rc)
                    (build_image e (build_options i reference dockerfile rc labelsMap shmSize buildArgs
                       ulimits options)))
              end
          end
      end
  end.

Definition PullToFile e (options : PullToFileOptions) : Go X (string * option error) :=
  err ← Create (ptf_SaveFile options);
  match err with
  | Some err => mret (EmptyString, Some err)
  | None =>
      err ← docker_ExportImage (e_client e) (ptf_ImageID options) (ptf_SaveFile options);
      match err with
      | Some err =>
          go_modify (os_Remove (ptf_SaveFile options));;
          mret (EmptyString, Some (Errorf "saving image %q: %w" [FStr (ptf_ImageID options)] (Some err)))
      | None => mret (str_app (ptf_SaveFormat options) (str_app ":" (ptf_SaveFile options)), None)
      end
  end.

Definition export_and_load e (options : PullToLocalOptions E) (destination : E) (tempFile : string)
    : Go X (string * option error) :=
  err ← docker_ExportImage (e_client e) (ptl_ImageID options) tempFile;
  match err with
  | Some err =>
      mret (EmptyString,
        Some (Errorf "saving image %q to temporary file: %w" [FStr (ptl_ImageID options)] (Some err)))
  | None =>
      err ← engine_Load destination tempFile;
      match err with
      | Some err =>
          mret (EmptyString,
            Some (Errorf "loading image %q: %w" [FStr (ptl_ImageID options)] (Some err)))
      | None => mret (str_app storage_transport (str_app ":" (ptl_ImageID options)), None)
      end
  end.

Definition PullToLocal e (options : PullToLocalOptions E) : Go X (string * option error) :=
  match ptl_Destination options with
  | None => mret (EmptyString, Some (ErrNew "internal error: options.Destination not set"))
  | Some destination =>
      tempFile ← TempFile;
      match tempFile with
      | inr err => mret (EmptyString, Some err)
      | inl tempFile => defer (os_Remove tempFile) (export_and_load e options destination tempFile)
      end
  end.

Definition RemoveImage e (options : RemoveImageOptions) : Go X (option error) :=
  err ← docker_RemoveImage (e_client e) (rio_ImageID options);
  mret match err with
       | Some err =>
           Some (Errorf "removing intermediate image %q from remote %q: %w"
                   [FStr (rio_ImageID options); FStr (e_name e)] (Some err))
       | None => None
       end.

Definition bool_string (b : bool) : string := if b then "true" else "false".

Definition PruneImages e (options : PruneImageOptions) : Go X (PruneImageReport * option error) :=
  '(deleted, err) ← docker_PruneImages (e_client e)
      [("force", ["true"]); ("all", [bool_string (All options)]);
       ("dangling", [bool_string (negb (All options))])];
  match err with
  | Some err =>
      mret (mk_PruneImageReport [] [],
        Some (Errorf "removing unused images from remote %q: %w" [FStr (e_name e)] (Some err)))
  | None => mret (mk_PruneImageReport (filter (λ d, d ≠ EmptyString) deleted) [], None)
  end.

Definition Done e : Go X (option error) := mret None.
End Operations.
End Docker.

(** ** Properties *)

Section Facts.
Context `{!RangeOracle} {D X : Type} `{!DockerClient D X} `{!DockerHost X}.

Lemma add_label_returns label m : ∃ r, add_label label m = Ret r.
Proof.
  unfold add_label. destruct (SplitN label "=" 2) as [|k [|v [|]]]; by eexists.
Qed.

Lemma add_ulimit_returns ulimit l : ∃ r, add_ulimit ulimit l = Ret r.
Proof.
  unfold add_ulimit. destruct (SplitN ulimit "=" 2) as [|name [|values [|]]]; try by eexists.
  destruct (SplitN values ":" 2) as [|soft rest] eqn:Hs; [by apply split_cuts_ne in Hs|].
  destruct (limit_values name soft _) as [[]|]; by eexists.
Qed.

(** The loops over the labels and the limits do not panic. *)
Lemma for_range_returns {A S R} (f : A → S → outcome (flow S R)) l s :
  (∀ a s, ∃ r, f a s = Ret r) → ∃ r, for_range f l s = Ret r.
Proof.
  intros Hf. destruct (for_range_inv (λ _, True) (λ _, True) f l s) as (r & Hr & _); [|done|by exists r].
  intros a s1 _ _. destruct (Hf a s1) as [r Hr]. exists r. split; [done|]. by destruct r.
Qed.

(** [Build] has got as far as asking docker, in [x1], for [bo]: the labels,
    the sizes and the limits have been parsed and the archive [rc] made. *)
Definition asks_docker (cf : list string) reference o (c : platform_cache) (x : X)
    (rc : string) (bo : BuildImageOptions) (x1 : X) : Prop :=
  ∃ labelsMap shmSize ulimits,
    for_range add_label (Labels o) ∅ = Ret (Continue labelsMap) ∧
    RAMInBytes (ShmSize o) = inl shmSize ∧
    for_range add_ulimit (Ulimit o) [] = Ret (Continue ulimits) ∧
    Tar (ContextDirectory o) x = (Ret (inl rc), x1) ∧
    bo = Docker.build_options (info c) reference (default EmptyString (head cf)) rc labelsMap shmSize
           (range_map "buildArgs" (default ∅ (Args o))) ulimits o.

(** C37: [Build] of the docker builder never reports success.  If it returns,
    it returns an error and the zero report, and docker has not built an
    image; when the options are valid, the context has been archived and
    docker has built the image, it panics, because the report it looks into
    is never assigned, and closes the archive; and it panics for nothing else
    of its own, only when archiving or the client does. *)
Theorem docker_Build_never_succeeds (e : dockerEngine D) reference cf o (c : platform_cache) (x : X) :
  let '(r, (c', x')) := Docker.Build e reference cf o (c, x) in
  (∀ rc bo x1 x2, asks_docker cf reference o c x rc bo x1 →
     docker_BuildImage (e_client e) bo x1 = (Ret None, x2) →
     r = Panic nil_dereference ∧ x' = Close rc x2) ∧
  match r with
  | Ret (report, err) => report = zero_BuildReport ∧ is_Some err
  | Panic msg =>
      Tar (ContextDirectory o) x = (Panic msg, x') ∨
      ∃ rc bo x1 x2, asks_docker cf reference o c x rc bo x1 ∧
        (docker_BuildImage (e_client e) bo x1 = (Panic msg, x2) ∨
         docker_BuildImage (e_client e) bo x1 = (Ret None, x2) ∧ msg = nil_dereference)
  end.
Proof.
  unfold asks_docker, Docker.Build, mbind, go_bind, go_lift.
  replace (match cf with f :: _ => f | [] => EmptyString end) with (default EmptyString (head cf))
    by by destruct cf.
  destruct (for_range_returns add_label (Labels o) ∅ add_label_returns) as [[labels|err] ->]; cbn -[for_range];
    [|split; [naive_solver|by eauto]].
  destruct (RAMInBytes (ShmSize o)) as [shm|err]; cbn -[for_range]; [|split; [naive_solver|by eauto]].
  destruct (for_range_returns add_ulimit (Ulimit o) [] add_ulimit_returns) as [[limits|err] ->]; cbn;
    [|split; [naive_solver|by eauto]].
  unfold outside at 1. cbn.
  destruct (Tar (ContextDirectory o) x) as [[[rc|err]|msg] x1]; cbn;
    [|split; [naive_solver|by eauto]|split; [naive_solver|by left]].
  unfold outside, defer, Docker.build_image, mbind, go_bind. cbn.
  set (bo := Docker.build_options _ _ _ _ _ _ _ _ _).
  destruct (docker_BuildImage (e_client e) bo x1) as [[[err|]|msg] x2] eqn:Hd; cbn.
  - split; [|by eauto]. intros rc' bo' x1' x2' (? & ? & ? & [= <-] & [= <-] & [= <-] & [= <- <-] & ->) Hok.
    fold bo in Hok. congruence.
  - split; [|right; exists rc, bo, x1, x2; split; [by exists labels, shm, limits|by right]].
    intros rc' bo' x1' x2' (? & ? & ? & [= <-] & [= <-] & [= <-] & [= <- <-] & ->) Hok.
    fold bo in Hok. split; congruence.
  - split; [|right; exists rc, bo, x1, x2; split; [by exists labels, shm, limits|by left]].
    intros rc' bo' x1' x2' (? & ? & ? & [= <-] & [= <-] & [= <-] & [= <- <-] & ->) Hok.
    fold bo in Hok. congruence.
Qed.

(** A label is split at its first equals sign, a label without one has
    an empty value, no label is refused, and a later label replaces an
    earlier one of the same name. *)
Theorem labels_parsed (labels : list (string * option string))
    (Hnames : Forall (λ kv, contains_byte "=" kv.1 = false) labels) :
  for_range add_label
    ((λ kv, match kv.2 with Some v => str_app kv.1 (String "=" v) | None => kv.1 end) <$> labels) ∅ =
  Ret (Continue (foldl (λ m kv, <[kv.1 := default EmptyString kv.2]> m) ∅ labels)).
Proof.
  generalize (∅ : gmap string string).
  induction Hnames as [|[k v] labels Hk _ IH]; intros m; [done|]. simpl in Hk.
  rewrite fmap_cons. erewrite for_range_continue; [apply IH|].
  unfold add_label, SplitN. cbn [fst snd]. destruct v as [v|].
  - by rewrite split_cuts_app by done.
  - by rewrite split_cuts_none by done.
Qed.

(** A limit "name=soft:hard", or "name=soft" for equal values, is parsed
    to its values when its name is one of those counted; a name which is not
    known is accepted, whatever its values are, and gets the values zero. *)
Theorem ulimit_parsed name softString (hardString : option string) ulimits
    (Hname : contains_byte "=" name = false) (Hsoft : contains_byte ":" softString = false) :
  let text := str_app name (String "=" (str_app softString
    match hardString with Some h => String ":" h | None => EmptyString end)) in
  (∀ soft hard, name ∈ count_limits → ParseInt softString 64 = Some soft →
     ParseInt (default softString hardString) 64 = Some hard →
     add_ulimit text ulimits = Ret (Continue (ulimits ++ [mk_ulimit name soft hard]))) ∧
  (name ∉ size_limits → name ∉ count_limits →
     add_ulimit text ulimits = Ret (Continue (ulimits ++ [mk_ulimit name 0 0]))).
Proof.
  intros text. assert (∃ rest, add_ulimit text ulimits =
    match limit_values name softString
      (match rest with h :: _ => h | [] => softString end) with
    | inr e => Ret (Return_ e)
    | inl (soft, hard) => Ret (Continue (ulimits ++ [mk_ulimit name soft hard]))
    end ∧ match rest with h :: _ => h | [] => softString end = default softString hardString)
    as (rest & -> & ->).
  { unfold text, add_ulimit, SplitN. rewrite split_cuts_app by done. simpl split_cuts at 1.
    destruct hardString as [h|].
    - exists [h]. by rewrite split_cuts_app by done.
    - exists []. rewrite string_app_nil_r. by rewrite split_cuts_none by done. }
  split.
  - intros soft hard Hin Hs Hh. unfold limit_values.
    rewrite decide_False, decide_True by first [done | intros Hin'; set_solver]. by rewrite Hs, Hh.
  - intros H1 H2. unfold limit_values. by rewrite !decide_False.
Qed.
End Facts.

(** ** Witnesses *)

#[export] Instance toy_docker_host : DockerHost toy := {
  RAMInBytes s := match ParseInt s 64 with Some z => inl z | None => inr (ErrNew "invalid size") end;
  Tar _ := mret (inl "archive");
  Close _ x := x;
  Create _ := mret None
}.

(** A client which builds what has a container file, and nothing else. *)
#[export] Instance toy_docker_client : DockerClient () toy := {
  docker_NewClient _ := mret (inl tt);
  docker_Info _ := mret ("linux", "amd64", None);
  docker_Ping _ := mret None;
  docker_BuildImage _ bo := λ x,
    if decide (d_Dockerfile bo = EmptyString) then (Ret (Some (ErrNew "no container file")), x)
    else (Ret None, mk_toy (t_asked x ++ [[mk_Platform (d_Platform bo) EmptyString EmptyString]])
                      (t_temp x) (t_table x));
  docker_ExportImage _ _ _ := mret None;
  docker_RemoveImage _ _ := mret None;
  docker_PruneImages _ _ := mret ([], None)
}.

Definition toy_docker : dockerEngine () := mk_dockerEngine "docker" (NewFlagSet "buildfarm") ∅ tt.
Definition docker_options : BuildOptions :=
  mk_BuildOptions EmptyString None None false false false false [] false EmptyString "." []
    None "64" ["nofile=1024:2048"] 0 0 0 0 0 EmptyString EmptyString EmptyString false false [] [] []
    EmptyString None.
Definition docker_built : toy := mk_toy [[mk_Platform "linux/amd64" EmptyString EmptyString]] ∅ (t_table toy_start).
Definition docker_cache : platform_cache :=
  mk_cache true (mk_platform_info None "linux" "amd64" EmptyString ["linux/amd64"] []).

#[local] Instance toy_range : RangeOracle := range_id.

(** Docker builds the image, and [Build] panics; without a container file the
    client's error is returned. *)
Lemma docker_Build_never_succeeds_witness :
  (∃ rc bo x1, asks_docker ["Containerfile"] "name" docker_options docker_cache toy_start rc bo x1 ∧
     docker_BuildImage (e_client toy_docker) bo x1 = (Ret None, docker_built)) ∧
  (Docker.Build toy_docker "name" ["Containerfile"] docker_options (docker_cache, toy_start)).1 =
    Panic nil_dereference ∧
  ∃ err, (Docker.Build toy_docker "name" [] docker_options (docker_cache, toy_start)).1 =
    Ret (zero_BuildReport, Some err).
Proof.
  assert (asks_docker ["Containerfile"] "name" docker_options docker_cache toy_start "archive"
    (Docker.build_options (info docker_cache) "name" "Containerfile" "archive" ∅ 64
      [] [mk_ulimit "nofile" 1024 2048] docker_options) toy_start) as Hasks.
  { eexists _, _, _. split_and!; reflexivity. }
  split; [by eexists _, _, _|]. split.
  - pose proof (docker_Build_never_succeeds toy_docker "name" ["Containerfile"] docker_options
      docker_cache toy_start) as Hb.
    destruct (Docker.Build _ _ _ _ _) as [r [c' x']]. destruct Hb as [Hb _].
    by destruct (Hb _ _ _ docker_built Hasks eq_refl) as [-> _].
  - eexists. vm_compute. reflexivity.
Defined.

Lemma labels_parsed_witness :
  Forall (λ kv, contains_byte "=" kv.1 = false) [("a", Some "b=c"); ("d", None); ("a", Some "e")] ∧
  for_range add_label ["a=b=c"; "d"; "a=e"] ∅ =
    Ret (Continue (foldl (λ m (kv : string * option string), <[kv.1 := default EmptyString kv.2]> m)
      (∅ : gmap string string) [("a", Some "b=c"); ("d", None); ("a", Some "e")])).
Proof.
  assert (Forall (λ kv : string * option string, contains_byte "=" kv.1 = false)
    [("a", Some "b=c"); ("d", None); ("a", Some "e")]) as Hnames by repeat constructor.
  split; [exact Hnames|]. exact (labels_parsed _ Hnames).
Defined.

Lemma ulimit_parsed_witness :
  contains_byte "=" "nofile" = false ∧ contains_byte ":" "1024" = false ∧
  add_ulimit (X := toy) "nofile=1024:2048" [] =
    Ret (Continue [mk_ulimit "nofile" 1024 2048]) ∧
  add_ulimit (X := toy) "nofiles=1024:2048" [] = Ret (Continue [mk_ulimit "nofiles" 0 0]).
Proof.
  split; [reflexivity|]. split; [reflexivity|]. split.
  - exact (proj1 (ulimit_parsed (X := toy) "nofile" "1024" (Some "2048") [] eq_refl eq_refl)
      1024%Z 2048%Z ltac:(unfold count_limits; set_solver) eq_refl eq_refl).
  - exact (proj2 (ulimit_parsed (X := toy) "nofiles" "1024" (Some "2048") [] eq_refl eq_refl)
      ltac:(unfold size_limits; set_solver) ltac:(unfold count_limits; set_solver)).
Defined.
