(* ===== verification/Static.v ===== *)
(** * A concrete farm

    An implementation of the farm's interfaces in which every answer is
    fixed and the world is a log of the builds which were asked for.  The
    witnesses of the theorems about farms apply them to it. *)

From S2P Require Import Prelude Group Types.

Record static := mk_static { s_name : string; s_info : Info }.

(** The names of the builders asked to build, with what they were asked
    for. *)
Definition log : Type := list (string * list Platform).

#[export] Instance static_builder : ImageBuilder static () log := {
  Driver _ := "static";
  Name b := s_name b;
  Status _ := mret None;
  GetInfo b _ := mret (s_info b, None);
  NativePlatforms b _ := mret (NativePlatforms_ (s_info b), None);
  EmulatedPlatforms b _ := mret (EmulatedPlatforms_ (s_info b), None);
  Build b _ _ o := λ w,
    (Ret (mk_BuildReport (s_name b) (OutputFormat o), None), w ++ [(s_name b, Platforms o)]);
  PullToFile _ o := mret (ptf_SaveFile o, None);
  PullToLocal _ o := mret (ptl_ImageID o, None);
  RemoveImage _ _ := mret None;
  PruneImages b _ := mret (mk_PruneImageReport [s_name b] [], None);
  Done _ := mret None
}.

(** Map iterations in the order of the representation, and no interleaving:
    the goroutines run as [Wait] schedules them. *)
#[export] Instance static_range : RangeOracle := range_id.
#[export] Instance static_scheduler : Scheduler := λ _, [].

(** Two builders, the second of which emulates the platform of the first. *)
Definition east : static := mk_static "east" (mk_Info ["linux/amd64"] []).
Definition west : static := mk_static "west" (mk_Info ["linux/arm64"] ["linux/amd64"; "linux/s390x"]).
Definition two_builders : gmap string static := {["east" := east; "west" := west]}.
