(* ===== verification/Farm.v ===== *)
(** * The farm

    Model of [src/buildfarm.go] up to [Schedule]: constructing a farm from
    the configured connections, the operations which visit every builder
    one after the other ([forEach], [PruneImages], [Done]) or concurrently
    ([Status], [NativePlatforms], [EmulatedPlatforms]), and [Schedule].

    The farm is a client of two interfaces: [ImageBuilder] (Types.v) and
    [FarmEnv], the constructors of builders and the configuration. *)

From S2P Require Import Prelude GoStrings MultiError Group Types Static.

(** What the construction of a farm needs: [config.ReadCustomConfig] (the
    service destinations of the configuration it returns) and the
    constructors of builders. *)
Class FarmEnv (B W : Type) := {
  ReadCustomConfig : Go W (gmap string Destination * option error);
  NewPodmanRemoteImageBuilder : option FlagSet → string → Go W (B + error);
  NewPodmanLocalImageBuilder : option FlagSet → option StoreOptions → Go W (B + error)
}.

Record Farm (B : Type) := mk_Farm {
  farm_name : string;
  flagSet : FlagSet;
  storeOptions : option StoreOptions;
  builders : gmap string B
}.
Arguments mk_Farm {B}.
Arguments farm_name {B}.
Arguments flagSet {B}.
Arguments storeOptions {B}.
Arguments builders {B}.

Record Schedule_t := mk_Schedule { platformBuilders : gmap string string }.
Definition zero_Schedule : Schedule_t := mk_Schedule ∅.

(** [util.StringInSlice]. *)
Fixpoint StringInSlice (s : string) (sl : list string) : bool :=
  match sl with
  | [] => false
  | i :: sl => if decide (i = s) then true else StringInSlice s sl
  end.

(** The [builders] argument of [newFarmWithBuilders]: the address of the
    package variable [allBuilders], or that of a caller's slice. *)
Inductive wanted := AllBuilders | Destinations (names : list string).

Definition wantBuilder (builders : wanted) (name : string) : bool :=
  match builders with
  | AllBuilders => true
  | Destinations names => StringInSlice name names
  end.

(** The goroutines [newFarmWithBuilders] starts. *)
Inductive connection := RemoteConnection (dest : string) | LocalConnection.

Definition connection_key (c : connection) : string :=
  match c with RemoteConnection dest => dest | LocalConnection => EmptyString end.

Definition is_Some_b {A} (o : option A) : bool := match o with Some _ => true | None => false end.

Section Construct.
Context `{!RangeOracle} `{!Scheduler} {B W : Type} `{!FarmEnv B W}.

Definition connections (builders : wanted) (destinations : gmap string Destination)
    (opts : option StoreOptions) : list connection :=
  (RemoteConnection ∘ fst <$>
     filter (λ nd, wantBuilder builders nd.1 = true)
       (range_map "ServiceDestinations" destinations)) ++
  (if is_Some_b opts && wantBuilder builders LocalImageBuilderName
   then [LocalConnection] else []).

Definition connect (flags : FlagSet) (opts : option StoreOptions) (c : connection)
    : Go W (option B * option error) :=
  r ← match c with
      | RemoteConnection dest => NewPodmanRemoteImageBuilder (Some flags) dest
      | LocalConnection => NewPodmanLocalImageBuilder (Some flags) opts
      end;
  mret (match r with inl ib => (Some ib, None) | inr e => (None, Some e) end).

Definition add_builder (c : connection) (ib : option B) : list (gmap string B → gmap string B) :=
  match ib with Some ib => [<[connection_key c := ib]>] | None => [] end.

Definition newFarmWithBuilders (wanted_builders : wanted) (opts : option StoreOptions)
    (flags : option FlagSet) : Go W (Farm B + error) :=
  '(destinations, err) ← ReadCustomConfig;
  match err with
  | Some e => mret (inr (Errorf "reading custom config: %w" [] (Some e)))
  | None =>
      let flags := default (NewFlagSet "buildfarm") flags in
      '(builders, builderError) ←
        run_group (sched_at "newFarmWithBuilders") ∅
          (goroutines (connect flags opts) (early add_builder)
            (connections wanted_builders destinations opts));
      match ErrorOrNil builderError with
      | Some e => mret (inr e)
      | None =>
          if decide (0 < size builders)
          then mret (inl (mk_Farm EmptyString flags opts builders))
          else mret (inr (ErrNew "no builders configured"))
      end
  end.

Definition NewDefaultFarm (opts : option StoreOptions) (flags : option FlagSet) :=
  newFarmWithBuilders AllBuilders opts flags.

Definition NewFarm (name : string) (opts : option StoreOptions) (flags : option FlagSet)
    : Go W (Farm B + error) :=
  if decide (name = EmptyString) then NewDefaultFarm opts flags
  else mret (inr (ErrNew "not implemented")).

Definition NewAdHocFarm (destinations : list string) (opts : option StoreOptions)
    (flags : option FlagSet) :=
  newFarmWithBuilders (Destinations destinations) opts flags.

Definition CreateFarm (name : string) : Go W (Farm B + error) :=
  mret (inr (ErrNew "not implemented")).

Definition UpdateFarm (add remove : list string) : Go W (Farm B + error) :=
  mret (inr (ErrNew "not implemented")).
End Construct.

(** What is to be connected to: the service destinations wanted, and the
    local system if there are storage options and it is wanted. *)
Definition selected (builders : wanted) (destinations : gmap string Destination)
    (opts : option StoreOptions) (c : connection) : Prop :=
  match c with
  | RemoteConnection dest =>
      is_Some (destinations !! dest) ∧ wantBuilder builders dest = true
  | LocalConnection => is_Some opts ∧ wantBuilder builders LocalImageBuilderName = true
  end.

(** What [newFarmWithBuilders] may return when the constructors of [ls]
    answered [rs]: all the errors; or that there is nothing to build on; or a
    farm with the builders which were made, under their keys. *)
Inductive new_farm {B} (opts : option StoreOptions) (flags : option FlagSet)
    (ls : list connection) (rs : list (option B * option error)) : Farm B + error → Prop :=
  | new_farm_failed es :
      failures rs ≠ [] → es ≡ₚ failures rs → new_farm opts flags ls rs (inr (Multi es))
  | new_farm_empty :
      failures rs = [] → (∀ c ib, (c, Some ib) ∉ successes ls rs) →
      new_farm opts flags ls rs (inr (ErrNew "no builders configured"))
  | new_farm_ready f :
      failures rs = [] → builders f ≠ ∅ → storeOptions f = opts →
      flagSet f = default (NewFlagSet "buildfarm") flags →
      (∀ k, is_Some (builders f !! k) ↔
         ∃ c ib, (c, Some ib) ∈ successes ls rs ∧ connection_key c = k) →
      (∀ k ib, builders f !! k = Some ib →
         ∃ c, (c, Some ib) ∈ successes ls rs ∧ connection_key c = k) →
      new_farm opts flags ls rs (inl f).

Module Farm.
Section Operations.
Context `{!RangeOracle} `{!Scheduler} {B E W : Type} `{!ImageBuilder B E W}.
Implicit Types f : Farm B.

(** ** One builder after the other *)

Fixpoint forEach_loop {R} (fn : string → B → R → Go W (R * bool * option error))
    (l : list (string * B)) (r : R) (merr : option (list error))
    : Go W (R * option (list error)) :=
  match l with
  | [] => mret (r, merr)
  | (name, builder) :: l =>
      '(r, stop, err) ← fn name builder r;
      let merr :=
        match err with
        | Some e => Append merr (Some (Errorf "%s: %w" [FStr (Name builder)] (Some e)))
        | None => merr
        end in
      if (stop : bool) then mret (r, merr) else forEach_loop fn l r merr
  end.

(** [R] is the type of the variables the callback shares with its maker. *)
Definition forEach {R} f (fn : string → B → R → Go W (R * bool * option error)) (r : R)
    : Go W (R * option error) :=
  '(r, merr) ← forEach_loop fn (range_map "forEach" (builders f)) r None;
  mret (r, ErrorOrNil merr).

(** The callback of [PruneImages]. *)
Definition prune_builder (options : PruneImageOptions) (name : string) (ib : B)
    (report : gmap string PruneImageReport)
    : Go W (gmap string PruneImageReport * bool * option error) :=
  '(pruneReport, err) ← Types.PruneImages ib options;
  let report :=
    match err with
    | None => <[name := mk_PruneImageReport ([] ++ ImageIDs pruneReport) []]> report
    | Some _ => report
    end in
  mret (report, false, err).

Definition PruneImages f (options : PruneImageOptions)
    : Go W (gmap string PruneImageReport * option error) :=
  forEach f (prune_builder options) ∅.

Definition Done f : Go W (option error) :=
  '(_, err) ← forEach f (λ _ ib (_ : ()), err ← Types.Done ib; mret (tt, false, err)) tt;
  mret err.

(** ** All builders at once *)

Definition Status f : Go W (gmap string (option error) * option error) :=
  '(status, statusError) ←
    run_group (sched_at "Status") ∅
      (goroutines (λ nb, Types.Status nb.2)
        (λ nb err, Locked [<[Name nb.2 := err]>] err)
        (range_map "Status" (builders f)));
  mret (status, ErrorOrNil statusError).

Definition add_platforms (nb : string * B) (platforms : list string)
    : list (gset string → gset string) :=
  (λ p s, {[p]} ∪ s) <$> platforms.

(** The keys of the set, gathered in map order and sorted. *)
Definition sorted_platforms (site : string) (s : gset string) : list string :=
  sort_Strings (range site (elements s)).

Definition NativePlatforms f : Go W (list string * option error) :=
  '(nativeMap, merr) ←
    run_group (sched_at "NativePlatforms") ∅
      (goroutines (λ nb, Types.NativePlatforms nb.2 mk_InfoOptions) (early add_platforms)
        (range_map "NativePlatforms" (builders f)));
  match ErrorOrNil merr with
  | Some e => mret ([], Some e)
  | None => mret (sorted_platforms "nativeMap" nativeMap, None)
  end.

Definition EmulatedPlatforms f : Go W (list string * option error) :=
  '(emulatedMap, merr) ←
    run_group (sched_at "EmulatedPlatforms") ∅
      (goroutines (λ nb, Types.EmulatedPlatforms nb.2 mk_InfoOptions) (early add_platforms)
        (range_map "EmulatedPlatforms" (builders f)));
  match ErrorOrNil merr with
  | Some e => mret ([], Some e)
  | None => mret (sorted_platforms "emulatedMap" emulatedMap, None)
  end.

(** ** [Schedule] *)

(** platform -> name of the first builder noted for it. *)
Record tables := mk_tables { native : gmap string string; emulated : gmap string string }.

Definition note (m : gmap string string) (platform name : string) : gmap string string :=
  match m !! platform with Some _ => m | None => <[platform := name]> m end.

Definition note_info (nb : string * B) (info : Info) : list (tables → tables) :=
  ((λ n t, mk_tables (note (native t) n nb.1) (emulated t)) <$> NativePlatforms_ info) ++
  ((λ e t, mk_tables (native t) (note (emulated t) e nb.1)) <$> EmulatedPlatforms_ info).

(** The loop which assigns a builder to each platform. *)
Definition assign (t : tables) (platform : string) (m : gmap string string)
    : outcome (flow (gmap string string) (Schedule_t * option error)) :=
  match native t !! platform with
  | Some builder => Ret (Continue (<[platform := builder]> m))
  | None =>
      match emulated t !! platform with
      | Some builder => Ret (Continue (<[platform := builder]> m))
      | None =>
          Ret (Return_ (zero_Schedule,
            Some (Errorf "no builder capable of building for platform %q available"
                    [FStr platform] None)))
      end
  end.

Definition assign_all (t : tables) (platforms : list string) : Go W (Schedule_t * option error) :=
  r ← go_lift (for_range (assign t) platforms ∅);
  match r with
  | Continue m => mret (mk_Schedule m, None)
  | Return_ r => mret r
  end.

(** The part of [Schedule] after the list of platforms is known. *)
Definition schedule_platforms f (platforms : list string) : Go W (Schedule_t * option error) :=
  '(t, merr) ←
    run_group (sched_at "Schedule") (mk_tables ∅ ∅)
      (goroutines (λ nb, GetInfo nb.2 mk_InfoOptions) (early note_info)
        (range_map "Schedule" (builders f)));
  match ErrorOrNil merr with
  | Some e => mret (zero_Schedule, Some e)
  | None => assign_all t platforms
  end.

Definition Schedule f (platforms : list string) : Go W (Schedule_t * option error) :=
  if decide (length platforms = 0) then
    '(platforms, err) ← NativePlatforms f;
    match err with
    | Some e =>
        mret (zero_Schedule,
          Some (Errorf "reading list of available native platforms: %w" [] (Some e)))
    | None => schedule_platforms f platforms
    end
  else schedule_platforms f platforms.

(** ** What the operations compute *)

(** What the callbacks return when they never ask to stop: the errors of
    the visits, wrapped with the names of the builders visited. *)
Definition visit_errors {A} (err : A → option error) (nbs : list (string * B))
    (rs : list A) : list error :=
  omap (λ '(nb, r), (λ e, Errorf "%s: %w" [FStr (Name nb.2)] (Some e)) <$> err r)
    (zip nbs rs).

(** What [answered] a run: every builder was asked once, in some order. *)
Definition answered {A} (call : string * B → Go W A) f w (ls : list (string * B))
    (rs : list A) (w' : W) : Prop :=
  ls ≡ₚ map_to_list (builders f) ∧ call_all call ls w = Some (rs, w').

(** Some builder's method panicked, after some of the others returned. *)
Definition panicked {A} (call : string * B → Go W A) f (w : W) : Prop :=
  crashed call (map_to_list (builders f)) w.

(** What gathering platforms promises: a sorted list without repetition of
    exactly the platforms in the answers, or the failures. *)
Definition gathered (ls : list (string * B)) (rs : list (list string * option error))
    (r : list string * option error) : Prop :=
  (failures rs = [] ∧ ∃ ps, r = (ps, None) ∧ StronglySorted String.le ps ∧ NoDup ps ∧
     ∀ p, p ∈ ps ↔ ∃ nb l, (nb, l) ∈ successes ls rs ∧ p ∈ l) ∨
  (failures rs ≠ [] ∧ ∃ es, r = ([], Some (Multi es)) ∧ es ≡ₚ failures rs).

(** [NativePlatforms] and [EmulatedPlatforms] differ in the method they
    call. *)
Definition gather (call : string * B → Go W (list string * option error))
    (site mapsite : string) f : Go W (list string * option error) :=
  '(platformMap, merr) ←
    run_group (sched_at site) ∅
      (goroutines call (early add_platforms) (range_map site (builders f)));
  match ErrorOrNil merr with
  | Some e => mret ([], Some e)
  | None => mret (sorted_platforms mapsite platformMap, None)
  end.

(** The native (or the emulated) platforms which answers list, with the
    names under which the builders are registered. *)
Definition offers (sel : Info → list string) (answers : list ((string * B) * Info))
    : list (string * string) :=
  answers ≫= λ a, (λ p, (p, a.1.1)) <$> sel a.2.

(** A schedule is valid for what the builders answered when it assigns
    every platform asked for, and only those, to a builder which can
    build for it, natively if any can. *)
Record valid_schedule (answers : list ((string * B) * Info)) (platforms : list string)
    (m : gmap string string) : Prop := {
  valid_domain : ∀ p, is_Some (m !! p) ↔ p ∈ platforms;
  valid_choice : ∀ p name, m !! p = Some name →
    (p, name) ∈ offers NativePlatforms_ answers ∨
    ((∀ name', (p, name') ∉ offers NativePlatforms_ answers) ∧
     (p, name) ∈ offers EmulatedPlatforms_ answers)
}.

Definition can_build (answers : list ((string * B) * Info)) (p : string) : Prop :=
  ∃ name, (p, name) ∈ offers NativePlatforms_ answers ++ offers EmulatedPlatforms_ answers.

Definition incapable (p : string) : error :=
  Errorf "no builder capable of building for platform %q available" [FStr p] None.

(** What [Schedule] may return for some platforms when the builders [ls]
    answered [rs]: all the errors if there are any, or a valid schedule, or
    an error naming the first platform no builder can build for. *)
Inductive scheduled (ls : list (string * B)) (rs : list (Info * option error))
    (platforms : list string) : Schedule_t * option error → Prop :=
  | scheduled_failed es :
      failures rs ≠ [] → es ≡ₚ failures rs →
      scheduled ls rs platforms (zero_Schedule, Some (Multi es))
  | scheduled_all m :
      failures rs = [] → (∀ p, p ∈ platforms → can_build (successes ls rs) p) →
      valid_schedule (successes ls rs) platforms m →
      scheduled ls rs platforms (mk_Schedule m, None)
  | scheduled_incapable l1 p l2 :
      failures rs = [] → platforms = l1 ++ p :: l2 →
      (∀ q, q ∈ l1 → can_build (successes ls rs) q) → ¬ can_build (successes ls rs) p →
      scheduled ls rs platforms (zero_Schedule, Some (incapable p)).

(** Builders which answer the same whenever they are asked in a world which
    satisfies [I], and which keep [I]. *)
Definition steady (I : W → Prop) f (answer : B → Info) : Prop :=
  ∀ name ib w, builders f !! name = Some ib → I w →
    (∃ w', I w' ∧ GetInfo ib mk_InfoOptions w = (Ret (answer ib, None), w')) ∧
    (∃ w', I w' ∧ Types.NativePlatforms ib mk_InfoOptions w =
             (Ret (NativePlatforms_ (answer ib), None), w')).

(** The builders of the farm which build natively (or with emulation) for
    a platform. *)
Definition builds (sel : Info → list string) f (answer : B → Info) (p name : string) : Prop :=
  ∃ ib, builders f !! name = Some ib ∧ p ∈ sel (answer ib).
End Operations.
Arguments forEach_loop {_ _ _ _ _}.

Section Facts.
Context `{!RangeOracle} `{!Scheduler} {B E W : Type} `{!ImageBuilder B E W}.
Implicit Types f : Farm B.

(** *** [forEach] *)

(** A callback built from a call which is made for every builder: [upd]
    is what it does with the result, [err] the error it returns. *)
Lemma forEach_loop_all {A R} (call : string * B → Go W A) (upd : string * B → A → R → R)
    (err : A → option error) fn l r merr w :
  (∀ name ib r w, fn name ib r w =
     (a ← call (name, ib); mret (upd (name, ib) a r, false, err a)) w) →
  match call_all call l w with
  | Some (rs, w') =>
      ∃ merr', forEach_loop fn l r merr w =
        (Ret (foldl (λ r '(nb, a), upd nb a r) r (zip l rs), merr'), w') ∧
        default [] merr' = default [] merr ++ visit_errors err l rs
  | None => ∃ msg w', forEach_loop fn l r merr w = (Panic msg, w')
  end.
Proof.
  intros Hfn. revert r merr w. induction l as [|[name ib] l IH]; intros r merr w.
  { exists merr. by rewrite app_nil_r. }
  cbn [call_all forEach_loop]. unfold mbind, go_bind.
  rewrite Hfn. unfold mbind, go_bind.
  destruct (call (name, ib) w) as [[a|msg] w1] eqn:Hc; [|by exists msg, w1]. simpl.
  set (merr1 := match err a with Some e => _ | None => merr end).
  specialize (IH (upd (name, ib) a r) merr1 w1).
  destruct (call_all call l w1) as [[rs w2]|]; [|done].
  destruct IH as (merr' & -> & Hm). exists merr'. split; [done|]. rewrite Hm.
  subst merr1. unfold visit_errors. csimpl. destruct (err a); csimpl; [|done].
  by rewrite <-(assoc_L (++)).
Qed.

Lemma forEach_all {A R} (call : string * B → Go W A) (upd : string * B → A → R → R)
    (err : A → option error) fn f r w :
  (∀ name ib r w, fn name ib r w =
     (a ← call (name, ib); mret (upd (name, ib) a r, false, err a)) w) →
  let l := range_map "forEach" (builders f) in
  match call_all call l w with
  | Some (rs, w') =>
      forEach f fn r w =
        (Ret (foldl (λ r '(nb, a), upd nb a r) r (zip l rs),
              match visit_errors err l rs with [] => None | es => Some (Multi es) end), w')
  | None => ∃ msg w', forEach f fn r w = (Panic msg, w')
  end.
Proof.
  intros Hfn l. pose proof (forEach_loop_all call upd err fn l r None w Hfn) as Hl.
  unfold forEach. destruct (call_all call l w) as [[rs w']|].
  - destruct Hl as (merr' & Hl & He). rewrite (go_bind_ret _ _ _ _ _ Hl). simpl in He |- *.
    destruct merr' as [[|e es]|]; simpl in He; rewrite <-He; done.
  - destruct Hl as (msg & w' & Hl). exists msg, w'. by rewrite (go_bind_panic _ _ _ _ _ Hl).
Qed.

(** C28: [Farm.Done] visits every builder of the farm exactly once, in
    some order, whether or not earlier ones failed; its result is nil when
    none failed, and otherwise aggregates one error for each which did,
    wrapped with the name of that builder. *)
Theorem Done_visits_all f w :
  let l := range_map "forEach" (builders f) in
  l ≡ₚ map_to_list (builders f) ∧
  match call_all (λ nb, Types.Done nb.2) l w with
  | Some (rs, w') =>
      Done f w =
        (Ret (match visit_errors id l rs with [] => None | es => Some (Multi es) end), w')
  | None => ∃ msg w', Done f w = (Panic msg, w')
  end.
Proof.
  split; [apply range_perm|].
  pose proof (forEach_all (λ nb, Types.Done nb.2) (λ _ _ (u : ()), tt) id
    (λ _ ib (_ : ()), err ← Types.Done ib; mret (tt, false, err)) f tt w) as Hf.
  specialize (Hf (λ _ _ _ _, eq_refl)). cbv zeta in Hf. unfold Done.
  destruct (call_all _ _ w) as [[rs w']|].
  - by rewrite (go_bind_ret _ _ _ _ _ Hf).
  - destruct Hf as (msg & w' & Hf). exists msg, w'. by rewrite (go_bind_panic _ _ _ _ _ Hf).
Qed.

(** Entries added for the successful visits of a list without repeated
    names. *)
Lemma foldl_report_lookup {A V} (v : A → V) (ok : A → bool) (l : list (string * B))
    (rs : list A) (m : gmap string V) name x :
  NoDup l.*1 → (∀ n, n ∈ l.*1 → m !! n = None) →
  foldl (λ r '(nb, a), if ok a then <[nb.1 := v a]> r else r) m (zip l rs) !! name = Some x ↔
  m !! name = Some x ∨
  ∃ i ib a, l !! i = Some (name, ib) ∧ rs !! i = Some a ∧ ok a = true ∧ x = v a.
Proof.
  revert rs m. induction l as [|[n ib] l IH]; intros rs m Hnd Hm; simpl.
  { split; [by left|]. by intros [?|(i & ? & ? & ? & ?)]. }
  destruct rs as [|a rs]; simpl.
  { split; [by left|]. by intros [?|(i & ? & ? & ? & ? & ?)]. }
  csimpl in *. apply NoDup_cons in Hnd as [Hn Hnd]. rewrite IH; [|done|].
  2:{ intros n' Hn'. destruct (ok a); [rewrite lookup_insert_ne by (by intros ->)|];
      apply Hm; by right. }
  split.
  - intros [Hx|(i & ib' & a' & ? & ? & ?)]; [|right; by exists (S i), ib', a'].
    destruct (ok a) eqn:Hok; [|by left].
    destruct (decide (n = name)) as [->|Hne].
    + rewrite lookup_insert_eq in Hx. simplify_eq. right. by exists 0, ib, a.
    + left. by rewrite lookup_insert_ne in Hx.
  - intros [Hx|([|i] & ib' & a' & Hi & Hr & Hok & ->)].
    + left. assert (n ≠ name) as Hne.
      { intros ->. rewrite (Hm name) in Hx; [done|left]. }
      destruct (ok a); by rewrite ?lookup_insert_ne.
    + simplify_eq/=. left. by rewrite Hok, lookup_insert_eq.
    + right. simpl in *. by exists i, ib', a'.
Qed.

(** C40: [Farm.PruneImages] prunes on every builder exactly once, failing
    builders notwithstanding; the report has an entry exactly for the
    builders which succeeded, under the names they are registered with,
    which holds the IDs the builder reported and no image names; and the
    error aggregates the failures, wrapped with the builders' names. *)
Theorem PruneImages_visits_all f options w :
  let l := range_map "forEach" (builders f) in
  l ≡ₚ map_to_list (builders f) ∧
  match call_all (λ nb, Types.PruneImages nb.2 options) l w with
  | Some (rs, w') => ∃ report,
      PruneImages f options w =
        (Ret (report,
              match visit_errors snd l rs with [] => None | es => Some (Multi es) end), w') ∧
      ∀ name r, report !! name = Some r ↔
        ∃ i ib p, l !! i = Some (name, ib) ∧ rs !! i = Some (p, None) ∧
          r = mk_PruneImageReport (ImageIDs p) []
  | None => ∃ msg w', PruneImages f options w = (Panic msg, w')
  end.
Proof.
  intros l. split; [apply range_perm|].
  set (ok := λ a : PruneImageReport * option error, negb (is_Some_b a.2)).
  set (v := λ a : PruneImageReport * option error, mk_PruneImageReport (ImageIDs a.1) []).
  pose proof (forEach_all (λ nb, Types.PruneImages nb.2 options)
    (λ nb a r, if ok a then <[nb.1 := v a]> r else r) snd (prune_builder options) f ∅ w) as Hf.
  cbv zeta in Hf. fold l in Hf. unfold PruneImages.
  destruct (call_all _ l w) as [[rs w']|] eqn:Hc.
  - eexists. split; [apply Hf; intros name ib r w1|].
    + unfold prune_builder, mbind, go_bind. simpl.
      by destruct (Types.PruneImages ib options w1) as [[[p [e|]]|msg] w2].
    + intros name r. rewrite foldl_report_lookup;
        [|exact (NoDup_range_map _ _)|intros; apply lookup_empty].
      rewrite lookup_empty. split.
      * intros [?|(i & ib & [p [e|]] & ? & ? & ? & ?)]; [done..|]. naive_solver.
      * intros (i & ib & p & ? & ? & ->). right. by exists i, ib, (p, None).
  - apply Hf. intros name ib r w1.
    unfold prune_builder, mbind, go_bind. simpl.
      by destruct (Types.PruneImages ib options w1) as [[[p [e|]]|msg] w2].
Qed.

(** *** [Status] *)

Lemma run_sections_singletons {S A} (g : A → S → S) s (l : list A) :
  run_sections s ((λ a, [g a]) <$> l) = foldl (λ s a, g a s) s l.
Proof. revert s. induction l as [|a l IH]; intros s; [done|]. apply IH. Qed.

Lemma status_sections (ls : list (string * B)) (rs : list (option error)) :
  omap (locked_writes (S := gmap string (option error)))
    (zip_with (λ nb err, Locked [<[Name nb.2 := err]>] err) ls rs) =
  (λ x : (string * B) * option error, [<[Name x.1.2 := x.2]>]) <$> zip ls rs.
Proof.
  revert rs. induction ls as [|l ls IH]; intros [|r rs]; csimpl; [done..|]. by rewrite IH.
Qed.

Lemma status_errors (ls : list (string * B)) (rs : list (option error)) :
  length rs = length ls →
  result_errors (S := gmap string (option error))
    (zip_with (λ nb err, Locked [<[Name nb.2 := err]>] err) ls rs) = omap id rs ≫= flatten_one.
Proof.
  unfold result_errors. intros Hlen. f_equal. revert rs Hlen.
  induction ls as [|l ls IH]; intros [|r rs] Hlen; csimpl in *; [done..|].
  destruct r; rewrite IH by lia; done.
Qed.

Lemma foldl_insert_inv {A V} (k : A → string) (v : A → V) (l : list A) (m : gmap string V) n x :
  foldl (λ m a, <[k a := v a]> m) m l !! n = Some x →
  m !! n = Some x ∨ ∃ a, a ∈ l ∧ k a = n ∧ v a = x.
Proof.
  revert m. induction l as [|a l IH]; intros m Hx; simpl in Hx; [by left|].
  apply IH in Hx as [Hx|(a' & ? & ? & ?)]; [|right; exists a'; set_solver].
  apply lookup_insert_Some in Hx as [[? ?]|[? ?]]; [|by left].
  right. exists a. set_solver.
Qed.

Lemma foldl_insert_some {A V} (k : A → string) (v : A → V) (l : list A) (m : gmap string V) n :
  is_Some (m !! n) ∨ n ∈ k <$> l → is_Some (foldl (λ m a, <[k a := v a]> m) m l !! n).
Proof.
  revert m. induction l as [|a l IH]; intros m Hn; csimpl in *; [set_solver|].
  apply IH. rewrite lookup_insert_is_Some'. set_solver.
Qed.

Lemma panicked_in {A} (call : string * B → Go W A) f w site :
  crashed call (range_map site (builders f)) w → panicked call f w.
Proof. apply crashed_perm, range_perm. Qed.

Lemma Status_spec f w :
  (∃ ls rs w' status err,
    answered (λ nb, Types.Status nb.2) f w ls rs w' ∧
    Status f w = (Ret (status, err), w') ∧
    (∀ n, is_Some (status !! n) ↔ ∃ name ib, builders f !! name = Some ib ∧ Name ib = n) ∧
    (∀ n x, status !! n = Some x →
       ∃ i name ib, ls !! i = Some (name, ib) ∧ rs !! i = Some x ∧ Name ib = n) ∧
    match err with
    | None => omap id rs ≫= flatten_one = []
    | Some e => ∃ es, e = Multi es ∧ es ≠ [] ∧ es ≡ₚ (omap id rs ≫= flatten_one)
    end) ∨
  (∃ msg w', Status f w = (Panic (Killed msg), w') ∧ panicked (λ nb, Types.Status nb.2) f w).
Proof.
  set (k := λ (nb : string * B) err, Locked (S := gmap string (option error))
              [<[Name nb.2 := err]>] err).
  assert (∀ l a m, k l a ≠ Crash m) as Hk by done.
  destruct (run_group_spec (λ nb : string * B, Types.Status nb.2) k Hk
    (sched_at "Status") ∅ (range_map "Status" (builders f)) w)
    as [(ls & rs & P & errs & w' & Hls & Hc & HP & He & Hrun)
       |(msg & w' & Hrun & Hcrash)].
  2:{ right. exists msg, w'. unfold Status. rewrite (go_bind_panic _ _ _ _ _ Hrun).
      split; [done|]. by eapply panicked_in. }
  left. pose proof (call_all_length _ _ _ _ _ Hc) as Hlen.
  rewrite status_sections in HP. apply Permutation_map_inv in HP as (done & -> & Hdone).
  rewrite run_sections_singletons in Hrun. rewrite status_errors in He by done.
  exists ls, rs, w'. unfold Status. rewrite (go_bind_ret _ _ _ _ _ Hrun).
  eexists _, _. split_and!; [split; [by rewrite Hls; apply range_perm|done]|done|..].
  - intros n. split.
    + intros [x Hx]. apply (foldl_insert_inv (λ a, Name a.1.2) snd) in Hx
        as [Hx|([[name ib] x'] & Hin & ? & ?)]; [by rewrite lookup_empty in Hx|].
      rewrite <-Hdone in Hin. apply elem_of_zip_l in Hin.
      rewrite Hls, elem_of_range_map in Hin. by exists name, ib.
    + intros (name & ib & Hb & <-).
      apply (foldl_insert_some (λ a : (string * B) * option error, Name a.1.2) snd). right.
      rewrite <-Hdone.
      assert ((name, ib) ∈ ls) as Hin by (by rewrite Hls, elem_of_range_map).
      apply list_elem_of_lookup in Hin as [i Hi].
      destruct (lookup_lt_is_Some_2 rs i) as [r Hr];
        [rewrite Hlen; by eapply lookup_lt_Some|].
      apply list_elem_of_fmap. exists ((name, ib), r). split; [done|].
      apply list_elem_of_lookup. exists i. by apply lookup_zip_Some.
  - intros n x Hx. apply (foldl_insert_inv (λ a, Name a.1.2) snd) in Hx
      as [Hx|([[name ib] x'] & Hin & ? & ?)]; [by rewrite lookup_empty in Hx|].
    rewrite <-Hdone in Hin. apply list_elem_of_lookup in Hin as [i Hi].
    apply lookup_zip_Some in Hi as [? ?]. simpl in *. subst. by exists i, name, ib.
  - destruct errs as [[|e es]|]; simpl in *.
    + by apply Permutation_nil in He.
    + by exists (e :: es).
    + by apply Permutation_nil in He.
Qed.

(** C13: [Farm.Status] asks every builder for its status, whatever the
    interleaving; the map has a key for the name of every builder and no
    other; each entry is what a builder of that name answered (the only
    one, if names are not shared); and the error is nil exactly when no
    builder reported one, and otherwise aggregates all that were. *)
Theorem Status_exact f w :
  (∃ ls rs w' status err,
    answered (λ nb, Types.Status nb.2) f w ls rs w' ∧
    Status f w = (Ret (status, err), w') ∧
    (∀ n, is_Some (status !! n) ↔ ∃ name ib, builders f !! name = Some ib ∧ Name ib = n) ∧
    (∀ n x, status !! n = Some x →
       ∃ i name ib, ls !! i = Some (name, ib) ∧ rs !! i = Some x ∧ Name ib = n) ∧
    match err with
    | None => omap id rs ≫= flatten_one = []
    | Some e => ∃ es, e = Multi es ∧ es ≠ [] ∧ es ≡ₚ (omap id rs ≫= flatten_one)
    end) ∨
  (∃ msg w', Status f w = (Panic (Killed msg), w') ∧ panicked (λ nb, Types.Status nb.2) f w).
Proof. apply Status_spec. Qed.

(** *** The platforms of a farm *)

Lemma elem_of_add_all (done : list ((string * B) * list string)) (s : gset string) p :
  p ∈ foldl (λ s la, run_writes s (add_platforms la.1 la.2)) s done ↔
  p ∈ s ∨ ∃ la, la ∈ done ∧ p ∈ la.2.
Proof.
  assert (∀ ps (s : gset string) (nb : string * B),
    p ∈ run_writes s (add_platforms nb ps) ↔ p ∈ s ∨ p ∈ ps) as Hadd.
  { clear s done. intros ps s nb. revert s. induction ps as [|q ps IH]; intros s; csimpl.
    { set_solver. }
    unfold run_writes, add_platforms in IH |- *. csimpl. rewrite IH. set_solver. }
  revert s. induction done as [|la done IH]; intros s; simpl; [set_solver|].
  rewrite IH, Hadd. split.
  - intros [[?|?]|(la' & ? & ?)]; [by left| |]; right.
    + exists la. split; [left|done].
    + exists la'. split; [by right|done].
  - intros [?|(la' & [->|?]%elem_of_cons & ?)]; [by left; left|by left; right|].
    right. by exists la'.
Qed.

Lemma elem_of_sorted_platforms site s p : p ∈ sorted_platforms site s ↔ p ∈ s.
Proof. unfold sorted_platforms. by rewrite sort_Strings_perm, range_perm, elem_of_elements. Qed.

Lemma gather_spec (call : string * B → Go W (list string * option error))
    site mapsite f w :
  (∃ ls rs w' r, answered call f w ls rs w' ∧ gather call site mapsite f w = (Ret r, w') ∧
     gathered ls rs r) ∨
  (∃ msg w', gather call site mapsite f w = (Panic (Killed msg), w') ∧ panicked call f w).
Proof.
  destruct (run_group_early call add_platforms (sched_at site) ∅
    (range_map site (builders f)) w)
    as [(ls & rs & done & errs & w' & Hls & Hc & Hdone & He & Hrun)
       |(msg & w' & Hrun & Hcrash)].
  2:{ right. exists msg, w'. unfold gather. rewrite (go_bind_panic _ _ _ _ _ Hrun).
      split; [done|]. by eapply panicked_in. }
  left. exists ls, rs, w'. unfold gather. rewrite (go_bind_ret _ _ _ _ _ Hrun).
  assert (answered call f w ls rs w') as Hans.
  { split; [by rewrite Hls; apply range_perm|done]. }
  destruct (ErrorOrNil errs) as [e|] eqn:Herr; (eexists; split; [done|]).
  - split; [done|]. right. apply ErrorOrNil_Some in Herr as (es & Hes & -> & ->).
    simpl in He. split; [|by exists es].
    intros Hf. rewrite Hf in He. by apply Permutation_nil_r in He.
  - split; [done|]. left. apply ErrorOrNil_None in Herr. rewrite Herr in He.
    apply Permutation_nil_l in He. split; [done|]. eexists. split; [done|].
    split; [apply sort_Strings_sorted|]. split.
    { unfold sorted_platforms. rewrite sort_Strings_perm, range_perm. apply NoDup_elements. }
    intros p. rewrite elem_of_sorted_platforms, elem_of_add_all. split.
    + intros [?|([nb l] & Hin & ?)]; [set_solver|]. exists nb, l. by rewrite <-Hdone.
    + intros (nb & l & Hin & ?). right. exists (nb, l). by rewrite Hdone.
Qed.

(** [Farm.NativePlatforms] asks every builder, whatever the
    interleaving, and returns the sorted list, without repetition, of the
    platforms native to at least one of them; when a builder fails it
    returns no platforms and all the errors. *)
Theorem NativePlatforms_exact f w :
  let call := λ nb : string * B, Types.NativePlatforms nb.2 mk_InfoOptions in
  (∃ ls rs w' r, answered call f w ls rs w' ∧ NativePlatforms f w = (Ret r, w') ∧
     gathered ls rs r) ∨
  (∃ msg w', NativePlatforms f w = (Panic (Killed msg), w') ∧ panicked call f w).
Proof. apply (gather_spec _ "NativePlatforms" "nativeMap"). Qed.

(** The same of [Farm.EmulatedPlatforms] and the platforms builders
    can build for with the help of emulation. *)
Theorem EmulatedPlatforms_exact f w :
  let call := λ nb : string * B, Types.EmulatedPlatforms nb.2 mk_InfoOptions in
  (∃ ls rs w' r, answered call f w ls rs w' ∧ EmulatedPlatforms f w = (Ret r, w') ∧
     gathered ls rs r) ∨
  (∃ msg w', EmulatedPlatforms f w = (Panic (Killed msg), w') ∧ panicked call f w).
Proof. apply (gather_spec _ "EmulatedPlatforms" "emulatedMap"). Qed.

(** *** [Schedule] *)

Definition note_all (m : gmap string string) (l : list (string * string)) :=
  foldl (λ m x, note m x.1 x.2) m l.

Lemma note_all_app m l1 l2 : note_all m (l1 ++ l2) = note_all (note_all m l1) l2.
Proof. apply foldl_app. Qed.

(** The first name noted for a platform stays. *)
Lemma note_all_union m l : note_all m l = m ∪ list_to_map l.
Proof.
  unfold note_all. revert m. induction l as [|[p n] l IH]; intros m; simpl.
  { by rewrite (right_id_L ∅ (∪)). }
  rewrite IH. unfold note. destruct (m !! p) as [n'|] eqn:Hp.
  - apply map_eq. intros q. rewrite !lookup_union.
    destruct (decide (p = q)) as [->|Hne]; [|by rewrite lookup_insert_ne].
    rewrite Hp, lookup_insert_eq. by destruct (list_to_map l !! q).
  - by rewrite <-insert_union_l, insert_union_r.
Qed.

Lemma run_note_info (nb : string * B) info t :
  run_writes t (note_info nb info) =
  mk_tables (note_all (native t) ((λ p, (p, nb.1)) <$> NativePlatforms_ info))
            (note_all (emulated t) ((λ p, (p, nb.1)) <$> EmulatedPlatforms_ info)).
Proof.
  unfold note_info, run_writes, note_all. rewrite foldl_app.
  assert (∀ ns t, foldl (λ s g, g s) t
    ((λ n t, mk_tables (note (native t) n nb.1) (emulated t)) <$> ns) =
    mk_tables (foldl (λ m x, note m x.1 x.2) (native t) ((λ p, (p, nb.1)) <$> ns))
      (emulated t)) as Hn.
  { clear. induction ns as [|n ns IH]; intros [tn te]; csimpl; [done|]. by rewrite IH. }
  assert (∀ ns t, foldl (λ s g, g s) t
    ((λ e t, mk_tables (native t) (note (emulated t) e nb.1)) <$> ns) =
    mk_tables (native t)
      (foldl (λ m x, note m x.1 x.2) (emulated t) ((λ p, (p, nb.1)) <$> ns))) as He.
  { clear. induction ns as [|n ns IH]; intros [tn te]; csimpl; [done|]. by rewrite IH. }
  by rewrite Hn, He.
Qed.

(** The tables after all answers have been noted. *)
Lemma noted_tables (answers : list ((string * B) * Info)) t :
  foldl (λ t a, run_writes t (note_info a.1 a.2)) t answers =
  mk_tables (note_all (native t) (offers NativePlatforms_ answers))
            (note_all (emulated t) (offers EmulatedPlatforms_ answers)).
Proof.
  unfold offers. revert t.
  induction answers as [|a answers IH]; intros t; csimpl; [by destruct t|].
  by rewrite IH, run_note_info, !note_all_app.
Qed.

(** The builder the tables have for a platform. *)
Definition choice (t : tables) (p : string) : option string :=
  match native t !! p with Some b => Some b | None => emulated t !! p end.

Lemma assign_choice t p m :
  assign t p m =
  Ret (match choice t p with
       | Some b => Continue (<[p := b]> m)
       | None => Return_ (zero_Schedule, Some (incapable p))
       end).
Proof. unfold assign, choice. by destruct (native t !! p), (emulated t !! p). Qed.

Lemma assign_loop t platforms m :
  (Forall (λ p, is_Some (choice t p)) platforms ∧ ∃ m',
     for_range (assign t) platforms m = Ret (Continue m') ∧
     ∀ p, m' !! p = if decide (p ∈ platforms) then choice t p else m !! p) ∨
  (∃ l1 p l2, platforms = l1 ++ p :: l2 ∧ Forall (λ p, is_Some (choice t p)) l1 ∧
     choice t p = None ∧
     for_range (assign t) platforms m = Ret (Return_ (zero_Schedule, Some (incapable p)))).
Proof.
  revert m. induction platforms as [|q ps IH]; intros m.
  { left. split; [done|]. by exists m. }
  cbn [for_range]. rewrite assign_choice. destruct (choice t q) as [b|] eqn:Hq.
  2:{ right. by exists [], q, ps. }
  destruct (IH (<[q := b]> m)) as [(Hall & m' & -> & Hm')|(l1 & p & l2 & -> & Hall & Hp & ->)].
  - left. split; [by constructor|]. exists m'. split; [done|]. intros p. rewrite Hm'.
    destruct (decide (p = q)) as [->|Hne].
    + rewrite (decide_True (P := q ∈ q :: ps)) by left.
      case_decide; [done|]. by rewrite lookup_insert_eq.
    + rewrite lookup_insert_ne by done. repeat case_decide; set_solver.
  - right. exists (q :: l1), p, l2. split_and!; try done. by constructor.
Qed.

(** Looking a platform up in the tables of the answers. *)
Lemma noted_lookup (l : list (string * string)) p :
  match note_all ∅ l !! p with
  | Some name => (p, name) ∈ l
  | None => ∀ name, (p, name) ∉ l
  end.
Proof.
  rewrite note_all_union, (left_id_L ∅ (∪)).
  destruct (list_to_map l !! p) as [name|] eqn:Hp.
  - by apply elem_of_list_to_map_2.
  - intros name Hin. apply not_elem_of_list_to_map in Hp. apply Hp.
    apply list_elem_of_fmap. by exists (p, name).
Qed.

Lemma noted_choice (answers : list ((string * B) * Info)) p :
  let t := foldl (λ t a, run_writes t (note_info a.1 a.2)) (mk_tables ∅ ∅) answers in
  match choice t p with
  | Some name =>
      (p, name) ∈ offers NativePlatforms_ answers ∨
      ((∀ name', (p, name') ∉ offers NativePlatforms_ answers) ∧
       (p, name) ∈ offers EmulatedPlatforms_ answers)
  | None => ¬ can_build answers p
  end.
Proof.
  intros t. subst t. rewrite noted_tables. unfold choice. simpl.
  pose proof (noted_lookup (offers NativePlatforms_ answers) p) as Hn.
  destruct (note_all ∅ (offers NativePlatforms_ answers) !! p); [by left|].
  pose proof (noted_lookup (offers EmulatedPlatforms_ answers) p) as He.
  destruct (note_all ∅ (offers EmulatedPlatforms_ answers) !! p); [by right|].
  intros [name [?|?]%elem_of_app]; [by eapply Hn|by eapply He].
Qed.

Lemma foldl_offers_perm (sel : Info → list string) (l1 l2 : list ((string * B) * Info)) x :
  l1 ≡ₚ l2 → x ∈ offers sel l1 ↔ x ∈ offers sel l2.
Proof. intros Hl. unfold offers. by rewrite Hl. Qed.

Lemma valid_schedule_perm (l1 l2 : list ((string * B) * Info)) platforms m :
  l1 ≡ₚ l2 → valid_schedule l1 platforms m → valid_schedule l2 platforms m.
Proof.
  intros Hl [Hd Hc]. split; [done|]. intros p name Hp.
  setoid_rewrite <-(foldl_offers_perm _ l1 l2); [|done..]. eauto.
Qed.

Lemma can_build_perm (l1 l2 : list ((string * B) * Info)) p :
  l1 ≡ₚ l2 → can_build l1 p ↔ can_build l2 p.
Proof.
  intros Hl. unfold can_build. setoid_rewrite elem_of_app.
  by setoid_rewrite (foldl_offers_perm _ l1 l2 _ Hl).
Qed.

Lemma schedule_platforms_spec f platforms w :
  let call := λ nb : string * B, GetInfo nb.2 mk_InfoOptions in
  (∃ ls rs w' r, answered call f w ls rs w' ∧
     schedule_platforms f platforms w = (Ret r, w') ∧ scheduled ls rs platforms r) ∨
  (∃ msg w', schedule_platforms f platforms w = (Panic (Killed msg), w') ∧ panicked call f w).
Proof.
  intros call. destruct (run_group_early call note_info (sched_at "Schedule")
    (mk_tables ∅ ∅) (range_map "Schedule" (builders f)) w)
    as [(ls & rs & done & errs & w' & Hls & Hc & Hdone & He & Hrun)
       |(msg & w' & Hrun & Hcrash)].
  2:{ right. exists msg, w'. unfold schedule_platforms.
      rewrite (go_bind_panic _ _ _ _ _ Hrun). split; [done|]. by eapply panicked_in. }
  left. exists ls, rs, w'. unfold schedule_platforms. rewrite (go_bind_ret _ _ _ _ _ Hrun).
  assert (answered call f w ls rs w') as Hans.
  { split; [by rewrite Hls; apply range_perm|done]. }
  destruct (ErrorOrNil errs) as [e|] eqn:Herr.
  { eexists; split; [done|]; split; [done|].
    apply ErrorOrNil_Some in Herr as (es & Hes & -> & ->). simpl in He.
    apply scheduled_failed; [|done]. intros Hf. rewrite Hf in He.
    by apply Permutation_nil_r in He. }
  apply ErrorOrNil_None in Herr. rewrite Herr in He. apply Permutation_nil_l in He.
  set (t := foldl _ _ done).
  pose proof (noted_choice done : ∀ p, match choice t p with Some _ => _ | None => _ end)
    as Hch.
  unfold assign_all. destruct (assign_loop t platforms ∅)
    as [(Hall & m & Hloop & Hm)|(l1 & p & l2 & -> & Hall & Hp & Hloop)];
    unfold go_lift, mbind, go_bind; rewrite Hloop; (eexists; split; [done|]; split; [done|]);
    rewrite Forall_forall in Hall.
  - apply scheduled_all; [done| |].
    + intros p Hp. rewrite <-(can_build_perm done) by done.
      specialize (Hch p). destruct (Hall p Hp) as [b Hb]. rewrite Hb in Hch.
      exists b. rewrite elem_of_app. tauto.
    + apply (valid_schedule_perm done); [done|]. split; intros p; rewrite Hm.
      * case_decide as Hin; [by split; auto|]. rewrite lookup_empty.
        split; [by intros []|done].
      * intros name. case_decide as Hin; [|by rewrite lookup_empty].
        intros Hb. specialize (Hch p). by rewrite Hb in Hch.
  - eapply scheduled_incapable; [done..| |]; setoid_rewrite <-(can_build_perm done); try done.
    + intros q Hq. specialize (Hch q). destruct (Hall q Hq) as [b Hb]. rewrite Hb in Hch.
      exists b. rewrite elem_of_app. tauto.
    + specialize (Hch p). by rewrite Hp in Hch.
Qed.

(** C2: [Farm.Schedule] for platforms given by the caller, whatever the
    interleaving in which the builders answer: every builder is asked
    once; if one fails all failures are returned; otherwise the schedule
    assigns exactly the platforms asked for, each to a builder which can
    build for it, to one which does so natively if there is any; and it
    fails only on the first platform which no builder can build for. *)
Theorem Schedule_exact f platforms w (Hne : platforms ≠ []) :
  let call := λ nb : string * B, GetInfo nb.2 mk_InfoOptions in
  (∃ ls rs w' r, answered call f w ls rs w' ∧ Schedule f platforms w = (Ret r, w') ∧
     scheduled ls rs platforms r) ∨
  (∃ msg w', Schedule f platforms w = (Panic (Killed msg), w') ∧ panicked call f w).
Proof.
  intros call. unfold Schedule. rewrite decide_False by (by destruct platforms).
  apply schedule_platforms_spec.
Qed.

(** *** Builders which always answer the same *)

(** A call which always answers [answer] and keeps [I]. *)
Definition answers {L A} (I : W → Prop) (call : L → Go W A) (answer : L → A) (ls : list L) : Prop :=
  ∀ l w, l ∈ ls → I w → ∃ w', I w' ∧ call l w = (Ret (answer l), w').

Lemma call_all_answers {L A} I (call : L → Go W A) (answer : L → A) ls w rs w' :
  answers I call answer ls → I w → call_all call ls w = Some (rs, w') →
  rs = answer <$> ls ∧ I w'.
Proof.
  revert w rs. induction ls as [|l ls IH]; intros w rs Ha Hw Hc; simpl in Hc; [by simplify_eq|].
  destruct (Ha l w) as (w1 & Hw1 & Hl); [by left|done|]. rewrite Hl in Hc.
  destruct (call_all call ls w1) as [[rs1 w2]|] eqn:Hr; [|done]. injection Hc as <- <-.
  destruct (IH w1 rs1) as [-> ?]; [|done..]. intros l' w3 Hl'. apply Ha. by right.
Qed.

Lemma not_crashed {L A} I (call : L → Go W A) (answer : L → A) ls w :
  answers I call answer ls → I w → ¬ crashed call ls w.
Proof.
  intros Ha Hw (ls1 & l & ls2 & rs & w1 & msg & w2 & Hls & Hc & Hl).
  destruct (call_all_answers I call answer ls1 w rs w1) as [_ Hw1]; [|done..|].
  { intros l' w3 Hl'. apply Ha. rewrite <-Hls. set_solver. }
  destruct (Ha l w1) as (w3 & _ & Hl'); [rewrite <-Hls; set_solver|done|]. congruence.
Qed.

Lemma answered_steady {A} I (call : string * B → Go W A) (answer : string * B → A) f w ls rs w' :
  answers I call answer (map_to_list (builders f)) → I w →
  answered call f w ls rs w' → rs = answer <$> ls ∧ I w'.
Proof.
  intros Ha Hw [Hls Hc]. eapply call_all_answers; [|done..]. intros l w1 Hl.
  apply Ha. by rewrite <-Hls.
Qed.

Lemma failures_steady {L A} (answer : L → A) (ls : list L) :
  failures ((λ l, (answer l, None)) <$> ls) = [].
Proof. unfold failures. by induction ls as [|l ls IH]. Qed.

Lemma successes_steady {L A} (answer : L → A) (ls : list L) :
  successes ls ((λ l, (answer l, None)) <$> ls) = (λ l, (l, answer l)) <$> ls.
Proof.
  unfold successes. induction ls as [|l ls IH]; csimpl; [done|]. by rewrite IH.
Qed.

Lemma elem_of_offers sel (answers : list ((string * B) * Info)) p name :
  (p, name) ∈ offers sel answers ↔ ∃ ib info, ((name, ib), info) ∈ answers ∧ p ∈ sel info.
Proof.
  unfold offers. rewrite list_elem_of_bind. split.
  - intros ([[n ib] info] & Hin & Ha). apply list_elem_of_fmap in Hin as (q & ? & ?).
    simplify_eq/=. by exists ib, info.
  - intros (ib & info & Ha & Hp). exists ((name, ib), info). split; [|done].
    apply list_elem_of_fmap. by exists p.
Qed.

Lemma elem_of_steady_offers sel f (answer : B → Info) ls p name :
  ls ≡ₚ map_to_list (builders f) →
  (p, name) ∈ offers sel ((λ nb : string * B, (nb, answer nb.2)) <$> ls) ↔
  ∃ ib, builders f !! name = Some ib ∧ p ∈ sel (answer ib).
Proof.
  intros Hls. rewrite elem_of_offers. split.
  - intros (ib & info & Hin & Hp). apply list_elem_of_fmap in Hin as ([n ib'] & ? & Hin).
    simplify_eq/=. rewrite Hls, elem_of_map_to_list in Hin. eauto.
  - intros (ib & Hb & Hp). exists ib, (answer ib). split; [|done].
    apply list_elem_of_fmap. exists (name, ib). split; [done|].
    by rewrite Hls, elem_of_map_to_list.
Qed.

Lemma NativePlatforms_steady I f answer w :
  steady I f answer → I w →
  ∃ ps w', NativePlatforms f w = (Ret (ps, None), w') ∧ I w' ∧
    ∀ p, p ∈ ps ↔
      ∃ name ib, builders f !! name = Some ib ∧ p ∈ NativePlatforms_ (answer ib).
Proof.
  intros Hsteady Hw.
  set (call := λ nb : string * B, Types.NativePlatforms nb.2 mk_InfoOptions).
  set (answer' := λ nb : string * B, (NativePlatforms_ (answer nb.2), @None error)).
  assert (Hst : answers I call answer' (map_to_list (builders f))).
  { intros [name ib] w1 Hb%elem_of_map_to_list Hw1. by destruct (Hsteady name ib w1 Hb Hw1). }
  destruct (gather_spec call "NativePlatforms" "nativeMap" f w)
    as [(ls & rs & w1 & r & Hans & Hrun & Hg)|(msg & w1 & _ & Hp)];
    [|by destruct (not_crashed I call answer' _ _ Hst Hw)].
  pose proof Hans as [Hls _].
  destruct (answered_steady I call answer' f w ls rs w1 Hst Hw Hans) as [-> Hw1].
  unfold answer' in Hg. destruct Hg as [(_ & ps & -> & _ & _ & Hps)|[Hf _]];
    [|by rewrite (failures_steady (λ nb, NativePlatforms_ (answer nb.2))) in Hf].
  exists ps, w1. do 2 (split; [done|]). intros p. rewrite Hps.
  rewrite (successes_steady (λ nb, NativePlatforms_ (answer nb.2))). split.
  - intros ([name ib] & l & Hin & Hp). apply list_elem_of_fmap in Hin as (nb & ? & Hin).
    simplify_eq/=. rewrite Hls, elem_of_map_to_list in Hin. eauto.
  - intros (name & ib & Hb & Hp). exists (name, ib). eexists. split; [|exact Hp].
    apply list_elem_of_fmap. exists (name, ib). split; [done|].
    by rewrite Hls, elem_of_map_to_list.
Qed.

Lemma schedule_platforms_steady I f answer platforms w :
  steady I f answer → I w →
  ∃ w', I w' ∧ (
    (∃ m, schedule_platforms f platforms w = (Ret (mk_Schedule m, None), w') ∧
       (∀ p, is_Some (m !! p) ↔ p ∈ platforms) ∧
       (∀ p name, m !! p = Some name →
          builds NativePlatforms_ f answer p name ∨
          (∀ name', ¬ builds NativePlatforms_ f answer p name') ∧
          builds EmulatedPlatforms_ f answer p name)) ∨
    (∃ p, schedule_platforms f platforms w = (Ret (zero_Schedule, Some (incapable p)), w') ∧
       p ∈ platforms ∧
       ∀ name, ¬ builds NativePlatforms_ f answer p name ∧
               ¬ builds EmulatedPlatforms_ f answer p name)).
Proof.
  intros Hsteady Hw. set (call := λ nb : string * B, GetInfo nb.2 mk_InfoOptions).
  set (answer' := λ nb : string * B, (answer nb.2, @None error)).
  assert (Hst : answers I call answer' (map_to_list (builders f))).
  { intros [name ib] w1 Hb%elem_of_map_to_list Hw1. by destruct (Hsteady name ib w1 Hb Hw1). }
  destruct (schedule_platforms_spec f platforms w)
    as [(ls & rs & w1 & r & Hans & Hrun & Hg)|(msg & w1 & _ & Hp)];
    [|by destruct (not_crashed I call answer' _ _ Hst Hw)].
  exists w1. rewrite Hrun. pose proof Hans as [Hls _].
  destruct (answered_steady I call answer' f w ls rs w1 Hst Hw Hans) as [-> Hw1].
  split; [done|]. unfold answer' in Hg.
  destruct Hg as [es Hf|m _ _ Hv|l1 p l2 _ -> _ Hp].
  - by rewrite (failures_steady (λ nb, answer nb.2)) in Hf.
  - rewrite (successes_steady (λ nb, answer nb.2)) in Hv. destruct Hv as [Hd Hc]. left.
    exists m. split_and!; [done..|]. intros p name Hm. specialize (Hc p name Hm).
    setoid_rewrite elem_of_steady_offers in Hc; done.
  - rewrite (successes_steady (λ nb, answer nb.2)) in Hp. right. exists p.
    split_and!; [done|set_solver|]. unfold can_build in Hp.
    setoid_rewrite elem_of_app in Hp. setoid_rewrite elem_of_steady_offers in Hp; [|done..].
    intros name. split; intros Hb; apply Hp; exists name; auto.
Qed.

(** C18: With no platforms given and builders which always answer the same,
    [Farm.Schedule] succeeds, whatever the interleaving: it assigns every
    platform native to some builder of the farm, and those only, each to a
    builder which builds for it natively. *)
Theorem Schedule_default_native I f answer w (Hsteady : steady I f answer) (Hw : I w) :
  ∃ m w', Schedule f [] w = (Ret (mk_Schedule m, None), w') ∧ I w' ∧
    (∀ p, is_Some (m !! p) ↔ ∃ name, builds NativePlatforms_ f answer p name) ∧
    (∀ p name, m !! p = Some name → builds NativePlatforms_ f answer p name).
Proof.
  destruct (NativePlatforms_steady I f answer w Hsteady Hw) as (ps & w1 & Hn & Hw1 & Hps).
  unfold Schedule. rewrite decide_True, (go_bind_ret _ _ _ _ _ Hn) by done.
  destruct (schedule_platforms_steady I f answer ps w1 Hsteady Hw1)
    as (w' & Hw' & [(m & Hrun & Hd & Hc)|(p & _ & Hin & Hno)]).
  - exists m, w'. do 2 (split; [done|]). split.
    + intros p. by rewrite Hd, Hps.
    + intros p name Hm. destruct (Hc p name Hm) as [?|[Hno _]]; [done|].
      assert (p ∈ ps) as (name' & ib & ?)%Hps by (by apply Hd).
      destruct (Hno name'). by exists ib.
  - apply Hps in Hin as (name & ib & ?). destruct (Hno name) as [[] _]. by exists ib.
Qed.

(** C25: For platforms given by the caller and builders which always answer
    the same, whether [Farm.Schedule] succeeds does not depend on the
    interleaving: it does exactly when each platform is one which some
    builder builds for, natively or with emulation, and then every
    assignment is native unless no builder is native to the platform. *)
Theorem Schedule_steady I f answer platforms w
    (Hne : platforms ≠ []) (Hsteady : steady I f answer) (Hw : I w) :
  ∃ s err w', Schedule f platforms w = (Ret (s, err), w') ∧ I w' ∧
    (err = None ↔ ∀ p, p ∈ platforms → ∃ name,
       builds NativePlatforms_ f answer p name ∨ builds EmulatedPlatforms_ f answer p name) ∧
    (err = None → ∀ p, is_Some (platformBuilders s !! p) ↔ p ∈ platforms) ∧
    (∀ p name, platformBuilders s !! p = Some name →
       builds NativePlatforms_ f answer p name ∨
       (∀ name', ¬ builds NativePlatforms_ f answer p name') ∧
       builds EmulatedPlatforms_ f answer p name).
Proof.
  unfold Schedule. rewrite decide_False by (by destruct platforms).
  destruct (schedule_platforms_steady I f answer platforms w Hsteady Hw)
    as (w' & Hw' & [(m & -> & Hd & Hc)|(p & -> & Hin & Hno)]);
    (eexists _, _, w'; split; [done|]; split; [done|]).
  - split_and!; [|done..]. split; [|done]. intros _ p [name Hp]%Hd. exists name.
    destruct (Hc p name Hp); tauto.
  - split_and!; [|done|intros q name Hq; simpl in Hq; by rewrite lookup_empty in Hq].
    split; [done|]. intros Hall. destruct (Hall p Hin) as [name Hname].
    destruct (Hno name). tauto.
Qed.
End Facts.

(** *** Witnesses *)

Definition static_farm : Farm static :=
  mk_Farm EmptyString (NewFlagSet "buildfarm") None two_builders.

(** Nothing is built in this world. *)
Definition idle (w : log) : Prop := w = [].

Lemma static_steady : steady idle static_farm s_info.
Proof. intros name ib w _ Hw. split; by exists w. Qed.

(** [Schedule_exact] where the second builder has to use emulation. *)
Lemma Schedule_exact_witness :
  let platforms := ["linux/amd64"; "linux/s390x"] in
  platforms ≠ [] ∧
  (let call := λ nb : string * static, GetInfo nb.2 mk_InfoOptions in
   (∃ ls rs w' r, answered call static_farm ([] : log) ls rs w' ∧
      Schedule static_farm platforms [] = (Ret r, w') ∧ scheduled ls rs platforms r) ∨
   (∃ msg w', Schedule static_farm platforms ([] : log) = (Panic (Killed msg), w') ∧
      panicked call static_farm ([] : log))) ∧
  Schedule static_farm platforms ([] : log) =
    (Ret (mk_Schedule {["linux/amd64" := "east"; "linux/s390x" := "west"]}, None), []).
Proof.
  split_and!; [done| |vm_compute; reflexivity].
  exact (Schedule_exact static_farm ["linux/amd64"; "linux/s390x"] [] ltac:(done)).
Defined.

Lemma Schedule_default_native_witness :
  steady idle static_farm s_info ∧ idle [] ∧
  ∃ m w', Schedule static_farm [] [] = (Ret (mk_Schedule m, None), w') ∧ idle w' ∧
    (∀ p, is_Some (m !! p) ↔ ∃ name, builds NativePlatforms_ static_farm s_info p name) ∧
    (∀ p name, m !! p = Some name → builds NativePlatforms_ static_farm s_info p name).
Proof.
  split; [exact static_steady|]. split; [reflexivity|].
  exact (Schedule_default_native idle static_farm s_info [] static_steady eq_refl).
Defined.

Lemma Schedule_steady_witness :
  let platforms := ["linux/amd64"; "linux/riscv64"] in
  platforms ≠ [] ∧ steady idle static_farm s_info ∧ idle [] ∧
  ∃ s err w', Schedule static_farm platforms [] = (Ret (s, err), w') ∧ idle w' ∧
    (err = None ↔ ∀ p, p ∈ platforms → ∃ name,
       builds NativePlatforms_ static_farm s_info p name ∨
       builds EmulatedPlatforms_ static_farm s_info p name) ∧
    (err = None → ∀ p, is_Some (platformBuilders s !! p) ↔ p ∈ platforms) ∧
    (∀ p name, platformBuilders s !! p = Some name →
       builds NativePlatforms_ static_farm s_info p name ∨
       (∀ name', ¬ builds NativePlatforms_ static_farm s_info p name') ∧
       builds EmulatedPlatforms_ static_farm s_info p name).
Proof.
  split; [done|]. split; [exact static_steady|]. split; [reflexivity|].
  exact (Schedule_steady idle static_farm s_info ["linux/amd64"; "linux/riscv64"] []
    ltac:(done) static_steady eq_refl).
Defined.
End Farm.

(** ** Constructing a farm *)

Lemma StringInSlice_elem s sl : StringInSlice s sl = true ↔ s ∈ sl.
Proof.
  induction sl as [|i sl IH]; simpl; [set_solver|]. rewrite elem_of_cons.
  case_decide; naive_solver.
Qed.

Section ConstructFacts.
Context `{!RangeOracle} `{!Scheduler} {B W : Type} `{!FarmEnv B W}.

Lemma elem_of_connections wb destinations opts c :
  c ∈ connections wb destinations opts ↔ selected wb destinations opts c.
Proof.
  unfold connections. rewrite elem_of_app, list_elem_of_fmap. split.
  - intros [([d x] & -> & [Hw Hin]%list_elem_of_filter)|Hl].
    + apply elem_of_range_map in Hin. simpl. split; [by exists x|done].
    + destruct opts as [o|], (wantBuilder wb LocalImageBuilderName) eqn:Hw; simpl in Hl;
        apply list_elem_of_singleton in Hl || apply not_elem_of_nil in Hl; try done.
      subst. split; [by exists o|done].
  - destruct c as [d|]; intros [[x Hx] Hw].
    + left. exists (d, x). split; [done|]. apply list_elem_of_filter.
      split; [done|]. by apply elem_of_range_map.
    + right. rewrite Hx, Hw. by left.
Qed.

Lemma NoDup_connections wb destinations opts : NoDup (connections wb destinations opts).
Proof.
  unfold connections. rewrite list_fmap_compose. apply NoDup_app. split_and!.
  - apply (NoDup_fmap_2_strong RemoteConnection); [by intros ???? [=]|].
    eapply sublist_NoDup; [|apply fmap_sublist, sublist_filter]. apply NoDup_range_map.
  - intros c (d & -> & _)%list_elem_of_fmap. destruct (_ && _); set_solver.
  - destruct (_ && _); [apply NoDup_singleton|apply NoDup_nil_2].
Qed.

Definition add_all (done : list (connection * option B)) (m : gmap string B) :=
  foldl (λ m a, run_writes m (add_builder a.1 a.2)) m done.

Lemma add_all_inv done (m : gmap string B) k ib :
  add_all done m !! k = Some ib →
  m !! k = Some ib ∨ ∃ c, (c, Some ib) ∈ done ∧ connection_key c = k.
Proof.
  revert m. unfold add_all. induction done as [|[c [ib'|]] done IH]; intros m Hk; simpl in Hk.
  - by left.
  - apply IH in Hk as [Hk|(c' & ? & ?)]; [|right; exists c'; set_solver].
    apply lookup_insert_Some in Hk as [[? ->]|[? ?]]; [|by left].
    right. exists c. split; [by left|done].
  - apply IH in Hk as [Hk|(c' & ? & ?)]; [by left|right; exists c'; set_solver].
Qed.

Lemma add_all_some done (m : gmap string B) k :
  is_Some (m !! k) ∨ (∃ c ib, (c, Some ib) ∈ done ∧ connection_key c = k) →
  is_Some (add_all done m !! k).
Proof.
  revert m. unfold add_all. induction done as [|[c [ib'|]] done IH]; intros m Hk; simpl.
  - destruct Hk as [Hk|(? & ? & []%not_elem_of_nil & _)]. done.
  - apply IH. unfold run_writes. simpl. rewrite lookup_insert_is_Some'.
    destruct Hk as [Hk|(c' & ib & [?|?]%elem_of_cons & ?)]; [tauto|naive_solver|].
    right. eauto.
  - apply IH. destruct Hk as [Hk|(c' & ib & [?|?]%elem_of_cons & ?)]; [tauto|done|].
    right. eauto.
Qed.

Lemma newFarm_spec wb opts flags w destinations w1
    (Hconfig : ReadCustomConfig w = (Ret (destinations, None), w1)) :
  (∃ ls rs w2 r, NoDup ls ∧ (∀ c, c ∈ ls ↔ selected wb destinations opts c) ∧
     call_all (connect (default (NewFlagSet "buildfarm") flags) opts) ls w1 = Some (rs, w2) ∧
     newFarmWithBuilders wb opts flags w = (Ret r, w2) ∧ new_farm opts flags ls rs r) ∨
  (∃ msg w2, newFarmWithBuilders wb opts flags w = (Panic (Killed msg), w2) ∧
     ∃ ls, NoDup ls ∧ (∀ c, c ∈ ls ↔ selected wb destinations opts c) ∧
       crashed (connect (default (NewFlagSet "buildfarm") flags) opts) ls w1).
Proof.
  unfold newFarmWithBuilders. rewrite (go_bind_ret _ _ _ _ _ Hconfig).
  set (fl := default _ flags).
  destruct (run_group_early (connect fl opts) add_builder (sched_at "newFarmWithBuilders") ∅
    (connections wb destinations opts) w1)
    as [(ls & rs & done & errs & w2 & Hls & Hc & Hdone & He & Hrun)
       |(msg & w2 & Hrun & Hcrash)].
  2:{ right. rewrite (go_bind_panic _ _ _ _ _ Hrun). exists msg, w2. split; [done|].
      exists (connections wb destinations opts). split_and!; [apply NoDup_connections| |done].
      apply elem_of_connections. }
  left. exists ls, rs, w2. rewrite (go_bind_ret _ _ _ _ _ Hrun).
  destruct (ErrorOrNil errs) as [e|] eqn:Herr; [|case_decide as Hsz];
    (eexists; split_and!;
       [by rewrite Hls; apply NoDup_connections
       |intros c; by rewrite Hls, elem_of_connections|done|done|]).
  { apply ErrorOrNil_Some in Herr as (es & Hes & -> & ->). simpl in He.
    apply new_farm_failed; [|done]. intros Hf. rewrite Hf in He.
    by apply Permutation_nil_r in He. }
  all: apply ErrorOrNil_None in Herr; rewrite Herr in He; apply Permutation_nil_l in He.
  all: fold (add_all done ∅) in Hsz |- *.
  - apply new_farm_ready; [done| |done..| |]; cbn [builders].
    + intros Hm. rewrite Hm, map_size_empty in Hsz. lia.
    + intros k. split.
      * intros [ib Hk]. apply add_all_inv in Hk as [Hk|(c & Hin & Hk)];
          [by rewrite lookup_empty in Hk|]. exists c, ib. by rewrite <-Hdone.
      * intros (c & ib & Hin & Hk). apply add_all_some. right. exists c, ib.
        by rewrite Hdone.
    + intros k ib Hk. apply add_all_inv in Hk as [Hk|(c & Hin & Hk)];
        [by rewrite lookup_empty in Hk|]. exists c. by rewrite <-Hdone.
  - apply new_farm_empty; [done|]. intros c ib Hin.
    destruct (add_all_some done ∅ (connection_key c)) as [ib' Hib'].
    { right. exists c, ib. by rewrite Hdone. }
    assert (add_all done ∅ = ∅) as Hm by (apply map_size_empty_inv; lia).
    by rewrite Hm, lookup_empty in Hib'.
Qed.

(** C8: [newFarmWithBuilders] connects to exactly the service destinations
    wanted, and to the local system if that is wanted and there are storage
    options, each once, whatever the interleaving.  If some constructor
    fails it returns all the failures; if nothing was to be built on it
    returns an error; otherwise a farm with the builders made. *)
Theorem newFarmWithBuilders_exact wb opts flags w destinations w1
    (Hconfig : ReadCustomConfig w = (Ret (destinations, None), w1)) :
  (∃ ls rs w2 r, NoDup ls ∧ (∀ c, c ∈ ls ↔ selected wb destinations opts c) ∧
     call_all (connect (default (NewFlagSet "buildfarm") flags) opts) ls w1 = Some (rs, w2) ∧
     newFarmWithBuilders wb opts flags w = (Ret r, w2) ∧ new_farm opts flags ls rs r) ∨
  (∃ msg w2, newFarmWithBuilders wb opts flags w = (Panic (Killed msg), w2) ∧
     ∃ ls, NoDup ls ∧ (∀ c, c ∈ ls ↔ selected wb destinations opts c) ∧
       crashed (connect (default (NewFlagSet "buildfarm") flags) opts) ls w1).
Proof. by apply newFarm_spec. Qed.

(** The documentation of [NewAdHocFarm] says that the empty string in
    the list of destinations selects the local system, but the name the
    code compares with is ["(local)"]: a list with just the empty string
    selects nothing (without a destination of that name), and the result is
    an error. *)
Theorem NewAdHocFarm_empty_name opts flags w destinations w1
    (Hconfig : ReadCustomConfig w = (Ret (destinations, None), w1))
    (Hempty : destinations !! EmptyString = None) :
  NewAdHocFarm [EmptyString] opts flags w = (Ret (inr (ErrNew "no builders configured")), w1) ∧
  ∀ c, selected (Destinations [LocalImageBuilderName]) ∅ opts c ↔
    c = LocalConnection ∧ is_Some opts.
Proof.
  split.
  - unfold NewAdHocFarm, newFarmWithBuilders. rewrite (go_bind_ret _ _ _ _ _ Hconfig).
    assert (connections (Destinations [EmptyString]) destinations opts = []) as Hcs.
    { apply elem_of_nil_inv. intros c. rewrite elem_of_connections.
      destruct c as [d|]; simpl; [|by intros [_ ?]].
      intros [[x Hx] Hd]. case_decide; [subst; congruence|done]. }
    rewrite Hcs.
    destruct (run_group_early (connect (default (NewFlagSet "buildfarm") flags) opts)
      add_builder (sched_at "newFarmWithBuilders") ∅ [] w1)
      as [(ls & rs & done & errs & w2 & Hls & Hc & Hdone & He & Hrun)
         |(msg & w2 & Hrun & ls1 & l & ls2 & _ & _ & _ & _ & Hp & _)];
      [|by apply Permutation_nil_r, app_nil in Hp as [_ ?]].
    apply Permutation_nil_r in Hls as ->. simplify_eq/=.
    apply Permutation_nil_r in Hdone as ->. apply Permutation_nil_r in He.
    rewrite (go_bind_ret _ _ _ _ _ Hrun). by destruct errs as [[|]|]; simplify_eq/=.
  - intros [d|]; simpl; rewrite ?lookup_empty; naive_solver.
Qed.
End ConstructFacts.

(** *** Witnesses *)

(** A configuration with one service destination. *)
#[export] Instance static_env : FarmEnv static log := {
  ReadCustomConfig :=
    mret ({["east" := mk_Destination "ssh://east" EmptyString false]}, None);
  NewPodmanRemoteImageBuilder _ dest := mret (inl (mk_static dest (mk_Info ["linux/amd64"] [])));
  NewPodmanLocalImageBuilder _ _ := mret (inl (mk_static "(local)" (mk_Info ["linux/arm64"] [])))
}.

Definition static_destinations : gmap string Destination :=
  {["east" := mk_Destination "ssh://east" EmptyString false]}.

Lemma newFarmWithBuilders_exact_witness :
  ReadCustomConfig (B := static) ([] : log) = (Ret (static_destinations, None), []) ∧
  ((∃ ls rs w2 r, NoDup ls ∧ (∀ c, c ∈ ls ↔ selected AllBuilders static_destinations None c) ∧
      call_all (connect (B := static) (NewFlagSet "buildfarm") None) ls ([] : log)
        = Some (rs, w2) ∧
      newFarmWithBuilders AllBuilders None None [] = (Ret r, w2) ∧ new_farm None None ls rs r) ∨
   (∃ msg w2, newFarmWithBuilders (B := static) AllBuilders None None ([] : log) =
        (Panic (Killed msg), w2) ∧
      ∃ ls, NoDup ls ∧ (∀ c, c ∈ ls ↔ selected AllBuilders static_destinations None c) ∧
        crashed (connect (B := static) (NewFlagSet "buildfarm") None) ls ([] : log))).
Proof.
  split; [reflexivity|].
  exact (newFarmWithBuilders_exact AllBuilders None None [] static_destinations [] eq_refl).
Defined.

Lemma NewAdHocFarm_empty_name_witness :
  ReadCustomConfig (B := static) ([] : log) = (Ret (static_destinations, None), []) ∧
  static_destinations !! EmptyString = None ∧
  NewAdHocFarm (B := static) [EmptyString] (Some (mk_StoreOptions "/g" "/r" "overlay" [])) None
      ([] : log) = (Ret (inr (ErrNew "no builders configured")), []).
Proof.
  split_and!; [reflexivity|vm_compute; reflexivity|].
  exact (proj1 (NewAdHocFarm_empty_name (Some (mk_StoreOptions "/g" "/r" "overlay" [])) None []
    static_destinations [] eq_refl eq_refl)).
Defined.
