(* ===== verification/Objects.v ===== *)
(** * Builders as objects of one heap

    The podman builders of Builders.v, local and remote, as implementations
    of the class [ImageBuilder], and their constructors as the class
    [FarmEnv], over a heap which all of them share with the outside world;
    then what they promise to a farm in every state the heap can reach:
    what a builder once answered it answers for good. *)

From S2P Require Import Prelude GoStrings MultiError Group Elf Binfmt Types Engine Builders Static Farm.

(** Values of the interface type [ImageBuilder]. *)
Inductive builder_ref (E : Type) :=
  | LocalRef (p : nat) (l : podmanLocal E)
  | RemoteRef (p : nat) (r : podmanRemote).
Arguments LocalRef {E}.
Arguments RemoteRef {E}.

Record heap (E C X : Type) := mk_heap {
  h_locals : list platform_cache;
  h_remotes : list (remote_state E C);
  h_outside : X
}.
Arguments mk_heap {E C X}.
Arguments h_locals {E C X}.
Arguments h_remotes {E C X}.
Arguments h_outside {E C X}.

Section Objects.
Context `{!RangeOracle} `{!Libimage} {E C X : Type} `{!Podman E C X} `{!Host X}.

(** ** Methods through pointers *)

Definition on_outside {A} (m : Go X A) : Go (heap E C X) A := λ h,
  let '(r, x) := m (h_outside h) in (r, mk_heap (h_locals h) (h_remotes h) x).

Definition on_local {A} (p : nat) (m : Go (platform_cache * X) A) : Go (heap E C X) A := λ h,
  match h_locals h !! p with
  | None => (Panic nil_dereference, h)
  | Some c =>
      let '(r, (c, x)) := m (c, h_outside h) in
      (r, mk_heap (<[p := c]> (h_locals h)) (h_remotes h) x)
  end.

Definition on_remote {A} (p : nat) (m : Go (remote_state E C * X) A) : Go (heap E C X) A := λ h,
  match h_remotes h !! p with
  | None => (Panic nil_dereference, h)
  | Some s =>
      let '(r, (s, x)) := m (s, h_outside h) in
      (r, mk_heap (h_locals h) (<[p := s]> (h_remotes h)) x)
  end.

#[export] Instance podman_builder : ImageBuilder (builder_ref E) E (heap E C X) := {
  Driver b := match b with LocalRef _ _ => localImageBuilderDriver | RemoteRef _ _ => "podman-remote" end;
  Name b := match b with LocalRef _ _ => LocalImageBuilderName | RemoteRef _ r => r_name r end;
  Status b :=
    match b with LocalRef p l => on_local p (Local.Status l) | RemoteRef p r => on_remote p (Remote.Status r) end;
  GetInfo b o :=
    match b with LocalRef p l => on_local p (Local.Info_ l o) | RemoteRef p r => on_remote p (Remote.Info_ r o) end;
  NativePlatforms b o :=
    match b with
    | LocalRef p l => on_local p (Local.NativePlatforms l o)
    | RemoteRef p r => on_remote p (Remote.NativePlatforms r o)
    end;
  EmulatedPlatforms b o :=
    match b with
    | LocalRef p l => on_local p (Local.EmulatedPlatforms l o)
    | RemoteRef p r => on_remote p (Remote.EmulatedPlatforms r o)
    end;
  Build b reference cf o :=
    match b with
    | LocalRef p l => on_local p (Local.Build l reference cf o)
    | RemoteRef p r => on_remote p (Remote.Build r reference cf o)
    end;
  PullToFile b o :=
    match b with
    | LocalRef _ l => on_outside (Local.PullToFile l o)
    | RemoteRef p r => on_remote p (Remote.PullToFile r o)
    end;
  PullToLocal b o :=
    match b with
    | LocalRef _ l => on_outside (Local.PullToLocal l o)
    | RemoteRef p r => on_remote p (Remote.PullToLocal r o)
    end;
  RemoveImage b o :=
    match b with
    | LocalRef _ l => on_outside (Local.RemoveImage l o)
    | RemoteRef p r => on_remote p (Remote.RemoveImage r o)
    end;
  PruneImages b o :=
    match b with
    | LocalRef _ l => on_outside (Local.PruneImages l o)
    | RemoteRef p r => on_remote p (Remote.PruneImages r o)
    end;
  Done b :=
    match b with LocalRef _ l => on_outside (Local.Done l) | RemoteRef p r => on_remote p (Remote.Done r) end
}.

(** ** Constructors *)

Definition alloc_local (l : podmanLocal E) : Go (heap E C X) (builder_ref E) := λ h,
  (Ret (LocalRef (length (h_locals h)) l),
   mk_heap (h_locals h ++ [zero_cache]) (h_remotes h) (h_outside h)).

Definition alloc_remote (r : podmanRemote) (s : remote_state E C) : Go (heap E C X) (builder_ref E) := λ h,
  (Ret (RemoteRef (length (h_remotes h)) r),
   mk_heap (h_locals h) (h_remotes h ++ [s]) (h_outside h)).

Definition new_local (flags : option FlagSet) (opts : option StoreOptions)
    : Go (heap E C X) (builder_ref E + error) :=
  l ← on_outside (Local.NewPodmanLocalImageBuilder flags opts);
  match l with
  | inr e => mret (inr e)
  | inl l => b ← alloc_local l; mret (inl b)
  end.

Definition new_remote (flags : option FlagSet) (name : string) : Go (heap E C X) (builder_ref E + error) :=
  r ← on_outside (Remote.NewPodmanRemoteImageBuilder flags name);
  match r with
  | inr e => mret (inr e)
  | inl (r, s) => b ← alloc_remote r s; mret (inl b)
  end.

#[export] Instance podman_env : FarmEnv (builder_ref E) (heap E C X) := {
  ReadCustomConfig := on_outside config_ReadCustomConfig;
  NewPodmanRemoteImageBuilder := new_remote;
  NewPodmanLocalImageBuilder := new_local
}.

(** ** Reachable heaps *)

(** A call of a method or of a constructor, or a change of the outside
    world. *)
Inductive step (h : heap E C X) : heap E C X → Prop :=
  | step_outside x : step h (mk_heap (h_locals h) (h_remotes h) x)
  | step_Status b h' : (Types.Status b h).2 = h' → step h h'
  | step_Info b o h' : (GetInfo b o h).2 = h' → step h h'
  | step_NativePlatforms b o h' : (Types.NativePlatforms b o h).2 = h' → step h h'
  | step_EmulatedPlatforms b o h' : (Types.EmulatedPlatforms b o h).2 = h' → step h h'
  | step_Build b reference cf o h' : (Types.Build b reference cf o h).2 = h' → step h h'
  | step_PullToFile b o h' : (PullToFile b o h).2 = h' → step h h'
  | step_PullToLocal b o h' : (PullToLocal b o h).2 = h' → step h h'
  | step_RemoveImage b o h' : (RemoveImage b o h).2 = h' → step h h'
  | step_PruneImages b o h' : (Types.PruneImages b o h).2 = h' → step h h'
  | step_Done b h' : (Types.Done b h).2 = h' → step h h'
  | step_new_local flags opts h' : (new_local flags opts h).2 = h' → step h h'
  | step_new_remote flags name h' : (new_remote flags name h).2 = h' → step h h'.

(** What a builder has fetched, if it has. *)
Definition cache_of (h : heap E C X) (b : builder_ref E) : option platform_cache :=
  match b with
  | LocalRef p _ => h_locals h !! p
  | RemoteRef p _ => r_cache <$> h_remotes h !! p
  end.

Definition cached (h : heap E C X) (b : builder_ref E) (i : platform_info) : Prop :=
  cache_of h b = Some (mk_cache true i).

(** The answers of a builder which has fetched [i]. *)
Definition info_answer (b : builder_ref E) (i : platform_info) : Info * option error :=
  (mk_Info (nativePlatforms i)
     (match b with LocalRef _ _ => emulatedPlatforms i | RemoteRef _ _ => [] end),
   platformsErr i).

(** ** What has been fetched stays *)

Implicit Types h : heap E C X.

Lemma on_outside_cached {A} (m : Go X A) h b i : cached h b i → cached (on_outside m h).2 b i.
Proof. unfold on_outside. by destruct (m (h_outside h)). Qed.

Lemma on_local_cached {A} (m : Go (platform_cache * X) A) p h b i :
  keeps id m → cached h b i → cached (on_local p m h).2 b i.
Proof.
  intros Hm Hb. unfold on_local. destruct (h_locals h !! p) as [c|] eqn:Hp; [|done].
  specialize (Hm c (h_outside h)). destruct (m (c, h_outside h)) as [r [c' x']]. simpl in Hm.
  destruct b as [q l|q r']; [|done]. unfold cached, cache_of in *. cbn [snd h_locals].
  destruct (decide (p = q)) as [->|Hne]; [|by rewrite list_lookup_insert_ne].
  rewrite Hp in Hb. injection Hb as ->. rewrite Hm by done.
  apply list_lookup_insert_eq. by eapply lookup_lt_Some.
Qed.

Lemma on_remote_cached {A} (m : Go (remote_state E C * X) A) p h b i :
  keeps r_cache m → cached h b i → cached (on_remote p m h).2 b i.
Proof.
  intros Hm Hb. unfold on_remote. destruct (h_remotes h !! p) as [s|] eqn:Hp; [|done].
  specialize (Hm s (h_outside h)). destruct (m (s, h_outside h)) as [r [s' x']]. simpl in Hm.
  destruct b as [q l|q r']; [done|]. unfold cached, cache_of in *. cbn [snd h_remotes].
  destruct (decide (p = q)) as [->|Hne]; [|by rewrite list_lookup_insert_ne].
  rewrite Hp in Hb. injection Hb as Hb.
  rewrite list_lookup_insert_eq by (by eapply lookup_lt_Some). simpl.
  f_equal. rewrite Hm; [done|by rewrite Hb].
Qed.

Lemma new_local_cached flags opts h b i : cached h b i → cached (new_local flags opts h).2 b i.
Proof.
  intros Hb. unfold new_local, mbind, go_bind.
  pose proof (on_outside_cached (Local.NewPodmanLocalImageBuilder flags opts) h b i Hb) as Hb'.
  destruct (on_outside _ h) as [[[l|e]|msg] h']; [|done..].
  simpl in *. destruct b as [p l'|p r]; [|done]. unfold cached, cache_of in *. simpl.
  by apply lookup_app_l_Some.
Qed.

Lemma new_remote_cached flags name h b i : cached h b i → cached (new_remote flags name h).2 b i.
Proof.
  intros Hb. unfold new_remote, mbind, go_bind.
  pose proof (on_outside_cached (Remote.NewPodmanRemoteImageBuilder flags name) h b i Hb) as Hb'.
  destruct (on_outside _ h) as [[[[r s]|e]|msg] h']; [|done..].
  simpl in *. destruct b as [p l'|p r']; [done|]. unfold cached, cache_of in *. simpl.
  apply fmap_Some in Hb' as (s' & Hs' & Hi). rewrite (lookup_app_l_Some _ _ _ s') by done.
  by rewrite Hi.
Qed.

Hint Resolve on_outside_cached on_local_cached on_remote_cached new_local_cached
  new_remote_cached : keeps.

Lemma step_cached h h' b i : step h h' → cached h b i → cached h' b i.
Proof.
  intros Hs Hb. destruct Hs as [|[]|[]|[]|[]|[]|[]|[]|[]|[]|[]| |]; subst; simpl;
    try (by auto with keeps); by destruct b.
Qed.

Lemma steps_cached h h' b i : rtc step h h' → cached h b i → cached h' b i.
Proof. induction 1; eauto using step_cached. Qed.

(** ** Answers *)

Lemma heap_id_local h p c :
  h_locals h !! p = Some c → mk_heap (<[p := c]> (h_locals h)) (h_remotes h) (h_outside h) = h.
Proof. intros Hp. rewrite list_insert_id by done. by destruct h. Qed.

Lemma heap_id_remote h p s :
  h_remotes h !! p = Some s → mk_heap (h_locals h) (<[p := s]> (h_remotes h)) (h_outside h) = h.
Proof. intros Hp. rewrite list_insert_id by done. by destruct h. Qed.

(** The three methods which only fetch. *)
Definition answers_with (h : heap E C X) (b : builder_ref E) (i : platform_info) : Prop :=
  (∀ o, GetInfo b o h = (Ret (info_answer b i), h)) ∧
  (∀ o, Types.NativePlatforms b o h =
     (Ret (NativePlatforms_ (info_answer b i).1, (info_answer b i).2), h)) ∧
  (∀ o, Types.EmulatedPlatforms b o h =
     (Ret (EmulatedPlatforms_ (info_answer b i).1, (info_answer b i).2), h)).

Lemma cached_answers h b i : cached h b i → answers_with h b i.
Proof.
  unfold cached, cache_of. destruct b as [p l|p r]; simpl; intros Hb.
  - split_and!; intros o; simpl; unfold on_local; rewrite Hb; simpl; by rewrite heap_id_local.
  - apply fmap_Some in Hb as ([conn eng c] & Hp & Hc). simpl in Hc. subst c.
    split_and!; intros o; simpl; unfold on_remote; rewrite Hp; simpl;
      unfold Remote.set_cache; simpl; by rewrite (heap_id_remote _ _ _ Hp).
Qed.

Lemma GetInfo_caches h b o a h' :
  GetInfo b o h = (Ret a, h') → ∃ i, cached h' b i ∧ a = info_answer b i.
Proof.
  destruct b as [p l|p r]; simpl; unfold on_local, on_remote.
  - destruct (h_locals h !! p) as [c|] eqn:Hp; [|done].
    unfold Local.Info_, mbind, go_bind, platforms_Do.
    destruct (once_done c) eqn:Hc; [|destruct (Local.fetchInfo (h_outside h)) as [[i|msg] x]];
      simpl; intros Ha; simplify_eq; unfold cached, cache_of; cbn [h_locals];
      rewrite list_lookup_insert_eq by (by eapply lookup_lt_Some).
    + exists (info c). destruct c; simpl in *; subst. done.
    + by exists i.
  - destruct (h_remotes h !! p) as [s|] eqn:Hp; [|done].
    unfold Remote.Info_, mbind, go_bind, Remote.platforms_Do, zoom, platforms_Do. simpl.
    destruct (once_done (r_cache s)) eqn:Hc;
      [|destruct (Remote.fetchInfo r (r_connCtx s) (h_outside h)) as [[i|msg] x]];
      simpl; intros Ha; simplify_eq; unfold cached, cache_of; cbn [h_remotes];
      rewrite list_lookup_insert_eq by (by eapply lookup_lt_Some); simpl.
    + exists (info (r_cache s)). destruct (r_cache s); simpl in *; subst. done.
    + by exists i.
Qed.

(** *** Schedules *)

Lemma call_all_cached (ls : list (string * builder_ref E)) h rs h' :
  call_all (λ nb, GetInfo nb.2 mk_InfoOptions) ls h = Some (rs, h') →
  rtc step h h' ∧ Forall2 (λ nb a, ∃ i, cached h' nb.2 i ∧ a = info_answer nb.2 i) ls rs.
Proof.
  revert h rs. induction ls as [|nb ls IH]; intros h rs Hc; cbn [call_all] in Hc.
  { injection Hc as <- <-. split; constructor. }
  destruct (GetInfo nb.2 mk_InfoOptions h) as [[a|msg] h1] eqn:Hi; [|done].
  destruct (call_all _ ls h1) as [[rs1 h2]|] eqn:Hr; [|done]. injection Hc as <- <-.
  destruct (IH h1 rs1 Hr) as [Hsteps Hall]. split.
  - eapply rtc_l; [|done]. apply (step_Info _ nb.2 mk_InfoOptions). by rewrite Hi.
  - constructor; [|done]. apply GetInfo_caches in Hi as (i & Hb & ->).
    exists i. split; [|done]. by eapply steps_cached.
Qed.

(** The answer of a builder which has answered. *)
Definition kept_answer h (nb : string * builder_ref E) : Info * option error :=
  match cache_of h nb.2 with
  | Some c => info_answer nb.2 (info c)
  | None => (mk_Info [] [], None)
  end.

Lemma kept_answers h h1 (ls : list (string * builder_ref E)) rs h2 :
  call_all (λ nb, GetInfo nb.2 mk_InfoOptions) ls h = Some (rs, h1) → rtc step h1 h2 →
  rs = kept_answer h2 <$> ls ∧
  Farm.answers (eq h2) (λ nb : string * builder_ref E, GetInfo nb.2 mk_InfoOptions)
    (kept_answer h2) ls.
Proof.
  intros Hc Hsteps. apply call_all_cached in Hc as [_ Hall].
  assert (Forall2 (λ nb a, cached h2 nb.2 (info (default zero_cache (cache_of h2 nb.2))) ∧
    a = kept_answer h2 nb) ls rs) as Hall2.
  { eapply Forall2_impl; [exact Hall|]. intros nb a (i & Hb & ->).
    apply (steps_cached _ h2) in Hb; [|done]. unfold kept_answer. unfold cached in *.
    by rewrite Hb. }
  clear Hall. split.
  - induction Hall2 as [|nb a ls rs [_ ->] _ IH]; [done|]. by rewrite IH at 1.
  - intros nb h3 Hin <-. exists h2. split; [done|].
    apply list_elem_of_lookup in Hin as [k Hk].
    destruct (Forall2_lookup_l _ _ _ _ _ Hall2 Hk) as (a & _ & Hb & _).
    destruct (cached_answers _ _ _ Hb) as [-> _]. unfold kept_answer. unfold cached in Hb.
    rewrite Hb. done.
Qed.

Lemma successes_map {L A} (answer : L → A * option error) ls :
  successes ls (answer <$> ls) =
  omap (λ l, match (answer l).2 with None => Some (l, (answer l).1) | Some _ => None end) ls.
Proof.
  unfold successes. induction ls as [|l ls IH]; csimpl; [done|]. rewrite IH.
  by destruct (answer l) as [a [e|]].
Qed.

Lemma failures_perm {A} (rs1 rs2 : list (A * option error)) :
  rs1 ≡ₚ rs2 → failures rs1 ≡ₚ failures rs2.
Proof. intros Hp. unfold failures. by rewrite Hp. Qed.
End Objects.

(** C10: What a podman builder, local or remote, has answered once when asked
    for its platforms it answers for good, errors included: whatever calls of
    the methods of any builders, whatever constructions of others and
    changes outside come in between, it gives the same answer from all three
    methods, without asking anybody again. *)
Theorem answers_are_kept `{!RangeOracle, !Libimage, !Podman E C X, !Host X}
    (b : builder_ref E) o (h : heap E C X) a h1 h2
    (Hinfo : GetInfo b o h = (Ret a, h1)) (Hsteps : rtc step h1 h2) :
  ∃ i, a = info_answer b i ∧ answers_with h2 b i.
Proof.
  apply GetInfo_caches in Hinfo as (i & Hb & ->). exists i. split; [done|].
  apply cached_answers. by eapply steps_cached.
Qed.

(** C16: A farm of podman builders which has been able to schedule some
    platforms can schedule them again at any later time, whatever was done
    with the builders in between and whatever the interleaving of either
    run; and doing so changes nothing. *)
Theorem Schedule_again `{!RangeOracle, !Scheduler, !Libimage, !Podman E C X, !Host X}
    (f : Farm (builder_ref E)) platforms (h : heap E C X) s h1 h2
    (Hne : platforms ≠ []) (Hfirst : Farm.Schedule f platforms h = (Ret (s, None), h1))
    (Hsteps : rtc step h1 h2) :
  ∃ s', Farm.Schedule f platforms h2 = (Ret (s', None), h2) ∧
    ∀ p, is_Some (platformBuilders s' !! p) ↔ is_Some (platformBuilders s !! p).
Proof.
  unfold Farm.Schedule in *. rewrite decide_False in * by (by destruct platforms).
  set (call := λ nb : string * builder_ref E, GetInfo nb.2 mk_InfoOptions).
  destruct (Farm.schedule_platforms_spec f platforms h)
    as [(ls & rs & w & r & [Hls Hc] & Hrun & Hsch)|(msg & w & Hrun & _)]; [|congruence].
  rewrite Hrun in Hfirst. injection Hfirst as -> ->.
  destruct (kept_answers h h1 ls rs h2 Hc Hsteps) as [-> Hans].
  assert (Hans' : Farm.answers (eq h2) call (kept_answer h2) (map_to_list (builders f))).
  { intros nb w Hin. apply Hans. by rewrite Hls. }
  inversion Hsch as [|m Hf Hcan [Hdom _]|]; subst.
  destruct (Farm.schedule_platforms_spec f platforms h2)
    as [(ls2 & rs2 & w2 & r2 & Hans2 & Hrun2 & Hsch2)|(msg & w2 & _ & Hp)];
    [|by destruct (Farm.not_crashed _ call _ _ h2 Hans' eq_refl)].
  pose proof Hans2 as [Hls2 _].
  apply (Farm.answered_steady _ call _ _ _ _ _ _ Hans' eq_refl) in Hans2 as [-> <-].
  assert (Hperm : ls ≡ₚ ls2) by (by rewrite Hls, Hls2).
  assert (Hf2 : failures (kept_answer h2 <$> ls2) = []).
  { apply Permutation_nil_r. rewrite <-Hf. apply failures_perm. by rewrite Hperm. }
  assert (Hsucc : successes ls (kept_answer h2 <$> ls) ≡ₚ successes ls2 (kept_answer h2 <$> ls2)).
  { rewrite !successes_map. by rewrite Hperm. }
  rewrite Hrun2. inversion Hsch2 as [es Hf3|m2 _ _ [Hdom2 _]|l1 p l2 _ Hpl _ Hno]; subst.
  - done.
  - exists (mk_Schedule m2). split; [done|]. intros p. simpl. by rewrite Hdom, Hdom2.
  - destruct Hno. rewrite <-(Farm.can_build_perm _ _ _ Hsucc). apply Hcan. set_solver.
Qed.

(** ** Building and pulling *)

Definition with_Platforms (ps : list Platform) (o : BuildOptions) : BuildOptions :=
  mk_BuildOptions (OutputFormat o) (Out o) (Err o)
    (ForceRemoveIntermediateContainers o) (RemoveIntermediateContainers o)
    (RemoveIntermediateImages o) (PruneImagesOnSuccess o) ps (Pull o) (IIDFile o)
    (ContextDirectory o) (Labels o) (Args o) (ShmSize o) (Ulimit o) (Memory o) (MemorySwap o)
    (CPUShares o) (CPUQuota o) (CPUPeriod o) (CPUSetCPUs o) (CPUSetMems o) (CgroupParent o)
    (NoCache o) (Quiet o) (CacheFrom o) (CacheTo o) (AddHost o) (Target o) (ConfigureNetwork o).

(** The engine of a builder, if it has one. *)
Definition engine_of {E C X} (h : heap E C X) (b : builder_ref E) : option E :=
  match b with
  | LocalRef _ l => Some (l_engine l)
  | RemoteRef p _ => h_remotes h !! p ≫= r_engine
  end.

(** C17: [Build] of a podman builder takes no notice of the platforms in the
    options; a builder which has fetched its own platform has the engine
    build for that one, even when the farm assigned it another one because it
    has an emulator for it. *)
Theorem Build_ignores_platforms `{!RangeOracle, !Libimage, !Podman E C X, !Host X}
    (b : builder_ref E) reference cf o (h : heap E C X) i
    (Hb : cached h b i) (Hok : platformsErr i = None) :
  (∀ ps, Types.Build b reference cf (with_Platforms ps o) h = Types.Build b reference cf o h) ∧
  (engine_of h b = None ∨
   ∃ e theseOptions, engine_of h b = Some e ∧
     p_Platforms theseOptions = [mk_Platform (os i) (arch i) (variant i)] ∧
     h_outside (Types.Build b reference cf o h).2 =
       (engine_Build e cf theseOptions (h_outside h)).2).
Proof.
  unfold cached, cache_of in Hb.
  set (opts := podmanBuildOptionsFromBuildOptions o (os i) (arch i) (variant i)).
  destruct b as [p l|p r].
  - split; [done|]. right. exists (l_engine l), opts. do 2 (split; [done|]).
    simpl. unfold on_local. rewrite Hb. unfold Local.Build, mbind, go_bind, platforms_Do, the_info.
    simpl. rewrite Hok. unfold outside. simpl. fold opts.
    destruct (engine_Build _ _ _ _) as [[[[report|] [err|]]|msg] x']; done.
  - split; [done|]. apply fmap_Some in Hb as ([conn [e|] c] & Hp & Hc); simpl in Hc; subst c.
    2:{ left. simpl. by rewrite Hp. }
    right. exists e, opts. split; [by simpl; rewrite Hp|]. split; [done|].
    simpl. unfold on_remote. rewrite Hp.
    unfold Remote.Build, mbind, go_bind, Remote.the_info, Remote.the_engine.
    simpl. unfold outside. simpl. fold opts.
    destruct (engine_Build _ _ _ _) as [[[[report|] [err|]]|msg] x']; done.
Qed.

(** *** Temporary files *)

Section Pulling.
Context `{!RangeOracle} `{!Libimage} {E C X : Type} `{P : !Podman E C X} `{O : !Host X}.
Context (temp : X → gset string) (laws : temp_laws E C X P O temp).

Lemma quiet_outside {S A} (m : Go X A) : quiet temp m → quiet (λ sx : S * X, temp sx.2) (outside m).
Proof. intros Hm [s x]. unfold outside. simpl. specialize (Hm x). by destruct (m x). Qed.

Lemma local_PullToLocal_tidy (l : podmanLocal E) o : tidy temp (Local.PullToLocal (X := X) l o).
Proof.
  unfold Local.PullToLocal. apply tidy_bind.
  { destruct (ptl_Destination o); intros x; apply laws. }
  intros [br [e|]]; [apply tidy_ret|]. apply tidy_bind; [apply quiet_dereference|].
  intros [|]; [apply tidy_ret|]. apply tidy_temporary; [apply laws..|].
  intros name. unfold Local.save_and_load. apply tidy_bind; [intros x; apply laws|].
  intros [e|]; [apply tidy_ret|]. apply tidy_bind.
  { destruct (ptl_Destination o); intros x; apply laws. }
  intros [e|]; apply tidy_ret.
Qed.

Lemma the_engine_quiet :
  quiet (λ sx : remote_state E C * X, temp sx.2) Remote.the_engine.
Proof. intros [s x]. unfold Remote.the_engine. simpl. by destruct (r_engine s). Qed.

Lemma remote_PullToLocal_tidy (r : podmanRemote) o :
  tidy (λ sx : remote_state E C * X, temp sx.2) (Remote.PullToLocal r o).
Proof.
  unfold Remote.PullToLocal.
  apply (tidy_temporary _ (outside TempFile) (λ name sx, (sx.1, os_Remove name sx.2))
    (λ e, (EmptyString, Some e))).
  - intros [s x] [s' x'] name. unfold outside. simpl.
    destruct (TempFile x) as [r' x1] eqn:Ht. intros [= -> -> ->]. by apply laws.
  - intros [s x] [s' x'] r'. unfold outside. simpl.
    destruct (TempFile x) as [r1 x1] eqn:Ht. intros [= -> -> ->]. by apply laws.
  - intros [s x] name. apply laws.
  - intros name. unfold Remote.save_and_load. apply tidy_bind; [apply the_engine_quiet|].
    intros e. apply tidy_bind; [apply quiet_outside; intros x; apply laws|].
    intros [err|]; [apply tidy_ret|]. destruct (ptl_Destination o); [|apply tidy_ret].
    apply tidy_bind; [apply quiet_outside; intros x; apply laws|].
    intros [err|]; apply tidy_ret.
Qed.
End Pulling.

(** C36: Pulling an image into local storage leaves no temporary file behind,
    whichever builder it is pulled from and however the call ends: in
    success, in any error, or in a panic of its own. *)
Theorem PullToLocal_leaves_no_files `{!RangeOracle, !Libimage, !Podman E C X, !Host X}
    (temp : X → gset string) (b : builder_ref E) o (h : heap E C X)
    (Hlaws : temp_laws E C X _ _ temp) (Halive : killed (PullToLocal b o h).1 = false) :
  temp (h_outside (PullToLocal b o h).2) = temp (h_outside h).
Proof.
  destruct b as [p l|p r]; simpl in *.
  - unfold on_outside in *. pose proof (local_PullToLocal_tidy temp Hlaws l o (h_outside h)) as Hq.
    destruct (Local.PullToLocal l o (h_outside h)). by apply Hq.
  - unfold on_remote in *. destruct (h_remotes h !! p) as [s|]; [|done].
    pose proof (remote_PullToLocal_tidy temp Hlaws r o (s, h_outside h)) as Hq.
    destruct (Remote.PullToLocal r o (s, h_outside h)) as [a [s' x']]. by apply Hq.
Qed.

(** ** Witnesses *)

Definition toy_local : podmanLocal nat :=
  mk_podmanLocal (NewFlagSet "buildfarm") toy_config zero_StoreOptions 0.
Definition toy_remote : podmanRemote :=
  mk_podmanRemote "east" (NewFlagSet "buildfarm") toy_config "ssh://east" EmptyString false.

(** A local and a remote builder which have not been asked anything. *)
Definition toy_heap : heap nat nat toy :=
  mk_heap [zero_cache] [mk_remote_state (Some 0) (Some 0) zero_cache] toy_start.
Definition toy_farm : Farm (builder_ref nat) :=
  mk_Farm EmptyString (NewFlagSet "buildfarm") None
    {["" := LocalRef 0 toy_local; "east" := RemoteRef 0 toy_remote]}.

(** The local builder emulates arm64. *)
Definition toy_platforms : list string := ["linux/arm64"; "linux/s390x"].
Definition toy_schedule : Schedule_t :=
  mk_Schedule {["linux/arm64" := ""; "linux/s390x" := "east"]}.

(** The heap after the first time its builders are asked. *)
Definition toy_asked : heap nat nat toy :=
  (Farm.Schedule toy_farm toy_platforms toy_heap).2.

(** ... and after one of them is asked to build. *)
Definition toy_built : heap nat nat toy :=
  (Types.Build (LocalRef 0 toy_local) EmptyString []
    (with_Platforms [mk_Platform "linux" "arm64" EmptyString]
      (mk_BuildOptions EmptyString None None false false false false [] false EmptyString "." []
        None EmptyString [] 0 0 0 0 0 EmptyString EmptyString EmptyString false false [] [] []
        EmptyString None)) toy_asked).2.

Definition toy_info : platform_info :=
  mk_platform_info None "linux" "amd64" EmptyString ["linux/amd64"] ["linux/arm64"].

Lemma toy_cached : cached toy_asked (LocalRef 0 toy_local) toy_info.
Proof. vm_compute. reflexivity. Qed.

Lemma toy_steps : rtc step toy_asked toy_built.
Proof. apply rtc_once. by eapply step_Build. Qed.

Lemma toy_scheduled :
  Farm.Schedule toy_farm toy_platforms toy_heap = (Ret (toy_schedule, None), toy_asked).
Proof.
  assert ((Farm.Schedule toy_farm toy_platforms toy_heap).1 = Ret (toy_schedule, None)) as Hs
    by (vm_compute; reflexivity).
  unfold toy_asked. destruct (Farm.Schedule toy_farm toy_platforms toy_heap) as [r h].
  simpl in *. by subst.
Qed.

#[local] Opaque toy_asked toy_built.

Lemma answers_are_kept_witness :
  rtc step toy_asked toy_built ∧
  ∃ i, (mk_Info ["linux/amd64"] ["linux/arm64"], None) = info_answer (LocalRef 0 toy_local) i ∧
    answers_with toy_built (LocalRef 0 toy_local) i.
Proof.
  split; [exact toy_steps|].
  apply (answers_are_kept (LocalRef 0 toy_local) mk_InfoOptions toy_asked _ toy_asked toy_built);
    [|exact toy_steps].
  apply injective_projections; vm_compute; reflexivity.
Defined.

Lemma Schedule_again_witness :
  toy_platforms ≠ [] ∧
  Farm.Schedule toy_farm toy_platforms toy_heap = (Ret (toy_schedule, None), toy_asked) ∧
  rtc step toy_asked toy_built ∧
  ∃ s', Farm.Schedule toy_farm toy_platforms toy_built = (Ret (s', None), toy_built) ∧
    ∀ p, is_Some (platformBuilders s' !! p) ↔ is_Some (platformBuilders toy_schedule !! p).
Proof.
  split; [done|]. split; [exact toy_scheduled|]. split; [exact toy_steps|].
  exact (Schedule_again toy_farm toy_platforms toy_heap toy_schedule toy_asked toy_built
    ltac:(done) toy_scheduled toy_steps).
Defined.

(** The farm has assigned arm64 to the local builder, which is asked for
    arm64 and builds for amd64. *)
Lemma Build_ignores_platforms_witness :
  cached toy_asked (LocalRef 0 toy_local) toy_info ∧ platformsErr toy_info = None ∧
  platformBuilders toy_schedule !! "linux/arm64" = Some "" ∧
  t_asked (h_outside toy_built) = [[mk_Platform "linux" "amd64" EmptyString]] ∧
  ∀ o ps, Types.Build (LocalRef 0 toy_local) EmptyString [] (with_Platforms ps o) toy_asked =
    Types.Build (LocalRef 0 toy_local) EmptyString [] o toy_asked.
Proof.
  split; [exact toy_cached|]. split; [reflexivity|]. split; [vm_compute; reflexivity|].
  split; [vm_compute; reflexivity|]. intros o ps.
  exact (proj1 (Build_ignores_platforms (LocalRef 0 toy_local) EmptyString [] o toy_asked
    toy_info toy_cached eq_refl) ps).
Defined.

Lemma PullToLocal_leaves_no_files_witness :
  temp_laws nat nat toy _ _ t_temp ∧
  t_temp (h_outside (PullToLocal (RemoteRef 0 toy_remote)
    (mk_PullToLocalOptions "id" "oci-archive" (Some 1)) toy_heap).2) = ∅.
Proof.
  split; [exact toy_temp_laws|].
  exact (PullToLocal_leaves_no_files t_temp (RemoteRef 0 toy_remote)
    (mk_PullToLocalOptions "id" "oci-archive" (Some 1)) toy_heap toy_temp_laws eq_refl).
Defined.
