(* ===== verification/FarmBuild.v ===== *)
(** * Building on a farm

    Model of [Farm.Build] in [src/buildfarm.go]: the jobs made from a
    schedule, the choice of the list builder, the goroutines which build and
    those which copy the builders' output line by line, and the assembly of
    the results. *)

From S2P Require Import Prelude GoStrings MultiError Group Types Engine Static Farm.

(** The two list builders, as [Farm.Build] uses them. *)
Class ListBuilders (LB B W : Type) := {
  NewFileListBuilder : string → ListBuilderOptions → Go W (LB + error);
  NewPodmanLocalListBuilder :
    string → FlagSet → option StoreOptions → ListBuilderOptions → Go W (LB + error);
  list_Build : LB → gmap BuildReport B → Go W (string * option error)
}.

(** ** Output of the builders *)

Definition str_concat (l : list string) : string := foldr str_app EmptyString l.

(** The writer a goroutine writes to. *)
Definition out_writer (options : BuildOptions) : Writer := default StdoutWriter (Out options).
Definition err_writer (options : BuildOptions) : Writer := default StderrWriter (Err options).

(** The text of one [Fprintf]. *)
Definition prefix_line (platform builder line : string) : string :=
  str_concat ["["; platform; "@"; builder; "] "; line; String newline EmptyString].

(** The loop of the goroutines: the calls of [Fprintf], when [data] is what is
    left of what the builder writes to its end of the pipe before closing it. *)
Fixpoint copy_lines (fuel : nat) (writer : Writer) (platform builder data : string)
    : list (Writer * string) :=
  match fuel with
  | O => []
  | S fuel =>
      match ReadString newline data with
      | (_, None) => []
      | (line, Some data) =>
          let line := TrimSuffix line (String newline EmptyString) in
          (writer, prefix_line platform builder line) :: copy_lines fuel writer platform builder data
      end
  end.

(** The two goroutines, for what a builder writes to [outWriter] and to
    [errWriter].  Every turn of the loop reads a byte at least. *)
Definition copy_out (options : BuildOptions) (platform builder data : string)
    : list (Writer * string) :=
  copy_lines (S (String.length data)) (out_writer options) platform builder data.
Definition copy_err (options : BuildOptions) (platform builder data : string)
    : list (Writer * string) :=
  copy_lines (S (String.length data)) (err_writer options) platform builder data.

(** ** Options *)

Definition with_OutputFormat (format : string) (o : BuildOptions) : BuildOptions :=
  mk_BuildOptions format (Out o) (Err o)
    (ForceRemoveIntermediateContainers o) (RemoveIntermediateContainers o)
    (RemoveIntermediateImages o) (PruneImagesOnSuccess o) (Platforms o) (Pull o) (IIDFile o)
    (ContextDirectory o) (Labels o) (Args o) (ShmSize o) (Ulimit o) (Memory o) (MemorySwap o)
    (CPUShares o) (CPUQuota o) (CPUPeriod o) (CPUSetCPUs o) (CPUSetMems o) (CgroupParent o)
    (NoCache o) (Quiet o) (CacheFrom o) (CacheTo o) (AddHost o) (Target o) (ConfigureNetwork o).

(** The switch on the output format: the options to go on with, or the
    error. *)
Definition check_format (o : BuildOptions) : BuildOptions + error :=
  if decide (OutputFormat o = EmptyString ∨ OutputFormat o = OCIv1ImageManifest)
  then inl (with_OutputFormat OCIv1ImageManifest o)
  else if decide (OutputFormat o = Dockerv2ImageManifest) then inl o
  else inr (Errorf "unknown output format %q requested" [FStr (OutputFormat o)] None).

Definition list_options (o : BuildOptions) : ListBuilderOptions :=
  mk_ListBuilderOptions (ForceRemoveIntermediateContainers o) (RemoveIntermediateContainers o)
    (RemoveIntermediateImages o) (PruneImagesOnSuccess o) (IIDFile o).

(** [theseOptions] of the goroutine for [platform] and [builder]. *)
Definition these_options (o : BuildOptions) (platform builder : string) (os arch variant : string)
    : BuildOptions :=
  mk_BuildOptions (OutputFormat o)
    (Some (PipeWriter "out" platform builder)) (Some (PipeWriter "err" platform builder))
    (ForceRemoveIntermediateContainers o) (RemoveIntermediateContainers o)
    (RemoveIntermediateImages o) (PruneImagesOnSuccess o)
    [mk_Platform os arch variant] (Pull o) EmptyString
    (ContextDirectory o) (Labels o) (Args o) (ShmSize o) (Ulimit o) (Memory o) (MemorySwap o)
    (CPUShares o) (CPUQuota o) (CPUPeriod o) (CPUSetCPUs o) (CPUSetMems o) (CgroupParent o)
    (NoCache o) (Quiet o) (CacheFrom o) (CacheTo o) (AddHost o) (Target o) (ConfigureNetwork o).

(** ** Jobs *)

Record job (B : Type) := mk_job {
  j_platform : string;
  j_os : string;
  j_arch : string;
  j_variant : string;
  j_builder : B
}.
Arguments mk_job {B}.
Arguments j_platform {B}.
Arguments j_os {B}.
Arguments j_arch {B}.
Arguments j_variant {B}.
Arguments j_builder {B}.

Record buildResult (B : Type) := mk_buildResult { report : BuildReport; result_builder : B }.
Arguments mk_buildResult {B}.
Arguments report {B}.
Arguments result_builder {B}.

(** The parts of a platform: OS, architecture, variant. *)
Definition platform_parts (platform : string) : string * string * string :=
  let p := Split platform "/" in
  (default EmptyString (p !! 0), default EmptyString (p !! 1), default EmptyString (p !! 2)).

Module Build.
Section Operations.
Context `{!RangeOracle} `{!Scheduler} `{!Libimage} {B E LB W : Type}.
Context `{!ImageBuilder B E W} `{!ListBuilders LB B W}.
Implicit Types f : Farm B.

Definition job_of (platform : string) (builder : B) : job B :=
  let '(rawOS, rawArch, rawVariant) := platform_parts platform in
  let '(os, arch, variant) := NormalizePlatform rawOS rawArch rawVariant in
  mk_job platform os arch variant builder.

(** One turn of the loop which stores the jobs, by the builder's name. *)
Definition store_job f (pb : string * string) (jobs : gmap string (job B))
    : outcome (flow (gmap string (job B)) error) :=
  let '(platform, builderName) := pb in
  match builders f !! builderName with
  | None => Ret (Return_ (Errorf "unknown builder %q" [FStr builderName] None))
  | Some builder => Ret (Continue (<[builderName := job_of platform builder]> jobs))
  end.

Definition make_jobs f (schedule : Schedule_t)
    : outcome (flow (gmap string (job B)) error) :=
  for_range (store_job f) (range_map "jobs" (platformBuilders schedule)) ∅.

(** Where the list goes. *)
Definition make_list_builder f (reference : string) (options : BuildOptions)
    : Go W (LB + error) :=
  if HasPrefix reference "dir:" || negb (is_Some_b (storeOptions f))
  then NewFileListBuilder (TrimPrefix reference "dir:") (list_options options)
  else NewPodmanLocalListBuilder reference (flagSet f) (storeOptions f) (list_options options).

(** The call of a goroutine for [platform], [builder] with its job. *)
Definition run_job (options : BuildOptions) (containerFiles : list string)
    (pb : string * string) (j : job B) : Go W (option (buildResult B) * option error) :=
  let '(platform, builder) := pb in
  '(buildReport, err) ←
    Types.Build (j_builder j) EmptyString containerFiles
      (these_options options platform builder (j_os j) (j_arch j) (j_variant j));
  match err with
  | Some e =>
      mret (None, Some (Errorf "building for %q on %q: %w"
                          [FStr (j_platform j); FStr builder] (Some e)))
  | None => mret (Some (mk_buildResult buildReport (j_builder j)), None)
  end.

Definition build_goroutine (jobs : gmap string (job B)) (options : BuildOptions)
    (containerFiles : list string) (pb : string * string)
    : Go W (option (buildResult B) * option error) :=
  match jobs !! pb.2 with
  | None =>
      mret (None, Some (Errorf "unknown connection for %q (shouldn't happen)" [FStr pb.2] None))
  | Some j => run_job options containerFiles pb j
  end.

Definition store_result (pb : string * string) (r : option (buildResult B))
    : list (gmap string (buildResult B) → gmap string (buildResult B)) :=
  match r with Some r => [<[pb.1 := r]>] | None => [] end.

(** Results which share a report share an entry. *)
Definition per_arch (results : gmap string (buildResult B)) : gmap BuildReport B :=
  foldl (λ m '(_, r), <[report r := result_builder r]> m) ∅
    (range_map "buildResults" results).

(** The part of [Build] after the list builder has been made. *)
Definition build_and_assemble (jobs : gmap string (job B)) (lb : LB) (schedule : Schedule_t)
    (containerFiles : list string) (options : BuildOptions) : Go W (option error) :=
  '(buildResults, buildErrors) ←
    run_group (sched_at "Build") ∅
      (goroutines (build_goroutine jobs options containerFiles) (early store_result)
        (range_map "builds" (platformBuilders schedule)));
  match ErrorOrNil buildErrors with
  | Some e => mret (Some (Errorf "building: %w" [] (Some e)))
  | None =>
      '(location, err) ← list_Build lb (per_arch buildResults);
      mret err
  end.

Definition Build f (reference : string) (schedule : Schedule_t) (containerFiles : list string)
    (options : BuildOptions) : Go W (option error) :=
  match check_format options with
  | inr e => mret (Some e)
  | inl options =>
      jobs ← go_lift (make_jobs f schedule);
      match jobs with
      | Return_ e => mret (Some e)
      | Continue jobs =>
          r ← make_list_builder f reference options;
          match r with
          | inr e => mret (Some (Errorf "preparing to build list: %w" [] (Some e)))
          | inl lb => build_and_assemble jobs lb schedule containerFiles options
          end
      end
  end.

(** ** What [Build] computes *)

(** What the goroutine for [(platform, b)] asks builder [b] for, when the
    job stored for [b] is that of platform [owner b]. *)
Definition request f (options : BuildOptions) (containerFiles : list string)
    (owner : string → string) (pb : string * string)
    : Go W (option (buildResult B) * option error) :=
  match builders f !! pb.2 with
  | None => mret (None, None)
  | Some ib =>
      let '(rawOS, rawArch, rawVariant) := platform_parts (owner pb.2) in
      let '(os, arch, variant) := NormalizePlatform rawOS rawArch rawVariant in
      '(report, err) ←
        Types.Build ib EmptyString containerFiles
          (these_options options pb.1 pb.2 os arch variant);
      mret match err with
           | Some e => (None, Some (Errorf "building for %q on %q: %w"
                                      [FStr (owner pb.2); FStr pb.2] (Some e)))
           | None => (Some (mk_buildResult report ib), None)
           end
  end.

(** The reports of the successful builds, with the builder of each. *)
Definition assembled (answers : list ((string * string) * option (buildResult B)))
    (m : gmap BuildReport B) : Prop :=
  (∀ r ib, m !! r = Some ib → ∃ pb, (pb, Some (mk_buildResult r ib)) ∈ answers) ∧
  (∀ pb r ib, (pb, Some (mk_buildResult r ib)) ∈ answers → is_Some (m !! r)).

(** The outcomes of the builds for a schedule, from world [w1]. *)
Inductive build_outcome f (options : BuildOptions) (containerFiles : list string) (lb : LB)
    (schedule : Schedule_t) (owner : string → string) (w1 : W)
    : outcome (option error) * W → Prop :=
  | build_failed ls rs w2 es :
      ls ≡ₚ map_to_list (platformBuilders schedule) →
      call_all (request f options containerFiles owner) ls w1 = Some (rs, w2) →
      failures rs ≠ [] → es ≡ₚ failures rs →
      build_outcome f options containerFiles lb schedule owner w1
        (Ret (Some (Errorf "building: %w" [] (Some (Multi es)))), w2)
  | build_done ls rs w2 m :
      ls ≡ₚ map_to_list (platformBuilders schedule) →
      call_all (request f options containerFiles owner) ls w1 = Some (rs, w2) →
      failures rs = [] → assembled (successes ls rs) m →
      build_outcome f options containerFiles lb schedule owner w1
        (('(_, err) ← list_Build lb m; mret err) w2)
  | build_panicked msg w2 :
      crashed (request f options containerFiles owner)
        (map_to_list (platformBuilders schedule)) w1 →
      build_outcome f options containerFiles lb schedule owner w1 (Panic (Killed msg), w2).

(** The builders a schedule names are builders of the farm. *)
Definition known_builders f (schedule : Schedule_t) : Prop :=
  ∀ p b, platformBuilders schedule !! p = Some b → is_Some (builders f !! b).
End Operations.

Section Facts.
Context `{!RangeOracle} `{!Scheduler} `{!Libimage} {B E LB W : Type}.
Context `{!ImageBuilder B E W} `{!ListBuilders LB B W}.
Implicit Types f : Farm B.

Lemma j_platform_job_of p (ib : B) : j_platform (job_of p ib) = p.
Proof.
  unfold job_of. destruct (platform_parts p) as [[a b] c].
  by destruct (NormalizePlatform a b c) as [[? ?] ?].
Qed.

(** The jobs made from a list of assignments. *)
Definition jobs_from f (l : list (string * string)) (jobs : gmap string (job B)) : Prop :=
  (∀ p b, (p, b) ∈ l → is_Some (jobs !! b)) ∧
  (∀ b j, jobs !! b = Some j →
     ∃ p ib, (p, b) ∈ l ∧ builders f !! b = Some ib ∧ j = job_of p ib).

Lemma store_jobs f l1 l2 (jobs : gmap string (job B)) :
  jobs_from f l1 jobs →
  (∃ jobs', for_range (store_job f) l2 jobs = Ret (Continue jobs') ∧
     jobs_from f (l1 ++ l2) jobs' ∧ ∀ p b, (p, b) ∈ l2 → is_Some (builders f !! b)) ∨
  (∃ p b, (p, b) ∈ l2 ∧ builders f !! b = None ∧
     for_range (store_job f) l2 jobs =
       Ret (Return_ (Errorf "unknown builder %q" [FStr b] None))).
Proof.
  revert l1 jobs. induction l2 as [|[p b] l2 IH]; intros l1 jobs Hj.
  { left. exists jobs. rewrite app_nil_r. split_and!; [done..|]. by intros ?? ?%not_elem_of_nil. }
  cbn [for_range store_job]. destruct (builders f !! b) as [ib|] eqn:Hb.
  2:{ right. exists p, b. by split; [left|]. }
  destruct (IH (l1 ++ [(p, b)]) (<[b := job_of p ib]> jobs))
    as [(jobs' & -> & Hj' & Hkn)|(p' & b' & ? & ? & ->)].
  - destruct Hj as [Hd Hc]. split.
    + intros p' b'. rewrite elem_of_app, list_elem_of_singleton, lookup_insert_is_Some'.
      intros [Hin|[= -> ->]]; [right; by eapply Hd|by left].
    + intros b' j [[<- <-]|[Hne Hl]]%lookup_insert_Some.
      * exists p, ib. set_solver.
      * destruct (Hc _ _ Hl) as (p' & ib' & ? & ? & ?). exists p', ib'. set_solver.
  - left. exists jobs'. rewrite <-(assoc_L (++)) in Hj'. split_and!; [done..|].
    intros p' b' [[= -> ->]|?]%elem_of_cons; [by exists ib|by eapply Hkn].
  - right. exists p', b'. split_and!; [by right|done..].
Qed.

Lemma make_jobs_spec f schedule :
  (∃ jobs, make_jobs f schedule = Ret (Continue jobs) ∧ known_builders f schedule ∧
     (∀ p b, platformBuilders schedule !! p = Some b → is_Some (jobs !! b)) ∧
     (∀ b j, jobs !! b = Some j → ∃ p ib, platformBuilders schedule !! p = Some b ∧
        builders f !! b = Some ib ∧ j = job_of p ib)) ∨
  (∃ p b, platformBuilders schedule !! p = Some b ∧ builders f !! b = None ∧
     make_jobs f schedule = Ret (Return_ (Errorf "unknown builder %q" [FStr b] None))).
Proof.
  unfold make_jobs. destruct (store_jobs f [] (range_map "jobs" (platformBuilders schedule)) ∅)
    as [(jobs & -> & [Hd Hc] & Hk)|(p & b & Hin & Hb & ->)].
  - split; [by intros ?? ?%not_elem_of_nil|]. intros b j. by rewrite lookup_empty.
  - left. exists jobs. setoid_rewrite elem_of_range_map in Hk.
    simpl in Hd, Hc. setoid_rewrite elem_of_range_map in Hd.
    setoid_rewrite elem_of_range_map in Hc. by split_and!.
  - right. exists p, b. by rewrite elem_of_range_map in Hin.
Qed.

(** *** The builds *)

Definition store_all (done : list ((string * string) * option (buildResult B)))
    (m : gmap string (buildResult B)) : gmap string (buildResult B) :=
  foldl (λ m a, run_writes m (store_result a.1 a.2)) m done.

Lemma store_all_lookup done m p r :
  NoDup (done.*1).*1 → (∀ pb x, (pb, x) ∈ done → m !! pb.1 = None) →
  store_all done m !! p = Some r ↔
  m !! p = Some r ∨ ∃ b, ((p, b), Some r) ∈ done.
Proof.
  revert m. unfold store_all.
  induction done as [|[[p' b'] [r'|]] done IH]; intros m Hnd Hm; simpl.
  { split; [by left|]. by intros [?|[? ?%not_elem_of_nil]]. }
  all: csimpl in Hnd; apply NoDup_cons in Hnd as [Hp' Hnd].
  all: rewrite IH; [|done|].
  - unfold run_writes; simpl. destruct (decide (p = p')) as [->|Hne].
    + rewrite lookup_insert_eq. split.
      * intros [[= ->]|(b & Hin)]; [right; exists b'; left|].
        destruct Hp'. apply list_elem_of_fmap. exists (p', b). split; [done|].
        apply list_elem_of_fmap. by exists ((p', b), Some r).
      * intros [Hl|(b & [[= -> ->]|Hin]%elem_of_cons)]; [|by left|by right; exists b].
        specialize (Hm (p', b') (Some r') ltac:(left)). simpl in Hm. congruence.
    + rewrite lookup_insert_ne by done. setoid_rewrite elem_of_cons. naive_solver.
  - unfold run_writes; simpl. intros [p2 b2] x Hin. rewrite lookup_insert_ne; [eapply Hm; by right|].
    simpl. intros ->. apply Hp'. apply list_elem_of_fmap. exists (p2, b2). split; [done|].
    apply list_elem_of_fmap. by exists ((p2, b2), x).
  - unfold run_writes; simpl. setoid_rewrite elem_of_cons. naive_solver.
  - intros pb x Hin. eapply Hm. by right.
Qed.

Lemma per_arch_assembled (done : list ((string * string) * option (buildResult B))) results :
  (∀ p r, results !! p = Some r ↔ ∃ b, ((p, b), Some r) ∈ done) →
  assembled done (per_arch results).
Proof.
  intros Hres. unfold per_arch.
  replace (foldl _ ∅ _) with (foldl (λ m (a : string * buildResult B),
    <[report a.2 := result_builder a.2]> m) (∅ : gmap BuildReport B)
    (range_map "buildResults" results)); swap 1 2.
  { generalize (∅ : gmap BuildReport B).
    induction (range_map "buildResults" results) as [|[p r] l IH]; intros m; [done|]. apply IH. }
  assert (Hin : ∀ p r, (p, r) ∈ range_map "buildResults" results ↔
    ∃ b, ((p, b), Some r) ∈ done) by (intros; by rewrite elem_of_range_map).
  revert Hin. generalize (range_map "buildResults" results). intros l Hin. split.
  - intros r ib Hm. assert (∃ p, (p, mk_buildResult r ib) ∈ l) as [p Hp].
    { clear Hin. enough (∀ m : gmap BuildReport B,
        foldl (λ m (a : string * buildResult B), <[report a.2 := result_builder a.2]> m) m l !! r
          = Some ib → m !! r = Some ib ∨ ∃ p, (p, mk_buildResult r ib) ∈ l) as H'.
      { destruct (H' ∅ Hm) as [Hl|?]; [by rewrite lookup_empty in Hl|done]. }
      clear Hm. induction l as [|[p [r' ib']] l IH]; intros m Hm; simpl in Hm; [by left|].
      apply IH in Hm as [[[-> ->]|[? ?]]%lookup_insert_Some|[p' ?]].
      - right. exists p. by left.
      - by left.
      - right. exists p'. by right. }
    apply Hin in Hp as [b Hb]. by exists (p, b).
  - intros [p b] r ib Hd. assert ((p, mk_buildResult r ib) ∈ l) as Hl by (apply Hin; by exists b).
    clear Hin Hd. revert Hl. generalize (∅ : gmap BuildReport B).
    enough (∀ m : gmap BuildReport B, is_Some (m !! r) ∨ (p, mk_buildResult r ib) ∈ l →
      is_Some (foldl (λ m (a : string * buildResult B), <[report a.2 := result_builder a.2]> m)
        m l !! r)) by eauto.
    induction l as [|[p' [r' ib']] l IH]; intros m Hm; simpl.
    { by destruct Hm as [?|?%not_elem_of_nil]. }
    apply IH. rewrite lookup_insert_is_Some'.
    destruct Hm as [?|[[= -> -> ->]|?]%elem_of_cons]; simpl; tauto.
Qed.

(** What the list builder is given, of the results stored by goroutines for
    the pairs of a schedule. *)
Lemma results_assembled schedule ls (rs : list (option (buildResult B) * option error)) done :
  ls ≡ₚ map_to_list (platformBuilders schedule) → done ≡ₚ successes ls rs →
  assembled done (per_arch (store_all done ∅)).
Proof.
  intros Hls Hdone. apply per_arch_assembled. intros p r.
  rewrite store_all_lookup, lookup_empty; [naive_solver| |by intros; apply lookup_empty].
  rewrite Hdone. eapply sublist_NoDup; [|apply fmap_sublist, successes_sublist].
  rewrite Hls. apply NoDup_fst_map_to_list.
Qed.

Lemma build_goroutine_request f options cf jobs schedule pb w :
  (∀ p b, platformBuilders schedule !! p = Some b → is_Some (jobs !! b)) →
  (∀ b j, jobs !! b = Some j → ∃ p ib, platformBuilders schedule !! p = Some b ∧
     builders f !! b = Some ib ∧ j = job_of p ib) →
  platformBuilders schedule !! pb.1 = Some pb.2 →
  build_goroutine jobs options cf pb w =
  request f options cf (λ b, default EmptyString (j_platform <$> jobs !! b)) pb w.
Proof.
  intros Hd Hc Hpb. unfold build_goroutine, request.
  destruct (Hd _ _ Hpb) as [j Hj]. destruct (Hc _ _ Hj) as (p & ib & _ & Hb & Hjob).
  rewrite Hj, Hb. subst j. destruct pb as [q b].
  replace (default EmptyString (j_platform <$> Some (job_of p ib))) with p
    by (symmetry; apply j_platform_job_of).
  unfold run_job, job_of. cbn [fst snd].
  destruct (platform_parts p) as [[rawOS rawArch] rawVariant].
  destruct (NormalizePlatform rawOS rawArch rawVariant) as [[os arch] variant].
  cbn [j_builder j_os j_arch j_variant j_platform].
  unfold mbind, go_bind. by destruct (Types.Build _ _ _ _ w) as [[[r [e|]]|msg] w'].
Qed.

Lemma build_and_assemble_spec f options cf jobs lb schedule w1 :
  (∀ p b, platformBuilders schedule !! p = Some b → is_Some (jobs !! b)) →
  (∀ b j, jobs !! b = Some j → ∃ p ib, platformBuilders schedule !! p = Some b ∧
     builders f !! b = Some ib ∧ j = job_of p ib) →
  build_outcome f options cf lb schedule
    (λ b, default EmptyString (j_platform <$> jobs !! b)) w1
    (build_and_assemble jobs lb schedule cf options w1).
Proof.
  intros Hd Hc. unfold build_and_assemble.
  set (owner := λ b, default EmptyString _).
  assert (Hreq : ∀ pb w, pb ∈ range_map "builds" (platformBuilders schedule) →
    build_goroutine jobs options cf pb w = request f options cf owner pb w).
  { intros [p b] w. rewrite elem_of_range_map.
    intros Hpb. by apply (build_goroutine_request _ _ _ _ schedule). }
  destruct (run_group_early (build_goroutine jobs options cf) store_result
    (sched_at "Build") ∅ (range_map "builds" (platformBuilders schedule)) w1)
    as [(ls & rs & done & errs & w2 & Hls & Hcall & Hdone & He & Hrun)
       |(msg & w2 & Hrun & Hcrash)].
  2:{ rewrite (go_bind_panic _ _ _ _ _ Hrun). apply build_panicked.
      eapply crashed_perm; [apply range_perm|]. by eapply crashed_ext. }
  rewrite (go_bind_ret _ _ _ _ _ Hrun).
  assert (Hlen := call_all_length _ _ _ _ _ Hcall).
  assert (call_all (request f options cf owner) ls w1 = Some (rs, w2)) as Hcall'.
  { rewrite <-Hcall. symmetry. apply call_all_ext. intros pb w Hin.
    apply Hreq. by rewrite <-Hls. }
  assert (ls ≡ₚ map_to_list (platformBuilders schedule)) as Hls'.
  { rewrite Hls. apply range_perm. }
  destruct (ErrorOrNil errs) as [e|] eqn:Herr.
  { apply ErrorOrNil_Some in Herr as (es & Hes & -> & ->). simpl in He.
    apply (build_failed _ _ _ _ _ _ _ ls rs); [done|done| |done].
    intros Hf. rewrite Hf in He. by apply Permutation_nil_r in He. }
  apply ErrorOrNil_None in Herr. rewrite Herr in He. apply Permutation_nil_l in He.
  apply (build_done _ _ _ _ _ _ _ ls rs); [done..|].
  destruct (results_assembled schedule ls rs done Hls' Hdone) as [Ha1 Ha2].
  split.
  - intros r ib Hm. destruct (Ha1 r ib Hm) as [pb Hpb]. exists pb. by rewrite <-Hdone.
  - intros pb r ib Hin. apply (Ha2 pb r ib). by rewrite Hdone.
Qed.

(** The whole of [Build] once it gets to the builds. *)
Lemma Build_builds f reference schedule cf options o lb w w1 :
  check_format options = inl o → known_builders f schedule →
  make_list_builder f reference o w = (Ret (inl lb), w1) →
  ∃ owner,
    (∀ p b, platformBuilders schedule !! p = Some b →
       platformBuilders schedule !! owner b = Some b) ∧
    build_outcome f o cf lb schedule owner w1 (Build f reference schedule cf options w).
Proof.
  intros Hfmt Hkn Hlb. unfold Build. rewrite Hfmt.
  destruct (make_jobs_spec f schedule) as [(jobs & Hjobs & _ & Hd & Hc)|(p & b & Hp & Hb & _)];
    [|destruct (Hkn _ _ Hp); congruence].
  exists (λ b, default EmptyString (j_platform <$> jobs !! b)). split.
  - intros p b Hp. destruct (Hd _ _ Hp) as [j Hj]. destruct (Hc _ _ Hj) as (q & ib & Hq & _ & ->).
    rewrite Hj. simpl. by rewrite j_platform_job_of.
  - rewrite (go_bind_ret _ _ w (Continue jobs) w) by (unfold go_lift; by rewrite Hjobs).
    cbn beta iota. rewrite (go_bind_ret _ _ _ _ _ Hlb).
    by apply build_and_assemble_spec.
Qed.

(** What is behind a build without error. *)
Lemma Build_succeeded f reference schedule cf options w w' :
  Build f reference schedule cf options w = (Ret None, w') →
  ∃ o lb owner w1 ls rs w2 m location,
    check_format options = inl o ∧ known_builders f schedule ∧
    make_list_builder f reference o w = (Ret (inl lb), w1) ∧
    (∀ p b, platformBuilders schedule !! p = Some b →
       platformBuilders schedule !! owner b = Some b) ∧
    ls ≡ₚ map_to_list (platformBuilders schedule) ∧
    call_all (request f o cf owner) ls w1 = Some (rs, w2) ∧ failures rs = [] ∧
    assembled (successes ls rs) m ∧ list_Build lb m w2 = (Ret (location, None), w').
Proof.
  intros Hok. assert (∃ o lb w1, check_format options = inl o ∧ known_builders f schedule ∧
    make_list_builder f reference o w = (Ret (inl lb), w1)) as (o & lb & w1 & Hfmt & Hkn & Hlb).
  { unfold Build in Hok. destruct (check_format options) as [o|e] eqn:Hfmt; [|done].
    destruct (make_jobs_spec f schedule) as [(jobs & Hj & Hkn & _)|(p & b & _ & _ & Hj)];
      unfold go_lift, mbind at 1, go_bind at 1 in Hok; rewrite Hj in Hok; [|done].
    unfold mbind, go_bind in Hok.
    destruct (make_list_builder f reference o w) as [[[lb|e]|msg] w1] eqn:Hlb; [|done..].
    exists o, lb, w1. by split_and!. }
  destruct (Build_builds f reference schedule cf options o lb w w1 Hfmt Hkn Hlb)
    as (owner & Hown & Hout). rewrite Hok in Hout.
  inversion Hout as [|ls rs w2 m Hls Hc Hf Hm Hlist|]; subst.
  unfold mbind, go_bind in Hlist.
  destruct (list_Build lb m w2) as [[[location [e|]]|msg] w3] eqn:Hl; [done| |done].
  injection Hlist as ->. exists o, lb, owner, w1, ls, rs, w2, m, location. by split_and!.
Qed.

(** C3: [Farm.Build] when each builder is assigned at most one platform,
    whatever the interleaving: every scheduled platform is asked of its
    builder exactly once, with the platform's own parts, normalized, and
    output pipes of its own; if some builds fail all their errors are
    returned and no list is made; otherwise the list builder is given
    exactly the reports, each with the builder which made it, and what it
    returns is what [Build] returns. *)
Theorem Build_each_platform_once f reference schedule cf options o lb w w1
    (Hfmt : check_format options = inl o) (Hkn : known_builders f schedule)
    (Hlb : make_list_builder f reference o w = (Ret (inl lb), w1))
    (Hone : ∀ p1 p2 b, platformBuilders schedule !! p1 = Some b →
      platformBuilders schedule !! p2 = Some b → p1 = p2) :
  ∃ owner, (∀ p b, platformBuilders schedule !! p = Some b → owner b = p) ∧
    build_outcome f o cf lb schedule owner w1 (Build f reference schedule cf options w).
Proof.
  destruct (Build_builds f reference schedule cf options o lb w w1 Hfmt Hkn Hlb)
    as (owner & Hown & Hout).
  exists owner. split; [|done]. intros p b Hp. by eapply Hone; [eapply Hown|].
Qed.

(** C14: The jobs of [Farm.Build] are kept by builder name, so a builder
    which is assigned two platforms has the job of one of its platforms only,
    [owner]: both its goroutines ask it for that one, and no goroutine of the
    build asks anybody for at least one of the two. *)
Theorem Build_shared_builder f reference schedule cf options o lb w w1 p1 p2 b
    (Hfmt : check_format options = inl o) (Hkn : known_builders f schedule)
    (Hlb : make_list_builder f reference o w = (Ret (inl lb), w1))
    (Hne : p1 ≠ p2) (Hp1 : platformBuilders schedule !! p1 = Some b)
    (Hp2 : platformBuilders schedule !! p2 = Some b) :
  ∃ owner,
    (∀ p' b', platformBuilders schedule !! p' = Some b' →
       platformBuilders schedule !! owner b' = Some b') ∧
    (∃ p, (p = p1 ∨ p = p2) ∧
       ∀ p' b', platformBuilders schedule !! p' = Some b' → owner b' ≠ p) ∧
    build_outcome f o cf lb schedule owner w1 (Build f reference schedule cf options w).
Proof.
  destruct (Build_builds f reference schedule cf options o lb w w1 Hfmt Hkn Hlb)
    as (owner & Hown & Hout).
  exists owner. split; [done|]. split; [|done].
  exists (if decide (owner b = p1) then p2 else p1). split; [case_decide; tauto|].
  intros p' b' Hp' Heq. pose proof (Hown p' b' Hp') as Ho. rewrite Heq in Ho.
  case_decide as Hb; assert (b' = b) as -> by congruence; congruence.
Qed.

(** C26: [Farm.Build] builds nothing, and touches nothing, for options with
    an output format it does not know, or for a schedule which names a
    builder the farm does not have; the empty format stands for OCI's. *)
Theorem Build_validates f reference schedule cf options w :
  (∀ o, check_format options = inl o →
     OutputFormat o ∈ [OCIv1ImageManifest; Dockerv2ImageManifest] ∧
     (OutputFormat options = EmptyString → OutputFormat o = OCIv1ImageManifest) ∧
     (OutputFormat options ≠ EmptyString → o = options)) ∧
  match check_format options with
  | inr e =>
      OutputFormat options ∉ [EmptyString; OCIv1ImageManifest; Dockerv2ImageManifest] ∧
      Build f reference schedule cf options w = (Ret (Some e), w)
  | inl o =>
      known_builders f schedule ∨
      ∃ p b, platformBuilders schedule !! p = Some b ∧ builders f !! b = None ∧
        Build f reference schedule cf options w =
          (Ret (Some (Errorf "unknown builder %q" [FStr b] None)), w)
  end.
Proof.
  assert (Hid : ∀ o, OutputFormat o = OCIv1ImageManifest →
    with_OutputFormat OCIv1ImageManifest o = o) by (by intros [] Ho; simpl in Ho; subst).
  split.
  - unfold check_format. intros o.
    case_decide as Hf; [|case_decide as Hf2]; intros [= <-]; simpl.
    + split_and!; [left|done|]. intros ?. destruct Hf; [done|]. by apply Hid.
    + split_and!; [rewrite Hf2; right; left|intros Hf3; rewrite Hf3 in Hf; tauto|done].
  - unfold Build. destruct (check_format options) as [o|e] eqn:Hfmt.
    + destruct (make_jobs_spec f schedule) as [(jobs & _ & Hkn & _)|(p & b & Hp & Hb & Hj)];
        [by left|]. right. exists p, b. split_and!; [done..|].
      unfold go_lift, mbind, go_bind. by rewrite Hj.
    + split; [|done]. unfold check_format in Hfmt. repeat case_decide; simplify_eq.
      set_solver.
Qed.

(** A schedule which [Farm.Schedule] returned, whatever the
    interleaving, names only builders of the farm, so that [Farm.Build]
    does not refuse it for the same farm. *)
Theorem Schedule_gives_known_builders f platforms w s w1
    (Hs : Farm.Schedule f platforms w = (Ret (s, None), w1)) :
  known_builders f s.
Proof.
  assert (∀ ps w2, Farm.schedule_platforms f ps w2 = (Ret (s, None), w1) →
    known_builders f s) as Hgo.
  { intros ps w2 Hps. destruct (Farm.schedule_platforms_spec f ps w2)
      as [(ls & rs & w3 & r & [Hls _] & Hrun & Hsch)|(msg & w3 & Hrun & _)]; [|congruence].
    rewrite Hrun in Hps. injection Hps as -> _. inversion Hsch as [|m _ _ [_ Hch] Hm|]; subst.
    assert (∀ sel p b, (p, b) ∈ Farm.offers sel (successes ls rs) →
      is_Some (builders f !! b)) as Hoff.
    { intros sel p b Hin. apply Farm.elem_of_offers in Hin as (ib & info & Hin & _).
      apply elem_of_successes in Hin as (i & Hi & _). apply list_elem_of_lookup_2 in Hi.
      rewrite Hls, elem_of_map_to_list in Hi. by exists ib. }
    intros p b Hp. destruct (Hch p b Hp) as [?|[_ ?]]; by eapply Hoff. }
  unfold Farm.Schedule in Hs. case_decide; [|by eapply Hgo].
  unfold mbind at 1, go_bind at 1 in Hs.
  destruct (Farm.NativePlatforms f w) as [[[ps [e|]]|msg] w2]; [done| |done].
  by eapply Hgo.
Qed.
End Facts.
(** *** Witnesses *)

#[export] Instance static_libimage : Libimage := λ os arch variant, (os, arch, variant).

#[export] Instance static_lists : ListBuilders () static log := {
  NewFileListBuilder _ _ := mret (inl tt);
  NewPodmanLocalListBuilder _ _ _ _ := mret (inl tt);
  list_Build _ _ := mret ("list", None)
}.

Definition static_options : BuildOptions :=
  mk_BuildOptions EmptyString None None false false false false [] false EmptyString "." []
    None EmptyString [] 0 0 0 0 0 EmptyString EmptyString EmptyString false false [] [] []
    EmptyString None.

Definition checked_options : BuildOptions := with_OutputFormat OCIv1ImageManifest static_options.

Definition one_each : Schedule_t :=
  mk_Schedule {["linux/amd64" := "east"; "linux/arm64" := "west"]}.
Definition both_west : Schedule_t :=
  mk_Schedule {["linux/arm64" := "west"; "linux/s390x" := "west"]}.

Lemma static_known_builders s :
  Forall (λ pb, pb.2 = "east" ∨ pb.2 = "west") (map_to_list (platformBuilders s)) →
  known_builders Farm.static_farm s.
Proof.
  intros Hall p b Hp. apply elem_of_map_to_list in Hp. rewrite Forall_forall in Hall.
  destruct (Hall _ Hp) as [Hb|Hb]; simpl in Hb; subst b; by eexists.
Qed.

Lemma one_each_known : known_builders Farm.static_farm one_each.
Proof. apply static_known_builders. refine (bool_decide_unpack _ _). vm_compute. exact I. Qed.

Lemma both_west_known : known_builders Farm.static_farm both_west.
Proof. apply static_known_builders. refine (bool_decide_unpack _ _). vm_compute. exact I. Qed.

Lemma one_each_once p1 p2 b :
  platformBuilders one_each !! p1 = Some b → platformBuilders one_each !! p2 = Some b → p1 = p2.
Proof.
  unfold one_each. cbn [platformBuilders]. rewrite !lookup_insert_Some, !lookup_singleton_Some.
  intuition congruence.
Qed.

Lemma Build_each_platform_once_witness :
  check_format static_options = inl checked_options ∧
  known_builders Farm.static_farm one_each ∧
  (∃ owner, (∀ p b, platformBuilders one_each !! p = Some b → owner b = p) ∧
     build_outcome Farm.static_farm checked_options [] () one_each owner ([] : log)
       (Build Farm.static_farm "dir:out" one_each [] static_options [])) ∧
  (Build Farm.static_farm "dir:out" one_each [] static_options []).2 =
    [("east", [mk_Platform "linux" "amd64" EmptyString]);
     ("west", [mk_Platform "linux" "arm64" EmptyString])].
Proof.
  split_and!; [reflexivity|exact one_each_known| |vm_compute; reflexivity].
  exact (Build_each_platform_once Farm.static_farm "dir:out" one_each [] static_options
    checked_options () [] [] eq_refl one_each_known eq_refl one_each_once).
Defined.

Lemma Build_shared_builder_witness :
  check_format static_options = inl checked_options ∧
  known_builders Farm.static_farm both_west ∧
  (∃ owner,
     (∀ p' b', platformBuilders both_west !! p' = Some b' →
        platformBuilders both_west !! owner b' = Some b') ∧
     (∃ p, (p = "linux/arm64" ∨ p = "linux/s390x") ∧
        ∀ p' b', platformBuilders both_west !! p' = Some b' → owner b' ≠ p) ∧
     build_outcome Farm.static_farm checked_options [] () both_west owner ([] : log)
       (Build Farm.static_farm "dir:out" both_west [] static_options [])) ∧
  Farm.Schedule Farm.static_farm ["linux/arm64"; "linux/s390x"] ([] : log) =
    (Ret (both_west, None), []) ∧
  (Build Farm.static_farm "dir:out" both_west [] static_options []).2 =
    [("west", [mk_Platform "linux" "arm64" EmptyString]);
     ("west", [mk_Platform "linux" "arm64" EmptyString])].
Proof.
  split_and!; [reflexivity|exact both_west_known| |vm_compute; reflexivity|vm_compute; reflexivity].
  exact (Build_shared_builder Farm.static_farm "dir:out" both_west [] static_options
    checked_options () [] [] "linux/arm64" "linux/s390x" "west" eq_refl both_west_known eq_refl
    ltac:(done) eq_refl eq_refl).
Defined.

Lemma Schedule_gives_known_builders_witness :
  Farm.Schedule Farm.static_farm ["linux/arm64"; "linux/s390x"] ([] : log) =
    (Ret (both_west, None), []) ∧
  known_builders Farm.static_farm both_west.
Proof.
  split; [vm_compute; reflexivity|].
  apply (Schedule_gives_known_builders (W := log) Farm.static_farm
    ["linux/arm64"; "linux/s390x"] [] both_west []).
  vm_compute. reflexivity.
Defined.
End Build.

(** ** Copying output *)

Lemma copy_lines_spec fuel writer platform builder ls rest :
  Forall (λ l, contains_byte newline l = false) ls → contains_byte newline rest = false →
  String.length (str_app (unlines ls) rest) < fuel →
  copy_lines fuel writer platform builder (str_app (unlines ls) rest) =
  (λ l, (writer, prefix_line platform builder l)) <$> ls.
Proof.
  intros Hls Hrest. revert fuel. induction Hls as [|l ls Hl _ IH]; intros [|fuel] Hf; try lia.
  - rewrite string_app_nil_l. cbn [copy_lines]. by rewrite ReadString_EOF.
  - cbn [unlines foldr] in *. change (foldr _ EmptyString ls) with (unlines ls) in *.
    rewrite <-string_app_assoc, string_app_cons in *.
    cbn [copy_lines]. rewrite ReadString_line by done. cbv zeta. rewrite TrimSuffix_app, fmap_cons.
    f_equal. apply IH. rewrite string_length_app in Hf. cbn [String.length] in Hf. lia.
Qed.

(** C35: The goroutines which copy what a builder writes.  Whatever it writes
    consists of complete lines and a rest without a newline; for each complete
    line, in order, one text is written, to the writer of the options or else
    to standard output or error: the platform and the name of the builder in
    brackets, and the line.  The rest is never written.  The loops end. *)
Theorem copy_output_lines options platform builder data :
  ∃ lines rest,
    data = str_app (unlines lines) rest ∧
    Forall (λ l, contains_byte newline l = false) lines ∧ contains_byte newline rest = false ∧
    copy_out options platform builder data =
      (λ l, (match Out options with Some w => w | None => StdoutWriter end,
             str_concat ["["; platform; "@"; builder; "] "; l; String newline EmptyString])) <$> lines ∧
    copy_err options platform builder data =
      (λ l, (match Err options with Some w => w | None => StderrWriter end,
             str_concat ["["; platform; "@"; builder; "] "; l; String newline EmptyString])) <$> lines.
Proof.
  exists (cut_lines data).1, (cut_lines data).2. destruct (cut_lines_no_newline data) as [Hls Hrest].
  split; [apply cut_lines_whole|]. split; [done|]. split; [done|].
  split; unfold copy_out, copy_err; rewrite (cut_lines_whole data) at 2;
    (rewrite copy_lines_spec; [reflexivity|done..|rewrite <-cut_lines_whole; lia]).
Qed.

Example copy_out_example :
  snd <$> copy_out (with_OutputFormat EmptyString Build.static_options) "linux/amd64" "east"
    (str_app "STEP 1" (String newline (str_app "done" (String newline "x")))) =
  [str_app "[linux/amd64@east] STEP 1" (String newline EmptyString);
   str_app "[linux/amd64@east] done" (String newline EmptyString)].
Proof. reflexivity. Qed.
