(* ===== verification/Lists.v ===== *)
(** * List builders

    Model of [src/files.go] and of the list builder of [src/local.go]: they
    pull the images of a build from its builders, concurrently, and assemble
    them into a manifest list, in a directory or in local storage.  What they
    use of containers/image, of libimage and of the operating system is the
    class [ListHost], over the world of the builders. *)

From S2P Require Import Prelude GoStrings MultiError Group Types Engine Builders Static Farm FarmBuild.

Record listFiles := mk_listFiles { directory : string; lf_options : ListBuilderOptions }.

Record listLocal := mk_listLocal {
  listName : string;
  ll_flagSet : FlagSet;
  ll_config : gmap string Destination;
  ll_storeOptions : StoreOptions;
  ll_options : ListBuilderOptions
}.

Inductive list_builder := FilesBuilder (m : listFiles) | LocalBuilder (l : listLocal).

(** [Ref] are parsed image references, [M] manifest lists in memory, [R]
    runtimes of libimage and [L] the manifest lists of a runtime. *)
Class ListHost (Ref M R L E W : Type) := {
  lh_ReadCustomConfig : Go W (gmap string Destination * option error);
  (* files *)
  DefaultPolicyContext : Go W (option error);
  TempDir : Go W (string + error);
  RemoveAll : string → W → W;
  TempFileIn : string → string → Go W (string + error);
  MkdirAll : string → Go W (option error);
  WriteFile : string → string → Go W (option error);
  ParseImageName : string → Ref + error;
  manifests_Create : M;
  manifests_Add : M → Ref → Go W (M + error);
  Serialize : M → string → string + error;
  copy_Image : Ref → Ref → list Ref → string → Go W (option error);
  (* local storage *)
  lh_NewImageEngine : PodmanConfig → Go W (E + error);
  lh_Shutdown : E → W → W;
  RuntimeFromStoreOptions : StoreOptions → Go W (R + error);
  runtime_Shutdown : R → W → W;
  LookupManifestList : R → string → Go W (L + error);
  CreateManifestList : R → string → Go W (L + error);
  list_Inspect : L → Go W (list string + error);
  list_RemoveInstance : L → string → Go W (option error);
  list_Add : L → string → Go W (string + error)
}.

(** The media types of image indexes and of docker's lists. *)
Definition MediaTypeImageIndex : string := "application/vnd.oci.image.index.v1+json".
Definition DockerV2ListMediaType : string :=
  "application/vnd.docker.distribution.manifest.list.v2+json".

(** The two formats, of the list and of the images.  The goroutine of an
    image in docker's format sets both to the same values before it pulls,
    without a lock; all of them have run when [Wait] returns. *)
Definition list_formats {B} (images : list (BuildReport * B)) : string * string :=
  if existsb (λ ib, bool_decide (SaveFormat ib.1 = Dockerv2ImageManifest)) images
  then (DockerV2ListMediaType, Dockerv2ImageManifest)
  else (MediaTypeImageIndex, OCIv1ImageManifest).

(** What an error message shows of a report. *)
Definition fmt_report (r : BuildReport) : fmt_arg := FList [ImageID r; SaveFormat r].

Definition path_of (dir name : string) : string := str_app dir (str_app "/" name).

Section Lists.
Context `{!RangeOracle} `{!Scheduler} {Ref M R L B E W : Type}.
Context `{!ImageBuilder B E W} `{!ListHost Ref M R L E W}.
Implicit Types images : gmap BuildReport B.

Definition range_images (site : string) images : list (BuildReport * B) :=
  range site (map_to_list images).

(** Removing the images from the builders they were pulled from. *)
Definition remove_images (l : list (BuildReport * B)) : Go W (() * option (list error)) :=
  run_group (sched_at "remove") tt
    (goroutines (λ ib, RemoveImage ib.2 (mk_RemoveImageOptions (ImageID ib.1)))
      (λ _ err, Return err) l).

(** ** A list in a directory *)

Definition NewFileListBuilder (directory : string) (options : ListBuilderOptions)
    : Go W (list_builder + error) :=
  mret (inl (FilesBuilder (mk_listFiles directory options))).

(** The loop which creates a file for each image: the files, and the error
    which ended it if one did. *)
Fixpoint temp_files (tempDir : string) (l : list (BuildReport * B))
    : Go W (list ((BuildReport * B) * string) * option error) :=
  match l with
  | [] => mret ([], None)
  | ib :: l =>
      tempFile ← TempFileIn tempDir "archive-*.tar";
      match tempFile with
      | inr e => mret ([], Some e)
      | inl tempFile =>
          '(files, err) ← temp_files tempDir l;
          mret ((ib, tempFile) :: files, err)
      end
  end.

Definition pull_to_file (f : (BuildReport * B) * string) : Go W (option Ref * option error) :=
  let '((image, engine), tempFile) := f in
  let failed := λ e, Errorf "pulling image %q to temporary directory: %w" [fmt_report image] (Some e) in
  '(reference, err) ← PullToFile engine (mk_PullToFileOptions (ImageID image) (SaveFormat image) tempFile);
  match err with
  | Some e => mret (None, Some (failed e))
  | None =>
      match ParseImageName reference with
      | inr e => mret (None, Some (failed e))
      | inl ref => mret (Some ref, None)
      end
  end.

Definition store_ref (f : (BuildReport * B) * string) (ref : option Ref)
    : list (gmap BuildReport Ref → gmap BuildReport Ref) :=
  match ref with Some ref => [<[f.1.1 := ref]>] | None => [] end.

(** The loop over the references. *)
Fixpoint add_refs (mlist : M) (refs : list (BuildReport * Ref)) : Go W (M + error) :=
  match refs with
  | [] => mret (inl mlist)
  | (image, ref) :: refs =>
      r ← manifests_Add mlist ref;
      match r with
      | inr e => mret (inr (Errorf "adding image %q to list: %w" [FStr (ImageID image)] (Some e)))
      | inl mlist => add_refs mlist refs
      end
  end.

(** From the references to the end. *)
Definition write_list (m : listFiles) (tempDir : string) (tempRef output : Ref)
    (formats : string * string) (refs : gmap BuildReport Ref) : Go W (string * option error) :=
  let refs := range "refs" (map_to_list refs) in
  r ← add_refs manifests_Create refs;
  match r with
  | inr e => mret (EmptyString, Some e)
  | inl mlist =>
      match Serialize mlist formats.1 with
      | inr e => mret (EmptyString, Some (Errorf "serializing manifest list: %w" [] (Some e)))
      | inl listBytes =>
          err ← WriteFile (path_of tempDir "manifest.json") listBytes;
          match err with
          | Some e => mret (EmptyString, Some (Errorf "writing temporary manifest list: %w" [] (Some e)))
          | None =>
              err ← copy_Image output tempRef refs.*2 formats.2;
              match err with
              | Some e =>
                  mret (EmptyString,
                    Some (Errorf "copying images to dir:%q: %w" [FStr (directory m)] (Some e)))
              | None =>
                  let done := mret (str_app "dir:" (directory m), None) in
                  if decide (lbo_IIDFile (lf_options m) = EmptyString) then done
                  else
                    err ← WriteFile (lbo_IIDFile (lf_options m)) "sha256:";
                    match err with
                    | Some e => mret (EmptyString, Some e)
                    | None => done
                    end
              end
          end
      end
  end.

(** With the temporary directory there. *)
Definition build_in (m : listFiles) (tempDir : string) images : Go W (string * option error) :=
  let name := str_app "dir:" tempDir in
  match ParseImageName name with
  | inr e =>
      mret (EmptyString, Some (Errorf "parsing temporary image ref %q: %w" [FStr name] (Some e)))
  | inl tempRef =>
      err ← MkdirAll (directory m);
      match err with
      | Some e => mret (EmptyString, Some e)
      | None =>
          let out := str_app "dir:" (directory m) in
          match ParseImageName out with
          | inr e =>
              mret (EmptyString,
                Some (Errorf "parsing output directory ref %q: %w" [FStr out] (Some e)))
          | inl output =>
              '(files, fileError) ← temp_files tempDir (range_images "images" images);
              '(refs, pullErrors) ←
                run_group (sched_at "listFiles") ∅
                  (goroutines pull_to_file (early store_ref) files);
              match fileError with
              | Some e => mret (EmptyString, Some e)
              | None =>
                  match ErrorOrNil pullErrors with
                  | Some e => mret (EmptyString, Some (Errorf "building: %w" [] (Some e)))
                  | None =>
                      rmErrors ←
                        (if lbo_RemoveIntermediateImages (lf_options m)
                         then r ← remove_images (range_images "rm" images); mret r.2
                         else mret None);
                      match ErrorOrNil rmErrors with
                      | Some e =>
                          mret (EmptyString,
                            Some (Errorf "removing intermediate images: %w" [] (Some e)))
                      | None =>
                          write_list m tempDir tempRef output
                            (list_formats (map_to_list images)) refs
                      end
                  end
              end
          end
      end
  end.

Definition files_Build (m : listFiles) images : Go W (string * option error) :=
  err ← DefaultPolicyContext;
  match err with
  | Some e => mret (EmptyString, Some e)
  | None =>
      tempDir ← TempDir;
      match tempDir with
      | inr e => mret (EmptyString, Some e)
      | inl tempDir => defer (RemoveAll tempDir) (build_in m tempDir images)
      end
  end.

(** ** A list in local storage *)

Definition NewPodmanLocalListBuilder (listName : string) (flags : FlagSet)
    (storeOptions : option StoreOptions) (options : ListBuilderOptions)
    : Go W (list_builder + error) :=
  let storeOptions := default zero_StoreOptions storeOptions in
  if decide (lbo_IIDFile options ≠ EmptyString) then
    mret (inr (Errorf "local filesystem doesn't use image IDs, --iidfile not supported" [] None))
  else
    '(custom, err) ← lh_ReadCustomConfig;
    match err with
    | Some e => mret (inr (Errorf "reading custom config: %w" [] (Some e)))
    | None =>
        mret (inl (LocalBuilder (mk_listLocal listName flags custom
                                  (copy_StoreOptions storeOptions) options)))
    end.

Definition pull_to_local (localEngine : E) (ib : BuildReport * B) : Go W (string * option error) :=
  '(ref, err) ← PullToLocal ib.2 (mk_PullToLocalOptions (ImageID ib.1) (SaveFormat ib.1) (Some localEngine));
  match err with
  | Some e =>
      mret (EmptyString,
        Some (Errorf "pulling image %q to local storage: %w" [fmt_report ib.1] (Some e)))
  | None => mret (ref, None)
  end.

Definition store_engine (ib : BuildReport * B) (ref : string) : list (gmap string B → gmap string B) :=
  [<[ref := ib.2]>].

(** The images which have to be removed from where they were built. *)
Definition remote_images (l : list (BuildReport * B)) : list (BuildReport * B) :=
  filter (λ ib, Name ib.2 ≠ LocalImageBuilderName) l.

(** Emptying the list. *)
Fixpoint remove_instances (name : string) (mlist : L) (digests : list string) : Go W (option error) :=
  match digests with
  | [] => mret None
  | d :: digests =>
      err ← list_RemoveInstance mlist d;
      match err with
      | Some e =>
          mret (Some (Errorf "removing instance %q from list %q: %w" [FStr d; FStr name] (Some e)))
      | None => remove_instances name mlist digests
      end
  end.

Fixpoint add_images (mlist : L) (refs : list string) : Go W (option error) :=
  match refs with
  | [] => mret None
  | ref :: refs =>
      r ← list_Add mlist ref;
      match r with
      | inr e => mret (Some (Errorf "adding image %q to list: %w" [FStr ref] (Some e)))
      | inl _ => add_images mlist refs
      end
  end.

(** From the references to the end. *)
Definition fill_list (l : listLocal) (mlist : L) (refs : gmap string B) : Go W (string * option error) :=
  listContents ← list_Inspect mlist;
  match listContents with
  | inr e =>
      mret (EmptyString, Some (Errorf "inspecting list %q: %w" [FStr (listName l)] (Some e)))
  | inl digests =>
      err ← remove_instances (listName l) mlist digests;
      match err with
      | Some e => mret (EmptyString, Some e)
      | None =>
          err ← add_images mlist (range_map "refs" refs).*1;
          match err with
          | Some e => mret (EmptyString, Some e)
          | None => mret (listName l, None)
          end
      end
  end.

Definition pull_and_fill (l : listLocal) (localEngine : E) (mlist : L) images
    : Go W (string * option error) :=
  '(refs, pullErrors) ←
    run_group (sched_at "listLocal") ∅
      (goroutines (pull_to_local localEngine) (early store_engine) (range_images "images" images));
  match ErrorOrNil pullErrors with
  | Some e => mret (EmptyString, Some (Errorf "building: %w" [] (Some e)))
  | None =>
      rmErrors ←
        (if lbo_RemoveIntermediateImages (ll_options l)
         then r ← remove_images (remote_images (range_images "rm" images)); mret r.2
         else mret None);
      match ErrorOrNil rmErrors with
      | Some e =>
          mret (EmptyString, Some (Errorf "removing intermediate images: %w" [] (Some e)))
      | None => fill_list l mlist refs
      end
  end.

Definition with_runtime (l : listLocal) (localEngine : E) (localRuntime : R) images
    : Go W (string * option error) :=
  found ← LookupManifestList localRuntime (listName l);
  mlist ← match found with
          | inl mlist => mret (inl mlist)
          | inr _ => CreateManifestList localRuntime (listName l)
          end;
  match mlist with
  | inr e =>
      mret (EmptyString, Some (Errorf "creating manifest list %q: %w" [FStr (listName l)] (Some e)))
  | inl mlist => pull_and_fill l localEngine mlist images
  end.

Definition local_Build (l : listLocal) images : Go W (string * option error) :=
  localEngine ← lh_NewImageEngine
    (mk_PodmanConfig (ll_flagSet l) ABIMode (ll_config l) EmptyString EmptyString
      (RunRoot (ll_storeOptions l)) (GraphDriverName (ll_storeOptions l))
      (GraphDriverOptions (ll_storeOptions l)));
  match localEngine with
  | inr e => mret (EmptyString, Some (Errorf "initializing local image engine: %w" [] (Some e)))
  | inl localEngine =>
      defer (lh_Shutdown localEngine) (
        localRuntime ← RuntimeFromStoreOptions (ll_storeOptions l);
        match localRuntime with
        | inr e =>
            mret (EmptyString,
              Some (Errorf "initializing local manifest list storage: %w" [] (Some e)))
        | inl localRuntime =>
            defer (runtime_Shutdown localRuntime) (with_runtime l localEngine localRuntime images)
        end)
  end.

#[export] Instance list_builders : ListBuilders list_builder B W := {
  FarmBuild.NewFileListBuilder := NewFileListBuilder;
  FarmBuild.NewPodmanLocalListBuilder := NewPodmanLocalListBuilder;
  list_Build lb images :=
    match lb with
    | FilesBuilder m => files_Build m images
    | LocalBuilder l => local_Build l images
    end
}.
End Lists.

(** ** What the list builders do *)

Section Phases.
Context `{!RangeOracle} `{!Scheduler} {Ref M R L B E W : Type}.
Context `{!ImageBuilder B E W} `{!ListHost Ref M R L E W}.
Implicit Types images : gmap BuildReport B.

Definition remove_call (ib : BuildReport * B) : Go W (option error) :=
  RemoveImage ib.2 (mk_RemoveImageOptions (ImageID ib.1)).

(** What removing the images of [l], if that was asked for, may lead to,
    [finish] being what comes after. *)
Inductive removed (asked : bool) (l : list (BuildReport * B)) (w : W)
    (finish : W → outcome (string * option error) * W)
    : outcome (string * option error) * W → Prop :=
  | not_removed : asked = false → removed asked l w finish (finish w)
  | all_removed ls rs w' :
      asked = true → ls ≡ₚ l → call_all remove_call ls w = Some (rs, w') →
      omap id rs ≫= flatten_one = [] → removed asked l w finish (finish w')
  | removal_failed ls rs w' es :
      asked = true → ls ≡ₚ l → call_all remove_call ls w = Some (rs, w') →
      es ≠ [] → es ≡ₚ (omap id rs ≫= flatten_one) →
      removed asked l w finish
        (Ret (EmptyString, Some (Errorf "removing intermediate images: %w" [] (Some (Multi es)))), w')
  | removal_crashed msg w' :
      asked = true → crashed remove_call l w → removed asked l w finish (Panic (Killed msg), w').

Lemma return_errors (ls : list (BuildReport * B)) (rs : list (option error)) :
  length rs = length ls →
  result_errors (S := ()) (zip_with (λ _ err, Return err) ls rs) = omap id rs ≫= flatten_one.
Proof.
  unfold result_errors. intros Hlen. f_equal. revert rs Hlen.
  induction ls as [|l ls IH]; intros [|r rs] Hlen; csimpl in *; [done..|].
  destruct r; rewrite IH by lia; done.
Qed.

Lemma remove_phase (asked : bool) l w (k : Go W (string * option error)) :
  removed asked l w k
    ((rmErrors ← (if asked then r ← remove_images l; mret r.2 else mret None);
      match ErrorOrNil rmErrors with
      | Some e => mret (EmptyString, Some (Errorf "removing intermediate images: %w" [] (Some e)))
      | None => k
      end) w).
Proof.
  destruct asked; [|by apply not_removed].
  assert (∀ (l : BuildReport * B) (a : option error) m,
    (λ _ err, Return err) l a ≠ Crash (S := ()) m) as Hk by done.
  destruct (run_group_spec remove_call (λ _ err, Return err) Hk (sched_at "remove") tt l w)
    as [(ls & rs & P & errs & w' & Hls & Hc & HP & He & Hrun)|(msg & w' & Hrun & Hcrash)].
  - rewrite return_errors in He by (by eapply call_all_length).
    assert (remove_images l w = (Ret (run_sections tt P, errs), w')) as Hr by exact Hrun.
    unfold mbind, go_bind. rewrite Hr. simpl.
    destruct (ErrorOrNil errs) as [e|] eqn:Herr.
    + apply ErrorOrNil_Some in Herr as (es & Hes & -> & ->). by eapply removal_failed.
    + apply ErrorOrNil_None in Herr. rewrite Herr in He. apply Permutation_nil_l in He.
      by eapply all_removed.
  - assert (remove_images l w = (Panic (Killed msg), w')) as Hr by exact Hrun.
    unfold mbind, go_bind. rewrite Hr. by apply removal_crashed.
Qed.

(** What the local list builder does once it has the list, image by image:
    pull, remove, fill. *)
Inductive local_outcome (l : listLocal) (localEngine : E) (mlist : L) images (w : W)
    : outcome (string * option error) * W → Prop :=
  | pulls_failed ls rs w1 es :
      ls ≡ₚ map_to_list images → call_all (pull_to_local localEngine) ls w = Some (rs, w1) →
      failures rs ≠ [] → es ≡ₚ failures rs →
      local_outcome l localEngine mlist images w
        (Ret (EmptyString, Some (Errorf "building: %w" [] (Some (Multi es)))), w1)
  | pulls_done ls rs w1 (refs : gmap string B) r :
      ls ≡ₚ map_to_list images → call_all (pull_to_local localEngine) ls w = Some (rs, w1) →
      failures rs = [] →
      (∀ ref, is_Some (refs !! ref) ↔ ∃ ib, (ib, ref) ∈ successes ls rs) →
      removed (lbo_RemoveIntermediateImages (ll_options l))
        (remote_images (range_images "rm" images)) w1 (fill_list l mlist refs) r →
      local_outcome l localEngine mlist images w r
  | pulls_crashed msg w' :
      crashed (pull_to_local localEngine) (map_to_list images) w →
      local_outcome l localEngine mlist images w (Panic (Killed msg), w').

Lemma foldl_store_engine (done : list ((BuildReport * B) * string)) (m : gmap string B) ref :
  is_Some (foldl (λ m a, run_writes m (store_engine a.1 a.2)) m done !! ref) ↔
  is_Some (m !! ref) ∨ ∃ ib, (ib, ref) ∈ done.
Proof.
  revert m. induction done as [|[ib r] done IH]; intros m; simpl.
  { split; [by left|]. by intros [?|[? ?%not_elem_of_nil]]. }
  rewrite IH. unfold run_writes, store_engine. simpl. rewrite lookup_insert_is_Some'.
  setoid_rewrite elem_of_cons. naive_solver.
Qed.

Lemma pull_and_fill_outcome l localEngine mlist images w :
  local_outcome l localEngine mlist images w (pull_and_fill l localEngine mlist images w).
Proof.
  unfold pull_and_fill.
  destruct (run_group_early (pull_to_local localEngine) store_engine (sched_at "listLocal") ∅
    (range_images "images" images) w)
    as [(ls & rs & done & errs & w1 & Hls & Hc & Hdone & He & Hrun)|(msg & w1 & Hrun & Hcrash)].
  2:{ rewrite (go_bind_panic _ _ _ _ _ Hrun). apply pulls_crashed.
      eapply crashed_perm; [|done]. apply range_perm. }
  rewrite (go_bind_ret _ _ _ _ _ Hrun).
  assert (ls ≡ₚ map_to_list images) as Hls' by (rewrite Hls; apply range_perm).
  destruct (ErrorOrNil errs) as [e|] eqn:Herr.
  - apply ErrorOrNil_Some in Herr as (es & Hes & -> & ->). simpl in He.
    apply (pulls_failed _ _ _ _ _ ls rs); [done..| |done].
    intros Hf. rewrite Hf in He. by apply Permutation_nil_r in He.
  - apply ErrorOrNil_None in Herr. rewrite Herr in He. apply Permutation_nil_l in He.
    eapply (pulls_done _ _ _ _ _ ls rs); [done..| |apply remove_phase].
    intros ref. rewrite foldl_store_engine, lookup_empty. split.
    + intros [[??]|[ib Hin]]; [done|]. exists ib. by rewrite <-Hdone.
    + intros [ib Hin]. right. exists ib. by rewrite Hdone.
Qed.

(** The same for the list in a directory, where each image has a file. *)
Inductive files_outcome (m : listFiles) (tempDir : string) (tempRef output : Ref) images
    (files : list ((BuildReport * B) * string)) (w : W)
    : outcome (string * option error) * W → Prop :=
  | file_pulls_failed ls rs w1 es :
      ls ≡ₚ files → call_all pull_to_file ls w = Some (rs, w1) →
      failures rs ≠ [] → es ≡ₚ failures rs →
      files_outcome m tempDir tempRef output images files w
        (Ret (EmptyString, Some (Errorf "building: %w" [] (Some (Multi es)))), w1)
  | file_pulls_done ls rs w1 (refs : gmap BuildReport Ref) r :
      ls ≡ₚ files → call_all pull_to_file ls w = Some (rs, w1) → failures rs = [] →
      (∀ image ref, refs !! image = Some ref ↔
         ∃ f, f.1.1 = image ∧ (f, Some ref) ∈ successes ls rs) →
      removed (lbo_RemoveIntermediateImages (lf_options m)) (range_images "rm" images) w1
        (write_list m tempDir tempRef output (list_formats (map_to_list images)) refs) r →
      files_outcome m tempDir tempRef output images files w r
  | file_pulls_crashed msg w' :
      crashed pull_to_file files w →
      files_outcome m tempDir tempRef output images files w (Panic (Killed msg), w').

Lemma temp_files_images tempDir (l : list (BuildReport * B)) w files err w' :
  temp_files tempDir l w = (Ret (files, err), w') →
  files.*1 `prefix_of` l ∧ (err = None → files.*1 = l).
Proof.
  revert w files err. induction l as [|ib l IH]; intros w files err Ht; simpl in Ht.
  { by injection Ht as <- <- <-. }
  unfold mbind, go_bind in Ht. destruct (TempFileIn _ _ w) as [[[name|e]|msg] w1]; [|..].
  - destruct (temp_files tempDir l w1) as [[[files1 err1]|msg] w2] eqn:Hr; [|done].
    injection Ht as <- <- <-. destruct (IH _ _ _ Hr) as [Hp Ha]. csimpl. split.
    + by apply prefix_cons.
    + intros ->. by rewrite Ha.
  - injection Ht as <- <- <-. split; [apply prefix_nil|done].
  - done.
Qed.

Lemma foldl_store_ref (done : list (((BuildReport * B) * string) * option Ref))
    (m : gmap BuildReport Ref) image ref :
  NoDup ((λ a, a.1.1.1) <$> done) → (∀ a, a ∈ done → m !! a.1.1.1 = None) →
  foldl (λ m a, run_writes m (store_ref a.1 a.2)) m done !! image = Some ref ↔
  m !! image = Some ref ∨ ∃ f, f.1.1 = image ∧ (f, Some ref) ∈ done.
Proof.
  revert m. induction done as [|[[[i b] file] r] done IH]; intros m Hnd Hm; simpl.
  { split; [by left|]. by intros [?|(? & _ & ?%not_elem_of_nil)]. }
  csimpl in Hnd. apply NoDup_cons in Hnd as [Hi Hnd].
  assert (m !! i = None) as Hmi by exact (Hm _ ltac:(left)).
  rewrite IH; [|done|].
  2:{ intros a Ha. destruct r as [r|]; unfold run_writes, store_ref; simpl; [|apply Hm; by right].
      rewrite lookup_insert_ne; [apply Hm; by right|]. intros Heq. apply Hi.
      apply list_elem_of_fmap. by exists a. }
  destruct r as [r|]; unfold run_writes, store_ref; simpl; setoid_rewrite elem_of_cons;
    [|naive_solver].
  destruct (decide (i = image)) as [->|Hne]; [|rewrite lookup_insert_ne by done; naive_solver].
  rewrite lookup_insert_eq, Hmi. split.
  - intros [[= ->]|(f & Hf & Hin)]; [|right; exists f; auto].
    right. exists ((image, b), file). split; [done|by left].
  - intros [?|(f & Hf & [[= -> ->]|Hin])]; [done|by left|right; by exists f].
Qed.

(** The references stored by goroutines for the files of a map's images. *)
Lemma stored_refs images ls (rs : list (option Ref * option error)) done image ref :
  ls.*1 ≡ₚ map_to_list images → done ≡ₚ successes ls rs →
  foldl (λ m a, run_writes m (store_ref a.1 a.2)) ∅ done !! image = Some ref ↔
  ∃ f, f.1.1 = image ∧ (f, Some ref) ∈ successes ls rs.
Proof.
  intros Hperm Hdone.
  rewrite foldl_store_ref, lookup_empty.
  - split; [intros [?|(f & ? & Hin)]; [done|]; exists f; by rewrite <-Hdone|].
    intros (f & ? & Hin). right. exists f. by rewrite Hdone.
  - assert (NoDup ((λ f, f.1.1) <$> ls)) as Hnd.
    { change (λ f : (BuildReport * B) * string, f.1.1) with
        (@fst BuildReport B ∘ @fst (BuildReport * B) string).
      rewrite list_fmap_compose, Hperm. apply NoDup_fst_map_to_list. }
    rewrite Hdone. change (λ a : ((BuildReport * B) * string) * option Ref, a.1.1.1) with
      ((λ f : (BuildReport * B) * string, f.1.1) ∘ @fst _ (option Ref)).
    rewrite list_fmap_compose. eapply sublist_NoDup; [exact Hnd|]. apply fmap_sublist, successes_sublist.
  - intros; apply lookup_empty.
Qed.

(** Pulling to a file is one call: to the builder of the image, for the image,
    into the file. *)
Definition pull_request (f : (BuildReport * B) * string) : Go W (string * option error) :=
  PullToFile f.1.2 (mk_PullToFileOptions (ImageID f.1.1) (SaveFormat f.1.1) f.2).

Lemma pull_to_file_request f w : (pull_to_file f w).2 = (pull_request f w).2.
Proof.
  destruct f as [[image ib] file]. unfold pull_to_file, pull_request, mbind, go_bind. cbn.
  destruct (PullToFile _ _ w) as [[[reference [e|]]|msg] w1]; [done| |done]. cbn.
  by destruct (ParseImageName reference).
Qed.

(** What is relied on of the names of temporary files, [there] being the files
    there are: a new file has a name of its own, and no other goes away. *)
Definition temp_file_law (there : W → gset string) : Prop :=
  ∀ dir pattern w w' r, TempFileIn dir pattern w = (r, w') →
    there w ⊆ there w' ∧ ∀ name, r = Ret (inl name) → name ∉ there w ∧ name ∈ there w'.

Lemma temp_files_new (there : W → gset string) tempDir (l : list (BuildReport * B)) w files err w' :
  temp_file_law there → temp_files tempDir l w = (Ret (files, err), w') →
  there w ⊆ there w' ∧ NoDup files.*2 ∧ ∀ name, name ∈ files.*2 → name ∉ there w ∧ name ∈ there w'.
Proof.
  intros Hlaw. revert w files err. induction l as [|ib l IH]; intros w files err Ht; simpl in Ht.
  { injection Ht as <- <- <-. split_and!; [done|constructor|set_solver]. }
  unfold mbind, go_bind in Ht. destruct (TempFileIn _ _ w) as [r w1] eqn:Hf.
  apply Hlaw in Hf as [Hsub Hnew]. destruct r as [[name|e]|msg]; [| |done].
  - destruct (temp_files tempDir l w1) as [[[files1 err1]|msg] w2] eqn:Hr; [|done].
    injection Ht as <- <- <-. destruct (IH _ _ _ Hr) as (Hsub1 & Hnd & Hfiles).
    destruct (Hnew name eq_refl) as [Hout Hin]. csimpl. split_and!; [set_solver| |set_solver].
    constructor; [|done]. intros Hname. by destruct (Hfiles _ Hname).
  - injection Ht as <- <- <-. split_and!; [done|constructor|set_solver].
Qed.

(** What the list builder for directories does once it has its directories
    and a file for each image. *)
Lemma build_in_spec m images tempDir (tempRef output : Ref) files (w w1 w2 : W) :
  ParseImageName (str_app "dir:" tempDir) = inl tempRef →
  MkdirAll (directory m) w = (Ret None, w1) →
  ParseImageName (str_app "dir:" (directory m)) = inl output →
  temp_files tempDir (range_images "images" images) w1 = (Ret (files, None), w2) →
  files.*1 ≡ₚ map_to_list images ∧
  files_outcome m tempDir tempRef output images files w2 (build_in m tempDir images w).
Proof.
  intros Htemp Hmkdir Hout Hfiles.
  destruct (temp_files_images _ _ _ _ _ _ Hfiles) as [_ Hfst]. specialize (Hfst eq_refl).
  assert (files.*1 ≡ₚ map_to_list images) as Hperm by (rewrite Hfst; apply range_perm).
  split; [done|]. unfold build_in. rewrite Htemp, (go_bind_ret _ _ _ _ _ Hmkdir).
  cbn beta iota. rewrite Hout, (go_bind_ret _ _ _ _ _ Hfiles). cbn beta iota.
  destruct (run_group_early pull_to_file store_ref (sched_at "listFiles") ∅ files w2)
    as [(ls & rs & done & errs & w3 & Hls & Hc & Hdone & He & Hrun)|(msg & w3 & Hrun & Hcrash)].
  2:{ rewrite (go_bind_panic _ _ _ _ _ Hrun). by apply file_pulls_crashed. }
  rewrite (go_bind_ret _ _ _ _ _ Hrun). cbn beta iota.
  destruct (ErrorOrNil errs) as [e|] eqn:Herr.
  { apply ErrorOrNil_Some in Herr as (es & Hes & -> & ->). simpl in He.
    apply (file_pulls_failed _ _ _ _ _ _ _ ls rs); [done..| |done].
    intros Hf. rewrite Hf in He. by apply Permutation_nil_r in He. }
  apply ErrorOrNil_None in Herr. rewrite Herr in He. apply Permutation_nil_l in He.
  eapply (file_pulls_done _ _ _ _ _ _ _ ls rs); [done..| |apply remove_phase].
  intros image ref. eapply stored_refs; [|done]. by rewrite Hls.
Qed.
End Phases.

(** ** Properties *)

(** C9: The list builder for local storage, once it has an engine, a runtime
    and its list (found, or created where it is not found): every image is
    asked of its builder once, whatever the interleaving; only when all have
    been pulled are the intermediate images removed, if that was asked for,
    each from the builder it was built on unless that is the local one; only
    after that is the list touched, and then filled with the references
    pulled; errors of a phase are all returned and end the build; and the
    runtime and the engine are shut down in every case, in that order, but
    for a panic of a goroutine, which ends the process. *)
Theorem local_Build_phases `{!RangeOracle, !Scheduler, !ImageBuilder B E W, !ListHost Ref M R L E W}
    (l : listLocal) (images : gmap BuildReport B) (w w1 w2 w3 w4 : W)
    (localEngine : E) (localRuntime : R) (found : L + error) (mlist : L)
    (Hengine : lh_NewImageEngine (mk_PodmanConfig (ll_flagSet l) ABIMode (ll_config l)
       EmptyString EmptyString (RunRoot (ll_storeOptions l)) (GraphDriverName (ll_storeOptions l))
       (GraphDriverOptions (ll_storeOptions l))) w = (Ret (inl localEngine), w1))
    (Hruntime : RuntimeFromStoreOptions (ll_storeOptions l) w1 = (Ret (inl localRuntime), w2))
    (Hfound : LookupManifestList localRuntime (listName l) w2 = (Ret found, w3))
    (Hlist : match found with
             | inl mlist' => mlist = mlist' ∧ w4 = w3
             | inr _ => CreateManifestList localRuntime (listName l) w3 = (Ret (inl mlist), w4)
             end) :
  ∃ r w5, local_outcome l localEngine mlist images w4 (r, w5) ∧
    local_Build l images w =
      (r, if killed r then w5 else lh_Shutdown localEngine (runtime_Shutdown localRuntime w5)).
Proof.
  pose proof (pull_and_fill_outcome l localEngine mlist images w4) as Hout.
  destruct (pull_and_fill l localEngine mlist images w4) as [r w5] eqn:Hpull.
  exists r, w5. split; [done|]. unfold local_Build. rewrite (go_bind_ret _ _ _ _ _ Hengine).
  cbn beta iota. unfold defer. rewrite (go_bind_ret _ _ _ _ _ Hruntime). cbn beta iota.
  assert (with_runtime l localEngine localRuntime images w2 = (r, w5)) as ->; [|by destruct (killed r)].
  unfold with_runtime. rewrite (go_bind_ret _ _ _ _ _ Hfound). destruct found as [mlist'|e].
  - destruct Hlist as [-> ->]. unfold mbind, go_bind. simpl. by rewrite <-Hpull.
  - rewrite (go_bind_ret _ _ _ _ _ Hlist). by rewrite <-Hpull.
Qed.

(** C19: The list builder for directories, once it has its directories and a
    file for each image: every image has a file of its own, which is new, no
    two images sharing one; every image is asked of its builder once, whatever
    the interleaving, into that file; only when all have been pulled are the
    intermediate images removed, if that was asked for; only then is the list
    made, of exactly the references pulled.  It is relied on of the operating
    system that a temporary file is a new one. *)
Theorem build_in_phases `{!RangeOracle, !Scheduler, !ImageBuilder B E W, !ListHost Ref M R L E W}
    (there : W → gset string)
    (m : listFiles) (images : gmap BuildReport B) tempDir (tempRef output : Ref) files (w w1 w2 : W)
    (Hlaw : temp_file_law there)
    (Htemp : ParseImageName (str_app "dir:" tempDir) = inl tempRef)
    (Hmkdir : MkdirAll (directory m) w = (Ret None, w1))
    (Hout : ParseImageName (str_app "dir:" (directory m)) = inl output)
    (Hfiles : temp_files tempDir (range_images "images" images) w1 = (Ret (files, None), w2)) :
  files.*1 ≡ₚ map_to_list images ∧
  NoDup files.*2 ∧ (∀ file, file ∈ files.*2 → file ∉ there w1 ∧ file ∈ there w2) ∧
  (∀ f w', (pull_to_file f w').2 = (pull_request f w').2) ∧
  files_outcome m tempDir tempRef output images files w2 (build_in m tempDir images w).
Proof.
  destruct (build_in_spec m images tempDir tempRef output files w w1 w2) as [Hfst Hrun]; [done..|].
  destruct (temp_files_new there _ _ _ _ _ _ Hlaw Hfiles) as (_ & Hnd & Hnew).
  split_and!; [done..|apply pull_to_file_request|done].
Qed.

(** With the builders of this program, which save as ["oci-archive"] or
    ["docker-archive"], a list in a directory is always in OCI's format: the
    code compares the format of an archive with the media type of docker's
    manifests. *)
Theorem list_formats_always_oci {B} (images : list (BuildReport * B))
    (Hformats : Forall (λ ib, ∃ o, SaveFormat ib.1 = save_format o) images) :
  list_formats images = (MediaTypeImageIndex, OCIv1ImageManifest).
Proof.
  unfold list_formats. replace (existsb _ images) with false; [done|]. symmetry.
  induction Hformats as [|ib images [o Ho] _ IH]; [done|]. simpl. rewrite IH, Ho.
  unfold save_format. by case_decide.
Qed.

(** *** What is in a list *)

(** What [fill_list] relies on: [members] shows the digests of the instances
    of a list; inspecting lists them, removing one takes it out, and adding a
    reference puts the digest it returns in. *)
Record list_laws {Ref M R L E W} `{!ListHost Ref M R L E W} (members : L → W → gset string)
    : Prop := {
  Inspect_members : ∀ l w ds w', list_Inspect l w = (Ret (inl ds), w') →
    list_to_set ds = members l w ∧ members l w' = members l w;
  RemoveInstance_members : ∀ l d w w', list_RemoveInstance l d w = (Ret None, w') →
    members l w' = members l w ∖ {[d]};
  Add_members : ∀ l ref w d w', list_Add l ref w = (Ret (inl d), w') →
    members l w' = members l w ∪ {[d]}
}.
Arguments list_laws _ _ _ _ _ _ _ : clear implicits.

Section Members.
Context {Ref M R L E W : Type} `{I : !ListHost Ref M R L E W}.
Context (members : L → W → gset string) (laws : list_laws Ref M R L E W I members).

Lemma remove_instances_members name l ds w w' :
  remove_instances name l ds w = (Ret None, w') → members l w' = members l w ∖ list_to_set ds.
Proof.
  revert w. induction ds as [|d ds IH]; intros w Hr; simpl in Hr.
  { injection Hr as ->. simpl. set_solver. }
  unfold mbind, go_bind in Hr.
  destruct (list_RemoveInstance l d w) as [[[e|]|msg] w1] eqn:Hd; [done| |done].
  rewrite (IH w1 Hr), (RemoveInstance_members _ laws _ _ _ _ Hd). simpl. set_solver.
Qed.

Lemma add_images_members l refs w w' :
  add_images l refs w = (Ret None, w') →
  ∃ digests, length digests = length refs ∧
    Forall2 (λ ref d, ∃ w1 w2, list_Add l ref w1 = (Ret (inl d), w2)) refs digests ∧
    members l w' = members l w ∪ list_to_set digests.
Proof.
  revert w. induction refs as [|ref refs IH]; intros w Hr; simpl in Hr.
  { injection Hr as ->. exists []. split_and!; [done|constructor|set_solver]. }
  unfold mbind, go_bind in Hr.
  destruct (list_Add l ref w) as [[[d|e]|msg] w1] eqn:Hd; [|done..].
  destruct (IH w1 Hr) as (digests & Hlen & Hall & Hm). exists (d :: digests).
  split_and!; [simpl; by rewrite Hlen|constructor; [by exists w, w1|done]|].
  rewrite Hm, (Add_members _ laws _ _ _ _ _ Hd). simpl. set_solver.
Qed.
End Members.

(** C20: When filling a list succeeds, the list holds exactly the instances
    which adding the references pulled returned: whatever it held before is
    gone. *)
Theorem fill_list_replaces `{!RangeOracle} {Ref M R L B E W} `{I : !ListHost Ref M R L E W}
    (members : L → W → gset string) (l : listLocal) (mlist : L) (refs : gmap string B) (w w' : W) name
    (Hlaws : list_laws Ref M R L E W I members)
    (Hfill : fill_list l mlist refs w = (Ret (name, None), w')) :
  name = listName l ∧
  ∃ added digests, added ≡ₚ (map_to_list refs).*1 ∧
    Forall2 (λ ref d, ∃ w1 w2, list_Add mlist ref w1 = (Ret (inl d), w2)) added digests ∧
    members mlist w' = list_to_set digests.
Proof.
  unfold fill_list, mbind, go_bind in Hfill.
  destruct (list_Inspect mlist w) as [[[ds|e]|msg] w1] eqn:Hi; [|done..].
  destruct (remove_instances _ _ _ w1) as [[[e|]|msg] w2] eqn:Hr; [done| |done].
  destruct (add_images _ _ w2) as [[[e|]|msg] w3] eqn:Ha; [done| |done].
  injection Hfill as <- <-. split; [done|].
  destruct (Inspect_members _ Hlaws _ _ _ _ Hi) as [Hds Hw1].
  apply (remove_instances_members _ Hlaws) in Hr.
  apply (add_images_members _ Hlaws) in Ha as (digests & _ & Hall & Hm).
  exists (range_map "refs" refs).*1, digests. split_and!; [|done|].
  - unfold range_map. by rewrite range_perm.
  - rewrite Hm, Hr, Hw1, Hds. set_solver.
Qed.

(** *** Temporary directories *)

(** What every call of a group leaves as it is, the group does. *)
Lemma quiet_run_group {W V K A S} (view : W → V) sched (s0 : S) (call : K → Go W A)
    (k : K → A → call_result S) ls :
  (∀ l a m, k l a ≠ Crash m) → (∀ l, quiet view (call l)) →
  quiet view (run_group sched s0 (goroutines call k ls)).
Proof.
  intros Hk Hc w.
  apply (run_group_inv call k Hk (λ w', view w' = view w)); [|done].
  intros l w1 _ Hw1. by rewrite Hc.
Qed.

Lemma temp_files_quiet `{!ListHost Ref M R L E W} {B V} (view : W → V) tempDir
    (l : list (BuildReport * B)) :
  (∀ dir pattern, quiet view (TempFileIn dir pattern)) → quiet view (temp_files tempDir l).
Proof.
  intros HT. induction l as [|ib l IH]; simpl; [apply quiet_ret|].
  apply quiet_bind; [apply HT|]. intros [name|e]; [|apply quiet_ret].
  apply quiet_bind; [done|]. intros [files err]. apply quiet_ret.
Qed.

Lemma add_refs_quiet `{!ListHost Ref M R L E W} {V} (view : W → V) (m : M) refs :
  (∀ (m : M) (ref : Ref), quiet view (manifests_Add m ref)) → quiet view (add_refs m refs).
Proof.
  intros HA. revert m. induction refs as [|[image ref] refs IH]; intros m; simpl; [apply quiet_ret|].
  apply quiet_bind; [apply HA|]. intros [m'|e]; [apply IH|apply quiet_ret].
Qed.

(** What the list builder for directories relies on: a temporary directory is
    new, removing it removes it, and nothing else it calls makes or removes
    one. *)
Record dir_laws {Ref M R L B E W} `{!ImageBuilder B E W, !ListHost Ref M R L E W}
    (dirs : W → gset string) : Prop := {
  TempDir_new : ∀ w w' name, TempDir w = (Ret (inl name), w') →
    name ∉ dirs w ∧ dirs w' = {[name]} ∪ dirs w;
  TempDir_failed : ∀ w w' r, TempDir w = (r, w') → (∀ name, r ≠ Ret (inl name)) → dirs w' = dirs w;
  RemoveAll_gone : ∀ w name, dirs (RemoveAll name w) = dirs w ∖ {[name]};
  DefaultPolicyContext_dirs : quiet dirs DefaultPolicyContext;
  TempFileIn_dirs : ∀ dir pattern, quiet dirs (TempFileIn dir pattern);
  MkdirAll_dirs : ∀ dir, quiet dirs (MkdirAll dir);
  WriteFile_dirs : ∀ path content, quiet dirs (WriteFile path content);
  manifests_Add_dirs : ∀ (m : M) (ref : Ref), quiet dirs (manifests_Add m ref);
  copy_Image_dirs : ∀ (output input : Ref) l format, quiet dirs (copy_Image output input l format);
  PullToFile_dirs : ∀ (b : B) o, quiet dirs (PullToFile b o);
  RemoveImage_dirs : ∀ (b : B) o, quiet dirs (RemoveImage b o)
}.
Arguments dir_laws _ _ _ _ _ _ _ _ _ _ : clear implicits.

Section Directories.
Context `{!RangeOracle} `{!Scheduler} {Ref M R L B E W : Type}.
Context `{BI : !ImageBuilder B E W} `{I : !ListHost Ref M R L E W}.
Context (dirs : W → gset string) (laws : dir_laws Ref M R L B E W BI I dirs).

Lemma pull_to_file_quiet f : quiet dirs (pull_to_file f).
Proof.
  destruct f as [[image engine] file]. unfold pull_to_file.
  apply quiet_bind; [apply laws|]. intros [reference [e|]]; [apply quiet_ret|].
  destruct (ParseImageName reference); apply quiet_ret.
Qed.

Lemma remove_images_quiet l : quiet dirs (remove_images (B := B) l).
Proof. apply quiet_run_group; [done|]. intros ib. apply laws. Qed.

Lemma write_list_quiet m tempDir (tempRef output : Ref) formats refs :
  quiet dirs (write_list m tempDir tempRef output formats refs).
Proof.
  unfold write_list. apply quiet_bind; [apply add_refs_quiet, laws|].
  intros [mlist|e]; [|apply quiet_ret]. destruct (Serialize mlist formats.1); [|apply quiet_ret].
  apply quiet_bind; [apply laws|]. intros [e|]; [apply quiet_ret|].
  apply quiet_bind; [apply laws|]. intros [e|]; [apply quiet_ret|]. cbn zeta.
  case_decide; [apply quiet_ret|]. apply quiet_bind; [apply laws|]. intros [e|]; apply quiet_ret.
Qed.

Lemma build_in_quiet m tempDir (images : gmap BuildReport B) : quiet dirs (build_in m tempDir images).
Proof.
  unfold build_in. destruct (ParseImageName _) as [tempRef|e]; [|apply quiet_ret].
  apply quiet_bind; [apply laws|]. intros [e|]; [apply quiet_ret|].
  destruct (ParseImageName _) as [output|e]; [|apply quiet_ret].
  apply quiet_bind; [apply temp_files_quiet, laws|]. intros [files fileError].
  apply quiet_bind.
  { apply quiet_run_group; [|apply pull_to_file_quiet]. by intros l [a [e|]] msg. }
  intros [refs errs]. destruct fileError; [apply quiet_ret|].
  destruct (ErrorOrNil errs); [apply quiet_ret|]. apply quiet_bind.
  { destruct (lbo_RemoveIntermediateImages _); [|apply quiet_ret].
    apply quiet_bind; [apply remove_images_quiet|]. intros r. apply quiet_ret. }
  intros rm. destruct (ErrorOrNil rm); [apply quiet_ret|]. apply write_list_quiet.
Qed.
End Directories.

(** C21: The list builder for directories leaves no temporary directory
    behind, however it ends: in success or in any error of any of its phases,
    those of the goroutines included.  Only when a goroutine panics, which
    ends the process at once, may the directory be left. *)
Theorem files_Build_leaves_no_directory `{!RangeOracle, !Scheduler} {Ref M R L B E W}
    `{BI : !ImageBuilder B E W, I : !ListHost Ref M R L E W} (dirs : W → gset string)
    (m : listFiles) (images : gmap BuildReport B) (w : W)
    (Hlaws : dir_laws Ref M R L B E W BI I dirs) :
  match (files_Build m images w).1 with
  | Panic (Killed _) => True
  | _ => dirs (files_Build m images w).2 = dirs w
  end.
Proof.
  assert (tidy dirs (files_Build m images)) as Htidy.
  { apply tidy_bind; [apply Hlaws|]. intros [e|]; [apply tidy_ret|].
    apply (tidy_temporary dirs _ RemoveAll (λ e, (EmptyString, Some e))); [apply Hlaws..|].
    intros name. apply quiet_tidy. by apply build_in_quiet. }
  specialize (Htidy w). destruct (files_Build m images w) as [[r|[msg|msg]] w'];
    simpl in *; auto.
Qed.

(** ** Witnesses *)

(** A world with temporary directories and files, one list, and a record of the
    builders which had to remove an image. *)
Record desk := mk_desk {
  dk_dirs : gset string;
  dk_files : gset string;
  dk_members : gset string;
  dk_removed : list string
}.

#[export] Instance desk_builder : ImageBuilder string () desk := {
  Driver _ := "desk";
  Name b := b;
  Status _ := mret None;
  GetInfo _ _ := mret (mk_Info [] [], None);
  NativePlatforms _ _ := mret ([], None);
  EmulatedPlatforms _ _ := mret ([], None);
  Build b _ _ _ := mret (mk_BuildReport b "oci-archive", None);
  PullToFile _ o := mret (str_app "oci-archive:" (ptf_SaveFile o), None);
  PullToLocal _ o := mret (str_app "containers-storage:" (ptl_ImageID o), None);
  RemoveImage b _ := λ w, (Ret None, mk_desk (dk_dirs w) (dk_files w) (dk_members w) (dk_removed w ++ [b]));
  PruneImages _ _ := mret (mk_PruneImageReport [] [], None);
  Done _ := mret None
}.

#[export] Instance desk_host : ListHost string (list string) () () () desk := {
  lh_ReadCustomConfig := mret (∅, None);
  DefaultPolicyContext := mret None;
  TempDir := λ w,
    if decide ("/tmp/1" ∈ dk_dirs w) then (Ret (inr (ErrNew "exists")), w)
    else (Ret (inl "/tmp/1"), mk_desk ({["/tmp/1"]} ∪ dk_dirs w) (dk_files w) (dk_members w) (dk_removed w));
  RemoveAll name w := mk_desk (dk_dirs w ∖ {[name]}) (dk_files w) (dk_members w) (dk_removed w);
  TempFileIn dir _ := λ w,
    let name := path_of dir (str_app "archive-" (pretty (size (dk_files w)))) in
    if decide (name ∈ dk_files w) then (Ret (inr (ErrNew "exists")), w)
    else (Ret (inl name), mk_desk (dk_dirs w) ({[name]} ∪ dk_files w) (dk_members w) (dk_removed w));
  MkdirAll _ := mret None;
  WriteFile _ _ := mret None;
  ParseImageName name := inl name;
  manifests_Create := [];
  manifests_Add l ref := mret (inl (l ++ [ref]));
  Serialize _ _ := inl "{}";
  copy_Image _ _ _ _ := mret None;
  lh_NewImageEngine _ := mret (inl tt);
  lh_Shutdown _ w := w;
  RuntimeFromStoreOptions _ := mret (inl tt);
  runtime_Shutdown _ w := w;
  LookupManifestList _ _ := mret (inl tt);
  CreateManifestList _ _ := mret (inl tt);
  list_Inspect _ := λ w, (Ret (inl (elements (dk_members w))), w);
  list_RemoveInstance _ d := λ w,
    (Ret None, mk_desk (dk_dirs w) (dk_files w) (dk_members w ∖ {[d]}) (dk_removed w));
  list_Add _ ref := λ w,
    (Ret (inl ref), mk_desk (dk_dirs w) (dk_files w) (dk_members w ∪ {[ref]}) (dk_removed w))
}.

Definition desk_start : desk := mk_desk ∅ ∅ {["stale"]} [].
Definition desk_options : ListBuilderOptions := mk_ListBuilderOptions false false true false EmptyString.
Definition desk_local : listLocal :=
  mk_listLocal "list" (NewFlagSet "buildfarm") ∅ zero_StoreOptions desk_options.
Definition desk_files : listFiles := mk_listFiles "out" desk_options.
Definition desk_images : gmap BuildReport string :=
  {[mk_BuildReport "id1" "oci-archive" := "(local)"; mk_BuildReport "id2" "docker-archive" := "east"]}.

(** After the build the list has the two images, and only the remote builder
    had to remove one. *)
Definition desk_end : desk := (local_Build desk_local desk_images desk_start).2.

Lemma local_Build_phases_witness :
  (∃ r w5, local_outcome desk_local tt tt desk_images desk_start (r, w5) ∧
     local_Build desk_local desk_images desk_start =
       (r, if killed r then w5 else
             lh_Shutdown (ListHost := desk_host) tt (runtime_Shutdown (ListHost := desk_host) tt w5))) ∧
  (local_Build desk_local desk_images desk_start).1 = Ret ("list", None) ∧
  elements (dk_members desk_end) = ["containers-storage:id1"; "containers-storage:id2"] ∧
  dk_removed desk_end = ["east"].
Proof.
  split; [|vm_compute; split_and!; reflexivity].
  exact (local_Build_phases desk_local desk_images desk_start desk_start desk_start desk_start
    desk_start tt tt (inl tt) tt eq_refl eq_refl eq_refl (conj eq_refl eq_refl)).
Defined.

Lemma desk_temp_files : temp_file_law (W := desk) dk_files.
Proof.
  intros dir pattern w w' r. simpl. case_decide as Hin; intros [= <- <-]; simpl.
  - by split.
  - split; [set_solver|]. intros name [= <-]. split; [done|set_solver].
Qed.

(** The two files which are made for the images of the build. *)
Definition desk_named : list ((BuildReport * string) * string) * desk :=
  match temp_files "/tmp/1" (range_images "images" desk_images) desk_start with
  | (Ret (files, _), w) => (files, w)
  | (_, w) => ([], w)
  end.

Lemma build_in_phases_witness :
  desk_named.1.*2 = ["/tmp/1/archive-0"; "/tmp/1/archive-1"] ∧
  desk_named.1.*1 ≡ₚ map_to_list desk_images ∧
  files_outcome desk_files "/tmp/1" "dir:/tmp/1" "dir:out" desk_images desk_named.1 desk_named.2
    (build_in desk_files "/tmp/1" desk_images desk_start).
Proof.
  split; [vm_compute; reflexivity|].
  destruct (build_in_phases (ListHost0 := desk_host) dk_files desk_files desk_images "/tmp/1" "dir:/tmp/1"
    "dir:out" desk_named.1 desk_start desk_start desk_named.2 desk_temp_files)
    as (Hfst & _ & _ & _ & Hrun); [done..|].
  by split.
Defined.

Lemma list_formats_always_oci_witness :
  Forall (λ ib : BuildReport * string, ∃ o, SaveFormat ib.1 = save_format o)
    [(mk_BuildReport "id" "docker-archive", "east")] ∧
  list_formats [(mk_BuildReport "id" "docker-archive", "east")] =
    (MediaTypeImageIndex, OCIv1ImageManifest).
Proof.
  assert (Forall (λ ib : BuildReport * string, ∃ o, SaveFormat ib.1 = save_format o)
    [(mk_BuildReport "id" "docker-archive", "east")]) as Hf.
  { constructor; [|constructor].
    by exists (with_OutputFormat Dockerv2ImageManifest plain_options). }
  split; [exact Hf|]. exact (list_formats_always_oci _ Hf).
Defined.

Lemma desk_list_laws : list_laws string (list string) () () () desk _ (λ _, dk_members).
Proof.
  split.
  - intros l w ds w' [= <- <-]. split; [apply list_to_set_elements_L|done].
  - by intros l d w w' [= <-].
  - by intros l ref w d w' [= <- <-].
Qed.

Lemma fill_list_replaces_witness :
  list_laws string (list string) () () () desk _ (λ _, dk_members) ∧
  ∃ w', fill_list desk_local tt {["containers-storage:id" := "east"]} desk_start =
      (Ret ("list", None), w') ∧
    ∃ added digests, added ≡ₚ (map_to_list (M := gmap string string)
        {["containers-storage:id" := "east"]}).*1 ∧
      Forall2 (λ ref d, ∃ w1 w2, list_Add (ListHost := desk_host) tt ref w1 = (Ret (inl d), w2))
        added digests ∧
      dk_members w' = list_to_set digests.
Proof.
  split; [exact desk_list_laws|]. eexists. split; [vm_compute; reflexivity|].
  eapply (fill_list_replaces (λ _, dk_members) desk_local tt
    {["containers-storage:id" := "east"]} desk_start _ "list" desk_list_laws).
  vm_compute. reflexivity.
Defined.

Lemma desk_dir_laws :
  dir_laws string (list string) () () string () desk _ _ dk_dirs.
Proof.
  split; try done.
  - intros w w' name. simpl. case_decide; intros [= <- <-]. split; [done|reflexivity].
  - intros w w' r. simpl. case_decide; intros [= <- <-] Hr; [done|]. by destruct (Hr "/tmp/1").
  - intros dir pattern w. simpl. by case_decide.
Qed.

Lemma files_Build_leaves_no_directory_witness :
  dk_dirs (files_Build desk_files desk_images desk_start).2 = ∅ ∧
  (files_Build desk_files desk_images desk_start).1 = Ret ("dir:out", None).
Proof.
  split; [|vm_compute; reflexivity].
  exact (files_Build_leaves_no_directory dk_dirs desk_files desk_images desk_start desk_dir_laws).
Defined.
