(* ===== verification/Paths.v ===== *)
(** * File paths

    The functions of [path/filepath], on a system whose separator is a slash,
    which the commands apply to the context directory and to the container
    file: [IsAbs], [Clean] and [Join]; [Abs] is in Commands.v, as it asks for
    the working directory. *)

From S2P Require Import Prelude GoStrings.

Definition slash : ascii := "/".
Definition dot : string := ".".
Definition dotdot : string := "..".

Definition IsAbs (path : string) : bool := HasPrefix path "/".

(** One element of a path, after the elements on the stack (the last first). *)
Definition clean_element (rooted : bool) (stack : list string) (e : string) : list string :=
  if decide (e = EmptyString ∨ e = dot) then stack
  else if decide (e = dotdot) then
    match stack with
    | [] => if rooted then [] else [dotdot]
    | top :: rest => if decide (top = dotdot) then dotdot :: stack else rest
    end
  else e :: stack.

Definition clean_elements (rooted : bool) (es : list string) : list string :=
  reverse (foldl (clean_element rooted) [] es).

Definition Clean (path : string) : string :=
  if decide (path = EmptyString) then dot
  else
    let es := clean_elements (IsAbs path) (Split path slash) in
    if IsAbs path then String slash (Join slash es)
    else if decide (es = []) then dot else Join slash es.

(** [filepath.Join] of two elements: empty ones are left out. *)
Definition filepath_Join (a b : string) : string :=
  match filter (λ e, e ≠ EmptyString) [a; b] with
  | [] => EmptyString
  | es => Clean (Join slash es)
  end.

(** ** What cleaning gives *)

Lemma IsAbs_cons c s : IsAbs (String c s) = bool_decide (c = slash).
Proof.
  unfold IsAbs, HasPrefix. cbn [String.prefix]. unfold slash.
  destruct (ascii_dec _ _) as [<-|Hne]; case_bool_decide; by destruct s || congruence.
Qed.

Lemma IsAbs_cases s : IsAbs s = true → ∃ s', s = String slash s'.
Proof.
  destruct s as [|c s]; [done|]. rewrite IsAbs_cons. intros ->%bool_decide_eq_true. by exists s.
Qed.

Lemma IsAbs_app a b : IsAbs a = true → IsAbs (str_app a b) = true.
Proof.
  intros [s ->]%IsAbs_cases. rewrite string_app_cons, IsAbs_cons. by apply bool_decide_eq_true.
Qed.

Lemma Clean_absolute path : IsAbs path = true → IsAbs (Clean path) = true.
Proof.
  intros Habs. unfold Clean. rewrite Habs.
  rewrite decide_False by (by intros ->). rewrite IsAbs_cons. by apply bool_decide_eq_true.
Qed.

Lemma Join_absolute a b : IsAbs a = true → IsAbs (filepath_Join a b) = true.
Proof.
  intros Ha. unfold filepath_Join. destruct (IsAbs_cases _ Ha) as [s ->].
  rewrite filter_cons_True by done. rewrite filter_cons. apply Clean_absolute.
  case_decide; [|done]. change [String slash s; b] with (String slash s :: [b]).
  rewrite Join_cons by done. by apply IsAbs_app.
Qed.

(** The stack of an absolute path holds names only. *)
Definition path_name (e : string) : Prop := e ≠ EmptyString ∧ e ≠ dot ∧ e ≠ dotdot.

Lemma clean_elements_names es : Forall path_name (clean_elements true es).
Proof.
  unfold clean_elements. apply Forall_reverse.
  enough (∀ stack, Forall path_name stack → Forall path_name (foldl (clean_element true) stack es)) as H
    by (apply H; constructor).
  induction es as [|e es IH]; intros stack Hs; [done|]. apply IH. unfold clean_element.
  case_decide as H1; [done|]. case_decide as H2.
  - destruct stack as [|top rest]; [constructor|]. apply Forall_cons in Hs as [Ht Hr].
    rewrite decide_False by apply Ht. done.
  - constructor; [|done]. unfold path_name. tauto.
Qed.
