(* ===== verification/Commands.v ===== *)
(** * The commands

    Model of [src/cmd/buildfarm]: the variables of package main, the hooks
    which run before and after a command, the commands themselves, and
    [main] from the point at which the command line has been parsed.  The
    world of the farm and its builders is the outside; what the commands use
    of containers/storage, buildah, the operating system and cobra's help is
    the class [CommandHost] over it.  The storage hooks are those of
    [store_supported.go]. *)

From S2P Require Import Prelude GoStrings MultiError Group Types Engine Static Farm FarmBuild Paths.

(** ** The variables of package main *)

(** [globalSettings]. *)
Record settings := mk_settings {
  debug : bool;
  local : bool;
  farmName : string;
  adHocFarmNodes : list string
}.

(** The [cli] field of [buildOptions]. *)
Record build_cli := mk_build_cli {
  BuildArg : list string;
  cli_CacheFrom : list string;
  cli_CacheTo : list string;
  Isolation : string;
  Network : string
}.

Record buildOptions := mk_buildOptions {
  output : string;
  dockerfiles : list string;
  bo_options : BuildOptions;
  platforms : list string;
  cli : build_cli
}.

(** [buildOpts] as the flags of the build command leave it when none of them
    is given: registering a flag stores its default. *)
Definition default_buildOpts : buildOptions := {|
  output := EmptyString;
  dockerfiles := [];
  bo_options := {|
    OutputFormat := EmptyString;
    Out := None;
    Err := None;
    ForceRemoveIntermediateContainers := true;
    RemoveIntermediateContainers := true;
    RemoveIntermediateImages := true;
    PruneImagesOnSuccess := false;
    Platforms := [];
    Pull := false;
    IIDFile := EmptyString;
    ContextDirectory := EmptyString;
    Labels := [];
    Args := None;
    ShmSize := EmptyString;
    Ulimit := [];
    Memory := 0;
    MemorySwap := 0;
    CPUShares := 0;
    CPUQuota := 0;
    CPUPeriod := 0;
    CPUSetCPUs := EmptyString;
    CPUSetMems := EmptyString;
    CgroupParent := EmptyString;
    NoCache := false;
    Quiet := false;
    CacheFrom := [];
    CacheTo := [];
    AddHost := [];
    Target := EmptyString;
    ConfigureNetwork := None
  |};
  platforms := [];
  cli := mk_build_cli [] [] [] EmptyString EmptyString
|}.

(** The flags of [main] and of the prune command. *)
Definition default_settings : settings := mk_settings false false EmptyString [].
Definition default_pruneOptions : PruneImageOptions := mk_PruneImageOptions false.

(** What is printed: text, or the message of an error. *)
Inductive out_item := Text (s : string) | ErrorText (e : error).

Inductive log_level := InfoLevel | DebugLevel.

Record globals (B Store : Type) := mk_globals {
  globalStorageOptions : option StoreOptions;
  globalFarm : option (Farm B);
  globalSettings : settings;
  globalStore : option Store;
  buildOpts : buildOptions;
  pruneOptions : PruneImageOptions;
  logLevel : log_level;
  stdout : list out_item;
  stderr : list out_item
}.
Arguments mk_globals {B Store}.
Arguments globalStorageOptions {B Store}.
Arguments globalFarm {B Store}.
Arguments globalSettings {B Store}.
Arguments globalStore {B Store}.
Arguments buildOpts {B Store}.
Arguments pruneOptions {B Store}.
Arguments logLevel {B Store}.
Arguments stdout {B Store}.
Arguments stderr {B Store}.

(** Assignments to single variables and fields. *)
Section Assignments.
Context {B Store : Type}.
Implicit Types g : globals B Store.

Definition set_storage (o : option StoreOptions) g :=
  mk_globals o (globalFarm g) (globalSettings g) (globalStore g) (buildOpts g) (pruneOptions g)
    (logLevel g) (stdout g) (stderr g).
Definition set_farm (f : option (Farm B)) g :=
  mk_globals (globalStorageOptions g) f (globalSettings g) (globalStore g) (buildOpts g)
    (pruneOptions g) (logLevel g) (stdout g) (stderr g).
Definition set_settings (s : settings) g :=
  mk_globals (globalStorageOptions g) (globalFarm g) s (globalStore g) (buildOpts g)
    (pruneOptions g) (logLevel g) (stdout g) (stderr g).
Definition set_store (s : option Store) g :=
  mk_globals (globalStorageOptions g) (globalFarm g) (globalSettings g) s (buildOpts g)
    (pruneOptions g) (logLevel g) (stdout g) (stderr g).
Definition set_buildOpts (o : buildOptions) g :=
  mk_globals (globalStorageOptions g) (globalFarm g) (globalSettings g) (globalStore g) o
    (pruneOptions g) (logLevel g) (stdout g) (stderr g).
Definition set_level (l : log_level) g :=
  mk_globals (globalStorageOptions g) (globalFarm g) (globalSettings g) (globalStore g)
    (buildOpts g) (pruneOptions g) l (stdout g) (stderr g).
Definition print_out (l : list out_item) g :=
  mk_globals (globalStorageOptions g) (globalFarm g) (globalSettings g) (globalStore g)
    (buildOpts g) (pruneOptions g) (logLevel g) (stdout g ++ l) (stderr g).
Definition print_err (l : list out_item) g :=
  mk_globals (globalStorageOptions g) (globalFarm g) (globalSettings g) (globalStore g)
    (buildOpts g) (pruneOptions g) (logLevel g) (stdout g) (stderr g ++ l).
End Assignments.

Definition set_farmName (name : string) (s : settings) : settings :=
  mk_settings (debug s) (local s) name (adHocFarmNodes s).

Definition set_options (o : BuildOptions) (b : buildOptions) : buildOptions :=
  mk_buildOptions (output b) (dockerfiles b) o (platforms b) (cli b).
Definition add_dockerfile (f : string) (b : buildOptions) : buildOptions :=
  mk_buildOptions (output b) (dockerfiles b ++ [f]) (bo_options b) (platforms b) (cli b).

(** The five fields of the build options which the build command sets. *)
Definition set_fields (dir : string) (args : option (gmap string string))
    (from to : list string) (network : option bool) (o : BuildOptions) : BuildOptions :=
  mk_BuildOptions (OutputFormat o) (Out o) (Err o)
    (ForceRemoveIntermediateContainers o) (RemoveIntermediateContainers o)
    (RemoveIntermediateImages o) (PruneImagesOnSuccess o) (Platforms o) (Pull o) (IIDFile o)
    dir (Labels o) args (ShmSize o) (Ulimit o) (Memory o) (MemorySwap o)
    (CPUShares o) (CPUQuota o) (CPUPeriod o) (CPUSetCPUs o) (CPUSetMems o) (CgroupParent o)
    (NoCache o) (Quiet o) from to (AddHost o) (Target o) network.

Definition set_ContextDirectory dir o :=
  set_fields dir (Args o) (CacheFrom o) (CacheTo o) (ConfigureNetwork o) o.
Definition set_Args args o :=
  set_fields (ContextDirectory o) args (CacheFrom o) (CacheTo o) (ConfigureNetwork o) o.
Definition add_CacheFrom ref o :=
  set_fields (ContextDirectory o) (Args o) (CacheFrom o ++ [ref]) (CacheTo o) (ConfigureNetwork o) o.
Definition add_CacheTo ref o :=
  set_fields (ContextDirectory o) (Args o) (CacheFrom o) (CacheTo o ++ [ref]) (ConfigureNetwork o) o.
Definition set_ConfigureNetwork b o :=
  set_fields (ContextDirectory o) (Args o) (CacheFrom o) (CacheTo o) (Some b) o.

(** ** What the commands use of others *)

Class CommandHost (Store W : Type) := {
  DefaultStoreOptionsAutoDetectUID : Go W (StoreOptions + error);
  GetStore : StoreOptions → Go W (Store + error);
  store_Shutdown : Store → Go W (option error);
  Getwd : Go W (string + error);
  DiscoverContainerfile : string → Go W (string + error);
  ParseNamed : string → string + error;
  Help : Go W (option error)
}.

(** [m] returning an error ends the function. *)
Definition or_return {W} (m k : Go W (option error)) : Go W (option error) :=
  err ← m; match err with Some e => mret (Some e) | None => k end.
Notation "m ;;? k" := (or_return m k) (at level 100, k at level 200, right associativity).

Definition Text_line (s : string) : out_item := Text (str_app s (String newline EmptyString)).

Section Commands.
Context `{!RangeOracle} `{!Scheduler} `{!Libimage} {B E LB Store W : Type}.
Context `{!ImageBuilder B E W} `{!FarmEnv B W} `{!ListBuilders LB B W} `{!CommandHost Store W}.

(** The variables and the outside. *)
Abbreviation state := (globals B Store * W)%type.

Definition gets {A} (f : globals B Store → A) : Go state A := λ s, (Ret (f s.1), s).
Definition assign (f : globals B Store → globals B Store) : Go state () := λ s,
  (Ret tt, (f s.1, s.2)).
Definition Printf (l : list out_item) : Go state () := assign (print_out l).

Definition on_options (f : BuildOptions → BuildOptions) : Go state () :=
  assign (λ g, set_buildOpts (set_options (f (bo_options (buildOpts g))) (buildOpts g)) g).

(** ** Storage *)

(** The [init] function of store_supported.go. *)
Definition init_storage : Go state () :=
  defaultStoreOptions ← outside DefaultStoreOptionsAutoDetectUID;
  match defaultStoreOptions with
  | inl o => assign (set_storage (Some o))
  | inr _ => mret tt
  end.

Definition storeBefore : Go state (option error) :=
  s ← gets globalSettings;
  if negb (local s) then assign (set_storage None);; mret None
  else
    defaultStoreOptions ← outside DefaultStoreOptionsAutoDetectUID;
    match defaultStoreOptions with
    | inr e =>
        assign (print_err [Text "selecting storage options: "; ErrorText e]);;
        mret None
    | inl o =>
        assign (set_storage (Some o));;
        store ← outside (GetStore o);
        match store with
        | inr e => mret (Some e)
        | inl store => assign (set_store (Some store));; mret None
        end
    end.

Definition storeAfter : Go state (option error) :=
  store ← gets globalStore;
  match store with
  | Some store => outside (store_Shutdown store)
  | None => mret None
  end.

(** ** Before and after a command *)

Definition before : Go state (option error) :=
  s ← gets globalSettings;
  (if debug s then assign (set_level DebugLevel) else mret tt);;
  storeBefore ;;? mret None.

Definition after : Go state (option error) :=
  farm ← gets globalFarm;
  match farm with
  | Some f => outside (Farm.Done f)
  | None => mret None
  end ;;?
  storeAfter ;;?
  mret None.

Definition getFarm : Go state (Farm B + error) :=
  s ← gets globalSettings;
  opts ← gets globalStorageOptions;
  farm ← outside
    (if decide (0 < length (adHocFarmNodes s))
     then NewAdHocFarm (adHocFarmNodes s) opts None
     else NewFarm (farmName s) opts None);
  mret match farm with
       | inr e => inr (Errorf "initializing: %w" [] (Some e))
       | inl f => inl f
       end.

(** What every command which uses a farm starts with. *)
Definition with_farm (k : Farm B → Go state (option error)) : Go state (option error) :=
  farm ← getFarm;
  match farm with
  | inr e => mret (Some (Errorf "initializing: %w" [] (Some e)))
  | inl f => assign (set_farm (Some f));; k f
  end.

Definition set_farm_argument (args : list string) : Go state () :=
  match args with
  | [] => mret tt
  | name :: _ => assign (λ g, set_settings (set_farmName name (globalSettings g)) g)
  end.

(** ** status *)

Fixpoint print_status (status : gmap string (option error)) (nodes : list string) : Go state () :=
  match nodes with
  | [] => mret tt
  | nodeName :: nodes =>
      let err := default None (status !! nodeName) in
      let nodeName := if decide (nodeName = EmptyString) then "local node" else nodeName in
      match err with
      | Some e =>
          Printf [Text (str_app nodeName ": "); ErrorText e; Text_line EmptyString]
      | None => Printf [Text_line (str_app nodeName ": ready")]
      end;;
      print_status status nodes
  end.

Definition statusCmd (args : list string) : Go state (option error) :=
  set_farm_argument args;;
  with_farm (λ farm,
    '(status, err) ← outside (Farm.Status farm);
    match err with
    | Some e => mret (Some (Errorf "status: %w" [] (Some e)))
    | None =>
        let nodes := sort_Strings (range_map "nodes" status).*1 in
        print_status status nodes;;
        mret None
    end).

(** ** platforms *)

(** The texts of a list with commas between its elements. *)
Fixpoint comma_separated (l : list string) : list out_item :=
  match l with
  | [] => []
  | [p] => [Text p]
  | p :: l => Text p :: Text ", " :: comma_separated l
  end.

Definition print_platforms (title : string) (ps : list string) : Go state () :=
  Printf [Text title];;
  if decide (length ps = 0) then Printf [Text_line "(none)"]
  else
    Printf (comma_separated (sort_Strings ps));;
    Printf [Text_line EmptyString].

Definition platformsCmd (args : list string) : Go state (option error) :=
  set_farm_argument args;;
  with_farm (λ farm,
    '(nativePlatforms, err) ← outside (Farm.NativePlatforms farm);
    match err with
    | Some e => mret (Some (Errorf "getting native platforms: %w" [] (Some e)))
    | None =>
        '(emulatedPlatforms, err) ← outside (Farm.EmulatedPlatforms farm);
        match err with
        | Some e => mret (Some (Errorf "getting emulated platforms: %w" [] (Some e)))
        | None =>
            print_platforms "Native: " nativePlatforms;;
            print_platforms "Emulated: " emulatedPlatforms;;
            mret None
        end
    end).

(** ** prune *)

Definition prune_lines (nr : string * PruneImageReport) : list out_item :=
  (λ i, Text_line (str_app nr.1 (str_app ": " i))) <$> ImageNames nr.2 ++ ImageIDs nr.2.

Definition pruneCmd (args : list string) : Go state (option error) :=
  set_farm_argument args;;
  with_farm (λ farm,
    options ← gets pruneOptions;
    '(pruneReport, err) ← outside (Farm.PruneImages farm options);
    match err with
    | Some e => mret (Some (Errorf "prune: %w" [] (Some e)))
    | None =>
        Printf (range_map "pruneReport" pruneReport ≫= prune_lines);;
        mret None
    end).

(** ** build *)

(** [filepath.Abs]. *)
Definition Abs (path : string) : Go W (string + error) :=
  if IsAbs path then mret (inl (Clean path))
  else
    wd ← Getwd;
    mret match wd with
         | inr e => inr e
         | inl wd => inl (filepath_Join wd path)
         end.

Definition check_output : Go state (option error) :=
  o ← gets buildOpts;
  mret (if decide (output o = EmptyString)
        then Some (Errorf (str_concat
               ["no output specified: expected -t "; quoted "dir:/directory/path"; " or -t ";
                quoted "registry.tld/repository/name:tag"]) [] None)
        else None).

Definition set_context (args : list string) : Go state (option error) :=
  match args with
  | [] => go_panic "runtime error: index out of range [0] with length 0"
  | dir :: _ =>
      on_options (set_ContextDirectory dir);;
      if decide (dir = EmptyString) then 
        mret (Some (Errorf "expected location of build context" [] None))
      else if IsAbs dir then mret None
      else
        contextDir ← outside (Abs dir);
        match contextDir with
        | inr e => mret (Some e)
        | inl dir => on_options (set_ContextDirectory dir);; mret None
        end
  end.

(** One turn of the loop over the build arguments. *)
Definition add_build_arg (m : option (gmap string string)) (arg : string)
    : option (gmap string string) :=
  let m := default ∅ m in
  match SplitN arg "=" 2 with
  | [] => Some m    (* not reached: the argument is split into at least one part *)
  | [k] => Some (delete k m)
  | k :: v :: _ => Some (<[k := v]> m)
  end.

Definition set_args : Go state (option error) :=
  o ← gets buildOpts;
  on_options (λ o', set_Args (foldl add_build_arg (Args o') (BuildArg (cli o))) o');;
  mret None.

Fixpoint add_references (add : string → BuildOptions → BuildOptions) (refs : list string)
    : Go state (option error) :=
  match refs with
  | [] => mret None
  | ref :: refs =>
      match ParseNamed ref with
      | inr e => mret (Some (Errorf "parsing reference %q: %w" [FStr ref] (Some e)))
      | inl name => on_options (add name);; add_references add refs
      end
  end.

Definition set_network : Go state (option error) :=
  o ← gets buildOpts;
  (if decide (Network (cli o) = "none") then on_options (set_ConfigureNetwork false) else mret tt);;
  mret None.

Definition set_dockerfile : Go state (option error) :=
  o ← gets buildOpts;
  if decide (length (dockerfiles o) = 0) then
    dockerfile ← outside (DiscoverContainerfile (ContextDirectory (bo_options o)));
    match dockerfile with
    | inr e => mret (Some e)
    | inl dockerfile =>
        absDockerfile ← (if IsAbs dockerfile then mret (inl dockerfile) else outside (Abs dockerfile));
        match absDockerfile with
        | inr e => mret (Some e)
        | inl f => assign (λ g, set_buildOpts (add_dockerfile f (buildOpts g)) g);; mret None
        end
    end
  else mret None.

(** From the schedule on. *)
Definition schedule_and_build (farm : Farm B) : Go state (option error) :=
  o ← gets buildOpts;
  '(schedule, err) ← outside (Farm.Schedule farm (platforms o));
  match err with
  | Some e => mret (Some (Errorf "scheduling builds: %w" [] (Some e)))
  | None =>
      err ← outside (Build.Build farm (output o) schedule (dockerfiles o) (bo_options o));
      match err with
      | Some e => mret (Some (Errorf "build: %w" [] (Some e)))
      | None => mret None
      end
  end.

Definition buildCmd (args : list string) : Go state (option error) :=
  check_output ;;?
  set_context args ;;?
  set_args ;;?
  (o ← gets buildOpts; add_references add_CacheFrom (cli_CacheFrom (cli o))) ;;?
  (o ← gets buildOpts; add_references add_CacheTo (cli_CacheTo (cli o))) ;;?
  set_network ;;?
  set_dockerfile ;;?
  with_farm schedule_and_build.

(** ** [main] *)

Inductive command := RootCommand | BuildCommand | StatusCommand | PlatformsCommand | PruneCommand.

(** The [RunE] of a command. *)
Definition RunE (c : command) (args : list string) : Go state (option error) :=
  match c with
  | RootCommand => outside Help
  | BuildCommand => buildCmd args
  | StatusCommand => statusCmd args
  | PlatformsCommand => platformsCmd args
  | PruneCommand => pruneCmd args
  end.

(** The [Args] of a command: [cobra.ExactArgs(1)] or [cobra.MaximumNArgs(1)]. *)
Definition ValidateArgs (c : command) (args : list string) : option error :=
  let received := FInt (Z.of_nat (length args)) in
  match c with
  | RootCommand => None
  | BuildCommand =>
      if decide (length args ≠ 1)
      then Some (Errorf "accepts %d arg(s), received %d" [FInt 1; received] None) else None
  | _ =>
      if decide (1 < length args)
      then Some (Errorf "accepts at most %d arg(s), received %d" [FInt 1; received] None) else None
  end.

(** The hooks and the command, as cobra runs them: the commands have no hooks
    of their own, and those of the main command are the first ones found.
    What comes first here, the parsing of the flags, is not modelled. *)
Definition execute (c : command) (args : list string) : Go state (option error) :=
  mret (ValidateArgs c args) ;;?
  before ;;?
  RunE c args ;;?
  after ;;?
  mret None.

(** [errors.As] for an [*exec.ExitError], through [%w] and through
    aggregated errors in their order: whether there is one, and the exit
    status it has if its [Sys] is a [WaitStatus]. *)
Fixpoint as_ExitError (e : error) : option (option Z) :=
  match e with
  | ExitErr status => Some status
  | Errorf _ _ (Some e) => as_ExitError e
  | Multi es =>
      (fix first (es : list error) :=
         match es with
         | [] => None
         | e :: es => match as_ExitError e with Some s => Some s | None => first es end
         end) es
  | _ => None
  end.

Definition exit_code (e : error) : Z :=
  match as_ExitError e with
  | Some (Some status) => status
  | _ => 1%Z
  end.

(** [main], with the command line parsed into the variables: the code given
    to [os.Exit]. *)
Definition main (c : command) (args : list string) : Go state Z :=
  err ← execute c args;
  match err with
  | Some e =>
      assign (print_err [Text "Error: "; ErrorText e; Text_line EmptyString]);;
      mret (exit_code e)
  | None => mret 0%Z
  end.
End Commands.

(** ** Sequences of checks *)

Lemma or_return_ok {W} (m k : Go W (option error)) w w' :
  (m ;;? k) w = (Ret None, w') ↔ ∃ w1, m w = (Ret None, w1) ∧ k w1 = (Ret None, w').
Proof.
  unfold or_return, mbind, go_bind. destruct (m w) as [[[e|]|msg] w1]; naive_solver.
Qed.

Lemma or_return_next {W} (m k : Go W (option error)) w w1 :
  m w = (Ret None, w1) → (m ;;? k) w = k w1.
Proof. intros Hm. unfold or_return, mbind, go_bind. by rewrite Hm. Qed.

(** ** The build command *)

Section BuildFacts.
Context `{!RangeOracle} `{!Scheduler} `{!Libimage} {B E LB Store W : Type}.
Context `{!ImageBuilder B E W} `{!FarmEnv B W} `{!ListBuilders LB B W} `{!CommandHost Store W}.
Implicit Types (g : globals B Store) (w : W).

Definition with_options (o : BuildOptions) g : globals B Store :=
  set_buildOpts (set_options o (buildOpts g)) g.

(** A phase which changes build options only, and not the context. *)
Definition options_only (m : Go (globals B Store * W) (option error)) : Prop :=
  ∀ g w g' w', m (g, w) = (Ret None, (g', w')) →
    ∃ o, g' = with_options o g ∧ ContextDirectory o = ContextDirectory (bo_options (buildOpts g)).

Lemma with_options_self g : with_options (bo_options (buildOpts g)) g = g.
Proof. by destruct g as [??? ? [] ????]. Qed.

Lemma options_only_seq m k : options_only m → options_only k → options_only (m ;;? k).
Proof.
  intros Hm Hk g w g' w' ([g1 w1] & Hr1 & Hr2)%or_return_ok.
  destruct (Hm _ _ _ _ Hr1) as (o1 & -> & Hc1). destruct (Hk _ _ _ _ Hr2) as (o2 & -> & Hc2).
  exists o2. split; [done|]. by rewrite Hc2.
Qed.

Lemma options_only_gets {A} (f : globals B Store → A) k :
  (∀ a, options_only (k a)) → options_only (a ← gets f; k a).
Proof. intros Hk g w g' w' Hr. by apply (Hk (f g)) in Hr. Qed.

Lemma set_args_options : options_only set_args.
Proof. intros g w g' w' [= <- <-]. by eexists. Qed.

Lemma add_references_options add refs :
  (∀ ref o, ContextDirectory (add ref o) = ContextDirectory o) →
  options_only (add_references add refs).
Proof.
  intros Hadd. induction refs as [|ref refs IH]; intros g w g' w' Hr; simpl in Hr.
  { injection Hr as <- <-. exists (bo_options (buildOpts g)). by rewrite with_options_self. }
  destruct (ParseNamed ref) as [name|e]; [|done].
  apply IH in Hr as (o & -> & Hc). exists o. split; [done|]. rewrite Hc. apply Hadd.
Qed.

Lemma set_network_options : options_only set_network.
Proof.
  intros g w g' w'. unfold set_network, mbind, go_bind. cbn.
  case_decide; intros [= <- <-].
  - by eexists.
  - exists (bo_options (buildOpts g)). by rewrite with_options_self.
Qed.

Hypothesis Getwd_absolute : ∀ (w : W) d w', Getwd w = (Ret (inl d), w') → IsAbs d = true.

Lemma Abs_absolute path w p w' : Abs path w = (Ret (inl p), w') → IsAbs p = true.
Proof.
  unfold Abs. destruct (IsAbs path) eqn:Hp; [intros [= <- <-]; by apply Clean_absolute|].
  unfold mbind, go_bind. destruct (Getwd w) as [[[d|e]|msg] w1] eqn:Hd; [|done..].
  intros [= <- <-]. apply Join_absolute. by eapply Getwd_absolute.
Qed.

Lemma set_context_absolute args g w g' w' :
  set_context args (g, w) = (Ret None, (g', w')) →
  ∃ o, g' = with_options o g ∧ IsAbs (ContextDirectory o) = true.
Proof.
  destruct args as [|dir args]; [done|]. unfold set_context, mbind, go_bind. cbn.
  case_decide; [done|]. destruct (IsAbs dir) eqn:Hdir.
  { intros [= <- <-]. by eexists. }
  unfold outside. cbn. destruct (Abs dir w) as [[[p|e]|msg] w1] eqn:Hp; [|done..].
  intros [= <- <-]. eexists. split; [done|]. by eapply Abs_absolute.
Qed.

Lemma set_dockerfile_given g w g' w' :
  set_dockerfile (g, w) = (Ret None, (g', w')) →
  ∃ fs, g' = set_buildOpts (mk_buildOptions (output (buildOpts g)) fs (bo_options (buildOpts g))
                              (platforms (buildOpts g)) (cli (buildOpts g))) g ∧
    fs ≠ [] ∧ (dockerfiles (buildOpts g) ≠ [] → fs = dockerfiles (buildOpts g)) ∧
    (dockerfiles (buildOpts g) = [] → Forall (λ f, IsAbs f = true) fs).
Proof.
  unfold set_dockerfile, mbind, go_bind. cbn. case_decide as Hl.
  - apply nil_length_inv in Hl. unfold outside. cbn.
    destruct (DiscoverContainerfile _ w) as [[[f|e]|msg] w1]; [|done..]. cbn.
    destruct (IsAbs f) eqn:Hf; cbn.
    + intros [= <- <-]. exists [f]. unfold add_dockerfile. rewrite Hl. by repeat constructor.
    + destruct (Abs f w1) as [[[p|e]|msg] w2] eqn:Hp; [|done..]. intros [= <- <-].
      exists [p]. unfold add_dockerfile. rewrite Hl. apply Abs_absolute in Hp.
      by repeat constructor.
  - intros [= <- <-]. exists (dockerfiles (buildOpts g)).
    assert (dockerfiles (buildOpts g) ≠ []) as Hne by (by intros Hn; rewrite Hn in Hl).
    split_and!; [|done..]. by destruct g as [????[]????].
Qed.

Lemma check_output_ok g w s :
  check_output (g, w) = (Ret None, s) → output (buildOpts g) ≠ EmptyString ∧ s = (g, w).
Proof.
  unfold check_output, mbind, go_bind. cbn. case_decide; [done|]. by intros [= <-].
Qed.

Lemma options_phase m k g w s :
  options_only m → (m ;;? k) (g, w) = (Ret None, s) →
  ∃ o w1, ContextDirectory o = ContextDirectory (bo_options (buildOpts g)) ∧
    k (with_options o g, w1) = (Ret None, s).
Proof.
  intros Hm ([g1 w1] & Hr & Hk)%or_return_ok. apply Hm in Hr as (o & -> & Hc). by exists o, w1.
Qed.

Lemma with_farm_ok k g w s :
  with_farm k (g, w) = (Ret None, s) → ∃ f w1, k f (set_farm (Some f) g, w1) = (Ret None, s).
Proof.
  unfold with_farm, getFarm, outside, mbind, go_bind. cbn.
  match goal with |- context [if decide ?P then ?a else ?b] =>
    destruct ((if decide P then a else b) w) as [[[f|e]|msg] w1] end; cbn; [|done..].
  intros Hk. by exists f, w1.
Qed.

Lemma schedule_and_build_ok f g w g' w' :
  schedule_and_build f (g, w) = (Ret None, (g', w')) →
  let o := buildOpts g in
  ∃ schedule w1, Farm.Schedule f (platforms o) w = (Ret (schedule, None), w1) ∧
    Build.Build f (output o) schedule (dockerfiles o) (bo_options o) w1 = (Ret None, w') ∧ g' = g.
Proof.
  unfold schedule_and_build, mbind, go_bind, outside. cbn.
  destruct (Farm.Schedule f _ w) as [[[schedule [e|]]|msg] w1] eqn:Hs; cbn; [done| |done].
  destruct (Build.Build _ _ _ _ _ w1) as [[[e|]|msg] w2] eqn:Hb; cbn; [done| |done].
  intros [= <- <-]. by exists schedule, w1.
Qed.

Lemma Schedule_valid (f : Farm B) ps w s w1 :
  ps ≠ [] → Farm.Schedule f ps w = (Ret (s, None), w1) →
  ∃ ls rs, Farm.answered (λ nb : string * B, GetInfo nb.2 mk_InfoOptions) f w ls rs w1 ∧
    Farm.valid_schedule (successes ls rs) ps (platformBuilders s).
Proof.
  intros Hps Hs. unfold Farm.Schedule in Hs. rewrite decide_False in Hs by (by destruct ps).
  destruct (Farm.schedule_platforms_spec f ps w)
    as [(ls & rs & w2 & r & Hans & Hrun & Hsch)|(msg & w2 & Hrun & _)]; [|congruence].
  rewrite Hrun in Hs. injection Hs as -> <-. exists ls, rs. split; [done|].
  by inversion Hsch.
Qed.

(** C5: When the build command returns without error, whatever the
    interleavings: it was given an output, the context directory is absolute
    and a container file was given or found; every platform asked for is
    assigned to a builder which said it can build for it, and no other; for
    every platform of the schedule its builder was asked once, for a platform
    it is assigned, which is that one unless the builder is assigned another
    one too; each of these builds succeeded; and the list builder was given
    exactly their reports and returned no error. *)
Theorem buildCmd_success args g w g' w'
    (Hok : buildCmd args (g, w) = (Ret None, (g', w'))) :
  let o := buildOpts g' in
  output o = output (buildOpts g) ∧ output o ≠ EmptyString ∧
  platforms o = platforms (buildOpts g) ∧
  IsAbs (ContextDirectory (bo_options o)) = true ∧ dockerfiles o ≠ [] ∧
  ∃ f schedule w1 w2,
    globalFarm g' = Some f ∧ Farm.Schedule f (platforms o) w1 = (Ret (schedule, None), w2) ∧
    (platforms o ≠ [] → ∃ ls rs,
       Farm.answered (λ nb : string * B, GetInfo nb.2 mk_InfoOptions) f w1 ls rs w2 ∧
       Farm.valid_schedule (successes ls rs) (platforms o) (platformBuilders schedule)) ∧
    ∃ checked lb owner w3 ls rs w4 m location,
      check_format (bo_options o) = inl checked ∧ Build.known_builders f schedule ∧
      Build.make_list_builder f (output o) checked w2 = (Ret (inl lb), w3) ∧
      (∀ p b, platformBuilders schedule !! p = Some b →
         platformBuilders schedule !! owner b = Some b) ∧
      (∀ p b, platformBuilders schedule !! p = Some b →
         (∀ p', platformBuilders schedule !! p' = Some b → p' = p) → owner b = p) ∧
      ls ≡ₚ map_to_list (platformBuilders schedule) ∧
      call_all (Build.request f checked (dockerfiles o) owner) ls w3 = Some (rs, w4) ∧
      failures rs = [] ∧ Build.assembled (successes ls rs) m ∧
      list_Build lb m w4 = (Ret (location, None), w').
Proof.
  apply or_return_ok in Hok as ([g1 w1] & Hout & Hok).
  apply check_output_ok in Hout as (Hne & [= -> ->]).
  apply or_return_ok in Hok as ([g2 w2] & Hctx & Hok).
  apply set_context_absolute in Hctx as (o2 & -> & Habs).
  apply options_phase in Hok as (o3 & w3 & Hc3 & Hok); [|apply set_args_options].
  apply options_phase in Hok as (o4 & w4 & Hc4 & Hok);
    [|apply options_only_gets; intros ?; by apply add_references_options].
  apply options_phase in Hok as (o5 & w5 & Hc5 & Hok);
    [|apply options_only_gets; intros ?; by apply add_references_options].
  apply options_phase in Hok as (o6 & w6 & Hc6 & Hok); [|apply set_network_options].
  apply or_return_ok in Hok as ([g7 w7] & Hfile & Hok).
  apply set_dockerfile_given in Hfile as (fs & -> & Hfs & _).
  apply with_farm_ok in Hok as (f & w8 & Hok).
  apply schedule_and_build_ok in Hok as (schedule & w9 & Hs & Hb & ->).
  simpl in *. split_and!; [done..|by rewrite Hc6, Hc5, Hc4, Hc3|done|].
  exists f, schedule, w8, w9. split_and!; [done..|by intros; apply Schedule_valid|].
  destruct (Build.Build_succeeded _ _ _ _ _ _ _ Hb)
    as (o & lb & owner & w10 & ls & rs & w11 & m & location & Hfmt & Hkn & Hlb & Hown & Hrest).
  exists o, lb, owner, w10, ls, rs, w11, m, location. do 4 (split; [done|]). split; [|exact Hrest].
  intros p b Hp Hone. by apply Hone, (Hown p).
Qed.
End BuildFacts.

(** ** Build arguments *)

Definition build_arg_text (kv : string * option string) : string :=
  match kv.2 with Some v => str_app kv.1 (String "=" v) | None => kv.1 end.

Definition arg_value (m : option (gmap string string)) (k : string) : option string :=
  m ≫= (.!! k).

Lemma add_build_arg_text m kv k :
  contains_byte "=" kv.1 = false →
  arg_value (add_build_arg m (build_arg_text kv)) k =
  if decide (kv.1 = k) then kv.2 else arg_value m k.
Proof.
  destruct kv as [k' [v|]]; intros Hk; unfold add_build_arg, build_arg_text, SplitN; cbn [fst snd] in *.
  - rewrite split_cuts_app by done. simpl. case_decide as Hd.
    + subst. apply lookup_insert_eq.
    + rewrite lookup_insert_ne by done. by destruct m.
  - rewrite split_cuts_none by done. simpl. case_decide as Hd.
    + subst. apply lookup_delete_eq.
    + rewrite lookup_delete_ne by done. by destruct m.
Qed.

(** C39: The build arguments of the command line as a whole: each is split at
    its first equals sign; for every name the last argument decides, whose
    value the name gets, or which removes the name if it has no equals sign;
    names which are not mentioned keep what they had. *)
Theorem build_args_last_wins (m : option (gmap string string))
    (args : list (string * option string)) (k : string)
    (Hnames : Forall (λ kv, contains_byte "=" kv.1 = false) args) :
  arg_value (foldl add_build_arg m (build_arg_text <$> args)) k =
  match last (filter (λ kv, kv.1 = k) args) with
  | Some kv => kv.2
  | None => arg_value m k
  end.
Proof.
  revert m. induction args as [|kv args IH] using rev_ind; intros m; [done|].
  apply Forall_app in Hnames as [Hargs [Hkv _]%Forall_cons].
  rewrite fmap_app, foldl_app, filter_app. cbn [fmap list_fmap foldl].
  rewrite add_build_arg_text by done. rewrite filter_cons. case_decide.
  - by rewrite filter_nil, last_snoc.
  - rewrite filter_nil, app_nil_r. by apply IH.
Qed.

(** ** The status and the platforms commands *)

Lemma sort_Strings_id l : StronglySorted String.le l → sort_Strings l = l.
Proof.
  intros Hl. apply (StronglySorted_unique String.le); [apply sort_Strings_sorted|done|].
  apply sort_Strings_perm.
Qed.

(** What [platformsCmd] prints for a sorted list. *)
Definition platform_texts (ps : list string) : list out_item :=
  if decide (ps = []) then [Text_line "(none)"] else comma_separated ps ++ [Text_line EmptyString].

(** The line of a node which is ready. *)
Definition ready_line (nodeName : string) : out_item :=
  Text_line (str_app (if decide (nodeName = EmptyString) then "local node" else nodeName) ": ready").

Section ReportFacts.
Context `{!RangeOracle} `{!Scheduler} {B E Store W : Type}.
Context `{!ImageBuilder B E W} `{!FarmEnv B W} `{!CommandHost Store W}.
Implicit Types (g : globals B Store) (w : W).

Lemma with_farm_run args k g w f g1 w1 :
  (set_farm_argument args;; getFarm) (g, w) = (Ret (inl f), (g1, w1)) →
  (set_farm_argument args;; with_farm k) (g, w) = k f (set_farm (Some f) g1, w1).
Proof.
  assert (∃ s, set_farm_argument (B := B) (Store := Store) args (g, w) = (Ret tt, s)) as [s Hs]
    by (destruct args; by eexists).
  rewrite !(go_bind_ret _ _ _ _ _ Hs). intros Hf. unfold with_farm. by rewrite (go_bind_ret _ _ _ _ _ Hf).
Qed.

Lemma print_out_app l1 l2 g : print_out l2 (print_out l1 g) = print_out (l1 ++ l2) g.
Proof. unfold print_out. simpl. by rewrite (assoc_L (++)). Qed.

Lemma print_out_nil g : print_out [] g = g.
Proof. unfold print_out. rewrite app_nil_r. by destruct g. Qed.

Lemma print_status_ready status nodes g w :
  (∀ n, n ∈ nodes → status !! n = Some None) →
  print_status status nodes (g, w) = (Ret tt, (print_out (ready_line <$> nodes) g, w)).
Proof.
  revert g. induction nodes as [|n nodes IH]; intros g Hn; simpl; [by rewrite print_out_nil|].
  rewrite (Hn n) by left. unfold mbind, go_bind. simpl.
  rewrite IH by (intros n' ?; apply Hn; by right). by rewrite print_out_app.
Qed.

Lemma print_platforms_sorted title ps g w :
  StronglySorted String.le ps →
  print_platforms title ps (g, w) = (Ret tt, (print_out (Text title :: platform_texts ps) g, w)).
Proof.
  intros Hps. unfold print_platforms, platform_texts, mbind, go_bind, Printf, assign.
  destruct ps as [|p ps]; cbn [fst snd].
  - rewrite !decide_True by done. cbn [fst snd]. by rewrite print_out_app.
  - rewrite !decide_False by done. cbn [fst snd].
    by rewrite !print_out_app, sort_Strings_id by done.
Qed.

(** C22: The status command, once it has a farm: every builder is asked,
    whatever the interleaving.  When all are ready it prints one line for
    each name of a builder, in the order of the names, that the node is
    ready.  When some are not, it prints nothing at all, of the others
    neither, and returns all the errors: the lines it has for nodes with
    errors are never printed. *)
Theorem statusCmd_prints args g w f g1 w1
    (Hfarm : (set_farm_argument args;; getFarm) (g, w) = (Ret (inl f), (g1, w1))) :
  let call := λ nb : string * B, Types.Status nb.2 in
  (∃ ls rs w2, Farm.answered call f w1 ls rs w2 ∧
     (Forall (λ r, r = None) rs → ∃ names,
        StronglySorted String.le names ∧ NoDup names ∧
        (∀ n, n ∈ names ↔ ∃ name ib, builders f !! name = Some ib ∧ Name ib = n) ∧
        statusCmd args (g, w) =
          (Ret None, (print_out (ready_line <$> names) (set_farm (Some f) g1), w2))) ∧
     (omap id rs ≫= flatten_one ≠ [] → ∃ es, es ≡ₚ (omap id rs ≫= flatten_one) ∧
        statusCmd args (g, w) =
          (Ret (Some (Errorf "status: %w" [] (Some (Multi es)))), (set_farm (Some f) g1, w2)))) ∨
  (∃ msg w2, statusCmd args (g, w) = (Panic (Killed msg), (set_farm (Some f) g1, w2)) ∧
     Farm.panicked call f w1).
Proof.
  intros call. unfold statusCmd. rewrite (with_farm_run _ _ _ _ _ _ _ Hfarm). clear Hfarm.
  destruct (Farm.Status_spec f w1)
    as [(ls & rs & w2 & status & err & Hans & Hrun & Hdom & Hval & Herr)|(msg & w2 & Hrun & Hp)].
  2:{ right. exists msg, w2. split; [|done]. unfold mbind, go_bind, outside. simpl. by rewrite Hrun. }
  left. exists ls, rs, w2. split; [done|].
  assert (outside (Farm.Status f) (set_farm (Some f) g1, w1) =
    (Ret (status, err), (set_farm (Some f) g1, w2))) as Hout
    by (unfold outside; simpl; by rewrite Hrun).
  split.
  - intros Hall. assert (omap id rs ≫= flatten_one = []) as Hnil.
    { clear -Hall. induction Hall as [|r rs -> _ IH]; [done|]. by csimpl. }
    destruct err as [e|]; [destruct Herr as (es & _ & Hne & Hes); rewrite Hnil in Hes;
      by apply Permutation_nil_r in Hes|]. clear Herr.
    exists (sort_Strings (range_map "nodes" status).*1).
    assert (∀ n, n ∈ (range_map "nodes" status).*1 ↔ is_Some (status !! n)) as Hin.
    { intros n. rewrite list_elem_of_fmap. split.
      - intros ([n' x] & -> & Hx%elem_of_range_map). by exists x.
      - intros [x Hx]. exists (n, x). split; [done|]. by apply elem_of_range_map. }
    split_and!; [apply sort_Strings_sorted|rewrite sort_Strings_perm; apply NoDup_range_map| |].
    + intros n. by rewrite sort_Strings_perm, Hin, Hdom.
    + rewrite (go_bind_ret _ _ _ _ _ Hout). cbn beta iota zeta.
      erewrite go_bind_ret; [done|]. apply print_status_ready. intros n.
      rewrite sort_Strings_perm, Hin. intros [x Hx]. rewrite Hx.
      destruct (Hval n x Hx) as (i & name & ib & _ & Hi & _).
      rewrite Forall_lookup in Hall. by rewrite (Hall i x Hi).
  - intros Hne. destruct err as [e|]; [|done]. destruct Herr as (es & -> & _ & Hes).
    exists es. split; [done|]. by rewrite (go_bind_ret _ _ _ _ _ Hout).
Qed.

Definition ask_native (nb : string * B) : Go W (list string * option error) :=
  Types.NativePlatforms nb.2 mk_InfoOptions.
Definition ask_emulated (nb : string * B) : Go W (list string * option error) :=
  Types.EmulatedPlatforms nb.2 mk_InfoOptions.

(** What the platforms command does with the answers about native and then
    about emulated platforms. *)
Inductive platforms_outcome (f : Farm B) g w : outcome (option error) * (globals B Store * W) → Prop :=
  | natives_failed ls rs w1 es :
      Farm.answered ask_native f w ls rs w1 → failures rs ≠ [] → es ≡ₚ failures rs →
      platforms_outcome f g w
        (Ret (Some (Errorf "getting native platforms: %w" [] (Some (Multi es)))), (g, w1))
  | emulated_failed ls rs w1 ls' rs' w2 es :
      Farm.answered ask_native f w ls rs w1 → failures rs = [] →
      Farm.answered ask_emulated f w1 ls' rs' w2 → failures rs' ≠ [] → es ≡ₚ failures rs' →
      platforms_outcome f g w
        (Ret (Some (Errorf "getting emulated platforms: %w" [] (Some (Multi es)))), (g, w2))
  | platforms_printed ls rs w1 ls' rs' w2 native emulated :
      Farm.answered ask_native f w ls rs w1 → Farm.gathered ls rs (native, None) →
      Farm.answered ask_emulated f w1 ls' rs' w2 → Farm.gathered ls' rs' (emulated, None) →
      platforms_outcome f g w
        (Ret None, (print_out (Text "Native: " :: platform_texts native ++
                               Text "Emulated: " :: platform_texts emulated) g, w2))
  | natives_crashed msg w1 :
      Farm.panicked ask_native f w → platforms_outcome f g w (Panic (Killed msg), (g, w1))
  | emulated_crashed ls rs w1 msg w2 :
      Farm.answered ask_native f w ls rs w1 → Farm.panicked ask_emulated f w1 →
      platforms_outcome f g w (Panic (Killed msg), (g, w2)).

Lemma outside_run {A} (m : Go W A) g w r w' :
  m w = (r, w') → outside m (g, w) = (r, (g, w')).
Proof. intros Hm. unfold outside. simpl. by rewrite Hm. Qed.

Lemma gathered_sorted (ls : list (string * B)) rs ps :
  Farm.gathered ls rs (ps, None) → StronglySorted String.le ps.
Proof. intros [(_ & ps' & [= <-] & Hps & _)|(_ & es & [=] & _)]. done. Qed.

Lemma gathered_failed (ls : list (string * B)) rs ps e :
  Farm.gathered ls rs (ps, Some e) → failures rs ≠ [] ∧ ∃ es, e = Multi es ∧ es ≡ₚ failures rs.
Proof. intros [(_ & ps' & [=] & _)|(Hne & es & [= -> ->] & Hes)]. by eauto. Qed.

Lemma gathered_no_failures (ls : list (string * B)) rs ps :
  Farm.gathered ls rs (ps, None) → failures rs = [].
Proof. intros [[? _]|(_ & es & [=] & _)]. done. Qed.

(** C23: The platforms command, once it has a farm, whatever the
    interleavings: every builder is asked for its native platforms, and when
    all have answered for the emulated ones; it prints the two sets, sorted
    and without repetition; and if some builders fail it prints nothing and
    returns all their errors. *)
Theorem platformsCmd_prints args g w f g1 w1
    (Hfarm : (set_farm_argument args;; getFarm) (g, w) = (Ret (inl f), (g1, w1))) :
  platforms_outcome f (set_farm (Some f) g1) w1 (platformsCmd args (g, w)).
Proof.
  unfold platformsCmd. rewrite (with_farm_run _ _ _ _ _ _ _ Hfarm). clear Hfarm.
  destruct (Farm.gather_spec ask_native "NativePlatforms" "nativeMap" f w1)
    as [(ls & rs & w2 & [native err] & Hans & Hrun & Hg)|(msg & w2 & Hrun & Hp)].
  2:{ apply outside_run with (g := set_farm (Some f) g1) in Hrun.
      rewrite (go_bind_panic _ _ _ _ _ Hrun). by apply natives_crashed. }
  apply outside_run with (g := set_farm (Some f) g1) in Hrun.
  rewrite (go_bind_ret _ _ _ _ _ Hrun). clear Hrun. destruct err as [e|].
  { apply gathered_failed in Hg as (Hne & es & -> & Hes). by eapply natives_failed. }
  cbn beta iota.
  destruct (Farm.gather_spec ask_emulated "EmulatedPlatforms" "emulatedMap" f w2)
    as [(ls' & rs' & w3 & [emulated err] & Hans' & Hrun & Hg')|(msg & w3 & Hrun & Hp)];
    apply outside_run with (g := set_farm (Some f) g1) in Hrun.
  2:{ rewrite (go_bind_panic _ _ _ _ _ Hrun). by eapply emulated_crashed. }
  rewrite (go_bind_ret _ _ _ _ _ Hrun). clear Hrun. destruct err as [e|].
  { apply gathered_failed in Hg' as (Hne & es & -> & Hes).
    eapply emulated_failed; eauto using gathered_no_failures. }
  cbn beta iota. unfold mbind, go_bind.
  rewrite !print_platforms_sorted by eauto using gathered_sorted.
  rewrite print_out_app. by eapply platforms_printed.
Qed.
End ReportFacts.

(** ** The farm of a command *)

Section FarmFacts.
Context `{!RangeOracle} `{!Scheduler} `{!Libimage} {B E LB Store W : Type}.
Context `{!ImageBuilder B E W} `{!FarmEnv B W} `{!ListBuilders LB B W} `{!CommandHost Store W}.
Implicit Types (g : globals B Store) (w : W).

Lemma before_ok g w g1 w1 :
  before (g, w) = (Ret None, (g1, w1)) →
  globalSettings g1 = globalSettings g ∧
  (local (globalSettings g) = false → globalStorageOptions g1 = None) ∧
  (local (globalSettings g) = true →
     (∃ o w', DefaultStoreOptionsAutoDetectUID w = (Ret (inl o), w')) →
     is_Some (globalStorageOptions g1)).
Proof.
  unfold before. intros Hr. rewrite (go_bind_ret _ _ _ (globalSettings g) (g, w)) in Hr by done.
  assert (∃ g0, (if debug (globalSettings g) then assign (set_level DebugLevel) else mret tt) (g, w) =
    (Ret tt, (g0, w)) ∧ globalSettings g0 = globalSettings g) as (g0 & Hg0 & <-)
    by (destruct (debug _); by eexists).
  rewrite (go_bind_ret _ _ _ _ _ Hg0) in Hr. clear Hg0.
  apply or_return_ok in Hr as ([g2 w2] & Hr & [= <- <-]).
  revert Hr. unfold storeBefore, mbind, go_bind, outside. cbn.
  destruct (local (globalSettings g0)); cbn; [|by intros [= <- <-]].
  destruct (DefaultStoreOptionsAutoDetectUID w) as [[[o|e]|msg] w3]; cbn; [| |done].
  - destruct (GetStore o w3) as [[[store|e]|msg] w4]; cbn; [|done..].
    intros [= <- <-]. by split_and!; [|..].
  - intros [= <- <-]. split_and!; [done..|]. naive_solver.
Qed.

(** The farm of [newFarmWithBuilders], and how it was made. *)
Lemma newFarm_made wb opts flags w (f : Farm B) w' :
  newFarmWithBuilders wb opts flags w = (Ret (inl f), w') →
  ∃ destinations w1 ls rs,
    ReadCustomConfig w = (Ret (destinations, None), w1) ∧ NoDup ls ∧
    (∀ c, c ∈ ls ↔ selected wb destinations opts c) ∧
    call_all (connect (default (NewFlagSet "buildfarm") flags) opts) ls w1 = Some (rs, w') ∧
    failures rs = [] ∧ storeOptions f = opts ∧
    (∀ k, is_Some (builders f !! k) ↔
       ∃ c ib, (c, Some ib) ∈ successes ls rs ∧ connection_key c = k).
Proof.
  intros Hnew. assert (∃ destinations w1, ReadCustomConfig w = (Ret (destinations, None), w1))
    as (destinations & w1 & Hconfig).
  { unfold newFarmWithBuilders, mbind at 1, go_bind at 1 in Hnew.
    destruct (ReadCustomConfig w) as [[[destinations [e|]]|msg] w1]; [done|by eauto|done]. }
  destruct (newFarm_spec wb opts flags w destinations w1 Hconfig)
    as [(ls & rs & w2 & r & Hnd & Hls & Hc & Hrun & Hfarm)|(msg & w2 & Hrun & _)]; [|congruence].
  rewrite Hnew in Hrun. injection Hrun as <- <-.
  exists destinations, w1, ls, rs. inversion Hfarm; subst. by split_and!.
Qed.

Lemma getFarm_made g w f g' w' :
  getFarm (g, w) = (Ret (inl f), (g', w')) →
  let s := globalSettings g in
  ∃ wb, newFarmWithBuilders wb (globalStorageOptions g) None w = (Ret (inl f), w') ∧
    (adHocFarmNodes s = [] → farmName s = EmptyString) ∧
    (∀ d, wantBuilder wb d = true ↔ adHocFarmNodes s = [] ∨ d ∈ adHocFarmNodes s).
Proof.
  intros Hfarm s. unfold getFarm, mbind, go_bind, outside in Hfarm. cbn in Hfarm. fold s in Hfarm.
  case_decide as Hl.
  - destruct (NewAdHocFarm _ _ _ w) as [[[f'|e]|msg] w2] eqn:Hnew; [|done..].
    injection Hfarm as -> _ ->. exists (Destinations (adHocFarmNodes s)). split_and!; [done| |].
    + intros Hn. rewrite Hn in Hl. simpl in Hl. lia.
    + intros d. simpl. rewrite StringInSlice_elem. split; [by right|].
      intros [Hn|?]; [rewrite Hn in Hl; simpl in Hl; lia|done].
  - assert (adHocFarmNodes s = []) as Hn by (apply nil_length_inv; lia). rewrite Hn.
    unfold NewFarm, NewDefaultFarm in Hfarm. case_decide as Hname; [|done].
    destruct (newFarmWithBuilders _ _ _ w) as [[[f'|e]|msg] w2] eqn:Hnew; [|done..].
    injection Hfarm as -> _ ->. exists AllBuilders. split_and!; [done..|].
    intros d. simpl. tauto.
Qed.

(** C15: The farm a command works with.  It connects to the configured
    destinations, those named with --node if any are; and to the local
    system exactly if --local is given and either no node is named or the
    node ["(local)"] is; a named farm is never had.  Without --local the farm
    has no storage options, so that the result of a build is always written to
    a directory, whatever the reference. *)
Theorem farm_of_command g w g1 w1 f g2 w2
    (Hbefore : before (g, w) = (Ret None, (g1, w1)))
    (Hdetect : local (globalSettings g) = true →
       ∃ o w', DefaultStoreOptionsAutoDetectUID w = (Ret (inl o), w'))
    (Hfarm : getFarm (g1, w1) = (Ret (inl f), (g2, w2))) :
  let s := globalSettings g in
  let named := λ d, adHocFarmNodes s = [] ∨ d ∈ adHocFarmNodes s in
  (adHocFarmNodes s = [] → farmName s = EmptyString) ∧
  (is_Some (storeOptions f) ↔ local s = true) ∧
  (local s = false → ∀ reference o,
     Build.make_list_builder (W := W) f reference o =
     NewFileListBuilder (TrimPrefix reference "dir:") (list_options o)) ∧
  ∃ destinations w3 ls rs,
    ReadCustomConfig w1 = (Ret (destinations, None), w3) ∧ NoDup ls ∧
    (∀ d, RemoteConnection d ∈ ls ↔ is_Some (destinations !! d) ∧ named d) ∧
    (LocalConnection ∈ ls ↔ local s = true ∧ named LocalImageBuilderName) ∧
    call_all (connect (NewFlagSet "buildfarm") (storeOptions f)) ls w3 = Some (rs, w2) ∧
    failures rs = [] ∧
    (∀ k, is_Some (builders f !! k) ↔
       ∃ c ib, (c, Some ib) ∈ successes ls rs ∧ connection_key c = k).
Proof.
  destruct (before_ok _ _ _ _ Hbefore) as (Hs & Hnone & Hsome). intros s named.
  assert (is_Some (globalStorageOptions g1) ↔ local s = true) as Hopts.
  { unfold s. destruct (local (globalSettings g)) eqn:Hl; [split; [done|]; intros _; by apply Hsome, Hdetect|].
    rewrite Hnone by done. split; [by intros []|done]. }
  clear Hbefore Hnone Hsome Hdetect.
  destruct (getFarm_made _ _ _ _ _ Hfarm) as (wb & Hnew & Hname & Hwb). rewrite Hs in Hname, Hwb.
  change (∀ d, wantBuilder wb d = true ↔ named d) in Hwb.
  destruct (newFarm_made _ _ _ _ _ _ Hnew)
    as (destinations & w3 & ls & rs & Hconfig & Hnd & Hls & Hc & Hf & Hstore & Hk).
  rewrite Hstore. split_and!; [done..| |].
  - intros Hl reference o. unfold Build.make_list_builder. rewrite Hstore.
    destruct (globalStorageOptions g1); [|by rewrite orb_true_r].
    destruct Hopts as [Hopts _]. rewrite Hopts in Hl by (by eexists). done.
  - exists destinations, w3, ls, rs. split_and!; [done..| | |done|done|done].
    + intros d. by rewrite Hls, <-Hwb.
    + rewrite Hls, <-Hwb, <-Hopts. done.
Qed.

End FarmFacts.

(** ** Flags without effect *)

Create HintDb blind.

Section Ignored.
Context `{!RangeOracle} `{!Scheduler} `{!Libimage} {B E LB Store W : Type}.
Context `{!ImageBuilder B E W} `{!FarmEnv B W} `{!ListBuilders LB B W} `{!CommandHost Store W}.
Implicit Types (g : globals B Store) (w : W).
Context (isolation network : string).

(** Other values of the flags --isolation and --network. *)
Definition with_flags g : globals B Store :=
  let o := buildOpts g in
  set_buildOpts (mk_buildOptions (output o) (dockerfiles o) (bo_options o) (platforms o)
    (mk_build_cli (BuildArg (cli o)) (cli_CacheFrom (cli o)) (cli_CacheTo (cli o))
       isolation network)) g.

(** What a run leaves, with the other values. *)
Definition lift_flags {A} (r : outcome A * (globals B Store * W)) : outcome A * (globals B Store * W) :=
  (r.1, (with_flags r.2.1, r.2.2)).

Definition not_none g : Prop := Network (cli (buildOpts g)) ≠ "none".

(** [m] does the same for both, and keeps the network from becoming none. *)
Definition blind {A} (m : Go (globals B Store * W) A) : Prop :=
  ∀ g w, not_none g →
    not_none (m (g, w)).2.1 ∧ m (with_flags g, w) = lift_flags (m (g, w)).

Lemma blind_ret {A} (a : A) : blind (mret a).
Proof. by intros g w Hg. Qed.

Lemma blind_bind {A C} (m : Go (globals B Store * W) A) (k : A → Go (globals B Store * W) C) :
  blind m → (∀ a, blind (k a)) → blind (m ≫= k).
Proof.
  intros Hm Hk g w Hg. destruct (Hm g w Hg) as [Hg1 Hr]. unfold mbind, go_bind. rewrite Hr.
  unfold lift_flags at 1. destruct (m (g, w)) as [[a|msg] [g1 w1]]; simpl in *; [|done].
  by apply Hk.
Qed.

Lemma blind_or_return m k : blind m → blind k → blind (m ;;? k).
Proof. intros Hm Hk. apply blind_bind; [done|]. intros [e|]; [apply blind_ret|done]. Qed.

(** A variable is read, and what is done with it does not depend on the
    flags. *)
Lemma blind_gets {A C} (f : globals B Store → A) (k : A → Go (globals B Store * W) C) :
  (∀ g, not_none g → k (f (with_flags g)) = k (f g)) → (∀ a, blind (k a)) → blind (a ← gets f; k a).
Proof.
  intros Hf Hk g w Hg. change ((a ← gets f; k a) (with_flags g, w)) with (k (f (with_flags g)) (with_flags g, w)).
  rewrite Hf by done. by apply Hk.
Qed.

Lemma blind_assign f :
  (∀ g, f (with_flags g) = with_flags (f g)) → (∀ g, not_none g → not_none (f g)) →
  blind (assign (B := B) (Store := Store) (W := W) f).
Proof. intros Hf Hn g w Hg. split; [by apply Hn|]. unfold assign, lift_flags. simpl. by rewrite Hf. Qed.

Lemma blind_outside {A} (m : Go W A) : blind (outside m).
Proof.
  intros g w Hg. unfold outside, lift_flags. cbn. by destruct (m w).
Qed.

Lemma blind_panic {A} msg : blind (go_panic msg : Go _ A).
Proof. by intros g w Hg. Qed.

Lemma blind_on_options f : blind (on_options f).
Proof. by apply blind_assign. Qed.

Hypothesis network_not_none : network ≠ "none".

Hint Resolve blind_ret blind_outside blind_panic blind_on_options : blind.

Ltac solve_blind :=
  repeat first
    [ solve [auto with blind]
    | apply blind_or_return
    | apply blind_gets; [done|intros ?]
    | apply blind_bind; [|intros ?]
    | case_match ].

Lemma blind_set_context args : blind (set_context args).
Proof. unfold set_context. solve_blind. Qed.

Lemma blind_add_references add refs : blind (add_references add refs).
Proof. induction refs as [|ref refs IH]; simpl; solve_blind. Qed.

Lemma blind_set_network : blind set_network.
Proof.
  apply blind_gets; [|intros o; solve_blind]. intros g Hg. by rewrite !decide_False.
Qed.

Lemma blind_set_dockerfile : blind set_dockerfile.
Proof. unfold set_dockerfile. solve_blind. by apply blind_assign. Qed.

Lemma blind_with_farm k : (∀ f, blind (k f)) → blind (with_farm k).
Proof.
  intros Hk. unfold with_farm, getFarm. solve_blind. by apply blind_assign.
Qed.

Lemma blind_buildCmd args : blind (buildCmd args).
Proof.
  unfold buildCmd. repeat apply blind_or_return;
    auto using blind_set_context, blind_set_network, blind_set_dockerfile.
  - unfold check_output. solve_blind.
  - unfold set_args. solve_blind.
  - apply blind_gets; [done|]. intros o. apply blind_add_references.
  - apply blind_gets; [done|]. intros o. apply blind_add_references.
  - apply blind_with_farm. intros f. unfold schedule_and_build. solve_blind.
Qed.
End Ignored.

(** C24: The build command does the same whatever --isolation is, and whatever
    --network is unless it is none: neither the calls it makes, nor their
    order, nor what it returns depend on them, and no value is refused. *)
Theorem flags_without_effect `{!RangeOracle, !Scheduler, !Libimage, !ImageBuilder B E W, !FarmEnv B W,
    !ListBuilders LB B W, !CommandHost Store W} isolation network args
    (g : globals B Store) (w : W)
    (Hgiven : Network (cli (buildOpts g)) ≠ "none") (Hother : network ≠ "none") :
  buildCmd args (with_flags isolation network g, w) =
  let '(r, (g', w')) := buildCmd args (g, w) in (r, (with_flags isolation network g', w')).
Proof.
  destruct (blind_buildCmd isolation network Hother args g w Hgiven) as [_ ->].
  by destruct (buildCmd args (g, w)) as [r [g' w']].
Qed.

(** ** Witnesses *)

#[local] Existing Instances Build.static_libimage Build.static_lists.

#[export] Instance static_commands : CommandHost () log := {
  DefaultStoreOptionsAutoDetectUID := mret (inl (mk_StoreOptions "/graph" "/run" "overlay" []));
  GetStore _ := mret (inl tt);
  store_Shutdown _ := mret None;
  Getwd := mret (inl "/home/user");
  DiscoverContainerfile dir := mret (inl (str_app dir "/Containerfile"));
  ParseNamed name := inl name;
  Help := mret None
}.

(** [buildfarm build -t dir:out --platform linux/amd64 src/..], with the
    settings [s]. *)
Definition start (s : settings) : globals static () :=
  mk_globals None None s None
    (mk_buildOptions "dir:out" [] (bo_options default_buildOpts) ["linux/amd64"]
       (cli default_buildOpts))
    default_pruneOptions InfoLevel [] [].

Definition quiet_log : log := [].

Definition static_state : Type := globals static () * log.

Definition built : outcome (option error) * static_state :=
  buildCmd (LB := ()) ["src/.."] (start default_settings, quiet_log).

Lemma static_Getwd : ∀ (w : log) d w', Getwd (Store := ()) w = (Ret (inl d), w') → IsAbs d = true.
Proof. by intros w d w' [= <- <-]. Qed.

Lemma built_ok :
  buildCmd (LB := ()) ["src/.."] (start default_settings, quiet_log) =
  (Ret None, (built.2.1, built.2.2)).
Proof. vm_compute. reflexivity. Qed.

Lemma buildCmd_success_witness :
  built.2.2 = [("east", [mk_Platform "linux" "amd64" EmptyString])] ∧
  ContextDirectory (bo_options (buildOpts built.2.1)) = "/home/user" ∧
  dockerfiles (buildOpts built.2.1) = ["/home/user/Containerfile"] ∧
  IsAbs (ContextDirectory (bo_options (buildOpts built.2.1))) = true ∧
  (∃ f, globalFarm built.2.1 = Some f) ∧
  (main (LB := ()) BuildCommand ["src/.."] (start default_settings, quiet_log)).1 = Ret 0%Z.
Proof.
  destruct (buildCmd_success static_Getwd ["src/.."] (start default_settings) quiet_log
    built.2.1 built.2.2 built_ok) as (_ & _ & _ & Habs & _ & f & _ & _ & _ & Hf & _).
  split; [vm_compute; reflexivity|]. split; [vm_compute; reflexivity|].
  split; [vm_compute; reflexivity|]. split; [exact Habs|]. split; [exists f; exact Hf|].
  vm_compute. reflexivity.
Defined.

Lemma build_args_last_wins_witness :
  Forall (λ kv : string * option string, contains_byte "=" kv.1 = false)
    [("a", Some "1"); ("b", Some "x=y"); ("a", None)] ∧
  foldl add_build_arg None ["a=1"; "b=x=y"; "a"] = Some {["b" := "x=y"]} ∧
  arg_value (foldl add_build_arg None ["a=1"; "b=x=y"; "a"]) "a" = None.
Proof.
  assert (Forall (λ kv : string * option string, contains_byte "=" kv.1 = false)
    [("a", Some "1"); ("b", Some "x=y"); ("a", None)]) as Hnames by repeat constructor.
  split; [exact Hnames|]. split; [vm_compute; reflexivity|].
  exact (build_args_last_wins None _ "a" Hnames).
Defined.

(** The farm of the other commands. *)
Definition plain_farm : Farm static :=
  mk_Farm EmptyString (NewFlagSet "buildfarm") None
    {["east" := mk_static "east" (mk_Info ["linux/amd64"] [])]}.

Lemma plain_prepared :
  (set_farm_argument [];; getFarm) (start default_settings, quiet_log) =
  (Ret (inl plain_farm), (start default_settings, quiet_log)).
Proof. vm_compute. reflexivity. Qed.

Lemma statusCmd_prints_witness :
  (set_farm_argument [];; getFarm) (start default_settings, quiet_log) =
    (Ret (inl plain_farm), (start default_settings, quiet_log)) ∧
  (statusCmd [] (start default_settings, quiet_log)).1 = Ret None ∧
  stdout (statusCmd [] (start default_settings, quiet_log)).2.1 = [Text_line "east: ready"].
Proof.
  split; [exact plain_prepared|].
  destruct (statusCmd_prints [] (start default_settings) quiet_log plain_farm
    (start default_settings) quiet_log plain_prepared) as [_|_];
    (split; vm_compute; reflexivity).
Defined.

Lemma platformsCmd_prints_witness :
  platforms_outcome plain_farm (set_farm (Some plain_farm) (start default_settings)) quiet_log
    (platformsCmd [] (start default_settings, quiet_log)) ∧
  stdout (platformsCmd [] (start default_settings, quiet_log)).2.1 =
    [Text "Native: "; Text "linux/amd64"; Text_line EmptyString;
     Text "Emulated: "; Text_line "(none)"].
Proof.
  split; [|vm_compute; reflexivity].
  exact (platformsCmd_prints [] (start default_settings) quiet_log plain_farm
    (start default_settings) quiet_log plain_prepared).
Defined.

(** With [--local --node east] the local system is not in the farm. *)
Definition local_and_east : settings := mk_settings false true EmptyString ["east"].
Definition local_ready : globals static () :=
  set_store (Some tt) (set_storage (Some (mk_StoreOptions "/graph" "/run" "overlay" []))
    (start local_and_east)).
Definition east_farm : Farm static :=
  mk_Farm EmptyString (NewFlagSet "buildfarm") (Some (mk_StoreOptions "/graph" "/run" "overlay" []))
    {["east" := mk_static "east" (mk_Info ["linux/amd64"] [])]}.

Lemma farm_of_command_witness :
  before (start local_and_east, quiet_log) = (Ret None, (local_ready, quiet_log)) ∧
  getFarm (local_ready, quiet_log) = (Ret (inl east_farm), (local_ready, quiet_log)) ∧
  is_Some (storeOptions east_farm) ∧
  ∃ ls rs, LocalConnection ∉ ls ∧
    call_all (connect (NewFlagSet "buildfarm") (storeOptions east_farm)) ls quiet_log =
      Some (rs, quiet_log).
Proof.
  assert (before (start local_and_east, quiet_log) = (Ret None, (local_ready, quiet_log))) as Hb
    by reflexivity.
  assert (getFarm (local_ready, quiet_log) = (Ret (inl east_farm), (local_ready, quiet_log))) as Hf
    by (vm_compute; reflexivity).
  split; [exact Hb|]. split; [exact Hf|].
  destruct (farm_of_command (LB := ()) (start local_and_east) quiet_log local_ready quiet_log
    east_farm local_ready quiet_log Hb ltac:(intros _; eexists _, _; reflexivity) Hf)
    as (_ & Hstore & _ & destinations & w3 & ls & rs & Hconfig & _ & _ & Hlocal & Hc & _).
  split; [by apply Hstore|]. exists ls, rs. split.
  - rewrite Hlocal. intros [_ [Hn|Hin]]; [discriminate Hn|].
    apply list_elem_of_singleton in Hin. discriminate Hin.
  - injection Hconfig as _ <-. exact Hc.
Defined.

Lemma flags_without_effect_witness :
  Network (cli (buildOpts (start default_settings))) ≠ "none" ∧ "host" ≠ "none" ∧
  buildCmd (LB := ()) ["src/.."]
    (with_flags "chroot" "host" (start default_settings), quiet_log) =
  (let '(r, (g, w)) := buildCmd (LB := ()) ["src/.."] (start default_settings, quiet_log) in
   (r, (with_flags "chroot" "host" g, w))).
Proof.
  assert (Network (cli (buildOpts (start default_settings))) ≠ "none") as H1 by discriminate.
  assert ("host" ≠ "none") as H2 by discriminate.
  split; [exact H1|]. split; [exact H2|].
  exact (flags_without_effect "chroot" "host" ["src/.."] (start default_settings) quiet_log H1 H2).
Defined.
