(* ===== verification/Trace.v ===== *)
(** * Runs and the calls they make

    The calls to builders and to manifest lists as events, an implementation
    of the interfaces which behaves as a given one and records every call,
    and rules to reason about the events a computation records. *)

From S2P Require Import Prelude MultiError Group Types Engine Farm FarmBuild Lists Commands.

(** ** Reasoning about events *)

Section Emits.
Context {S Ev : Type} (trace : S → list Ev).

(** [m], run from [s], adds events to the trace which satisfy [P] together
    with how [m] ends and the state it leaves. *)
Definition emits {A} (m : Go S A) (s : S) (P : outcome A → S → list Ev → Prop) : Prop :=
  ∃ es, trace (m s).2 = trace s ++ es ∧ P (m s).1 (m s).2 es.

Lemma emits_ret {A} (a : A) s (P : outcome A → S → list Ev → Prop) :
  P (Ret a) s [] → emits (mret a) s P.
Proof. intros HP. exists []. split; [by rewrite app_nil_r|done]. Qed.

Lemma emits_mono {A} (m : Go S A) s (P Q : outcome A → S → list Ev → Prop) :
  emits m s P → (∀ r s' es, P r s' es → Q r s' es) → emits m s Q.
Proof. intros (es & Hes & HP) HPQ. exists es. auto. Qed.

Lemma emits_quiet {A} (m : Go S A) s : quiet trace m → emits m s (λ r s' es, es = [] ∧ m s = (r, s')).
Proof.
  intros Hm. exists []. rewrite app_nil_r. split_and!; [apply Hm|done|by destruct (m s)].
Qed.

Lemma emits_bind {A B} (m : Go S A) (k : A → Go S B) s Q P :
  emits m s Q →
  (∀ a s' es, Q (Ret a) s' es → emits (k a) s' (λ r s'' es', P r s'' (es ++ es'))) →
  (∀ msg s' es, Q (Panic msg) s' es → P (Panic msg) s' es) →
  emits (m ≫= k) s P.
Proof.
  intros (es & Hes & HQ) Hk Hp. unfold emits, mbind, go_bind.
  destruct (m s) as [[a|msg] s1]; simpl in *; [|exists es; auto].
  destruct (Hk a s1 es HQ) as (es' & Hes' & HP). exists (es ++ es').
  by rewrite Hes', Hes, (assoc_L (++)).
Qed.

Lemma emits_quiet_bind {A B} (m : Go S A) (k : A → Go S B) s P :
  quiet trace m → (∀ a s', m s = (Ret a, s') → emits (k a) s' P) →
  (∀ msg s', P (Panic msg) s' []) → emits (m ≫= k) s P.
Proof.
  intros Hm Hk Hp. eapply emits_bind; [by apply emits_quiet| |by intros msg s' es [-> _]].
  intros a s' es [-> Ha]. by apply Hk.
Qed.

(** The events of calls made one after the other. *)
Lemma call_all_emits {K A} (call : K → Go S A) (C : K → A → list Ev → Prop) ls s rs s' :
  (∀ l s, l ∈ ls → emits (call l) s (λ r _ es, ∀ a, r = Ret a → C l a es)) →
  call_all call ls s = Some (rs, s') →
  ∃ ess, Forall3 C ls rs ess ∧ trace s' = trace s ++ concat ess.
Proof.
  revert s rs. induction ls as [|l ls IH]; intros s rs HC Hc; simplify_eq/=.
  { exists []. split; [constructor|by rewrite app_nil_r]. }
  destruct (HC l s) as (es & Hes & HCl); [left|].
  destruct (call l s) as [[a|msg] s1]; [|done].
  destruct (call_all call ls s1) as [[rs1 s2]|] eqn:Hr; [|done]. simplify_eq/=.
  destruct (IH s1 rs1) as (ess & Hess & Htr); [intros; apply HC; by right|done|].
  exists (es :: ess). split; [constructor; auto|]. simpl. by rewrite Htr, Hes, (assoc_L (++)).
Qed.

(** The events of a group: those of its calls, in some order; all of them
    satisfy what each does, also when a call panics. *)
Lemma run_group_each {K A X} (call : K → Go S A) (k : K → A → call_result X) sched x0 ls s
    (each : Ev → Prop) :
  (∀ l a msg, k l a ≠ Crash msg) →
  (∀ l s, l ∈ ls → emits (call l) s (λ _ _ es, Forall each es)) →
  emits (run_group sched x0 (goroutines call k ls)) s (λ _ _ es, Forall each es).
Proof.
  intros Hk Hc.
  apply (run_group_inv call k Hk (λ s', ∃ es, trace s' = trace s ++ es ∧ Forall each es)).
  - intros l s1 Hl (es & Hes & Heach). destruct (Hc l s1 Hl) as (es' & Hes' & Heach').
    exists (es ++ es'). rewrite Hes', Hes, (assoc_L (++)). split; [done|]. by apply Forall_app.
  - exists []. by rewrite app_nil_r.
Qed.

Lemma run_group_emits {K A X} (call : K → Go S A) (k : K → A → call_result X)
    (C : K → A → list Ev → Prop) (each : Ev → Prop) sched x0 ls s :
  (∀ l a msg, k l a ≠ Crash msg) →
  (∀ l s, l ∈ ls → emits (call l) s (λ r _ es, Forall each es ∧ ∀ a, r = Ret a → C l a es)) →
  emits (run_group sched x0 (goroutines call k ls)) s (λ r _ es,
    Forall each es ∧ ∀ xe, r = Ret xe →
      ∃ ls' rs ess, ls' ≡ₚ ls ∧ Forall3 C ls' rs ess ∧ es = concat ess).
Proof.
  intros Hk Hc.
  destruct (run_group_each call k sched x0 ls s each) as (es & Hes & Heach); [done| |].
  { intros l s1 Hl. eapply emits_mono; [by apply Hc|]. by intros r s' es [? _]. }
  exists es. split_and!; [done..|]. intros xe Hr.
  destruct (run_group_spec call k Hk sched x0 ls s)
    as [(ls' & rs & P & errs & s' & Hls & Hcall & _ & _ & Hrun)|(msg & s' & Hrun & _)];
    rewrite Hrun in Hes, Hr; [|done].
  destruct (call_all_emits call C ls' s rs s') as (ess & Hess & Htr); [|done|].
  { intros l s1 Hl. eapply emits_mono; [apply Hc; by rewrite <-Hls|]. by intros r s2 es' [_ ?]. }
  exists ls', rs, ess. split_and!; [done..|]. simpl in Hes. rewrite Htr in Hes. by apply app_inv_head in Hes.
Qed.

(** For goroutines which return early: with what the calls returned. *)
Lemma run_group_early_emits {K A X} (call : K → Go S (A * option error))
    (writes : K → A → list (X → X)) (C : K → A * option error → list Ev → Prop)
    (each : Ev → Prop) sched x0 ls s :
  (∀ l s, l ∈ ls → emits (call l) s (λ r _ es, Forall each es ∧ ∀ a, r = Ret a → C l a es)) →
  emits (run_group sched x0 (goroutines call (early writes) ls)) s (λ r _ es,
    Forall each es ∧ ∀ x errs, r = Ret (x, errs) →
      ∃ ls' rs ess done, ls' ≡ₚ ls ∧ Forall3 C ls' rs ess ∧ es = concat ess ∧
        done ≡ₚ successes ls' rs ∧ default [] errs ≡ₚ failures rs ∧
        x = foldl (λ x la, run_writes x (writes la.1 la.2)) x0 done).
Proof.
  intros Hc.
  destruct (run_group_each call (early writes) sched x0 ls s each) as (es & Hes & Heach).
  { by intros l [a [e|]] msg. }
  { intros l s1 Hl. eapply emits_mono; [by apply Hc|]. by intros r s' es [? _]. }
  exists es. split_and!; [done..|]. intros x errs Hr.
  destruct (run_group_early call writes sched x0 ls s)
    as [(ls' & rs & got & errs' & s' & Hls & Hcall & Hdone & Herrs & Hrun)|(msg & s' & Hrun & _)];
    rewrite Hrun in Hes, Hr; [|done]. injection Hr as <- <-.
  destruct (call_all_emits call C ls' s rs s') as (ess & Hess & Htr); [|done|].
  { intros l s1 Hl. eapply emits_mono; [apply Hc; by rewrite <-Hls|]. by intros r s2 es' [_ ?]. }
  exists ls', rs, ess, got. split_and!; [done..| |done|done|done].
  simpl in Hes. rewrite Htr in Hes. by apply app_inv_head in Hes.
Qed.
End Emits.

(** The results of calls none of which failed, with their events. *)
Lemma Forall3_successes {K A Ev} (C : K → A * option error → list Ev → Prop) ls rs ess :
  Forall3 C ls rs ess → failures rs = [] →
  (∀ l a e es, C l (a, Some e) es → flatten_one e ≠ []) →
  (successes ls rs).*1 = ls ∧ Forall2 (λ la es, C la.1 (la.2, None) es) (successes ls rs) ess.
Proof.
  intros HC Hf Hne. unfold successes. induction HC as [|l [a [e|]] es ls rs ess HCl HC IH]; csimpl.
  - split; constructor.
  - exfalso. unfold failures in Hf. csimpl in Hf. apply app_nil in Hf as [Hf _]. by eapply Hne.
  - destruct (IH Hf) as [IH1 IH2]. split; [by rewrite IH1|by constructor].
Qed.

Lemma Forall2_concat {A B} (R : A → B → Prop) l ess :
  Forall2 (λ x es, ∃ e, es = [e] ∧ R x e) l ess → Forall2 R l (concat ess).
Proof. induction 1 as [|x es l ess (e & -> & He) _ IH]; simpl; by constructor. Qed.

Lemma Forall2_elem_l {A B} (R : A → B → Prop) l k x :
  Forall2 R l k → x ∈ l → ∃ y, y ∈ k ∧ R x y.
Proof. induction 1; intros Hx; set_solver. Qed.

Lemma Forall2_elem_r {A B} (R : A → B → Prop) l k y :
  Forall2 R l k → y ∈ k → ∃ x, x ∈ l ∧ R x y.
Proof. induction 1; intros Hx; set_solver. Qed.

(** ** Events *)

Section Events.
Context {B E Ref R L : Type}.

(** The calls, with their arguments and how they ended. *)
Inductive event :=
  | EvQuery (b : B)
  | EvBuild (b : B) (containerFiles : list string) (options : BuildOptions)
      (r : outcome (BuildReport * option error))
  | EvPullToFile (b : B) (options : PullToFileOptions) (r : outcome (string * option error))
  | EvPullToLocal (b : B) (options : PullToLocalOptions E) (r : outcome (string * option error))
  | EvRemoveImage (b : B) (options : RemoveImageOptions) (r : outcome (option error))
  | EvPruneImages (b : B)
  | EvDone (b : B)
  | EvMkdirAll (dir : string) (r : outcome (option error))
  | EvLookupList (runtime : R) (name : string) (r : outcome (L + error))
  | EvCreateList (runtime : R) (name : string) (r : outcome (L + error))
  | EvCopy (output : Ref) (refs : list Ref) (format : string) (r : outcome (option error))
  | EvRemoveInstance (l : L) (digest : string) (r : outcome (option error))
  | EvAdd (l : L) (ref : string) (r : outcome (string + error)).

(** The stages of a build command, in the order in which they come. *)
Inductive stage :=
  | Asking (** questions to the builders, for the schedule *)
  | Building (** on the builders *)
  | Opening (** the destination: its directory is made, or the named list
                looked up and, if it is not there, created with no members *)
  | Pulling (** the images from their builders *)
  | Removing (** the images on their builders *)
  | Changing (** what the list consists of, where its users find it *).

(** The stage a call belongs to; the last two are calls of other commands. *)
Definition stage_of (e : event) : option stage :=
  match e with
  | EvQuery _ => Some Asking
  | EvBuild _ _ _ _ => Some Building
  | EvMkdirAll _ _ | EvLookupList _ _ _ | EvCreateList _ _ _ => Some Opening
  | EvPullToFile _ _ _ | EvPullToLocal _ _ _ => Some Pulling
  | EvRemoveImage _ _ _ => Some Removing
  | EvCopy _ _ _ _ | EvRemoveInstance _ _ _ | EvAdd _ _ _ => Some Changing
  | EvPruneImages _ | EvDone _ => None
  end.

Definition in_stage (st : stage) (e : event) : Prop := stage_of e = Some st.
End Events.
Arguments event : clear implicits.

(** ** Recording

    The interfaces over the world [W] with a trace: every operation does what
    it does over [W], and the calls to builders and those which make,
    find or change the list are recorded when they end. *)

Section Recorded.
Context {Ref M R B E L Store W : Type}.
Context `{!ImageBuilder B E W} `{!ListHost Ref M R L E W} `{!FarmEnv B W} `{!CommandHost Store W}.

Abbreviation ev := (event B E Ref R L).
Abbreviation recorded := (W * list ev)%type.

Definition record {A} (m : Go W A) (e : outcome A → ev) : Go recorded A := λ wt,
  let '(r, w) := m wt.1 in (r, (w, wt.2 ++ [e r])).

Definition unrecorded {A} (m : Go W A) : Go recorded A := λ wt,
  let '(r, w) := m wt.1 in (r, (w, wt.2)).

Definition on_world (f : W → W) (wt : recorded) : recorded := (f wt.1, wt.2).

#[export] Instance recorded_builder : ImageBuilder B E recorded := {
  Driver := Driver;
  Name := Name;
  Status b := record (Types.Status b) (λ _, EvQuery b);
  GetInfo b o := record (GetInfo b o) (λ _, EvQuery b);
  NativePlatforms b o := record (Types.NativePlatforms b o) (λ _, EvQuery b);
  EmulatedPlatforms b o := record (Types.EmulatedPlatforms b o) (λ _, EvQuery b);
  Build b reference cf o := record (Types.Build b reference cf o) (EvBuild b cf o);
  PullToFile b o := record (PullToFile b o) (EvPullToFile b o);
  PullToLocal b o := record (PullToLocal b o) (EvPullToLocal b o);
  RemoveImage b o := record (RemoveImage b o) (EvRemoveImage b o);
  PruneImages b o := record (Types.PruneImages b o) (λ _, EvPruneImages b);
  Done b := record (Types.Done b) (λ _, EvDone b)
}.

#[export] Instance recorded_env : FarmEnv B recorded := {
  ReadCustomConfig := unrecorded ReadCustomConfig;
  NewPodmanRemoteImageBuilder flags name := unrecorded (NewPodmanRemoteImageBuilder flags name);
  NewPodmanLocalImageBuilder flags o := unrecorded (NewPodmanLocalImageBuilder flags o)
}.

#[export] Instance recorded_list_host : ListHost Ref M R L E recorded := {
  lh_ReadCustomConfig := unrecorded lh_ReadCustomConfig;
  DefaultPolicyContext := unrecorded DefaultPolicyContext;
  TempDir := unrecorded TempDir;
  RemoveAll name := on_world (RemoveAll name);
  TempFileIn dir pattern := unrecorded (TempFileIn dir pattern);
  MkdirAll dir := record (MkdirAll dir) (EvMkdirAll dir);
  WriteFile path content := unrecorded (WriteFile path content);
  ParseImageName := ParseImageName;
  manifests_Create := manifests_Create;
  manifests_Add m ref := unrecorded (manifests_Add m ref);
  Serialize := Serialize;
  copy_Image output input refs format :=
    record (copy_Image output input refs format) (EvCopy output refs format);
  lh_NewImageEngine config := unrecorded (lh_NewImageEngine config);
  lh_Shutdown e := on_world (lh_Shutdown e);
  RuntimeFromStoreOptions o := unrecorded (RuntimeFromStoreOptions o);
  runtime_Shutdown r := on_world (runtime_Shutdown r);
  LookupManifestList r name := record (LookupManifestList r name) (EvLookupList r name);
  CreateManifestList r name := record (CreateManifestList r name) (EvCreateList r name);
  list_Inspect l := unrecorded (list_Inspect l);
  list_RemoveInstance l d := record (list_RemoveInstance l d) (EvRemoveInstance l d);
  list_Add l ref := record (list_Add l ref) (EvAdd l ref)
}.

#[export] Instance recorded_commands : CommandHost Store recorded := {
  DefaultStoreOptionsAutoDetectUID := unrecorded (DefaultStoreOptionsAutoDetectUID (Store := Store));
  GetStore o := unrecorded (GetStore o);
  store_Shutdown s := unrecorded (store_Shutdown s);
  Getwd := unrecorded (Getwd (Store := Store));
  DiscoverContainerfile dir := unrecorded (DiscoverContainerfile (Store := Store) dir);
  ParseNamed := ParseNamed (Store := Store) (W := W);
  Help := unrecorded (Help (Store := Store))
}.

Lemma record_emits {A} (m : Go W A) (e : outcome A → ev) wt :
  emits snd (record m e) wt (λ r _ es, es = [e r]).
Proof. unfold emits, record. destruct (m wt.1) as [r w]. by exists [e r]. Qed.

Lemma unrecorded_quiet {A} (m : Go W A) : quiet snd (unrecorded m).
Proof. intros wt. unfold unrecorded. by destruct (m wt.1). Qed.

(** What is done over the world alone is done the same. *)
Lemma record_run {A} (m : Go W A) (e : outcome A → ev) w t :
  record m e (w, t) = ((m w).1, ((m w).2, t ++ [e (m w).1])).
Proof. unfold record. simpl. by destruct (m w). Qed.

Lemma defer_emits {A} (f : W → W) (m : Go recorded A) wt P :
  emits snd m wt (λ r _ es, P r es) → emits snd (defer (on_world f) m) wt (λ r _ es, P r es).
Proof.
  intros (es & Hes & HP). exists es. unfold defer. destruct (m wt) as [r wt']. simpl in *.
  by destruct (killed r).
Qed.
End Recorded.
