(* ===== verification/Simulate.v ===== *)
(** * Recording changes nothing

    A computation over one world simulates one over another if they return
    the same and leave related worlds.  Groups of goroutines preserve this,
    whatever the interleaving, and so does the program: over the recorded
    world of Trace.v it does what it does over the world which is
    recorded. *)

From S2P Require Import Prelude GoStrings MultiError Group Types Engine Farm FarmBuild Lists Paths Commands Trace.

(** ** Simulations *)

Section Simulate.
Context {S S' : Type} (erase : S → S').

Definition simulates {A} (m : Go S A) (m' : Go S' A) : Prop :=
  ∀ s, m' (erase s) = ((m s).1, erase (m s).2).

Lemma simulates_ret {A} (a : A) : simulates (mret a) (mret a).
Proof. done. Qed.

Lemma simulates_panic {A} msg : simulates (go_panic msg : Go S A) (go_panic msg).
Proof. done. Qed.

Lemma simulates_lift {A} (o : outcome A) : simulates (go_lift o) (go_lift o).
Proof. done. Qed.

Lemma simulates_bind {A B} (m : Go S A) m' (k : A → Go S B) k' :
  simulates m m' → (∀ a, simulates (k a) (k' a)) → simulates (m ≫= k) (m' ≫= k').
Proof.
  intros Hm Hk s. unfold mbind, go_bind. rewrite Hm. destruct (m s) as [[a|msg] s1]; [apply Hk|done].
Qed.

Lemma simulates_defer {A} (f : S → S) (f' : S' → S') (m : Go S A) m' :
  (∀ s, f' (erase s) = erase (f s)) → simulates m m' → simulates (defer f m) (defer f' m').
Proof.
  intros Hf Hm s. unfold defer. rewrite Hm. destruct (m s) as [r s1]. simpl.
  destruct (killed r); [done|]. by rewrite Hf.
Qed.

(** *** Groups *)

Context {X : Type}.

Inductive routine_sim : @goroutine S X → @goroutine S' X → Prop :=
  | sim_running t t' : (∀ s, t' (erase s) = ((t s).1, erase (t s).2)) →
      routine_sim (Running t) (Running t')
  | sim_acquiring ws e : routine_sim (Acquiring ws e) (Acquiring ws e)
  | sim_holding ws e : routine_sim (Holding ws e) (Holding ws e)
  | sim_returned e : routine_sim (Returned e) (Returned e)
  | sim_finished : routine_sim Finished Finished.

Inductive group_sim : @group S X → @group S' X → Prop :=
  | sim_group s x l e rs rs' p : Forall2 routine_sim rs rs' →
      group_sim (mk_group s x l e rs p) (mk_group (erase s) x l e rs' p).

Lemma gtry_sim g g' i : group_sim g g' → group_sim (gtry g i) (gtry g' i).
Proof.
  intros [s x l e rs rs' p Hrs]. unfold gtry, gstep, set_routine. cbn [g_panic g_routines g_world g_locked g_shared g_err].
  destruct p as [p|]; [by constructor|].
  destruct (proj1 (Forall2_lookup _ _ _) Hrs i) as [r r' Hr|]; [|by constructor].
  destruct Hr as [t t' Ht| | [|f ws] e'|e'|]; cbn.
  - rewrite Ht. destruct (t s) as [[|ws e'|msg] s1]; simpl; constructor; apply Forall2_insert; auto; constructor.
  - destruct l; simpl; constructor; [done|]. apply Forall2_insert; auto; constructor.
  - constructor. apply Forall2_insert; auto; constructor.
  - constructor. apply Forall2_insert; auto; constructor.
  - constructor. apply Forall2_insert; auto; constructor.
  - by constructor.
Qed.

Lemma grun_sim sched g g' : group_sim g g' → group_sim (grun sched g) (grun sched g').
Proof.
  unfold grun. revert g g'. induction sched as [|i sched IH]; intros g g' Hg; [done|].
  by apply IH, gtry_sim.
Qed.

Lemma group_sim_sizes g g' :
  group_sim g g' → gsize g' = gsize g ∧ all_routines g' = all_routines g.
Proof.
  intros [s x l e rs rs' p Hrs]. unfold gsize, all_routines. cbn. split.
  - induction Hrs as [|r r' rs rs' Hr _ IH]; simpl; [done|]. by destruct Hr; simpl; rewrite IH.
  - by rewrite (Forall2_length _ _ _ Hrs).
Qed.

Lemma Wait_sim sched g g' : group_sim g g' → group_sim (Wait sched g) (Wait sched g').
Proof.
  intros Hg. unfold Wait, drain. apply (grun_sim sched) in Hg.
  destruct (group_sim_sizes _ _ Hg) as [_ ->]. apply (grun_sim (all_routines (grun sched g))) in Hg.
  destruct (group_sim_sizes _ _ Hg) as [-> ->]. by apply grun_sim.
Qed.

Lemma simulates_group {K A} sched (x0 : X) (call : K → Go S A) (call' : K → Go S' A) k ls :
  (∀ l, simulates (call l) (call' l)) →
  simulates (run_group sched x0 (goroutines call k ls)) (run_group sched x0 (goroutines call' k ls)).
Proof.
  intros Hc s. unfold run_group.
  assert (group_sim (Go_all s x0 (goroutines call k ls)) (Go_all (erase s) x0 (goroutines call' k ls))) as Hg.
  { constructor. unfold goroutines. induction ls as [|l ls IH]; csimpl; constructor; [|done].
    constructor. intros s1. unfold goroutine_of. rewrite Hc. by destruct (call l s1) as [[a|msg] s2]. }
  apply (Wait_sim sched) in Hg. destruct Hg as [s1 x l e rs rs' [p|] _]; done.
Qed.
End Simulate.

(** ** The program over the recorded world *)

Create HintDb sim.
#[export] Hint Resolve simulates_ret simulates_panic simulates_lift : sim.

Ltac solve_sim :=
  repeat first
    [ solve [auto with sim]
    | apply simulates_bind; [|intros ?]
    | apply simulates_group; intros ?
    | case_match ].

Section Recorded.
Context `{!RangeOracle} `{!Scheduler} `{!Libimage} {Ref M R B E L Store W : Type}.
Context `{BI : !ImageBuilder B E W} `{LH : !ListHost Ref M R L E W}.
Context `{FE : !FarmEnv B W} `{CH : !CommandHost Store W}.
Abbreviation rw := (W * list (event B E Ref R L))%type.
Abbreviation world := (@fst W (list (event B E Ref R L))).

Lemma simulates_record {A} (m : Go W A) e : simulates world (record m e) m.
Proof. intros [w t]. by rewrite record_run; simpl; destruct (m w). Qed.

Lemma simulates_unrecorded {A} (m : Go W A) : simulates world (unrecorded m) m.
Proof. intros [w t]. unfold unrecorded. simpl. by destruct (m w). Qed.

Hint Resolve simulates_record simulates_unrecorded : sim.

(** The methods of the interfaces. *)
Ltac method := first [apply simulates_record | apply simulates_unrecorded].

Lemma pull_to_file_sim f : simulates world (pull_to_file (W := rw) f) (pull_to_file f).
Proof.
  destruct f as [[image ib] file]. unfold pull_to_file. apply simulates_bind; [method|].
  intros [name [e|]]; cbn; solve_sim.
Qed.

Lemma temp_files_sim tempDir (l : list (BuildReport * B)) :
  simulates world (temp_files (W := rw) tempDir l) (temp_files tempDir l).
Proof.
  induction l as [|ib l IH]; simpl; [auto with sim|].
  apply simulates_bind; [method|]. intros [name|e]; solve_sim.
Qed.

Lemma add_refs_sim (m : M) refs : simulates world (add_refs (W := rw) m refs) (add_refs m refs).
Proof.
  revert m. induction refs as [|[image ref] refs IH]; intros m; simpl; [auto with sim|].
  apply simulates_bind; [method|]. intros [m'|e]; solve_sim.
Qed.

Lemma remove_images_sim l : simulates world (remove_images (W := rw) l) (remove_images l).
Proof. unfold remove_images. apply simulates_group. intros ib. method. Qed.

Lemma write_list_sim m tempDir (tempRef output : Ref) formats refs :
  simulates world (write_list (W := rw) m tempDir tempRef output formats refs)
    (write_list m tempDir tempRef output formats refs).
Proof.
  unfold write_list. apply simulates_bind; [apply add_refs_sim|]. intros [mlist|e]; [|auto with sim].
  cbn. destruct (Serialize mlist formats.1); [|auto with sim].
  apply simulates_bind; [method|]. intros [e|]; [auto with sim|].
  apply simulates_bind; [method|]. intros [e|]; [auto with sim|].
  case_decide; [auto with sim|]. apply simulates_bind; [method|]. intros [e|]; auto with sim.
Qed.

Hint Resolve pull_to_file_sim temp_files_sim remove_images_sim write_list_sim : sim.

Lemma build_in_sim m tempDir (images : gmap BuildReport B) :
  simulates world (build_in (W := rw) m tempDir images) (build_in m tempDir images).
Proof.
  unfold build_in. cbn [ParseImageName recorded_list_host].
  destruct (ParseImageName _) as [tempRef|e]; [|auto with sim].
  apply simulates_bind; [method|]. intros [e|]; [auto with sim|].
  destruct (ParseImageName _) as [output|e]; [|auto with sim].
  apply simulates_bind; [auto with sim|]. intros [files fileError].
  apply simulates_bind; [apply simulates_group; auto with sim|]. intros [refs errs].
  solve_sim.
Qed.

Lemma files_Build_sim m (images : gmap BuildReport B) :
  simulates world (files_Build (W := rw) m images) (files_Build m images).
Proof.
  unfold files_Build. apply simulates_bind; [method|]. intros [e|]; [auto with sim|].
  apply simulates_bind; [method|]. intros [tempDir|e]; [|auto with sim].
  apply simulates_defer; [done|apply build_in_sim].
Qed.

(** *** Local storage *)

Lemma pull_to_local_sim engine ib :
  simulates world (pull_to_local (W := rw) engine ib) (pull_to_local engine ib).
Proof.
  unfold pull_to_local. apply simulates_bind; [method|]. intros [ref [e|]]; auto with sim.
Qed.

Lemma remove_instances_sim name (mlist : L) digests :
  simulates world (remove_instances (W := rw) name mlist digests) (remove_instances name mlist digests).
Proof.
  induction digests as [|d digests IH]; simpl; [auto with sim|].
  apply simulates_bind; [method|]. intros [e|]; auto with sim.
Qed.

Lemma add_images_sim (mlist : L) refs :
  simulates world (add_images (W := rw) mlist refs) (add_images mlist refs).
Proof.
  induction refs as [|ref refs IH]; simpl; [auto with sim|].
  apply simulates_bind; [method|]. intros [d|e]; auto with sim.
Qed.

Hint Resolve pull_to_local_sim remove_instances_sim add_images_sim : sim.

Lemma fill_list_sim l (mlist : L) (refs : gmap string B) :
  simulates world (fill_list (W := rw) l mlist refs) (fill_list l mlist refs).
Proof.
  unfold fill_list. apply simulates_bind; [method|]. intros [ds|e]; solve_sim.
Qed.
Hint Resolve fill_list_sim : sim.

Lemma with_runtime_sim l engine runtime (images : gmap BuildReport B) :
  simulates world (with_runtime (W := rw) l engine runtime images) (with_runtime l engine runtime images).
Proof.
  unfold with_runtime, pull_and_fill. apply simulates_bind; [method|]. intros found.
  apply simulates_bind; [destruct found; [auto with sim|method]|]. intros [mlist|e]; [|auto with sim].
  apply simulates_bind; [apply simulates_group; auto with sim|]. intros [refs errs]. solve_sim.
Qed.

Lemma local_Build_sim l (images : gmap BuildReport B) :
  simulates world (local_Build (W := rw) l images) (local_Build l images).
Proof.
  unfold local_Build. apply simulates_bind; [method|]. intros [engine|e]; [|auto with sim].
  apply simulates_defer; [done|]. apply simulates_bind; [method|]. intros [runtime|e]; [|auto with sim].
  apply simulates_defer; [done|]. apply with_runtime_sim.
Qed.

(** *** The farm *)

Lemma connect_sim flags opts c : simulates world (connect (B := B) (W := rw) flags opts c) (connect flags opts c).
Proof. unfold connect. apply simulates_bind; [destruct c; method|auto with sim]. Qed.
Hint Resolve connect_sim : sim.

Lemma newFarmWithBuilders_sim wanted opts flags :
  simulates world (newFarmWithBuilders (B := B) (W := rw) wanted opts flags)
    (newFarmWithBuilders wanted opts flags).
Proof.
  unfold newFarmWithBuilders. apply simulates_bind; [method|]. intros [destinations [e|]]; solve_sim.
Qed.
Hint Resolve newFarmWithBuilders_sim : sim.

Lemma Schedule_sim (f : Farm B) ps : simulates world (Farm.Schedule (W := rw) f ps) (Farm.Schedule f ps).
Proof.
  assert (∀ ps, simulates world (Farm.schedule_platforms (W := rw) f ps) (Farm.schedule_platforms f ps)).
  { intros ps'. unfold Farm.schedule_platforms, Farm.assign_all.
    apply simulates_bind; [apply simulates_group; intros nb; method|]. intros [t errs]. solve_sim. }
  unfold Farm.Schedule. case_decide; [|done]. apply simulates_bind; [|intros [ns [e|]]; solve_sim].
  unfold Farm.NativePlatforms. apply simulates_bind; [apply simulates_group; intros nb; method|].
  intros [m errs]. solve_sim.
Qed.

Lemma Build_sim (f : Farm B) reference schedule cf options :
  simulates world (Build.Build (LB := list_builder) (W := rw) f reference schedule cf options)
    (Build.Build f reference schedule cf options).
Proof.
  assert (∀ jobs o pb, simulates world (Build.build_goroutine (W := rw) jobs o cf pb)
    (Build.build_goroutine (B := B) jobs o cf pb)) as Hgo.
  { intros jobs o [p b]. unfold Build.build_goroutine, Build.run_job. destruct (jobs !! _); [|auto with sim].
    apply simulates_bind; [method|]. intros [report [e|]]; auto with sim. }
  unfold Build.Build. destruct (check_format options) as [o|e]; [|auto with sim].
  apply simulates_bind; [auto with sim|]. intros [jobs|e]; [|auto with sim].
  apply simulates_bind.
  { unfold Build.make_list_builder. destruct (HasPrefix reference "dir:" || _); [apply simulates_ret|]. simpl.
    unfold NewPodmanLocalListBuilder. case_decide; [apply simulates_ret|].
    apply simulates_bind; [method|]. intros [custom [e|]]; auto with sim. }
  intros [lb|e]; [|auto with sim]. unfold Build.build_and_assemble.
  apply simulates_bind; [by apply simulates_group|]. intros [results errs].
  destruct (ErrorOrNil errs); [auto with sim|].
  apply simulates_bind; [destruct lb; [apply files_Build_sim|apply local_Build_sim]|].
  intros [location err]. auto with sim.
Qed.
(** *** The command *)

(** The variables of the program stay, of the world the trace goes. *)
Definition forget (s : globals B Store * rw) : globals B Store * W := (s.1, s.2.1).

Lemma simulates_outside {A} (m : Go rw A) m' :
  simulates world m m' → simulates forget (outside m) (outside m').
Proof.
  intros Hm [g wt]. unfold outside, forget. simpl. specialize (Hm wt). rewrite Hm. by destruct (m wt).
Qed.

Lemma simulates_gets {A} (f : globals B Store → A) : simulates forget (gets f) (gets f).
Proof. done. Qed.

Lemma simulates_assign f : simulates forget (assign (B := B) (Store := Store) f) (assign f).
Proof. done. Qed.

Lemma simulates_or_return m m' k k' :
  simulates forget m m' → simulates forget k k' → simulates forget (m ;;? k) (m' ;;? k').
Proof. intros Hm Hk. apply simulates_bind; [done|]. intros [e|]; [apply simulates_ret|done]. Qed.

Hint Resolve simulates_gets simulates_assign simulates_or_return simulates_outside : sim.

Lemma Abs_sim path : simulates world (Abs (Store := Store) (W := rw) path) (Abs (Store := Store) path).
Proof.
  unfold Abs. destruct (IsAbs path); [auto with sim|]. apply simulates_bind; [method|]. auto with sim.
Qed.
Hint Resolve Abs_sim : sim.

Lemma set_context_sim args :
  simulates forget (set_context (B := B) (Store := Store) (W := rw) args) (set_context args).
Proof. destruct args as [|dir args]; unfold set_context, on_options; solve_sim. Qed.

Lemma set_args_sim : simulates forget (set_args (B := B) (Store := Store) (W := rw)) set_args.
Proof. unfold set_args, on_options. solve_sim. Qed.

Lemma add_references_sim add refs :
  simulates forget (add_references (B := B) (Store := Store) (W := rw) add refs) (add_references add refs).
Proof.
  induction refs as [|ref refs IH]; simpl; [auto with sim|].
  destruct (ParseNamed ref); unfold on_options; solve_sim.
Qed.

Lemma set_network_sim : simulates forget (set_network (B := B) (Store := Store) (W := rw)) set_network.
Proof. unfold set_network, on_options. solve_sim. Qed.

Lemma set_dockerfile_sim :
  simulates forget (set_dockerfile (B := B) (Store := Store) (W := rw)) set_dockerfile.
Proof.
  unfold set_dockerfile. apply simulates_bind; [auto with sim|]. intros o. case_decide; [|auto with sim].
  apply simulates_bind; [apply simulates_outside; method|]. intros [dockerfile|e]; [|auto with sim].
  apply simulates_bind; [destruct (IsAbs dockerfile); auto with sim|]. intros [f|e]; solve_sim.
Qed.

Lemma schedule_and_build_sim f :
  simulates forget (schedule_and_build (Store := Store) (LB := list_builder) (W := rw) f)
    (schedule_and_build f).
Proof.
  unfold schedule_and_build. apply simulates_bind; [auto with sim|]. intros o.
  apply simulates_bind; [apply simulates_outside, Schedule_sim|]. intros [schedule [e|]]; [auto with sim|].
  apply simulates_bind; [apply simulates_outside, Build_sim|]. intros [e|]; auto with sim.
Qed.

Lemma getFarm_sim : simulates forget (getFarm (B := B) (Store := Store) (W := rw)) getFarm.
Proof.
  unfold getFarm. do 2 (apply simulates_bind; [auto with sim|intros ?]).
  apply simulates_bind; [apply simulates_outside|intros; apply simulates_ret].
  unfold NewAdHocFarm, NewFarm, NewDefaultFarm. repeat case_decide; auto with sim.
Qed.

Lemma buildCmd_sim args :
  simulates forget (buildCmd (Store := Store) (LB := list_builder) (W := rw) args) (buildCmd args).
Proof.
  unfold buildCmd. repeat apply simulates_or_return.
  - unfold check_output. solve_sim.
  - apply set_context_sim.
  - apply set_args_sim.
  - apply simulates_bind; [auto with sim|intros o; apply add_references_sim].
  - apply simulates_bind; [auto with sim|intros o; apply add_references_sim].
  - apply set_network_sim.
  - apply set_dockerfile_sim.
  - unfold with_farm. apply simulates_bind; [apply getFarm_sim|]. intros [f|e]; [|auto with sim].
    apply simulates_bind; [auto with sim|]. intros _. apply schedule_and_build_sim.
Qed.
End Recorded.
