(* ===== verification/System.v ===== *)
(** * The whole program

    What a run of the build command amounts to, from its start to the list:
    the abstract specification [build_protocol] of the calls it makes, and
    that the command, with the farm of Farm.v, [Build] of FarmBuild.v and the
    list builders of Lists.v, follows it; and the stages [build_stages] in
    which the calls come, however the command ends. *)

From S2P Require Import Prelude GoStrings MultiError Group Types Engine Farm FarmBuild Lists Commands Trace Simulate Static.

(** ** The specification *)

Section Protocol.
Context `{!Libimage} {Ref M R B E L W : Type} `{LH : !ListHost Ref M R L E W}.
Abbreviation ev := (event B E Ref R L).
Implicit Types f : Farm B.

(** A build which was made: platform and builder's name, and the result. *)
Abbreviation a_build := ((string * string) * buildResult B)%type.

(** It was asked of the builder of that name, for the parts of the platform
    [owner] gives it, and the report is the one returned. *)
Definition build_event f (options : BuildOptions) (containerFiles : list string)
    (owner : string → string) (x : a_build) (e : ev) : Prop :=
  let '((platform, name), r) := x in
  let '(rawOS, rawArch, rawVariant) := platform_parts (owner name) in
  let '(os, arch, variant) := NormalizePlatform rawOS rawArch rawVariant in
  builders f !! name = Some (result_builder r) ∧
  e = EvBuild (result_builder r) containerFiles
        (these_options options platform name os arch variant) (Ret (report r, None)).

(** The images are the reports of the builds, each with a builder which
    returned it. *)
Definition merged (built : list a_build) (images : gmap BuildReport B) : Prop :=
  (∀ image ib, images !! image = Some ib → ∃ pb, (pb, mk_buildResult image ib) ∈ built) ∧
  (∀ pb image ib, (pb, mk_buildResult image ib) ∈ built → is_Some (images !! image)).

(** An image was pulled from its builder into a file, which [ref] refers to. *)
Definition file_event (x : (BuildReport * B) * Ref) (e : ev) : Prop :=
  let '((image, ib), ref) := x in
  ∃ file name, ParseImageName (ListHost := LH) name = inl ref ∧
    e = EvPullToFile ib (mk_PullToFileOptions (ImageID image) (SaveFormat image) file)
          (Ret (name, None)).

(** An image was pulled from its builder into local storage. *)
Definition storage_event (engine : E) (x : (BuildReport * B) * string) (e : ev) : Prop :=
  let '((image, ib), ref) := x in
  e = EvPullToLocal ib (mk_PullToLocalOptions (ImageID image) (SaveFormat image) (Some engine))
        (Ret (ref, None)).

Definition removal_event (x : BuildReport * B) (e : ev) : Prop :=
  ∃ r, e = EvRemoveImage x.2 (mk_RemoveImageOptions (ImageID x.1)) r.

(** If it was [asked] for, every image of [l] was removed, and else none. *)
Definition removals (asked : bool) (l : list (BuildReport * B)) (es : list ev) : Prop :=
  if asked then ∃ ls, ls ≡ₚ l ∧ Forall2 removal_event ls es else es = [].

(** What the images were pulled to. *)
Inductive pulled := Files (refs : list Ref) | Stored (engine : E) (refs : list string).

(** The destination is there: the directory, or the named list, which was
    found or has been created. *)
Inductive opened : list_builder → option L → list ev → Prop :=
  | opened_directory m : opened (FilesBuilder m) None [EvMkdirAll (directory m) (Ret None)]
  | opened_found l runtime mlist :
      opened (LocalBuilder l) (Some mlist) [EvLookupList runtime (listName l) (Ret (inl mlist))]
  | opened_created l runtime mlist missing :
      opened (LocalBuilder l) (Some mlist)
        [EvLookupList runtime (listName l) (Ret (inr missing));
         EvCreateList runtime (listName l) (Ret (inl mlist))].

(** Every image was pulled once. *)
Inductive fetched (images : gmap BuildReport B) : list_builder → pulled → list ev → Prop :=
  | fetched_files m got pulls :
      got.*1 ≡ₚ map_to_list images → Forall2 file_event got pulls →
      fetched images (FilesBuilder m) (Files got.*2) pulls
  | fetched_stored l engine got pulls :
      got.*1 ≡ₚ map_to_list images → Forall2 (storage_event engine) got pulls →
      fetched images (LocalBuilder l) (Stored engine got.*2) pulls.

(** The intermediate images were removed if that was asked for. *)
Definition cleaned `{BI : !ImageBuilder B E W} (lb : list_builder) (images : gmap BuildReport B)
    (removed : list ev) : Prop :=
  match lb with
  | FilesBuilder m =>
      removals (lbo_RemoveIntermediateImages (lf_options m)) (map_to_list images) removed
  | LocalBuilder l =>
      removals (lbo_RemoveIntermediateImages (ll_options l)) (remote_images (map_to_list images))
        removed
  end.

(** The list was made of what was pulled: by one copy to the directory, or by
    emptying the list in storage and adding every reference once. *)
Inductive publishing : list_builder → option L → pulled → list ev → Prop :=
  | publishing_files m refs refs' output format :
      refs' ≡ₚ refs → ParseImageName (ListHost := LH) (str_app "dir:" (directory m)) = inl output →
      publishing (FilesBuilder m) None (Files refs) [EvCopy output refs' format (Ret None)]
  | publishing_stored l engine refs refs' mlist drops adds :
      NoDup refs' → (∀ ref, ref ∈ refs' ↔ ref ∈ refs) →
      Forall (λ e, ∃ digest, e = EvRemoveInstance mlist digest (Ret None)) drops →
      Forall2 (λ ref e, ∃ digest, e = EvAdd mlist ref (Ret (inl digest))) refs' adds →
      publishing (LocalBuilder l) (Some mlist) (Stored engine refs) (drops ++ adds).

(** The list builder which is chosen for a reference. *)
Definition destination f (reference : string) (lb : list_builder) : Prop :=
  match lb with
  | FilesBuilder m =>
      (HasPrefix reference "dir:" = true ∨ storeOptions f = None) ∧
      directory m = TrimPrefix reference "dir:"
  | LocalBuilder l =>
      HasPrefix reference "dir:" = false ∧ is_Some (storeOptions f) ∧ listName l = reference
  end.

(** For every platform of the schedule one build was made on its builder, for
    a platform assigned to that builder, and returned a report; where no other
    platform is assigned to the builder, it was for this one.  [images] are
    the reports. *)
Definition all_built f (schedule : Schedule_t) (containerFiles : list string) (options : BuildOptions)
    (builds : list ev) (images : gmap BuildReport B) : Prop :=
  ∃ o owner built,
    check_format options = inl o ∧
    (∀ p name, platformBuilders schedule !! p = Some name →
       platformBuilders schedule !! owner name = Some name) ∧
    (∀ p name, platformBuilders schedule !! p = Some name →
       (∀ p', platformBuilders schedule !! p' = Some name → p' = p) → owner name = p) ∧
    built.*1 ≡ₚ map_to_list (platformBuilders schedule) ∧
    Forall2 (build_event f o containerFiles owner) built builds ∧ merged built images.

(** A build up to the list: the builds, the destination, one pull of every
    image from a builder which had built it, and the removals. *)
Inductive build_protocol `{BI : !ImageBuilder B E W} f (reference : string) (schedule : Schedule_t)
    (containerFiles : list string) (options : BuildOptions)
    : list_builder → option L → pulled → list ev → Prop :=
  | build_followed images lb mlist refs builds opening pulls removed :
      destination f reference lb → all_built f schedule containerFiles options builds images →
      opened lb mlist opening → fetched images lb refs pulls → cleaned lb images removed →
      build_protocol f reference schedule containerFiles options lb mlist refs
        (builds ++ opening ++ pulls ++ removed).

(** The stages of a list builder, however it ends: a stage is entered, and the
    end [success] reached, only when the stages before it are complete. *)
Definition list_stages `{BI : !ImageBuilder B E W} (lb : list_builder) (images : gmap BuildReport B)
    (success : Prop) (opening pulls removed changed : list ev) : Prop :=
  Forall (in_stage Opening) opening ∧ Forall (in_stage Pulling) pulls ∧
  Forall (in_stage Removing) removed ∧ Forall (in_stage Changing) changed ∧
  (pulls ++ removed ++ changed ≠ [] ∨ success → ∃ mlist, opened lb mlist opening ∧
    (removed ++ changed ≠ [] ∨ success → ∃ refs, fetched images lb refs pulls ∧
      (changed ≠ [] ∨ success → cleaned lb images removed ∧
        (success → publishing lb mlist refs changed)))).

(** And those of a whole build. *)
Definition build_stages `{BI : !ImageBuilder B E W} f (reference : string) (schedule : Schedule_t)
    (containerFiles : list string) (options : BuildOptions)
    (success : Prop) (builds opening pulls removed changed : list ev) : Prop :=
  Forall (in_stage Building) builds ∧
  (opening ++ pulls ++ removed ++ changed ≠ [] ∨ success → ∃ lb images,
    destination f reference lb ∧ all_built f schedule containerFiles options builds images ∧
    list_stages lb images success opening pulls removed changed).
End Protocol.

(** ** The list builders *)

Create HintDb silent.
#[export] Hint Resolve unrecorded_quiet quiet_ret : silent.

(** A phase which records nothing. *)
Ltac quiet_step :=
  match goal with
  | |- emits _ (_ ≫= _) _ _ =>
      apply emits_quiet_bind; [solve [auto with silent | apply unrecorded_quiet]|intros ? ? ?|intros ? ?]
  end.

Section ListBuilding.
Context `{!RangeOracle} `{!Scheduler} {Ref M R L B E W : Type}.
Context `{BI : !ImageBuilder B E W} `{LH : !ListHost Ref M R L E W}.
Abbreviation ev := (event B E Ref R L).
Abbreviation rw := (W * list ev)%type.
Implicit Types (wt : rw) (es : list ev) (images : gmap BuildReport B).

Definition built_list (r : outcome (string * option error)) : Prop :=
  ∃ location, r = Ret (location, None).

(** What the stages of a list builder promise together. *)
Definition assembles (lb : list_builder) images (r : outcome (string * option error)) es : Prop :=
  ∃ opening pulls removed changed, es = opening ++ pulls ++ removed ++ changed ∧
    list_stages (LH := LH) (BI := BI) lb images (built_list r) opening pulls removed changed.

(** What holds for one end holds for one which claims less. *)
Lemma list_stages_mono lb images (P Q : Prop) opening pulls removed changed :
  (Q → P) → list_stages (LH := LH) (BI := BI) lb images P opening pulls removed changed →
  list_stages (LH := LH) (BI := BI) lb images Q opening pulls removed changed.
Proof.
  intros HQP (? & ? & ? & ? & Hst). unfold list_stages. split_and!; [done..|]. intros Hp.
  destruct Hst as (mlist & Ho & Hst); [tauto|]. exists mlist. split; [done|]. intros Hr.
  destruct Hst as (refs & Hf & Hst); [tauto|]. exists refs. split; [done|]. intros Hc'.
  destruct Hst as [Hc Hst]; [tauto|]. auto.
Qed.

Lemma opened_stage lb mlist es : opened lb mlist es → Forall (in_stage Opening) es.
Proof. destruct 1; by repeat constructor. Qed.

Lemma fetched_stage images lb refs es :
  fetched (LH := LH) images lb refs es → Forall (in_stage Pulling) es.
Proof.
  destruct 1 as [m got pulls _ Hp|l engine got pulls _ Hp];
    (eapply Forall2_Forall_r; [exact Hp|]; apply Forall_true; intros [[image ib] ref] e).
  - by intros (file & name & _ & ->).
  - by intros ->.
Qed.

Lemma removals_stage asked l es : removals asked l es → Forall (in_stage Removing) es.
Proof.
  destruct asked; [|intros ->; constructor]. intros (ls & _ & Hr).
  eapply Forall2_Forall_r; [exact Hr|]. apply Forall_true. by intros x e [r ->].
Qed.

Lemma cleaned_stage lb images es : cleaned lb images es → Forall (in_stage Removing) es.
Proof. destruct lb; apply removals_stage. Qed.

(** Ends without a list, in the first three stages. *)
Lemma assembles_opening lb images r es :
  Forall (in_stage Opening) es → ¬ built_list r → assembles lb images r es.
Proof.
  intros Hes Hr. exists es, [], [], []. rewrite !app_nil_r. split; [done|].
  unfold list_stages. split_and!; [done|constructor..|]. by intros [?|?].
Qed.

Lemma assembles_pulling lb images r mlist opening es :
  opened lb mlist opening → Forall (in_stage Pulling) es → ¬ built_list r →
  assembles lb images r (opening ++ es).
Proof.
  intros Ho Hes Hr. exists opening, es, [], []. rewrite !app_nil_r. split; [done|].
  unfold list_stages. split_and!; [by eapply opened_stage|done|constructor..|]. intros _.
  exists mlist. split; [done|]. by intros [?|?].
Qed.

Lemma assembles_removing lb images r mlist refs opening pulls es :
  opened lb mlist opening → fetched (LH := LH) images lb refs pulls →
  Forall (in_stage Removing) es → ¬ built_list r → assembles lb images r (opening ++ pulls ++ es).
Proof.
  intros Ho Hf Hes Hr. exists opening, pulls, es, []. rewrite !app_nil_r. split; [done|].
  unfold list_stages.
  split_and!; [by eapply opened_stage|by eapply fetched_stage|done|constructor|]. intros _.
  exists mlist. split; [done|]. intros _. exists refs. split; [done|]. by intros [?|?].
Qed.

Lemma not_built_panic msg : ¬ built_list (Panic msg).
Proof. by intros [? ?]. Qed.
Lemma not_built_error s e : ¬ built_list (Ret (s, Some e)).
Proof. by intros [? ?]. Qed.
Hint Resolve not_built_panic not_built_error : silent.

(** An end before anything was done. *)
Lemma assembles_none lb images r : ¬ built_list r → assembles lb images r [].
Proof. intros Hr. by apply assembles_opening. Qed.
Hint Resolve assembles_none : silent.

(** *** Pulling to files *)

Definition file_call (f : (BuildReport * B) * string) (a : option Ref * option error) es : Prop :=
  match a.2 with
  | None => ∃ ref e, a.1 = Some ref ∧ es = [e] ∧ file_event (LH := LH) (f.1, ref) e
  | Some err => flatten_one err ≠ []
  end.

Lemma pull_to_file_emits f wt :
  emits snd (pull_to_file (W := rw) f) wt (λ r _ es,
    Forall (in_stage Pulling) es ∧ ∀ a, r = Ret a → file_call f a es).
Proof.
  destruct f as [[image ib] file]. unfold pull_to_file.
  eapply emits_bind; [apply record_emits| |].
  - intros [name [err|]] wt' es ->; cbn.
    + apply emits_ret. split; [by repeat constructor|]. by intros a [= <-].
    + destruct (ParseImageName name) as [ref|err] eqn:Hp; apply emits_ret;
        (split; [by repeat constructor|]); intros a [= <-]; [|done].
      eexists ref, _. split_and!; [done..|]. by exists file, name.
  - intros msg wt' es ->. split; [by repeat constructor|done].
Qed.

(** The pulls which were made, and the references they gave. *)
Lemma file_calls images ls rs ess done :
  ls.*1 ≡ₚ map_to_list images → Forall3 file_call ls rs ess → failures rs = [] →
  done ≡ₚ successes ls rs →
  ∃ got, got.*1 ≡ₚ map_to_list images ∧ Forall2 (file_event (LH := LH)) got (concat ess) ∧
    (map_to_list (foldl (λ m a, run_writes m (store_ref a.1 a.2)) (∅ : gmap BuildReport Ref) done)).*2
      ≡ₚ got.*2.
Proof.
  intros Hls HC Hf Hdone.
  destruct (Forall3_successes _ _ _ _ HC Hf) as [Hfst HC2]; [by intros ? ? ? ? ?|].
  assert (∃ got, Forall2 (λ la g, la.1.1 = g.1 ∧ la.2 = Some g.2) (successes ls rs) got ∧
    Forall2 (file_event (LH := LH)) got (concat ess)) as (got & Hgot & Hev).
  { clear -HC2. induction HC2 as [|[f r] es las ess (ref & e & Hr & -> & He) _ (got & IH1 & IH2)].
    - exists []. by split.
    - exists ((f.1, ref) :: got). split; constructor; auto. }
  assert (got.*1 = ls.*1) as Hgot1.
  { rewrite <-Hfst. clear -Hgot. induction Hgot as [|la g las got [H1 _] _ IH]; csimpl; [done|].
    by rewrite IH, H1. }
  exists got. rewrite Hgot1. split_and!; [done..|].
  rewrite (NoDup_Permutation _ ((λ g, (g.1.1, g.2)) <$> got)); [by rewrite <-list_fmap_compose| | |].
  - apply NoDup_map_to_list.
  - apply (NoDup_fmap_1 fst). rewrite <-list_fmap_compose.
    change (NoDup ((fst ∘ fst) <$> got)). rewrite list_fmap_compose, Hgot1, Hls.
    apply NoDup_fst_map_to_list.
  - intros [image ref]. rewrite elem_of_map_to_list, stored_refs by done. split.
    + intros (f & <- & Hin). eapply Forall2_elem_l in Hgot as (g & Hg & [H1 H2]); [|done].
      simpl in *. simplify_eq. apply list_elem_of_fmap. exists g. by rewrite H1.
    + intros ([[i b] ref'] & [= -> ->] & Hin)%list_elem_of_fmap.
      eapply Forall2_elem_r in Hgot as ([f r] & Hg & [H1 H2]); [|done]. simpl in *. subst.
      exists f. by rewrite H1.
Qed.
(** *** Removing intermediate images *)

Lemma remove_emits (asked : bool) l wt :
  emits snd (if asked then r ← remove_images (W := rw) l; mret r.2 else mret None) wt
    (λ r _ es, Forall (in_stage Removing) es ∧ ∀ errs, r = Ret errs → removals asked l es).
Proof.
  destruct asked; [|by apply emits_ret; split; [constructor|]].
  eapply emits_bind.
  - apply (run_group_emits snd _ _ (λ ib _ es, ∃ e, es = [e] ∧ removal_event ib e)
      (in_stage Removing)); [done|]. intros ib wt1 _. eapply emits_mono; [apply record_emits|].
    intros r wt' es ->. split; [by repeat constructor|]. intros a _.
    eexists. split; [done|]. by eexists.
  - intros r wt' es [Hes Hr]. apply emits_ret. rewrite app_nil_r. split; [done|]. intros errs _.
    destruct (Hr r eq_refl) as (ls & rs & ess & Hls & HC & ->). exists ls. split; [done|].
    apply Forall2_concat. clear -HC. by induction HC; constructor.
  - intros msg wt' es [Hes _]. by split.
Qed.

Lemma removals_perm asked (l l' : list (BuildReport * B)) es :
  l ≡ₚ l' → removals asked l es → removals asked l' es.
Proof. intros Hl. destruct asked; [|done]. intros (ls & Hls & ?). exists ls. by rewrite <-Hl. Qed.

(** *** A list in a directory *)

(** An error or a panic: nothing more to show than what was recorded. *)
Ltac failed :=
  solve [ apply emits_ret; split; [by repeat constructor|by intros [? ?]]
        | split; [by repeat constructor|by intros [? ?]] ].

Lemma write_list_emits m tempDir (tempRef output : Ref) formats refs wt :
  emits snd (write_list (W := rw) m tempDir tempRef output formats refs) wt (λ r _ es,
    Forall (in_stage Changing) es ∧ (built_list r → ∃ refs', refs' ≡ₚ (map_to_list refs).*2 ∧
      es = [EvCopy output refs' formats.2 (Ret None)])).
Proof.
  unfold write_list. apply emits_quiet_bind; [|intros [mlist|e] wt1 _|intros; failed].
  { apply add_refs_quiet. intros. apply unrecorded_quiet. }
  2:{ failed. }
  destruct (Serialize mlist formats.1) as [listBytes|e]; [|failed].
  apply emits_quiet_bind; [apply unrecorded_quiet|intros [e|] wt2 _; [failed|]|intros; failed].
  eapply emits_bind; [apply record_emits| |by intros msg wt' es ->; failed].
  intros [e|] wt3 es ->; [failed|]. cbn zeta.
  assert (∀ x, Forall (in_stage Changing) [EvCopy (B := B) (E := E) (R := R) (L := L) output
    (range "refs" (map_to_list refs)).*2 formats.2 (Ret None)] ∧
    (built_list x → ∃ refs', refs' ≡ₚ (map_to_list refs).*2 ∧
      [EvCopy (B := B) (E := E) (R := R) (L := L) output (range "refs" (map_to_list refs)).*2 formats.2 (Ret None)]
        = [EvCopy output refs' formats.2 (Ret None)])) as Hcopy.
  { intros x. split; [by repeat constructor|]. intros _. eexists. split; [|done]. by rewrite range_perm. }
  case_decide; [by apply emits_ret|].
  apply emits_quiet_bind; [apply unrecorded_quiet|intros [e|] wt4 _|]; intros; try apply emits_ret; done.
Qed.

(** From the pulls on, when they have all succeeded. *)
Lemma finish_emits lb images (asked : bool) l (k : Go rw (string * option error)) mlist refs
    opening pulls wt :
  opened lb mlist opening → fetched (LH := LH) images lb refs pulls →
  (∀ removed : list ev, removals asked l removed → cleaned (BI := BI) lb images removed) →
  (∀ wt, emits snd k wt (λ r _ es, Forall (in_stage Changing) es ∧
     (built_list r → publishing (LH := LH) lb mlist refs es))) →
  emits snd (rmErrors ← (if asked then r ← remove_images (W := rw) l; mret r.2 else mret None);
    match ErrorOrNil rmErrors with
    | Some e => mret (EmptyString, Some (Errorf "removing intermediate images: %w" [] (Some e)))
    | None => k
    end) wt (λ r _ es, assembles lb images r (opening ++ pulls ++ es)).
Proof.
  intros Ho Hf Hc Hk. eapply emits_bind; [apply remove_emits| |].
  2:{ intros msg wt1 es [Hes _]. eapply assembles_removing; eauto with silent. }
  intros rm wt1 es2 [Hes2 Hrm]. specialize (Hrm rm eq_refl).
  destruct (ErrorOrNil rm) as [e|].
  { apply emits_ret. rewrite app_nil_r. eapply assembles_removing; eauto with silent. }
  eapply emits_mono; [apply Hk|]. intros r wt2 es [Hes Hr]. exists opening, pulls, es2, es.
  split; [done|]. unfold list_stages.
  split_and!; [by eapply opened_stage|by eapply fetched_stage|done..|]. intros _.
  exists mlist. split; [done|]. intros _. exists refs. split; [done|]. intros _. auto.
Qed.

Lemma build_in_emits m tempDir images wt :
  emits snd (build_in (W := rw) m tempDir images) wt (λ r _ es, assembles (FilesBuilder m) images r es).
Proof.
  unfold build_in. destruct (ParseImageName _) as [tempRef|e]; [|apply emits_ret; auto with silent].
  eapply emits_bind; [apply record_emits| |].
  2:{ intros msg wt1 es ->. by apply assembles_opening; [repeat constructor|auto with silent]. }
  intros [e|] wt1 es0 ->.
  { apply emits_ret. by apply assembles_opening; [repeat constructor|auto with silent]. }
  assert (opened (L := L) (B := B) (E := E) (Ref := Ref) (R := R) (FilesBuilder m) None
    [EvMkdirAll (directory m) (Ret None)]) as Ho by constructor.
  destruct (ParseImageName (str_app "dir:" (directory m))) as [output|e] eqn:Hout.
  2:{ apply emits_ret. apply assembles_opening; [by repeat constructor|auto with silent]. }
  apply emits_quiet_bind; [apply temp_files_quiet; intros; apply unrecorded_quiet| |].
  2:{ intros. apply assembles_opening; [by repeat constructor|auto with silent]. }
  intros [files fileError] wt2 Hfiles.
  eapply emits_bind; [apply (run_group_early_emits snd _ _ file_call (in_stage Pulling));
    intros; apply pull_to_file_emits| |].
  2:{ intros msg wt3 es [Hes _]. eapply assembles_pulling; eauto with silent. }
  intros [refs errs] wt3 es1 [Hes1 Hpulls].
  destruct (Hpulls refs errs eq_refl) as (ls & rs & ess & got & Hls & HC & -> & Hgot & Herrs & ->).
  destruct fileError as [e|].
  { apply emits_ret. rewrite app_nil_r. eapply assembles_pulling; eauto with silent. }
  destruct (ErrorOrNil errs) as [e|] eqn:He.
  { apply emits_ret. rewrite app_nil_r. eapply assembles_pulling; eauto with silent. }
  apply ErrorOrNil_None in He. rewrite He in Herrs. apply Permutation_nil_l in Herrs.
  destruct (temp_files_images _ _ _ _ _ _ Hfiles) as [_ Hfst].
  destruct (file_calls images ls rs ess got) as (pulls & Hp1 & Hp2 & Hp3); [|done..|].
  { rewrite Hls, Hfst by done. apply range_perm. }
  apply (finish_emits _ _ _ _ _ None (Files pulls.*2)); [done|by apply fetched_files| |].
  - intros rest Hrest. eapply removals_perm; [|done]. apply range_perm.
  - intros wt4. eapply emits_mono; [apply write_list_emits|]. intros r wt5 es [Hes Hr].
    split; [done|]. intros Hb. destruct (Hr Hb) as (refs' & Hrefs & ->).
    eapply publishing_files; [by rewrite Hrefs|done].
Qed.

Lemma files_Build_emits m images wt :
  emits snd (files_Build (W := rw) m images) wt (λ r _ es, assembles (FilesBuilder m) images r es).
Proof.
  unfold files_Build.
  apply emits_quiet_bind; [apply unrecorded_quiet|intros [e|] wt1 _|]; [apply emits_ret; auto with silent| |auto with silent].
  apply emits_quiet_bind; [apply unrecorded_quiet|intros [tempDir|e] wt2 _|]; [|apply emits_ret; auto with silent|auto with silent].
  apply defer_emits, build_in_emits.
Qed.

(** *** Pulling to local storage *)

Definition storage_call (engine : E) (ib : BuildReport * B) (a : string * option error) es : Prop :=
  match a.2 with
  | None => ∃ e, es = [e] ∧ storage_event engine (ib, a.1) e
  | Some err => flatten_one err ≠ []
  end.

Lemma pull_to_local_emits engine ib wt :
  emits snd (pull_to_local (W := rw) engine ib) wt (λ r _ es,
    Forall (in_stage Pulling) es ∧ ∀ a, r = Ret a → storage_call engine ib a es).
Proof.
  destruct ib as [image ib]. unfold pull_to_local. eapply emits_bind; [apply record_emits| |].
  - intros [ref [err|]] wt' es ->; apply emits_ret; (split; [by repeat constructor|]);
      intros a [= <-]; [done|]. by eexists.
  - intros msg wt' es ->. split; [by repeat constructor|done].
Qed.

Lemma storage_calls engine images ls rs ess done :
  ls ≡ₚ map_to_list images → Forall3 (storage_call engine) ls rs ess → failures rs = [] →
  done ≡ₚ successes ls rs →
  ∃ got, got.*1 ≡ₚ map_to_list images ∧ Forall2 (storage_event engine) got (concat ess) ∧
    ∀ ref, is_Some (foldl (λ m a, run_writes m (store_engine a.1 a.2)) (∅ : gmap string B) done !! ref)
      ↔ ref ∈ got.*2.
Proof.
  intros Hls HC Hf Hdone.
  destruct (Forall3_successes _ _ _ _ HC Hf) as [Hfst HC2]; [by intros ? ? ? ? ?|].
  exists (successes ls rs). split_and!; [by rewrite Hfst| |].
  - apply Forall2_concat. eapply Forall2_impl; [exact HC2|]. by intros [ib ref] es.
  - intros ref. rewrite foldl_store_engine, lookup_empty, list_elem_of_fmap. split.
    + intros [[? ?]|[ib Hin]]; [done|]. exists (ib, ref). split; [done|]. by rewrite <-Hdone.
    + intros ([ib ref'] & -> & Hin). right. exists ib. by rewrite Hdone.
Qed.

(** *** A list in local storage *)

Lemma remove_instances_emits name mlist digests wt :
  emits snd (remove_instances (W := rw) name mlist digests) wt (λ r _ es, Forall (in_stage Changing) es ∧
    (r = Ret None → Forall (λ e, ∃ digest, e = EvRemoveInstance mlist digest (Ret None)) es)).
Proof.
  revert wt. induction digests as [|d digests IH]; intros wt; simpl.
  { by apply emits_ret. }
  eapply emits_bind; [apply record_emits| |].
  - intros [e|] wt1 es ->; [apply emits_ret; by split; [repeat constructor|]|].
    eapply emits_mono; [apply IH|]. intros r wt2 es [Hes Hr]. split; [by constructor|].
    intros Hok. constructor; [by exists d|]. by apply Hr.
  - intros msg wt1 es ->. by split; [repeat constructor|].
Qed.

Lemma add_images_emits mlist refs wt :
  emits snd (add_images (W := rw) mlist refs) wt (λ r _ es, Forall (in_stage Changing) es ∧
    (r = Ret None → Forall2 (λ ref e, ∃ digest, e = EvAdd mlist ref (Ret (inl digest))) refs es)).
Proof.
  revert wt. induction refs as [|ref refs IH]; intros wt; simpl.
  { by apply emits_ret. }
  eapply emits_bind; [apply record_emits| |].
  - intros [d|e] wt1 es ->; [|apply emits_ret; by split; [repeat constructor|]].
    eapply emits_mono; [apply IH|]. intros r wt2 es [Hes Hr]. split; [by constructor|].
    intros Hok. constructor; [by exists d|]. by apply Hr.
  - intros msg wt1 es ->. by split; [repeat constructor|].
Qed.

Lemma fill_list_emits l mlist engine (refs : gmap string B) refs0 wt :
  (∀ ref, is_Some (refs !! ref) ↔ ref ∈ refs0) →
  emits snd (fill_list (W := rw) l mlist refs) wt (λ r _ es, Forall (in_stage Changing) es ∧
    (built_list r → publishing (LH := LH) (LocalBuilder l) (Some mlist) (Stored engine refs0) es)).
Proof.
  intros Hrefs. unfold fill_list.
  apply emits_quiet_bind; [apply unrecorded_quiet|intros [ds|e] wt1 _; [|failed]|intros; failed].
  eapply emits_bind; [apply remove_instances_emits| |].
  2:{ intros msg wt2 es [Hes _]. by split; [|intros [? ?]]. }
  intros [e|] wt2 es1 [Hes1 Hd].
  { apply emits_ret. rewrite app_nil_r. by split; [|intros [? ?]]. }
  eapply emits_bind; [apply add_images_emits| |].
  2:{ intros msg wt3 es [Hes _]. split; [by apply Forall_app|by intros [? ?]]. }
  intros [e|] wt3 es2 [Hes2 Ha]; apply emits_ret; rewrite app_nil_r;
    (split; [by apply Forall_app|]); [by intros [? ?]|]. intros _.
  eapply publishing_stored; [apply (NoDup_range_map "refs" refs)| |by apply Hd|by apply Ha].
  intros ref. rewrite <-Hrefs, list_elem_of_fmap. split.
  - intros ([k x] & -> & Hin%elem_of_range_map). by eexists.
  - intros [x Hx]. exists (ref, x). split; [done|]. by apply elem_of_range_map.
Qed.

Lemma pull_and_fill_emits l engine mlist images opening wt :
  opened (LocalBuilder l) (Some mlist) opening →
  emits snd (pull_and_fill (W := rw) l engine mlist images) wt (λ r _ es,
    assembles (LocalBuilder l) images r (opening ++ es)).
Proof.
  intros Ho. unfold pull_and_fill.
  eapply emits_bind; [apply (run_group_early_emits snd _ _ (storage_call engine) (in_stage Pulling));
    intros; apply pull_to_local_emits| |].
  2:{ intros msg wt1 es [Hes _]. eapply assembles_pulling; eauto with silent. }
  intros [refs errs] wt1 es1 [Hes1 Hpulls].
  destruct (Hpulls refs errs eq_refl) as (ls & rs & ess & got & Hls & HC & -> & Hgot & Herrs & ->).
  destruct (ErrorOrNil errs) as [e|] eqn:He.
  { apply emits_ret. rewrite app_nil_r. eapply assembles_pulling; eauto with silent. }
  apply ErrorOrNil_None in He. rewrite He in Herrs. apply Permutation_nil_l in Herrs.
  destruct (storage_calls engine images ls rs ess got) as (pulls & Hp1 & Hp2 & Hp3); [|done..|].
  { rewrite Hls. apply range_perm. }
  apply (finish_emits _ _ _ _ _ (Some mlist) (Stored engine pulls.*2));
    [done|by apply fetched_stored| |].
  - intros rest Hrest. eapply removals_perm; [|done].
    unfold remote_images, range_images. by rewrite range_perm.
  - intros wt2. by apply fill_list_emits.
Qed.

(** Finding the list or creating it. *)
Lemma with_runtime_emits l engine runtime images wt :
  emits snd (with_runtime (W := rw) l engine runtime images) wt (λ r _ es,
    assembles (LocalBuilder l) images r es).
Proof.
  unfold with_runtime.
  eapply emits_bind; [apply record_emits| |].
  2:{ intros msg wt1 es ->. by apply assembles_opening; [repeat constructor|auto with silent]. }
  intros [mlist|missing] wt1 es ->.
  - eapply emits_bind; [by apply emits_ret with (P := λ r _ es, r = Ret (inl mlist) ∧ es = [])| |].
    + intros found wt2 es [[= ->] ->]. apply pull_and_fill_emits, opened_found.
    + by intros msg wt2 es [? _].
  - eapply emits_bind; [apply record_emits| |].
    + intros [mlist|e] wt2 es ->.
      * exact (pull_and_fill_emits l engine mlist images _ wt2 (opened_created l runtime mlist missing)).
      * apply emits_ret. by apply assembles_opening; [repeat constructor|auto with silent].
    + intros msg wt2 es ->. by apply assembles_opening; [repeat constructor|auto with silent].
Qed.

Lemma local_Build_emits l images wt :
  emits snd (local_Build (W := rw) l images) wt (λ r _ es, assembles (LocalBuilder l) images r es).
Proof.
  unfold local_Build.
  apply emits_quiet_bind; [apply unrecorded_quiet|intros [engine|e] wt1 _|]; [|apply emits_ret; auto with silent|auto with silent].
  apply defer_emits.
  apply emits_quiet_bind; [apply unrecorded_quiet|intros [runtime|e] wt2 _|]; [|apply emits_ret; auto with silent|auto with silent].
  apply defer_emits, with_runtime_emits.
Qed.

(** The [Build] of a list builder, as the farm calls it. *)
Lemma list_Build_emits (lb : list_builder) images wt :
  emits snd (list_Build (W := rw) lb images) wt (λ r _ es, assembles lb images r es).
Proof. destruct lb; [apply files_Build_emits|apply local_Build_emits]. Qed.

End ListBuilding.

(** ** The farm *)

Section FarmBuilding.
Context `{!RangeOracle} `{!Scheduler} `{!Libimage} {Ref M R L B E W : Type}.
Context `{BI : !ImageBuilder B E W} `{LH : !ListHost Ref M R L E W}.
Abbreviation ev := (event B E Ref R L).
Abbreviation rw := (W * list ev)%type.
Implicit Types (wt : rw) (es : list ev) (f : Farm B).

Definition build_call f o cf owner (pb : string * string) (a : option (buildResult B) * option error)
    es : Prop :=
  match a.2 with
  | None => ∃ r e, a.1 = Some r ∧ es = [e] ∧ build_event f o cf owner (pb, r) e
  | Some err => flatten_one err ≠ []
  end.

Lemma request_emits f o cf owner pb ib wt :
  builders f !! pb.2 = Some ib →
  emits snd (Build.request (W := rw) f o cf owner pb) wt (λ r _ es,
    Forall (in_stage Building) es ∧ ∀ a, r = Ret a → build_call f o cf owner pb a es).
Proof.
  intros Hib. destruct pb as [p b]. simpl in Hib. unfold Build.request. cbn [fst snd]. rewrite Hib.
  destruct (platform_parts (owner b)) as [[rawOS rawArch] rawVariant] eqn:Hparts.
  destruct (NormalizePlatform rawOS rawArch rawVariant) as [[os arch] variant] eqn:Hnorm.
  eapply emits_bind; [apply record_emits| |].
  - intros [report [err|]] wt' es ->; apply emits_ret; (split; [by repeat constructor|]);
      intros a [= <-]; [done|]. eexists _, _. split_and!; [done..|].
    unfold build_event. by rewrite Hparts, Hnorm.
  - intros msg wt' es ->. split; [by repeat constructor|done].
Qed.

(** What is promised of a whole build. *)
Definition builds_staged f reference schedule cf options (r : outcome (option error)) es : Prop :=
  ∃ builds opening pulls removed changed, es = builds ++ opening ++ pulls ++ removed ++ changed ∧
    build_stages (LH := LH) (BI := BI) f reference schedule cf options (r = Ret None)
      builds opening pulls removed changed.

Lemma staged_builds f reference schedule cf options r es :
  Forall (in_stage Building) es → r ≠ Ret None → builds_staged f reference schedule cf options r es.
Proof.
  intros Hes Hr. exists es, [], [], [], []. rewrite !app_nil_r. split; [done|].
  split; [done|]. by intros [?|?].
Qed.

Lemma staged_list f reference schedule cf options lb images builds r r' es :
  destination f reference lb → all_built f schedule cf options builds images →
  Forall (in_stage Building) builds → assembles (LH := LH) lb images r es →
  (r' = Ret None → built_list r) →
  builds_staged f reference schedule cf options r' (builds ++ es).
Proof.
  intros Hlb Hb Hes (opening & pulls & removed & changed & -> & Hst) Hr.
  exists builds, opening, pulls, removed, changed. split; [done|]. split; [done|]. intros _.
  exists lb, images. split_and!; [done..|]. by eapply list_stages_mono.
Qed.

Lemma build_calls f o cf owner schedule ls rs ess done :
  ls ≡ₚ map_to_list (platformBuilders schedule) →
  Forall3 (build_call f o cf owner) ls rs ess → failures rs = [] → done ≡ₚ successes ls rs →
  ∃ built, built.*1 ≡ₚ map_to_list (platformBuilders schedule) ∧
    Forall2 (build_event f o cf owner) built (concat ess) ∧
    ∀ pb r, (pb, r) ∈ built ↔ (pb, Some r) ∈ done.
Proof.
  intros Hls HC Hf Hdone.
  destruct (Forall3_successes _ _ _ _ HC Hf) as [Hfst HC2]; [by intros ? ? ? ? ?|].
  assert (∃ built, successes ls rs = (λ x, (x.1, Some x.2)) <$> built ∧
    Forall2 (build_event f o cf owner) built (concat ess)) as (built & Hb & Hev).
  { clear -HC2. induction HC2 as [|[pb a] es las ess (r & e & Hr & -> & He) _ (built & -> & IH)].
    - by exists [].
    - simpl in *. subst a. exists ((pb, r) :: built). split; [done|]. by constructor. }
  exists built. split_and!; [|done|].
  - rewrite <-Hls, <-Hfst, Hb, <-list_fmap_compose. done.
  - intros pb r. rewrite Hdone, Hb, list_elem_of_fmap. split.
    + intros Hin. by exists (pb, r).
    + by intros ([pb' r'] & [= -> ->] & Hin).
Qed.

Lemma merged_assembled built (done : list ((string * string) * option (buildResult B))) images :
  (∀ pb r, (pb, r) ∈ built ↔ (pb, Some r) ∈ done) → Build.assembled done images → merged built images.
Proof.
  intros Hb [Hm1 Hm2]. split.
  - intros image ib Hi. destruct (Hm1 image ib Hi) as [pb Hpb]. exists pb. by apply Hb.
  - intros pb image ib Hin. eapply Hm2. by apply Hb.
Qed.

(** The jobs of a schedule, as [make_jobs_spec] gives them. *)
Definition jobs_for f schedule (jobs : gmap string (job B)) : Prop :=
  (∀ p b, platformBuilders schedule !! p = Some b → is_Some (jobs !! b)) ∧
  (∀ b j, jobs !! b = Some j → ∃ p ib, platformBuilders schedule !! p = Some b ∧
     builders f !! b = Some ib ∧ j = Build.job_of p ib).

Lemma build_and_assemble_emits f reference schedule cf options o jobs lb wt :
  jobs_for f schedule jobs → check_format options = inl o → destination f reference lb →
  emits snd (Build.build_and_assemble (W := rw) jobs lb schedule cf o) wt (λ r _ es,
    builds_staged f reference schedule cf options r es).
Proof.
  intros [Hd Hc] Hfmt Hlb. unfold Build.build_and_assemble.
  set (owner := λ b, default EmptyString (j_platform <$> jobs !! b)).
  assert (Hown : ∀ p b, platformBuilders schedule !! p = Some b →
    platformBuilders schedule !! owner b = Some b).
  { intros p b Hp. destruct (Hd _ _ Hp) as [j Hj]. destruct (Hc _ _ Hj) as (q & ib & Hq & _ & ->).
    unfold owner. rewrite Hj. simpl. by rewrite Build.j_platform_job_of. }
  eapply emits_bind; [apply (run_group_early_emits snd _ _ (build_call f o cf owner) (in_stage Building))| |].
  - intros [p b] wt1 Hpb%elem_of_range_map. unfold emits.
    rewrite (Build.build_goroutine_request f o cf jobs schedule (p, b)) by done.
    destruct (Hd _ _ Hpb) as [j Hj]. destruct (Hc _ _ Hj) as (q & ib & _ & Hib & _).
    exact (request_emits f o cf owner (p, b) ib wt1 Hib).
  - intros [results errs] wt1 es1 [Hes1 Hr].
    destruct (Hr results errs eq_refl) as (ls & rs & ess & done & Hls & HC & -> & Hdone & Herrs & ->).
    destruct (ErrorOrNil errs) as [e|] eqn:He.
    { apply emits_ret. rewrite app_nil_r. by apply staged_builds. }
    apply ErrorOrNil_None in He. rewrite He in Herrs. apply Permutation_nil_l in Herrs.
    assert (ls ≡ₚ map_to_list (platformBuilders schedule)) as Hls' by (rewrite Hls; apply range_perm).
    destruct (build_calls f o cf owner schedule ls rs ess done) as (built & Hb1 & Hb2 & Hb3); [done..|].
    pose proof (Build.results_assembled schedule ls rs done Hls' Hdone) as Hasm.
    apply (merged_assembled _ _ _ Hb3) in Hasm.
    assert (all_built f schedule cf options (concat ess)
      (Build.per_arch (Build.store_all done ∅))) as Hall.
    { exists o, owner, built. split_and!; try done. intros p b Hp Hone. by apply Hone, (Hown p). }
    eapply emits_bind; [apply list_Build_emits| |].
    + intros [location err] wt2 es2 Has. apply emits_ret. rewrite app_nil_r.
      apply (staged_list _ _ _ _ _ lb _ _ _ _ _ Hlb Hall Hes1 Has). intros [= ->]. by eexists.
    + intros msg wt2 es2 Has. by apply (staged_list _ _ _ _ _ lb _ _ _ _ _ Hlb Hall Hes1 Has).
  - intros msg wt1 es1 [Hes1 _]. by apply staged_builds.
Qed.

Lemma Build_emits f reference schedule cf options wt :
  emits snd (Build.Build (LB := list_builder) (W := rw) f reference schedule cf options) wt (λ r _ es,
    builds_staged f reference schedule cf options r es).
Proof.
  unfold Build.Build. destruct (check_format options) as [o|e] eqn:Hfmt;
    [|apply emits_ret; by apply staged_builds].
  destruct (Build.make_jobs_spec f schedule) as [(jobs & Hj & _ & Hd & Hc)|(p & b & _ & _ & Hj)];
    (apply emits_quiet_bind; [by intros wt1|rewrite Hj; intros a wt1 [= <- <-]|by intros; apply staged_builds]);
    [|apply emits_ret; by apply staged_builds].
  apply emits_quiet_bind; [|intros [lb|e] wt1 Hlb|by intros; apply staged_builds].
  - unfold Build.make_list_builder. case_match; [apply quiet_ret|]. simpl.
    unfold NewPodmanLocalListBuilder. case_decide; [apply quiet_ret|].
    apply quiet_bind; [apply unrecorded_quiet|]. intros [custom [e|]]; apply quiet_ret.
  - apply build_and_assemble_emits; [done..|]. unfold Build.make_list_builder in Hlb.
    destruct (HasPrefix reference "dir:") eqn:Hdir; simpl in Hlb.
    { injection Hlb as <- <-. simpl. tauto. }
    destruct (storeOptions f) as [so|] eqn:Hso; simpl in Hlb.
    + unfold NewPodmanLocalListBuilder in Hlb. case_decide; [done|].
      unfold mbind, go_bind in Hlb. case_match. case_match; [|done].
      destruct a as [custom [e|]]; [done|]. injection Hlb as <- <-. simpl. by split_and!.
    + injection Hlb as <- <-. simpl. tauto.
  - apply emits_ret. by apply staged_builds.
Qed.

(** Scheduling only asks, and a schedule has every platform asked for. *)
Lemma ask_emits {A X} (call : string * B → Go W A) (k : string * B → A → call_result X) sched x0 l wt :
  (∀ nb a msg, k nb a ≠ Crash msg) →
  emits snd (run_group sched x0 (goroutines (λ nb, record (call nb) (λ _, EvQuery nb.2) : Go rw A) k l)) wt
    (λ _ _ es, Forall (in_stage Asking) es).
Proof.
  intros Hk. apply run_group_each; [done|]. intros nb wt1 _.
  eapply emits_mono; [apply record_emits|]. intros r wt2 es ->. by repeat constructor.
Qed.

Lemma schedule_platforms_emits f ps wt :
  emits snd (Farm.schedule_platforms (W := rw) f ps) wt (λ _ _ es, Forall (in_stage Asking) es).
Proof.
  unfold Farm.schedule_platforms. eapply emits_bind.
  - apply (ask_emits (λ nb, GetInfo nb.2 mk_InfoOptions)). by intros nb [a [e|]] msg.
  - intros [t errs] wt1 es Hes. destruct (ErrorOrNil errs); [by apply emits_ret; rewrite app_nil_r|].
    unfold Farm.assign_all. apply emits_quiet_bind; [by intros wt2|..].
    + intros [m|r] wt2 _; apply emits_ret; by rewrite app_nil_r.
    + intros; by rewrite app_nil_r.
  - done.
Qed.

Lemma Schedule_emits f ps wt :
  emits snd (Farm.Schedule (W := rw) f ps) wt (λ r _ es, Forall (in_stage Asking) es ∧
    ∀ s, r = Ret (s, None) → ∀ p, p ∈ ps → is_Some (platformBuilders s !! p)).
Proof.
  assert (emits snd (Farm.Schedule (W := rw) f ps) wt (λ _ _ es, Forall (in_stage Asking) es)) as (es & Hes & Hq).
  { unfold Farm.Schedule. case_decide; [|apply schedule_platforms_emits].
    eapply emits_bind with (Q := λ _ _ es, Forall (in_stage Asking) es).
    - unfold Farm.NativePlatforms. eapply emits_bind.
      + apply (ask_emits (λ nb, Types.NativePlatforms nb.2 mk_InfoOptions)).
        by intros nb [a [e|]] msg.
      + intros [m errs] wt1 es Hes. destruct (ErrorOrNil errs); apply emits_ret; by rewrite app_nil_r.
      + done.
    - intros [ns [e|]] wt1 es Hes; [apply emits_ret; by rewrite app_nil_r|].
      eapply emits_mono; [apply schedule_platforms_emits|]. intros. by apply Forall_app.
    - done. }
  exists es. split_and!; [done..|]. intros s Hr p Hp.
  destruct (Farm.Schedule (W := rw) f ps wt) as [r wt1] eqn:Hs. simpl in Hr. subst r.
  apply Schedule_valid in Hs as (ls & rs & _ & [Hdom _]); [by apply Hdom|by intros ->; apply not_elem_of_nil in Hp].
Qed.
End FarmBuilding.

(** ** The command *)

Section Command.
Context `{!RangeOracle} `{!Scheduler} `{!Libimage} {Ref M R L B E Store W : Type}.
Context `{BI : !ImageBuilder B E W} `{LH : !ListHost Ref M R L E W}.
Context `{FE : !FarmEnv B W} `{CH : !CommandHost Store W}.
Abbreviation ev := (event B E Ref R L).
Abbreviation rw := (W * list ev)%type.
Implicit Types (g : globals B Store) (wt : rw) (es : list ev).

(** The trace, with the variables of the program next to it. *)
Definition trace_of (s : globals B Store * rw) : list ev := s.2.2.

Lemma outside_emits {A} (m : Go rw A) g wt P :
  emits snd m wt P →
  emits trace_of (outside m) (g, wt) (λ r s' es, s'.1 = g ∧ P r s'.2 es).
Proof.
  intros (es & Hes & HP). exists es. unfold outside, trace_of. simpl.
  by destruct (m wt) as [r wt'].
Qed.

Lemma quiet_outside_trace {A} (m : Go rw A) : quiet snd m → quiet trace_of (outside m).
Proof. intros Hm [g wt]. specialize (Hm wt). unfold outside, trace_of. simpl. by destruct (m wt). Qed.

Lemma quiet_assign f : quiet trace_of (assign (B := B) (Store := Store) (W := rw) f).
Proof. by intros [g wt]. Qed.

Lemma quiet_gets {A} (f : globals B Store → A) : quiet trace_of (gets (W := rw) f).
Proof. by intros [g wt]. Qed.

Lemma quiet_or_return m k : quiet trace_of m → quiet trace_of k → quiet trace_of (m ;;? k).
Proof. intros Hm Hk. apply quiet_bind; [done|]. intros [e|]; [apply quiet_ret|done]. Qed.

Lemma quiet_panic {A} msg : quiet trace_of (go_panic msg : Go _ A).
Proof. by intros [g wt]. Qed.

Hint Resolve quiet_assign quiet_gets quiet_panic quiet_ret unrecorded_quiet quiet_outside_trace : silent.

Ltac solve_quiet :=
  repeat first
    [ solve [auto with silent]
    | apply quiet_or_return
    | apply quiet_bind; [|intros ?]
    | apply quiet_outside_trace
    | apply unrecorded_quiet
    | case_match ].

Lemma Abs_quiet path : quiet snd (Abs (Store := Store) (W := rw) path).
Proof. unfold Abs. solve_quiet. Qed.
Hint Resolve Abs_quiet : silent.

Lemma set_context_quiet args : quiet trace_of (set_context (B := B) (Store := Store) (W := rw) args).
Proof. unfold set_context, on_options. solve_quiet. Qed.

Lemma add_references_quiet add refs :
  quiet trace_of (add_references (B := B) (Store := Store) (W := rw) add refs).
Proof. induction refs as [|ref refs IH]; simpl; unfold on_options; solve_quiet. Qed.

Lemma set_dockerfile_quiet : quiet trace_of (set_dockerfile (B := B) (Store := Store) (W := rw)).
Proof. unfold set_dockerfile. solve_quiet. Qed.

Lemma set_network_quiet : quiet trace_of (set_network (B := B) (Store := Store) (W := rw)).
Proof. unfold set_network, on_options. solve_quiet. Qed.

(** Making a farm asks the builders for nothing. *)
Lemma newFarm_quiet wanted opts flags :
  quiet snd (newFarmWithBuilders (B := B) (W := rw) wanted opts flags).
Proof.
  unfold newFarmWithBuilders. apply quiet_bind; [apply unrecorded_quiet|].
  intros [destinations [e|]]; [apply quiet_ret|]. apply quiet_bind; [|intros [bs err]; solve_quiet].
  apply quiet_run_group; [by intros c [ib [e|]] msg|]. intros c. unfold connect.
  apply quiet_bind; [destruct c; apply unrecorded_quiet|]. intros. apply quiet_ret.
Qed.

Lemma getFarm_quiet : quiet trace_of (getFarm (B := B) (Store := Store) (W := rw)).
Proof.
  unfold getFarm. do 2 (apply quiet_bind; [apply quiet_gets|intros ?]).
  apply quiet_bind; [apply quiet_outside_trace|intros; apply quiet_ret].
  unfold NewAdHocFarm, NewFarm, NewDefaultFarm.
  repeat case_decide; first [apply newFarm_quiet | apply quiet_ret].
Qed.

(** What is promised of the command: the farm asks its builders, and then
    builds for the schedule. *)
Definition command_followed (r : outcome (option error)) (s : globals B Store * rw) es : Prop :=
  let o := buildOpts s.1 in
  ∃ queries builds opening pulls removed changed,
    es = queries ++ builds ++ opening ++ pulls ++ removed ++ changed ∧
    Forall (in_stage Asking) queries ∧
    (builds ++ opening ++ pulls ++ removed ++ changed ≠ [] ∨ r = Ret None →
     ∃ f schedule, globalFarm s.1 = Some f ∧
       (∀ p, p ∈ platforms o → is_Some (platformBuilders schedule !! p)) ∧
       build_stages (LH := LH) (BI := BI) f (output o) schedule (dockerfiles o) (bo_options o)
         (r = Ret None) builds opening pulls removed changed).

Lemma followed_asking r s es : Forall (in_stage Asking) es → r ≠ Ret None → command_followed r s es.
Proof.
  intros Hes Hr. exists es, [], [], [], [], []. rewrite !app_nil_r. split_and!; [done..|].
  by intros [?|?].
Qed.

Lemma followed_none r s : r ≠ Ret None → command_followed r s [].
Proof. by apply followed_asking. Qed.

Lemma build_stages_mono f reference schedule cf options (P Q : Prop) builds opening pulls removed changed :
  (Q → P) →
  build_stages (LH := LH) (BI := BI) f reference schedule cf options P builds opening pulls removed changed →
  build_stages (LH := LH) (BI := BI) f reference schedule cf options Q builds opening pulls removed changed.
Proof.
  intros HQP [Hb Hst]. split; [done|]. intros Hor.
  destruct Hst as (lb & images & Hd & Hall & Hst); [tauto|]. exists lb, images.
  split_and!; [done..|]. by eapply list_stages_mono.
Qed.

Lemma followed_build f g wt schedule queries r r' es :
  globalFarm g = Some f →
  (∀ p, p ∈ platforms (buildOpts g) → is_Some (platformBuilders schedule !! p)) →
  Forall (in_stage Asking) queries → (r' = Ret None → r = Ret None) →
  builds_staged (LH := LH) (BI := BI) f (output (buildOpts g)) schedule (dockerfiles (buildOpts g))
    (bo_options (buildOpts g)) r es →
  command_followed r' (g, wt) (queries ++ es).
Proof.
  intros Hf Hps Hq Hr (builds & opening & pulls & removed & changed & -> & Hst).
  exists queries, builds, opening, pulls, removed, changed. split_and!; [done..|]. intros _.
  exists f, schedule. split_and!; [done..|]. by eapply build_stages_mono.
Qed.

Lemma schedule_and_build_emits f g wt :
  globalFarm g = Some f →
  emits trace_of (schedule_and_build (LB := list_builder) (W := rw) f) (g, wt) command_followed.
Proof.
  intros Hf. unfold schedule_and_build.
  apply emits_quiet_bind; [auto with silent|intros o s [= <- <-]|by intros; apply followed_none].
  eapply emits_bind; [apply outside_emits, Schedule_emits|..].
  2:{ intros msg s es (_ & Hq & _). by apply followed_asking. }
  intros [schedule [e|]] [g1 wt1] es1 (Hg & Hq & Hsch); simpl in Hg; subst g1.
  { apply emits_ret. rewrite app_nil_r. by apply followed_asking. }
  specialize (Hsch schedule eq_refl).
  eapply emits_bind; [apply outside_emits, Build_emits|..].
  - intros err [g2 wt2] es2 [Hg Hb]. simpl in Hg. subst g2.
    destruct err as [e|]; apply emits_ret; rewrite app_nil_r;
      by refine (followed_build _ _ _ _ _ _ _ _ Hf Hsch Hq _ Hb).
  - intros msg [g2 wt2] es2 [Hg Hb]. simpl in Hg. subst g2.
    by refine (followed_build _ _ _ _ _ _ _ _ Hf Hsch Hq _ Hb).
Qed.

Lemma quiet_phase m k s :
  quiet trace_of m → (∀ s', emits trace_of k s' command_followed) →
  emits trace_of (m ;;? k) s command_followed.
Proof.
  intros Hm Hk. apply emits_quiet_bind; [done|intros [e|] s' _|by intros; apply followed_none].
  - apply emits_ret. by apply followed_none.
  - apply Hk.
Qed.

Lemma buildCmd_emits args s :
  emits trace_of (buildCmd (LB := list_builder) (W := rw) args) s command_followed.
Proof.
  unfold buildCmd.
  apply quiet_phase; [unfold check_output; solve_quiet|intros s1].
  apply quiet_phase; [apply set_context_quiet|intros s2].
  apply quiet_phase; [unfold set_args, on_options; solve_quiet|intros s3].
  apply quiet_phase; [apply quiet_bind; [apply quiet_gets|intros ?; apply add_references_quiet]|intros s4].
  apply quiet_phase; [apply quiet_bind; [apply quiet_gets|intros ?; apply add_references_quiet]|intros s5].
  apply quiet_phase; [apply set_network_quiet|intros s6].
  apply quiet_phase; [apply set_dockerfile_quiet|intros s7].
  unfold with_farm. apply emits_quiet_bind; [apply getFarm_quiet|intros [f|e] s8 _|by intros; apply followed_none].
  - apply emits_quiet_bind; [apply quiet_assign|intros [] s9 Hs|by intros; apply followed_none].
    destruct s8 as [g wt]. injection Hs as <-. by apply schedule_and_build_emits.
  - apply emits_ret. by apply followed_none.
Qed.

(** The recorded run of a run of the command. *)
Lemma recorded_run args g w :
  let '(r, (g', w')) := buildCmd (LB := list_builder) args (g, w) in
  ∃ es, buildCmd (LB := list_builder) (W := rw) args (g, (w, [])) = (r, (g', (w', es))) ∧
    command_followed r (g', (w', es)) es.
Proof.
  pose proof (buildCmd_sim args (g, (w, [])) : buildCmd args (g, w) = _) as ->.
  destruct (buildCmd_emits args (g, (w, []))) as (es & Hes & Hf). unfold trace_of in Hes.
  destruct (buildCmd (W := rw) args (g, (w, []))) as [r [g' [w' t]]]. cbn in *. subst t.
  by exists es.
Qed.

(** C1: The build command follows the abstract specification.  When it returns
    without error, whatever the interleavings, the calls it has made to
    builders and to the list are these: questions to the builders; then for
    every platform of a schedule which has all platforms asked for one build,
    made by the builder assigned, which returned a report (the build is for
    the platform the builder is the [owner] of, another one of its platforms
    when it is shared); then the destination, a directory which is made or
    the list of that name, which is created if it was not found; then one pull
    of every image reported, from a builder which built it; the removal of
    these images if asked for; and then the list, with exactly what was
    pulled. *)
Theorem build_follows_protocol args g w g' w'
    (Hok : buildCmd (LB := list_builder) args (g, w) = (Ret None, (g', w'))) :
  let o := buildOpts g' in
  ∃ f schedule (queries calls changed : list ev) lb mlist refs,
    buildCmd (LB := list_builder) (W := rw) args (g, (w, [])) =
      (Ret None, (g', (w', queries ++ calls ++ changed))) ∧
    globalFarm g' = Some f ∧ Forall (in_stage Asking) queries ∧
    (∀ p, p ∈ platforms o → is_Some (platformBuilders schedule !! p)) ∧
    build_protocol (LH := LH) (BI := BI) f (output o) schedule (dockerfiles o) (bo_options o)
      lb mlist refs calls ∧
    publishing (LH := LH) lb mlist refs changed.
Proof.
  pose proof (recorded_run args g w) as Hrun. rewrite Hok in Hrun.
  destruct Hrun as (es & Hrun & queries & builds & opening & pulls & removed & changed & -> & Hq & Hst).
  destruct Hst as (f & schedule & Hf & Hps & _ & Hst); [by right|].
  destruct Hst as (lb & images & Hd & Hall & _ & _ & _ & _ & Hst); [by right|].
  destruct Hst as (mlist & Ho & refs & Hfe & Hc & Hp); [by right| |by right|].
  { by right. }
  exists f, schedule, queries, (builds ++ opening ++ pulls ++ removed), changed, lb, mlist, refs.
  split_and!; [|done..|by econstructor|by apply Hp].
  rewrite Hrun. do 3 f_equal. by rewrite <-!(assoc_L (++)).
Qed.

(** C4: What a list consists of changes only when everything is there.
    However the build command ends, in success, with any error or in a panic
    of any goroutine, the calls it has made come in stages: questions to the
    builders; builds; the destination, where the list of that name is created,
    with no members, if it was not found; pulls; removals of images; and the
    calls which change the list.  No stage is entered, and the command does
    not succeed, before the ones before it are complete: nothing is opened
    before for every platform of the schedule its builder has returned the
    report of a build for it, or for another of its platforms when it has
    several; nothing is pulled before the destination is there; nothing is
    removed before every image has been pulled; and neither the directory nor
    the members of the list change before the removals asked for are made.  A
    build which fails in between can leave a list which it created empty. *)
Theorem contents_change_last args g w :
  let '(r, (g', w')) := buildCmd (LB := list_builder) args (g, w) in
  let o := buildOpts g' in
  ∃ queries builds opening pulls removed changed : list ev,
    buildCmd (LB := list_builder) (W := rw) args (g, (w, [])) =
      (r, (g', (w', queries ++ builds ++ opening ++ pulls ++ removed ++ changed))) ∧
    Forall (in_stage Asking) queries ∧
    (builds ++ opening ++ pulls ++ removed ++ changed ≠ [] ∨ r = Ret None →
     ∃ f schedule, globalFarm g' = Some f ∧
       (∀ p, p ∈ platforms o → is_Some (platformBuilders schedule !! p)) ∧
       build_stages (LH := LH) (BI := BI) f (output o) schedule (dockerfiles o) (bo_options o)
         (r = Ret None) builds opening pulls removed changed).
Proof.
  pose proof (recorded_run args g w) as Hrun.
  destruct (buildCmd args (g, w)) as [r [g' w']].
  destruct Hrun as (es & Hrun & queries & builds & opening & pulls & removed & changed & -> & Hq & Hst).
  by exists queries, builds, opening, pulls, removed, changed.
Qed.
End Command.

(** ** Witnesses *)

#[local] Existing Instances Build.static_libimage.

(** One list, with an old instance. *)
#[export] Instance static_list_host : ListHost string (list string) () () () log := {
  lh_ReadCustomConfig := mret (∅, None);
  DefaultPolicyContext := mret None;
  TempDir := mret (inl "/tmp/1");
  RemoveAll _ w := w;
  TempFileIn dir _ := λ w,
    (Ret (inl (path_of dir (str_app "archive-" (pretty (length w))))), w ++ [("temporary", [])]);
  MkdirAll _ := mret None;
  WriteFile _ _ := mret None;
  ParseImageName name := inl name;
  manifests_Create := [];
  manifests_Add l ref := mret (inl (l ++ [ref]));
  Serialize _ _ := inl "{}";
  copy_Image _ _ _ _ := mret None;
  lh_NewImageEngine _ := mret (inl tt);
  lh_Shutdown _ w := w;
  RuntimeFromStoreOptions _ := mret (inl tt);
  runtime_Shutdown _ w := w;
  LookupManifestList _ name := mret
    (if decide (name = "registry.tld/new") then inr (ErrNew "image not known") else inl tt);
  CreateManifestList _ _ := mret (inl tt);
  list_Inspect _ := mret (inl ["old"]);
  list_RemoveInstance _ _ := mret None;
  list_Add _ ref := mret (inl ref)
}.

(** [buildfarm --local build -t name --platform linux/amd64,linux/arm64 /src]
    once the storage has been looked up; the local system builds for
    linux/arm64, the remote one for linux/amd64. *)
Definition both_start (name : string) : globals static () :=
  mk_globals (Some (mk_StoreOptions "/graph" "/run" "overlay" [])) None
    (mk_settings false true EmptyString []) (Some tt)
    (mk_buildOptions name ["/src/Containerfile"] (bo_options default_buildOpts)
       ["linux/amd64"; "linux/arm64"] (cli default_buildOpts))
    default_pruneOptions InfoLevel [] [].

Definition both_built : outcome (option error) * (globals static () * log) :=
  buildCmd (LB := list_builder) ["/src"] (both_start "registry.tld/name:tag", []).

Definition both_recorded (name : string) : list (event static () string () ()) :=
  (buildCmd (LB := list_builder) (W := log * list (event static () string () ())) ["/src"]
     (both_start name, ([], []))).2.2.2.

(** What the events are, and of which builder or reference. *)
Definition event_line (e : event static () string () ()) : string * list string :=
  match e with
  | EvQuery b => ("query", [s_name b])
  | EvBuild b _ o _ => ("build", s_name b :: (Arch <$> Platforms o))
  | EvPullToFile b _ _ => ("pull to file", [s_name b])
  | EvPullToLocal b _ _ => ("pull to storage", [s_name b])
  | EvRemoveImage b _ _ => ("remove image", [s_name b])
  | EvPruneImages b => ("prune", [s_name b])
  | EvDone b => ("done", [s_name b])
  | EvMkdirAll dir _ => ("make directory", [dir])
  | EvLookupList _ name _ => ("look up", [name])
  | EvCreateList _ name _ => ("create", [name])
  | EvCopy output refs _ _ => ("copy", output :: refs)
  | EvRemoveInstance _ d _ => ("drop", [d])
  | EvAdd _ ref _ => ("add", [ref])
  end.

Lemma both_built_ok :
  buildCmd (LB := list_builder) ["/src"] (both_start "registry.tld/name:tag", []) =
  (Ret None, (both_built.2.1, both_built.2.2)).
Proof. vm_compute. reflexivity. Qed.

Lemma build_follows_protocol_witness :
  event_line <$> both_recorded "registry.tld/name:tag" =
    [("query", ["east"]); ("query", ["(local)"]); ("build", ["east"; "amd64"]);
     ("build", ["(local)"; "arm64"]); ("look up", ["registry.tld/name:tag"]);
     ("pull to storage", ["east"]);
     ("pull to storage", ["(local)"]); ("remove image", ["east"]);
     ("drop", ["old"]); ("add", ["east"]); ("add", ["(local)"])] ∧
  event_line <$> both_recorded "dir:out" =
    [("query", ["east"]); ("query", ["(local)"]); ("build", ["east"; "amd64"]);
     ("build", ["(local)"; "arm64"]); ("make directory", ["out"]); ("pull to file", ["east"]);
     ("pull to file", ["(local)"]); ("remove image", ["east"]);
     ("remove image", ["(local)"]);
     ("copy", ["dir:out"; "/tmp/1/archive-2"; "/tmp/1/archive-3"])] ∧
  take 3 (drop 4 (event_line <$> both_recorded "registry.tld/new")) =
    [("look up", ["registry.tld/new"]); ("create", ["registry.tld/new"]);
     ("pull to storage", ["east"])] ∧
  (∃ f schedule (queries calls changed : list (event static () string () ())) lb mlist refs,
    both_recorded "registry.tld/name:tag" = queries ++ calls ++ changed ∧
    globalFarm both_built.2.1 = Some f ∧
    build_protocol f (output (buildOpts both_built.2.1)) schedule
      (dockerfiles (buildOpts both_built.2.1)) (bo_options (buildOpts both_built.2.1)) lb mlist refs
      calls ∧
    publishing lb mlist refs changed).
Proof.
  do 3 (split; [vm_compute; reflexivity|]).
  destruct (build_follows_protocol ["/src"] (both_start "registry.tld/name:tag") []
    both_built.2.1 both_built.2.2 both_built_ok)
    as (f & schedule & queries & calls & changed & lb & mlist & refs & Hrun & Hf & _ & _ & Hp & Hpub).
  exists f, schedule, queries, calls, changed, lb, mlist, refs.
  split_and!; [|exact Hf|exact Hp|exact Hpub].
  exact (f_equal (λ x, x.2.2.2) Hrun).
Defined.
